(** * claude-orchestrator: task store, token comparator and pipeline controller

    A shallow embedding of the orchestration core of the repository:

    - [src/core/queue.ts]: the task store (id generation, lifecycle
      operations, selection of the next pending task);
    - [src/utils/css-extractor.ts], [src/utils/design-comparator.ts]: colour
      normalisation, spacing parsing and the design-token comparator;
    - [src/core/agent.ts]: the mailboxes, the agent runners, the review and
      verification steps and [processTaskV2].

    Conventions of the model.

    - JavaScript strings are Rocq strings; case mapping and white space are
      the ASCII ones.
    - JavaScript numbers are IEEE-754 doubles: the comparator computes on
      Rocq's primitive floats.  Counters, array lengths and task numbers are
      integers ([nat], [N], [Z]), exact below 2^53.
    - An ISO time stamp written by [new Date().toISOString()] is kept as the
      epoch milliseconds that [new Date(s).getTime()] reads back.
    - A [Record<string,string>] is the list of its entries in iteration
      order; keys are unique in a well-formed map.
    - The project directory is a record of files; a file is either parsed
      content or unreadable, in which case [readJSON] throws.  Asynchronous
      functions are computations in an exception-and-state monad over the
      project directory; [await] is sequencing.
    - The external agent process and the token extraction are members of an
      environment record the pipeline is parameterised by. *)

From Stdlib Require Import List String Ascii ZArith NArith Lia Bool.
From Stdlib Require Import Permutation FinFun DecimalString DecimalN HexadecimalString.
From Stdlib Require Import Floats.
Import ListNotations.

Local Open Scope string_scope.
Local Open Scope list_scope.

(* ====================================================================== *)
(** * JavaScript strings *)
(* ====================================================================== *)

Module JS.

Definition isDigit (c : ascii) : bool :=
  let n := nat_of_ascii c in (48 <=? n)%nat && (n <=? 57)%nat.

Definition isUpper (c : ascii) : bool :=
  let n := nat_of_ascii c in (65 <=? n)%nat && (n <=? 90)%nat.

Definition isLower (c : ascii) : bool :=
  let n := nat_of_ascii c in (97 <=? n)%nat && (n <=? 122)%nat.

(** [\s] and the characters removed by [trim], on ASCII: TAB, LF, VT, FF, CR
    and space. *)
Definition isSpace (c : ascii) : bool :=
  let n := nat_of_ascii c in ((9 <=? n)%nat && (n <=? 13)%nat) || (n =? 32)%nat.

(** Line terminators, which [.] does not match. *)
Definition isLineTerminator (c : ascii) : bool :=
  let n := nat_of_ascii c in (n =? 10)%nat || (n =? 13)%nat.

Definition lowerChar (c : ascii) : ascii :=
  if isUpper c then ascii_of_nat (nat_of_ascii c + 32) else c.

Definition upperChar (c : ascii) : ascii :=
  if isLower c then ascii_of_nat (nat_of_ascii c - 32) else c.

Fixpoint mapString (f : ascii -> ascii) (s : string) : string :=
  match s with
  | EmptyString => EmptyString
  | String c s' => String (f c) (mapString f s')
  end.

Definition toLowerCase : string -> string := mapString lowerChar.
Definition toUpperCase : string -> string := mapString upperChar.

Fixpoint dropWhile (p : ascii -> bool) (s : string) : string :=
  match s with
  | EmptyString => EmptyString
  | String c s' => if p c then dropWhile p s' else s
  end.

Fixpoint takeWhile (p : ascii -> bool) (s : string) : string :=
  match s with
  | EmptyString => EmptyString
  | String c s' => if p c then String c (takeWhile p s') else EmptyString
  end.

Fixpoint rev_string_onto (s acc : string) : string :=
  match s with
  | EmptyString => acc
  | String c s' => rev_string_onto s' (String c acc)
  end.

Definition reverse (s : string) : string := rev_string_onto s EmptyString.

Definition trimStart (s : string) : string := dropWhile isSpace s.
Definition trimEnd (s : string) : string := reverse (dropWhile isSpace (reverse s)).
Definition trim (s : string) : string := trimEnd (trimStart s).

Fixpoint startsWith (s p : string) {struct p} : bool :=
  match p with
  | EmptyString => true
  | String c p' =>
      match s with
      | EmptyString => false
      | String d s' => Ascii.eqb c d && startsWith s' p'
      end
  end.

Definition endsWith (s p : string) : bool := startsWith (reverse s) (reverse p).

(** [s.includes(p)] *)
Fixpoint includes (s p : string) : bool :=
  startsWith s p ||
  match s with
  | EmptyString => false
  | String _ s' => includes s' p
  end.

Fixpoint drop (n : nat) (s : string) : string :=
  match n, s with
  | O, _ => s
  | S n', String _ s' => drop n' s'
  | S _, EmptyString => EmptyString
  end.

Fixpoint repeatChar (c : ascii) (n : nat) : string :=
  match n with
  | O => EmptyString
  | S n' => String c (repeatChar c n')
  end.

(** [s.padStart(width, c)] for a one-character pad string. *)
Definition padStart (width : nat) (c : ascii) (s : string) : string :=
  repeatChar c (width - String.length s) ++ s.

(** [s.replace(/[-_]/g, '')] *)
Fixpoint removeSeparators (s : string) : string :=
  match s with
  | EmptyString => EmptyString
  | String c s' =>
      if (Ascii.eqb c "-" || Ascii.eqb c "_")%char
      then removeSeparators s'
      else String c (removeSeparators s')
  end.

(** [s.split('-').pop()]: the part after the last hyphen (the whole string
    when there is none). *)
Definition lastSegment (s : string) : string :=
  reverse (takeWhile (fun c => negb (Ascii.eqb c "-")) (reverse s)).

(** [String(n)] for a non-negative integer below 10^21. *)
Definition decimal (n : N) : string :=
  DecimalString.NilEmpty.string_of_uint (N.to_uint n).

(** [n.toString(16)] for a non-negative integer. *)
Definition hexadecimal (n : N) : string :=
  HexadecimalString.NilEmpty.string_of_uint (N.to_hex_uint n).

(** A non-empty run of decimal digits, as matched by [\d+] against a whole
    string. *)
Definition digitsOnly (s : string) : option Decimal.uint :=
  match s with
  | EmptyString => None
  | _ => DecimalString.NilEmpty.uint_of_string s
  end.

(** [parseInt(s, 10)] on a string of decimal digits. *)
Definition parseInt (s : string) : N :=
  match DecimalString.NilEmpty.uint_of_string s with
  | Some d => N.of_uint d
  | None => 0
  end.

End JS.

(* ====================================================================== *)
(** * Data model ([src/types.ts]) *)
(* ====================================================================== *)

(** ** Design tokens and discrepancies *)

(** A [Record<string,string>]: its entries in iteration order. *)
Definition TokenMap : Type := list (string * string).

Record FontToken : Type := {
  family : string;
  size : string;
  weight : string;
  lineHeight : option string;
  letterSpacing : option string
}.

Record DesignTokens : Type := {
  colors : TokenMap;
  fonts : list (string * FontToken);
  spacing : TokenMap;
  borderRadius : option TokenMap;
  shadows : option TokenMap
}.

(** [CSSTokens] of [css-extractor.ts] has the fields of [DesignTokens]. *)
Definition CSSTokens : Type := DesignTokens.

Inductive DiscrepancyType : Type :=
  | TColor | TFont | TSpacing | TBorderRadius | TShadow | TOther.

Inductive Severity : Type := error | warning | info.

(** The [difference] text of a discrepancy, kept as the template that
    produced it and the number it prints:
    ['Token not found in CSS'], [`Color difference: ${d.toFixed(1)}%`],
    ['Values differ (unparseable)'], [`Spacing difference: ${d}px`]. *)
Inductive Difference : Type :=
  | TokenNotFound
  | ColorDifference (percent : float)
  | ValuesDifferUnparseable
  | SpacingDifference (px : float).

Record DiscrepancyItem : Type := {
  discrepancyType : DiscrepancyType;
  tokenName : string;
  expectedValue : string;
  actualValue : string;
  difference : Difference;
  severity : Severity
}.

(** ** Tasks and the queue *)

Inductive TaskStatus : Type :=
  | pending | in_progress | awaiting_review | completed_ | rejected.

Inductive TaskPriority : Type := high | medium | low.

(** The optional target descriptors ([webReference], [androidTarget], ...)
    are carried along unchanged by every operation and are left out. *)
Record Task : Type := {
  id : string;
  taskType : string;
  priority : TaskPriority;
  title : string;
  description : string;
  acceptanceCriteria : option (list string);
  status : TaskStatus;
  createdAt : Z;
  updatedAt : option Z;
  rejectionReason : option string
}.

(** [Omit<Task, 'id' | 'status' | 'createdAt'>] *)
Record TaskDraft : Type := {
  draftType : string;
  draftPriority : TaskPriority;
  draftTitle : string;
  draftDescription : string;
  draftAcceptanceCriteria : option (list string);
  draftUpdatedAt : option Z;
  draftRejectionReason : option string
}.

(** [Partial<Omit<Task, 'id' | 'createdAt'>>]: [None] is an absent key;
    for [rejectionReason], [Some None] is the key present with value
    [undefined]. *)
Record TaskUpdates : Type := {
  newType : option string;
  newPriority : option TaskPriority;
  newTitle : option string;
  newDescription : option string;
  newStatus : option TaskStatus;
  newRejectionReason : option (option string)
}.

Record TaskQueue : Type := {
  version : string;
  tasks : list Task;
  completed : list Task;
  current : option string;
  lastUpdated : Z
}.

(** ** Status file *)

Record AgentState : Type := {
  agentStatus : string;
  lastActivity : Z
}.

Record DeveloperState : Type := {
  developerStatus : string;
  currentTask : option string;
  developerLastActivity : Z
}.

Record CycleStats : Type := {
  cycleNumber : nat;
  cycleCompleted : nat;
  cycleFailed : nat;
  cycleRemaining : nat
}.

(** The [orchestrator] entry is not touched by the pipeline and left out. *)
Record StatusFile : Type := {
  planner : AgentState;
  designer : AgentState;
  techLead : AgentState;
  developer : DeveloperState;
  lastCycle : option CycleStats
}.

(** ** Messages *)

Inductive BuildStatus : Type :=
  | build_success | build_failed | build_not_applicable | build_not_verified.

Record BuildResult : Type := {
  buildStatus : BuildStatus;
  command : string;
  errors : Z;
  buildOutput : option string
}.

(** The envelope shared by all messages ([BaseMessage] without its tag). *)
Record Envelope : Type := {
  taskId : string;
  platform : string;
  timestamp : string
}.

Record PlanningDocument : Type := {
  productVision : string;
  requirements : list string
}.

Record DesignSpecification : Type := {
  designTokens : DesignTokens;
  figmaReference : option string
}.

Record TaskAssignment : Type := {
  assignmentTitle : string;
  instructions : string;
  filesToCreate : option (list string);
  architecture : string;
  apiEndpoints : option (list string)
}.

(** [buildResult] is read through [?.] by the review prompt: a report
    written by the developer agent may lack it. *)
Record CompletionReport : Type := {
  summary : string;
  filesCreated : list string;
  filesModified : list string;
  buildResult : option BuildResult
}.

(** A message is tagged by its [type]. *)
Inductive Payload : Type :=
  | planning_document (doc : PlanningDocument)
  | design_specification (spec : DesignSpecification)
  | task_assignment (a : TaskAssignment)
  | completion_report (r : CompletionReport)
  | other_message (type : string).

Record Message : Type := {
  envelope : Envelope;
  payload : Payload
}.

Record MessageFile : Type := {
  messages : list Message;
  lastRead : option Z
}.

Inductive MessageTarget : Type :=
  | toDesigner | toTechLead | toDeveloper | toTeamLead.

(** [DesignVerificationMessage]; the Markdown [summary] is presentation and
    left out. *)
Record DesignVerificationMessage : Type := {
  verificationTaskId : string;
  verificationPlatform : string;
  verificationTimestamp : Z;
  reportVerified : bool;
  reportMatchPercentage : float;
  reportTotalChecked : nat;
  reportDiscrepancies : list DiscrepancyItem
}.

(** ** Configuration and agent results *)

Record OrchestratorConfig : Type := {
  projectName : string;
  projectPath : string;
  configPlatform : string;
  scope : string;
  goals : list string;
  maxTasks : nat;
  continuous : bool
}.

Record AgentResult : Type := {
  success : bool;
  output : string;
  agentError : option string;
  exitCode : Z
}.

(** An entry appended to the development log by [logger.logTaskCompletion]. *)
Record LogEntry : Type := {
  logTaskId : string;
  logSummary : string;
  logBuildStatus : string;
  logReviewStatus : string;
  logRejectionReason : option string
}.

(* ====================================================================== *)
(** * The project directory and the monad of asynchronous functions *)
(* ====================================================================== *)

Record JSError : Type := {
  errorName : string;
  errorMessage : string
}.

(** [String(error)] *)
Definition errorToString (e : JSError) : string :=
  errorName e ++ ": " ++ errorMessage e.

(** A JSON file: its parsed content, or the error [readJSON] throws on it
    (missing file, invalid JSON). *)
Inductive File (T : Type) : Type :=
  | Content (c : T)
  | Unreadable (e : JSError).
Arguments Content {T} c.
Arguments Unreadable {T} e.

Record World : Type := {
  queueFile : File TaskQueue;
  statusFile : File StatusFile;
  toDesignerFile : File MessageFile;
  toTechLeadFile : File MessageFile;
  toDeveloperFile : File MessageFile;
  toTeamLeadFile : File MessageFile;
  designTokensFile : File DesignTokens;
  verificationReportFile : File DesignVerificationMessage;
  developmentLog : list LogEntry;
  (** the clock read by [new Date()] *)
  now : Z;
  (** ids of the [runClaudeAgent] calls made so far, oldest first *)
  invocations : list string;
  (** contents written to the queue file by [saveQueue], oldest first *)
  queueWrites : list TaskQueue
}.

Definition set_queueFile (f : File TaskQueue) (w : World) : World :=
  {| queueFile := f; statusFile := statusFile w;
     toDesignerFile := toDesignerFile w; toTechLeadFile := toTechLeadFile w;
     toDeveloperFile := toDeveloperFile w; toTeamLeadFile := toTeamLeadFile w;
     designTokensFile := designTokensFile w;
     verificationReportFile := verificationReportFile w;
     developmentLog := developmentLog w; now := now w;
     invocations := invocations w; queueWrites := queueWrites w |}.

Definition set_statusFile (f : File StatusFile) (w : World) : World :=
  {| queueFile := queueFile w; statusFile := f;
     toDesignerFile := toDesignerFile w; toTechLeadFile := toTechLeadFile w;
     toDeveloperFile := toDeveloperFile w; toTeamLeadFile := toTeamLeadFile w;
     designTokensFile := designTokensFile w;
     verificationReportFile := verificationReportFile w;
     developmentLog := developmentLog w; now := now w;
     invocations := invocations w; queueWrites := queueWrites w |}.

Definition messageFile (target : MessageTarget) (w : World) : File MessageFile :=
  match target with
  | toDesigner => toDesignerFile w
  | toTechLead => toTechLeadFile w
  | toDeveloper => toDeveloperFile w
  | toTeamLead => toTeamLeadFile w
  end.

Definition set_messageFile (target : MessageTarget) (f : File MessageFile)
    (w : World) : World :=
  {| queueFile := queueFile w; statusFile := statusFile w;
     toDesignerFile := match target with toDesigner => f | _ => toDesignerFile w end;
     toTechLeadFile := match target with toTechLead => f | _ => toTechLeadFile w end;
     toDeveloperFile := match target with toDeveloper => f | _ => toDeveloperFile w end;
     toTeamLeadFile := match target with toTeamLead => f | _ => toTeamLeadFile w end;
     designTokensFile := designTokensFile w;
     verificationReportFile := verificationReportFile w;
     developmentLog := developmentLog w; now := now w;
     invocations := invocations w; queueWrites := queueWrites w |}.

Definition set_designTokensFile (f : File DesignTokens) (w : World) : World :=
  {| queueFile := queueFile w; statusFile := statusFile w;
     toDesignerFile := toDesignerFile w; toTechLeadFile := toTechLeadFile w;
     toDeveloperFile := toDeveloperFile w; toTeamLeadFile := toTeamLeadFile w;
     designTokensFile := f;
     verificationReportFile := verificationReportFile w;
     developmentLog := developmentLog w; now := now w;
     invocations := invocations w; queueWrites := queueWrites w |}.

Definition set_verificationReportFile (f : File DesignVerificationMessage)
    (w : World) : World :=
  {| queueFile := queueFile w; statusFile := statusFile w;
     toDesignerFile := toDesignerFile w; toTechLeadFile := toTechLeadFile w;
     toDeveloperFile := toDeveloperFile w; toTeamLeadFile := toTeamLeadFile w;
     designTokensFile := designTokensFile w;
     verificationReportFile := f;
     developmentLog := developmentLog w; now := now w;
     invocations := invocations w; queueWrites := queueWrites w |}.

Definition set_developmentLog (l : list LogEntry) (w : World) : World :=
  {| queueFile := queueFile w; statusFile := statusFile w;
     toDesignerFile := toDesignerFile w; toTechLeadFile := toTechLeadFile w;
     toDeveloperFile := toDeveloperFile w; toTeamLeadFile := toTeamLeadFile w;
     designTokensFile := designTokensFile w;
     verificationReportFile := verificationReportFile w;
     developmentLog := l; now := now w;
     invocations := invocations w; queueWrites := queueWrites w |}.

Definition set_trace (calls : list string) (writes : list TaskQueue)
    (w : World) : World :=
  {| queueFile := queueFile w; statusFile := statusFile w;
     toDesignerFile := toDesignerFile w; toTechLeadFile := toTechLeadFile w;
     toDeveloperFile := toDeveloperFile w; toTeamLeadFile := toTeamLeadFile w;
     designTokensFile := designTokensFile w;
     verificationReportFile := verificationReportFile w;
     developmentLog := developmentLog w; now := now w;
     invocations := calls; queueWrites := writes |}.

(** The result of running an asynchronous function: a returned value or a
    thrown error (a rejected promise). *)
Inductive Outcome (A : Type) : Type :=
  | Return (a : A)
  | Throw (e : JSError).
Arguments Return {A} a.
Arguments Throw {A} e.

Definition M (A : Type) : Type := World -> Outcome A * World.

Definition ret {A} (a : A) : M A := fun w => (Return a, w).

Definition throw {A} (e : JSError) : M A := fun w => (Throw e, w).

(** A call of a synchronous function that may throw. *)
Definition evaluate {A} (o : Outcome A) : M A := fun w => (o, w).

Definition bind {A B} (c : M A) (k : A -> M B) : M B :=
  fun w =>
    match c w with
    | (Return a, w') => k a w'
    | (Throw e, w') => (Throw e, w')
    end.

Notation "x <- c ;; k" := (bind c (fun x => k))
  (at level 61, c at next level, right associativity).
Notation "c ;;; k" := (bind c (fun _ => k))
  (at level 61, right associativity).

(** [try { body } catch (error) { handler }] *)
Definition tryCatch {A} (body : M A) (handler : JSError -> M A) : M A :=
  fun w =>
    match body w with
    | (Return a, w') => (Return a, w')
    | (Throw e, w') => handler e w'
    end.

(** [try { body } finally { cleanup }]: the cleanup runs after the body
    however it ended; an error thrown by the cleanup replaces the body's
    outcome. *)
Definition tryFinally {A} (body : M A) (cleanup : M unit) : M A :=
  fun w =>
    match body w with
    | (o, w') =>
        match cleanup w' with
        | (Return _, w'') => (o, w'')
        | (Throw e, w'') => (Throw e, w'')
        end
    end.

(** [new Date().toISOString()] *)
Definition currentTime : M Z := fun w => (Return (now w), w).

(** [readJSON] of a file of the project directory *)
Definition readJSON {T} (file : World -> File T) : M T :=
  fun w =>
    match file w with
    | Content c => (Return c, w)
    | Unreadable e => (Throw e, w)
    end.

(** [writeJSON] of a file of the project directory *)
Definition writeJSON {T} (set : File T -> World -> World) (data : T) : M unit :=
  fun w => (Return tt, set (Content data) w).

(* ====================================================================== *)
(** * Task store ([src/core/queue.ts]) *)
(* ====================================================================== *)

(** ** Loading and saving *)

Definition loadQueue : M TaskQueue := readJSON queueFile.

Definition withLastUpdated (t : Z) (queue : TaskQueue) : TaskQueue :=
  {| version := version queue; tasks := tasks queue;
     completed := completed queue; current := current queue;
     lastUpdated := t |}.

Definition recordQueueWrite (queue : TaskQueue) : M unit :=
  fun w => (Return tt, set_trace (invocations w) (queueWrites w ++ [queue]) w).

Definition saveQueue (queue : TaskQueue) : M unit :=
  t <- currentTime ;;
  let queue := withLastUpdated t queue in
  writeJSON set_queueFile queue ;;;
  recordQueueWrite queue.

(** ** Task id generation *)

(** [id.match(/^task-(\d+)$/)]: the captured digits. *)
Definition matchTaskId (id : string) : option string :=
  if JS.startsWith id "task-"
  then
    let digits := JS.drop 5 id in
    match JS.digitsOnly digits with
    | Some _ => Some digits
    | None => None
    end
  else None.

(** The loop of [generateTaskId]: the highest task number seen so far. *)
Definition scanTaskIds (allTasks : list Task) (maxNum : N) : N :=
  fold_left
    (fun maxNum task =>
       match matchTaskId (id task) with
       | Some digits =>
           let num := JS.parseInt digits in
           if (maxNum <? num)%N then num else maxNum
       | None => maxNum
       end)
    allTasks maxNum.

Definition formatTaskId (newNum : N) : string :=
  "task-" ++ JS.padStart 3 "0" (JS.decimal newNum).

Definition generateTaskId (queue : TaskQueue) : string :=
  let allTasks := tasks queue ++ completed queue in
  let maxNum := scanTaskIds allTasks 0%N in
  let newNum := (maxNum + 1)%N in
  formatTaskId newNum.

(** ** Task operations *)

Definition withTasks (l : list Task) (queue : TaskQueue) : TaskQueue :=
  {| version := version queue; tasks := l;
     completed := completed queue; current := current queue;
     lastUpdated := lastUpdated queue |}.

Definition newTaskOf (draft : TaskDraft) (newId : string) (t : Z) : Task :=
  {| id := newId;
     taskType := draftType draft;
     priority := draftPriority draft;
     title := draftTitle draft;
     description := draftDescription draft;
     acceptanceCriteria := draftAcceptanceCriteria draft;
     status := pending;
     createdAt := t;
     updatedAt := draftUpdatedAt draft;
     rejectionReason := draftRejectionReason draft |}.

Definition addTask (task : TaskDraft) : M Task :=
  queue <- loadQueue ;;
  t <- currentTime ;;
  let newTask := newTaskOf task (generateTaskId queue) t in
  let queue := withTasks (tasks queue ++ [newTask]) queue in
  saveQueue queue ;;;
  ret newTask.

(** The loop of [addTasks]: each id is generated against the queue extended
    with the tasks created so far. *)
Fixpoint createTasks (queue : TaskQueue) (t : Z) (drafts : list TaskDraft)
    (createdTasks : list Task) : list Task :=
  match drafts with
  | [] => createdTasks
  | task :: rest =>
      let newTask :=
        newTaskOf task
          (generateTaskId (withTasks (tasks queue ++ createdTasks) queue)) t in
      createTasks queue t rest (createdTasks ++ [newTask])
  end.

Definition addTasks (drafts : list TaskDraft) : M (list Task) :=
  queue <- loadQueue ;;
  t <- currentTime ;;
  let createdTasks := createTasks queue t drafts [] in
  let queue := withTasks (tasks queue ++ createdTasks) queue in
  saveQueue queue ;;;
  ret createdTasks.

Definition hasId (taskId : string) (t : Task) : bool := String.eqb (id t) taskId.

Definition getTask (taskId : string) : M (option Task) :=
  queue <- loadQueue ;;
  ret (match find (hasId taskId) (tasks queue) with
       | Some t => Some t
       | None => find (hasId taskId) (completed queue)
       end).

(** [array.findIndex(p)]: [None] stands for [-1]. *)
Fixpoint findIndex {A} (p : A -> bool) (l : list A) : option nat :=
  match l with
  | [] => None
  | x :: l' =>
      if p x then Some O
      else match findIndex p l' with
           | Some i => Some (S i)
           | None => None
           end
  end.

(** [array[i] = x] for an index within the array. *)
Fixpoint setAt {A} (i : nat) (x : A) (l : list A) : list A :=
  match l, i with
  | [], _ => []
  | _ :: l', O => x :: l'
  | y :: l', S i' => y :: setAt i' x l'
  end.

(** [array.splice(i, 1)] *)
Fixpoint removeAt {A} (i : nat) (l : list A) : list A :=
  match l, i with
  | [], _ => []
  | _ :: l', O => l'
  | y :: l', S i' => y :: removeAt i' l'
  end.

Definition orElse {A} (o : option A) (d : A) : A :=
  match o with Some a => a | None => d end.

(** [{ ...task, ...updates, updatedAt: now }] *)
Definition applyUpdates (task : Task) (updates : TaskUpdates) (t : Z) : Task :=
  {| id := id task;
     taskType := orElse (newType updates) (taskType task);
     priority := orElse (newPriority updates) (priority task);
     title := orElse (newTitle updates) (title task);
     description := orElse (newDescription updates) (description task);
     acceptanceCriteria := acceptanceCriteria task;
     status := orElse (newStatus updates) (status task);
     createdAt := createdAt task;
     updatedAt := Some t;
     rejectionReason := orElse (newRejectionReason updates) (rejectionReason task) |}.

Definition taskNotFound (taskId : string) : JSError :=
  {| errorName := "Error"; errorMessage := "Task not found: " ++ taskId |}.

Definition updateTask (taskId : string) (updates : TaskUpdates) : M Task :=
  queue <- loadQueue ;;
  match findIndex (hasId taskId) (tasks queue) with
  | None => throw (taskNotFound taskId)
  | Some taskIndex =>
      t <- currentTime ;;
      match nth_error (tasks queue) taskIndex with
      | None => throw (taskNotFound taskId)
      | Some old =>
          let updated := applyUpdates old updates t in
          let queue := withTasks (setAt taskIndex updated (tasks queue)) queue in
          saveQueue queue ;;;
          ret updated
      end
  end.

Definition noUpdates : TaskUpdates :=
  {| newType := None; newPriority := None; newTitle := None;
     newDescription := None; newStatus := None; newRejectionReason := None |}.

Definition statusUpdate (s : TaskStatus) : TaskUpdates :=
  {| newType := None; newPriority := None; newTitle := None;
     newDescription := None; newStatus := Some s; newRejectionReason := None |}.

Definition updateTaskStatus (taskId : string) (s : TaskStatus) : M Task :=
  updateTask taskId (statusUpdate s).

(** ** Task lifecycle *)

Definition withCurrent (c : option string) (queue : TaskQueue) : TaskQueue :=
  {| version := version queue; tasks := tasks queue;
     completed := completed queue; current := c;
     lastUpdated := lastUpdated queue |}.

Definition setCurrentTask (taskId : option string) : M unit :=
  queue <- loadQueue ;;
  let queue := withCurrent taskId queue in
  saveQueue queue.

Definition asCompleted (task : Task) (t : Z) : Task :=
  {| id := id task;
     taskType := taskType task;
     priority := priority task;
     title := title task;
     description := description task;
     acceptanceCriteria := acceptanceCriteria task;
     status := completed_;
     createdAt := createdAt task;
     updatedAt := Some t;
     rejectionReason := rejectionReason task |}.

Definition isCurrent (taskId : string) (queue : TaskQueue) : bool :=
  match current queue with
  | Some c => String.eqb c taskId
  | None => false
  end.

Definition completeTask (taskId : string) : M unit :=
  queue <- loadQueue ;;
  match findIndex (hasId taskId) (tasks queue) with
  | None => throw (taskNotFound taskId)
  | Some taskIndex =>
      t <- currentTime ;;
      match nth_error (tasks queue) taskIndex with
      | None => throw (taskNotFound taskId)
      | Some old =>
          let task := asCompleted old t in
          let queue :=
            {| version := version queue;
               tasks := removeAt taskIndex (tasks queue);
               completed := completed queue ++ [task];
               current := current queue;
               lastUpdated := lastUpdated queue |} in
          let queue :=
            if isCurrent taskId queue then withCurrent None queue else queue in
          saveQueue queue
      end
  end.

Definition rejectTask (taskId : string) (reason : string) : M unit :=
  updateTask taskId
    {| newType := None; newPriority := None; newTitle := None;
       newDescription := None; newStatus := Some rejected;
       newRejectionReason := Some (Some reason) |} ;;;
  ret tt.

Definition resetTask (taskId : string) : M unit :=
  updateTask taskId
    {| newType := None; newPriority := None; newTitle := None;
       newDescription := None; newStatus := Some pending;
       newRejectionReason := Some None |} ;;;
  ret tt.

(** ** Task queries *)

Definition statusEqb (a b : TaskStatus) : bool :=
  match a, b with
  | pending, pending | in_progress, in_progress
  | awaiting_review, awaiting_review
  | completed_, completed_ | rejected, rejected => true
  | _, _ => false
  end.

Definition hasStatus (s : TaskStatus) (t : Task) : bool := statusEqb (status t) s.

Definition getPendingTasks : M (list Task) :=
  queue <- loadQueue ;;
  ret (filter (hasStatus pending) (tasks queue)).

Definition getInProgressTasks : M (list Task) :=
  queue <- loadQueue ;;
  ret (filter (hasStatus in_progress) (tasks queue)).

Definition getAwaitingReviewTasks : M (list Task) :=
  queue <- loadQueue ;;
  ret (filter (hasStatus awaiting_review) (tasks queue)).

Definition priorityOrder (p : TaskPriority) : Z :=
  match p with
  | high => 3
  | medium => 2
  | low => 1
  end.

(** The comparison function passed to [pending.sort]. *)
Definition byPriorityThenCreation (a b : Task) : Z :=
  let priorityDiff := (priorityOrder (priority b) - priorityOrder (priority a))%Z in
  if negb (priorityDiff =? 0)%Z then priorityDiff
  else (createdAt a - createdAt b)%Z.

(** [Array.prototype.sort] is a stable sort: elements that compare equal
    keep their order.  Insertion sort with that property. *)
Fixpoint insertSorted {A} (cmp : A -> A -> Z) (x : A) (sorted : list A) : list A :=
  match sorted with
  | [] => [x]
  | y :: rest =>
      if (cmp y x <? 0)%Z then y :: insertSorted cmp x rest
      else x :: sorted
  end.

Fixpoint sort {A} (cmp : A -> A -> Z) (l : list A) : list A :=
  match l with
  | [] => []
  | x :: rest => insertSorted cmp x (sort cmp rest)
  end.

Definition getNextPendingTask : M (option Task) :=
  pendingTasks <- getPendingTasks ;;
  match pendingTasks with
  | [] => ret None
  | _ => ret (hd_error (sort byPriorityThenCreation pendingTasks))
  end.

Definition hasTasksToProcess : M bool :=
  pendingTasks <- getPendingTasks ;;
  inProgress <- getInProgressTasks ;;
  ret (negb (List.length pendingTasks =? 0)%nat
       || negb (List.length inProgress =? 0)%nat).

(* ====================================================================== *)
(** * JavaScript numbers *)
(* ====================================================================== *)

Module Num.

Local Open Scope Z_scope.

(** The double nearest to an integer. *)
Definition ofZ (z : Z) : float := SF2Prim (binary_normalize prec emax z 0 false).

Definition ofNat (n : nat) : float := ofZ (Z.of_nat n).

(** The double nearest to the rational [p / q], for [0 <= p] and [0 < q]
    (ties to even): the quotient is computed to more than 55 bits, the rest
    of the division is kept as a sticky bit, and the result is rounded
    once. *)
Definition ofRatio (p q : Z) : float :=
  if p =? 0 then 0%float
  else
    let s := 56 + Z.log2 q - Z.log2 p in
    let num := if 0 <=? s then p * 2 ^ s else p in
    let den := if 0 <=? s then q else q * 2 ^ (- s) in
    let m := num / den in
    let sticky := if num mod den =? 0 then 0 else 1 in
    SF2Prim (binary_normalize prec emax (2 * m + sticky) (- s - 1) false).

(** [parseFloat(s)] on a string made of digits and dots (the strings the
    source passes, after matching them against [[\d.]+]): the longest prefix
    [digits], [digits.digits], [digits.] or [.digits]; [NaN] when there is
    no digit. *)
Definition parseFloat (s : string) : float :=
  let intPart := JS.takeWhile JS.isDigit s in
  let rest := JS.drop (String.length intPart) s in
  let fracPart :=
    match rest with
    | String "."%char r => JS.takeWhile JS.isDigit r
    | _ => EmptyString
    end in
  match (intPart ++ fracPart)%string with
  | EmptyString => nan
  | digits =>
      ofRatio (Z.of_N (JS.parseInt digits))
              (10 ^ Z.of_nat (String.length fracPart))
  end.

(** [Math.round(x)]: the nearest integer, ties towards +infinity. *)
Definition round (x : float) : float :=
  match Prim2SF x with
  | S754_finite s m e =>
      if 0 <=? e then x
      else
        let z := cond_Zopp s (Z.pos m) in
        let n := Z.shiftr (z + 2 ^ (- e - 1)) (- e) in
        if n =? 0 then (if s then (-0)%float else 0%float) else ofZ n
  | _ => x
  end.

(** [x || d] for numbers: zero and [NaN] are falsy. *)
Definition orDefault (x d : float) : float :=
  if (PrimFloat.eqb x 0 || PrimFloat.is_nan x)%bool then d else x.

Definition hexDigitValue (c : ascii) : option Z :=
  let n := Z.of_nat (nat_of_ascii c) in
  if (48 <=? n) && (n <=? 57) then Some (n - 48)
  else if (65 <=? n) && (n <=? 70) then Some (n - 55)
  else if (97 <=? n) && (n <=? 102) then Some (n - 87)
  else None.

Fixpoint hexPrefixValue (s : string) (acc : Z) : Z :=
  match s with
  | EmptyString => acc
  | String c s' =>
      match hexDigitValue c with
      | Some d => hexPrefixValue s' (16 * acc + d)
      | None => acc
      end
  end.

Definition startsWithHexDigit (s : string) : bool :=
  match s with
  | String c _ => match hexDigitValue c with Some _ => true | None => false end
  | EmptyString => false
  end.

(** [parseInt(s, 16)]: leading white space, a sign and a [0x] prefix are
    skipped, then the longest run of hexadecimal digits is read; [None] is
    [NaN]. *)
Definition parseIntHex (s : string) : option Z :=
  let s := JS.trimStart s in
  let '(negative, s) :=
    match s with
    | String "-"%char r => (true, r)
    | String "+"%char r => (false, r)
    | _ => (false, s)
    end in
  let s :=
    match s with
    | String "0"%char (String "x"%char r) => r
    | String "0"%char (String "X"%char r) => r
    | _ => s
    end in
  if startsWithHexDigit s
  then Some (if negative then - hexPrefixValue s 0 else hexPrefixValue s 0)
  else None.

End Num.

(* ====================================================================== *)
(** * Colour and spacing utilities ([src/utils/css-extractor.ts]) *)
(* ====================================================================== *)

Definition skipSpaces (s : string) : string := JS.dropWhile JS.isSpace s.

Definition expectChar (c : ascii) (s : string) : option string :=
  match s with
  | String c' r => if Ascii.eqb c c' then Some r else None
  | EmptyString => None
  end.

(** [(\d+)]: a non-empty run of digits and what follows it. *)
Definition takeDigits (s : string) : option (string * string) :=
  match JS.takeWhile JS.isDigit s with
  | EmptyString => None
  | digits => Some (digits, JS.drop (String.length digits) s)
  end.

Definition isNumberChar (c : ascii) : bool := JS.isDigit c || Ascii.eqb c ".".

(** [[\d.]+] *)
Definition takeNumberChars (s : string) : option string :=
  match JS.takeWhile isNumberChar s with
  | EmptyString => None
  | n => Some (JS.drop (String.length n) s)
  end.

Definition andThen {A B} (o : option A) (k : A -> option B) : option B :=
  match o with
  | Some a => k a
  | None => None
  end.

(** A match of
    [/rgba?\s*\(\s*(\d+)\s*,\s*(\d+)\s*,\s*(\d+)(?:\s*,\s*[\d.]+)?\s*\)/]
    starting at the first character: the three captured groups.  Every
    greedy piece of the pattern is followed by a character it cannot itself
    match, so the match is found without backtracking. *)
Definition matchRgbAt (s : string) : option (string * string * string) :=
  if JS.startsWith s "rgb" then
    let s := JS.drop 3 s in
    let s := match s with String "a"%char r => r | _ => s end in
    andThen (expectChar "(" (skipSpaces s)) (fun s =>
    andThen (takeDigits (skipSpaces s)) (fun '(r, s) =>
    andThen (expectChar "," (skipSpaces s)) (fun s =>
    andThen (takeDigits (skipSpaces s)) (fun '(g, s) =>
    andThen (expectChar "," (skipSpaces s)) (fun s =>
    andThen (takeDigits (skipSpaces s)) (fun '(b, s) =>
    let s := skipSpaces s in
    let afterAlpha :=
      match s with
      | String ","%char r =>
          andThen (takeNumberChars (skipSpaces r)) (fun s => Some (skipSpaces s))
      | _ => Some s
      end in
    andThen afterAlpha (fun s =>
    andThen (expectChar ")" s) (fun _ => Some (r, g, b)))))))))
  else None.

(** [trimmed.match(...)]: the leftmost match. *)
Fixpoint matchRgb (s : string) : option (string * string * string) :=
  match matchRgbAt s with
  | Some m => Some m
  | None =>
      match s with
      | EmptyString => None
      | String _ s' => matchRgb s'
      end
  end.

(** [parseInt(digits).toString(16).padStart(2, '0')] *)
Definition channelHex (digits : string) : string :=
  JS.padStart 2 "0" (JS.hexadecimal (JS.parseInt digits)).

Definition normalizeColorValue (value : string) : string :=
  let trimmed := JS.trim value in
  if JS.startsWith trimmed "#" then
    match trimmed with
    | String _ (String r (String g (String b EmptyString))) =>
        JS.toUpperCase
          (String "#" (String r (String r (String g (String g
             (String b (String b EmptyString)))))))
    | _ => JS.toUpperCase trimmed
    end
  else
    match matchRgb trimmed with
    | Some (r, g, b) =>
        JS.toUpperCase ("#" ++ channelHex r ++ channelHex g ++ channelHex b)
    | None => trimmed
    end.

(** [s.match(/^([\d.]+)unit$/)]: the captured number text. *)
Definition matchWithUnit (unit s : string) : option string :=
  if JS.endsWith s unit then
    let n := String.substring 0 (String.length s - String.length unit) s in
    match takeNumberChars n with
    | Some EmptyString => Some n
    | _ => None
    end
  else None.

Definition parseSpacingValue (value : string) : option float :=
  let trimmed := JS.toLowerCase (JS.trim value) in
  match matchWithUnit "px" trimmed with
  | Some n => Some (Num.parseFloat n)
  | None =>
  match matchWithUnit "rem" trimmed with
  | Some n => Some (Num.parseFloat n * 16)%float
  | None =>
  match matchWithUnit "em" trimmed with
  | Some n => Some (Num.parseFloat n * 16)%float
  | None =>
  match matchWithUnit "" trimmed with
  | Some _ => Some (Num.parseFloat trimmed)
  | None => None
  end end end end.

(* ====================================================================== *)
(** * Token comparator ([src/utils/design-comparator.ts]) *)
(* ====================================================================== *)

Record ComparisonResult : Type := {
  verified : bool;
  matchPercentage : float;
  totalChecked : nat;
  matchingCount : nat;
  mismatchedCount : nat;
  missingInCSSCount : nat;
  extraInCSSCount : nat;
  discrepancies : list DiscrepancyItem
}.

(** An absent option is [None].  An option given as [undefined] behaves in
    every use below as the number [NaN] does. *)
Record ComparisonOptions : Type := {
  colorTolerance : option float;
  spacingTolerance : option float;
  checkExtraTokens : option bool;
  minMatchPercentage : option float
}.

Definition DEFAULT_OPTIONS : ComparisonOptions :=
  {| colorTolerance := Some 5%float;
     spacingTolerance := Some 2%float;
     checkExtraTokens := Some false;
     minMatchPercentage := Some 90%float |}.

Definition noOptions : ComparisonOptions :=
  {| colorTolerance := None; spacingTolerance := None;
     checkExtraTokens := None; minMatchPercentage := None |}.

Definition override {A} (a b : option A) : option A :=
  match b with
  | Some _ => b
  | None => a
  end.

(** [{ ...a, ...b }] *)
Definition mergeOptions (a b : ComparisonOptions) : ComparisonOptions :=
  {| colorTolerance := override (colorTolerance a) (colorTolerance b);
     spacingTolerance := override (spacingTolerance a) (spacingTolerance b);
     checkExtraTokens := override (checkExtraTokens a) (checkExtraTokens b);
     minMatchPercentage := override (minMatchPercentage a) (minMatchPercentage b) |}.

Record TokenComparisonResult : Type := {
  total : nat;
  matching : nat;
  mismatched : nat;
  missing : nat;
  tokenDiscrepancies : list DiscrepancyItem
}.

(** ** Helper functions *)

(** The property the map has of its own under that name. *)
Fixpoint property (name : string) (tokens : TokenMap) : option string :=
  match tokens with
  | [] => None
  | (key, value) :: rest =>
      if String.eqb key name then Some value else property name rest
  end.

(** The names of the properties that every object inherits from
    [Object.prototype]. *)
Definition inheritedNames : list string :=
  ["constructor"; "__defineGetter__"; "__defineSetter__"; "hasOwnProperty";
   "__lookupGetter__"; "__lookupSetter__"; "isPrototypeOf";
   "propertyIsEnumerable"; "toString"; "valueOf"; "__proto__"; "toLocaleString"].

Definition isInherited (name : string) : bool :=
  existsb (String.eqb name) inheritedNames.

(** What reading a property of a token map gives: the text of a property of
    its own, or the member of [Object.prototype] it inherits under that
    name (a function; for [__proto__], the prototype itself). *)
Inductive PropertyValue : Type :=
  | textValue (value : string)
  | inheritedValue (name : string).

(** [tokens[name]]: [None] is [undefined]. *)
Definition readProperty (name : string) (tokens : TokenMap) : option PropertyValue :=
  match property name tokens with
  | Some value => Some (textValue value)
  | None => if isInherited name then Some (inheritedValue name) else None
  end.

Definition normalizeName (name : string) : string :=
  JS.removeSeparators (JS.toLowerCase name).

(** The first entry, in iteration order, whose key satisfies [p]. *)
Definition firstEntry (p : string -> bool) (tokens : TokenMap) : option string :=
  match find (fun entry => p (fst entry)) tokens with
  | Some (_, value) => Some value
  | None => None
  end.

Definition findMatchingToken (name : string) (tokens : TokenMap)
    : option PropertyValue :=
  match readProperty name tokens with
  | Some value => Some value
  | None =>
      let normalized := normalizeName name in
      match firstEntry (fun key => String.eqb (normalizeName key) normalized) tokens with
      | Some value => Some (textValue value)
      | None =>
          let baseName := JS.toLowerCase (JS.lastSegment name) in
          match baseName with
          | EmptyString => None
          | _ =>
              option_map textValue
                (firstEntry (fun key => JS.endsWith (JS.toLowerCase key) baseName) tokens)
          end
      end
  end.

(** [!cssValue]: [undefined] and the empty string are falsy, a function or
    an object is not. *)
Definition truthy (cssValue : option PropertyValue) : option PropertyValue :=
  match cssValue with
  | Some (textValue EmptyString) => None
  | other => other
  end.

(** [value.trim()] on a value that is no string, in [normalizeColorValue]
    and in [parseSpacingValue]. *)
Definition trimIsNotAFunction : JSError :=
  {| errorName := "TypeError"; errorMessage := "value.trim is not a function" |}.

(** A [for] loop whose body may throw. *)
Fixpoint forEach {A B} (body : A -> B -> Outcome A) (l : list B) (a : A) : Outcome A :=
  match l with
  | [] => Return a
  | x :: rest =>
      match body a x with
      | Return a' => forEach body rest a'
      | Throw e => Throw e
      end
  end.

(** The statements after a call that may throw. *)
Definition whenReturned {A B} (o : Outcome A) (k : A -> Outcome B) : Outcome B :=
  match o with
  | Return a => k a
  | Throw e => Throw e
  end.

(** ** Colour comparison *)

(** [hex.replace('#', '')]: the first [#] is removed. *)
Fixpoint removeFirstHash (s : string) : string :=
  match s with
  | EmptyString => EmptyString
  | String c s' => if Ascii.eqb c "#" then s' else String c (removeFirstHash s')
  end.

Definition hexToRgb (hex : string) : option (Z * Z * Z) :=
  let cleaned := removeFirstHash hex in
  if negb (String.length cleaned =? 6)%nat then None
  else
    match Num.parseIntHex (String.substring 0 2 cleaned),
          Num.parseIntHex (String.substring 2 2 cleaned),
          Num.parseIntHex (String.substring 4 2 cleaned) with
    | Some r, Some g, Some b => Some (r, g, b)
    | _, _, _ => None
    end.

Definition calculateColorDifference (hex1 hex2 : string) : float :=
  match hexToRgb hex1, hexToRgb hex2 with
  | Some (r1, g1, b1), Some (r2, g2, b2) =>
      let rDiff := Z.abs (r1 - r2) in
      let gDiff := Z.abs (g1 - g2) in
      let bDiff := Z.abs (b1 - b2) in
      let maxDiff := PrimFloat.sqrt (Num.ofZ (255 * 255 * 3)) in
      let actualDiff :=
        PrimFloat.sqrt (Num.ofZ (rDiff * rDiff + gDiff * gDiff + bDiff * bDiff)) in
      ((actualDiff / maxDiff) * 100)%float
  | _, _ => 100%float
  end.

Definition emptyComparison (n : nat) : TokenComparisonResult :=
  {| total := n; matching := 0; mismatched := 0; missing := 0;
     tokenDiscrepancies := [] |}.

Definition countMatching (r : TokenComparisonResult) : TokenComparisonResult :=
  {| total := total r; matching := S (matching r); mismatched := mismatched r;
     missing := missing r; tokenDiscrepancies := tokenDiscrepancies r |}.

Definition countMismatched (d : DiscrepancyItem) (r : TokenComparisonResult)
    : TokenComparisonResult :=
  {| total := total r; matching := matching r; mismatched := S (mismatched r);
     missing := missing r; tokenDiscrepancies := tokenDiscrepancies r ++ [d] |}.

Definition countMissing (d : DiscrepancyItem) (r : TokenComparisonResult)
    : TokenComparisonResult :=
  {| total := total r; matching := matching r; mismatched := mismatched r;
     missing := S (missing r); tokenDiscrepancies := tokenDiscrepancies r ++ [d] |}.

Definition notFound (type : DiscrepancyType) (name designValue : string)
    : DiscrepancyItem :=
  {| discrepancyType := type; tokenName := name; expectedValue := designValue;
     actualValue := "NOT_FOUND"; difference := TokenNotFound;
     severity := warning |}.

(** The loop body of [compareColors] from [// Normalize and compare] on,
    for a value that is a text. *)
Definition colorFinding (name designValue cssValue : string) (tolerance : float)
    (r : TokenComparisonResult) : TokenComparisonResult :=
  let normalizedDesign := normalizeColorValue designValue in
  let normalizedCSS := normalizeColorValue cssValue in
  if String.eqb normalizedDesign normalizedCSS then countMatching r
  else
    let colorDiff := calculateColorDifference normalizedDesign normalizedCSS in
    if (colorDiff <=? tolerance)%float then countMatching r
    else
      countMismatched
        {| discrepancyType := TColor; tokenName := name;
           expectedValue := designValue; actualValue := cssValue;
           difference := ColorDifference colorDiff;
           severity := if (20 <? colorDiff)%float then error else warning |}
        r.

(** The body of the loop of [compareColors], for one design token.  On a
    value that is no text, [normalizeColorValue(cssValue)] throws. *)
Definition compareColor (cssColors : TokenMap) (tolerance : float)
    (r : TokenComparisonResult) (entry : string * string)
    : Outcome TokenComparisonResult :=
  let '(name, designValue) := entry in
  match truthy (findMatchingToken name cssColors) with
  | None => Return (countMissing (notFound TColor name designValue) r)
  | Some (textValue cssValue) =>
      Return (colorFinding name designValue cssValue tolerance r)
  | Some (inheritedValue _) => Throw trimIsNotAFunction
  end.

Definition compareColors (designColors cssColors : TokenMap) (tolerance : float)
    : Outcome TokenComparisonResult :=
  forEach (compareColor cssColors tolerance) designColors
    (emptyComparison (List.length designColors)).

(** ** Spacing comparison *)

(** The loop body of [compareSpacing] from the two calls of
    [parseSpacingValue] on, for a value that is a text. *)
Definition spacingFinding (type : DiscrepancyType) (name designValue cssValue : string)
    (tolerance : float) (r : TokenComparisonResult) : TokenComparisonResult :=
  match parseSpacingValue designValue, parseSpacingValue cssValue with
  | Some designPx, Some cssPx =>
      let diff := PrimFloat.abs (designPx - cssPx)%float in
      if (diff <=? tolerance)%float then countMatching r
      else
        countMismatched
          {| discrepancyType := type; tokenName := name;
             expectedValue := designValue; actualValue := cssValue;
             difference := SpacingDifference diff;
             severity := if (8 <? diff)%float then error else warning |}
          r
  | _, _ =>
      if String.eqb designValue cssValue then countMatching r
      else
        countMismatched
          {| discrepancyType := type; tokenName := name;
             expectedValue := designValue; actualValue := cssValue;
             difference := ValuesDifferUnparseable;
             severity := warning |}
          r
  end.

(** The body of the loop of [compareSpacing], for one design token.  On a
    value that is no text, [parseSpacingValue(cssValue)] throws. *)
Definition compareSpace (cssSpacing : TokenMap) (tolerance : float)
    (type : DiscrepancyType) (r : TokenComparisonResult)
    (entry : string * string) : Outcome TokenComparisonResult :=
  let '(name, designValue) := entry in
  match truthy (findMatchingToken name cssSpacing) with
  | None => Return (countMissing (notFound type name designValue) r)
  | Some (textValue cssValue) =>
      Return (spacingFinding type name designValue cssValue tolerance r)
  | Some (inheritedValue _) => Throw trimIsNotAFunction
  end.

Definition compareSpacing (designSpacing cssSpacing : TokenMap) (tolerance : float)
    (type : DiscrepancyType) : Outcome TokenComparisonResult :=
  forEach (compareSpace cssSpacing tolerance type) designSpacing
    (emptyComparison (List.length designSpacing)).

(** ** Main comparison function *)

(** [opts.x!] of a numeric option after merging with the defaults. *)
Definition numberOption (o : option float) : float := orElse o nan.

(** [compareDesignTokens] from [// Calculate match percentage] on, for the
    sums over the three results. *)
Definition aggregate (opts : ComparisonOptions)
    (colorResult spacingResult radiusResult : TokenComparisonResult)
    : ComparisonResult :=
  let discrepancies :=
    tokenDiscrepancies colorResult ++ tokenDiscrepancies spacingResult
      ++ tokenDiscrepancies radiusResult in
  let totalChecked := (total colorResult + total spacingResult + total radiusResult)%nat in
  let matchingCount :=
    (matching colorResult + matching spacingResult + matching radiusResult)%nat in
  let mismatchedCount :=
    (mismatched colorResult + mismatched spacingResult + mismatched radiusResult)%nat in
  let missingInCSSCount :=
    (missing colorResult + missing spacingResult + missing radiusResult)%nat in
  let matchPercentage :=
    if (0 <? totalChecked)%nat
    then Num.round ((Num.ofNat matchingCount / Num.ofNat totalChecked) * 100)%float
    else 100%float in
  let verified :=
    (Num.orDefault (numberOption (minMatchPercentage opts)) 90 <=? matchPercentage)%float in
  {| verified := verified;
     matchPercentage := matchPercentage;
     totalChecked := totalChecked;
     matchingCount := matchingCount;
     mismatchedCount := mismatchedCount;
     missingInCSSCount := missingInCSSCount;
     extraInCSSCount := 0;
     discrepancies := discrepancies |}.

Definition compareDesignTokens (designTokens : DesignTokens) (cssTokens : CSSTokens)
    (options : ComparisonOptions) : Outcome ComparisonResult :=
  let opts := mergeOptions DEFAULT_OPTIONS options in
  whenReturned
    (compareColors (colors designTokens) (colors cssTokens)
       (numberOption (colorTolerance opts)))
    (fun colorResult =>
  whenReturned
    (compareSpacing (spacing designTokens) (spacing cssTokens)
       (numberOption (spacingTolerance opts)) TSpacing)
    (fun spacingResult =>
  whenReturned
    (match borderRadius designTokens with
     | Some designRadius =>
         compareSpacing designRadius (orElse (borderRadius cssTokens) [])
           (numberOption (spacingTolerance opts)) TBorderRadius
     | None => Return (emptyComparison 0)
     end)
    (fun radiusResult =>
  Return (aggregate opts colorResult spacingResult radiusResult)))).

Definition createVerificationMessage (forTask : string) (forPlatform : string)
    (result : ComparisonResult) : M DesignVerificationMessage :=
  t <- currentTime ;;
  ret {| verificationTaskId := forTask;
         verificationPlatform := forPlatform;
         verificationTimestamp := t;
         reportVerified := verified result;
         reportMatchPercentage := matchPercentage result;
         reportTotalChecked := totalChecked result;
         reportDiscrepancies := discrepancies result |}.

(* ====================================================================== *)
(** * Pipeline controller ([src/core/agent.ts]) *)
(* ====================================================================== *)

(** ** External collaborators *)

(** A prompt, kept as the builder that produces its text and the values the
    builder is given. *)
Inductive Prompt : Type :=
  | buildPlanningPrompt (task : Task) (config : OrchestratorConfig)
  | buildDesignPrompt (task : Task) (planningDoc : Envelope * PlanningDocument)
      (config : OrchestratorConfig)
  | buildTechLeadPrompt (task : Task) (planningDoc : Envelope * PlanningDocument)
      (designSpec : Envelope * DesignSpecification) (config : OrchestratorConfig)
  | buildDeveloperPrompt (task : Task) (instruction : Envelope * TaskAssignment)
      (config : OrchestratorConfig)
  | buildReviewPrompt (task : Task) (report : Envelope * CompletionReport)
      (config : OrchestratorConfig).

Record SpawnOptions : Type := {
  timeout : Z;
  skipPermissions : bool
}.

(** The collaborators of the pipeline.  [claudeAgent] is the external
    assistant process run in the project directory: it returns its result
    and leaves the directory in some state (it writes its mailbox, and may
    write anything else).  [extractTokens] is [extractCSSTokens]: it scans
    the implementation's style files and may throw. *)
Record Env : Type := {
  claudeAgent : string -> Prompt -> SpawnOptions -> World -> AgentResult * World;
  extractTokens : World -> Outcome CSSTokens
}.

(** [runClaudeAgent] never rejects: every failure is reported in the result.
    The call is recorded in [invocations]. *)
Definition runClaudeAgent (env : Env) (id : string) (prompt : Prompt)
    (options : SpawnOptions) : M AgentResult :=
  fun w =>
    let '(result, w') := claudeAgent env id prompt options w in
    (Return result, set_trace (invocations w ++ [id]) (queueWrites w) w').

Definition extractCSSTokens (env : Env) : M CSSTokens :=
  fun w => (extractTokens env w, w).

Local Open Scope Z_scope.

Definition PLANNER_TIMEOUT : Z := 5 * 60 * 1000.
Definition DESIGNER_TIMEOUT : Z := 5 * 60 * 1000.
Definition TECH_LEAD_TIMEOUT : Z := 5 * 60 * 1000.
Definition DEVELOPER_TIMEOUT : Z := 15 * 60 * 1000.
Definition REVIEW_TIMEOUT : Z := 3 * 60 * 1000.

Local Close Scope Z_scope.

(** ** Status file ([src/core/project.ts]) *)

Inductive AgentRole : Type :=
  | RolePlanner | RoleDesigner | RoleTechLead | RoleDeveloper | RoleTeamLead.

Definition loadStatus : M StatusFile := readJSON statusFile.

Definition saveStatus (s : StatusFile) : M unit := writeJSON set_statusFile s.

Definition updateAgentStatus (agent : AgentRole) (newStatus : string)
    (task : option string) : M unit :=
  s <- loadStatus ;;
  t <- currentTime ;;
  let entry := {| agentStatus := newStatus; lastActivity := t |} in
  let s :=
    match agent with
    | RolePlanner =>
        {| planner := entry; designer := designer s; techLead := techLead s;
           developer := developer s; lastCycle := lastCycle s |}
    | RoleDesigner =>
        {| planner := planner s; designer := entry; techLead := techLead s;
           developer := developer s; lastCycle := lastCycle s |}
    | RoleTechLead | RoleTeamLead =>
        {| planner := planner s; designer := designer s; techLead := entry;
           developer := developer s; lastCycle := lastCycle s |}
    | RoleDeveloper =>
        {| planner := planner s; designer := designer s; techLead := techLead s;
           developer :=
             {| developerStatus := newStatus;
                currentTask :=
                  match task with
                  | Some c => Some c
                  | None => currentTask (developer s)
                  end;
                developerLastActivity := t |};
           lastCycle := lastCycle s |}
    end in
  saveStatus s.

(** [logger.logTaskCompletion]: an entry is appended to the development
    log. *)
Definition logTaskCompletion (entry : LogEntry) : M unit :=
  fun w => (Return tt, set_developmentLog (developmentLog w ++ [entry]) w).

(** ** Message file operations *)

Definition clearMessages (target : MessageTarget) : M unit :=
  t <- currentTime ;;
  let file := {| messages := []; lastRead := Some t |} in
  writeJSON (set_messageFile target) file.

Definition readMessages (target : MessageTarget) : M MessageFile :=
  readJSON (messageFile target).

(** [messages.find((m) => m.type === kind && m.taskId === task.id)], with
    the message read at its type. *)
Fixpoint findMessage {X} (ofKind : Payload -> option X) (forTask : string)
    (l : list Message) : option (Envelope * X) :=
  match l with
  | [] => None
  | m :: rest =>
      match ofKind (payload m) with
      | Some x =>
          if String.eqb (taskId (envelope m)) forTask then Some (envelope m, x)
          else findMessage ofKind forTask rest
      | None => findMessage ofKind forTask rest
      end
  end.

Definition asPlanningDocument (p : Payload) : option PlanningDocument :=
  match p with planning_document d => Some d | _ => None end.

Definition asDesignSpecification (p : Payload) : option DesignSpecification :=
  match p with design_specification d => Some d | _ => None end.

Definition asTaskAssignment (p : Payload) : option TaskAssignment :=
  match p with task_assignment a => Some a | _ => None end.

Definition asCompletionReport (p : Payload) : option CompletionReport :=
  match p with completion_report r => Some r | _ => None end.

(** ** Agent execution *)

Definition runPlanner (env : Env) (task : Task) (config : OrchestratorConfig)
    (skip : bool) : M AgentResult :=
  updateAgentStatus RolePlanner "planning" None ;;;
  clearMessages toDesigner ;;;
  let prompt := buildPlanningPrompt task config in
  result <- runClaudeAgent env "planner" prompt
              {| timeout := PLANNER_TIMEOUT; skipPermissions := skip |} ;;
  updateAgentStatus RolePlanner "idle" None ;;;
  ret result.

Definition runDesigner (env : Env) (task : Task)
    (planningDoc : Envelope * PlanningDocument) (config : OrchestratorConfig)
    (skip : bool) : M AgentResult :=
  updateAgentStatus RoleDesigner "designing" None ;;;
  clearMessages toTechLead ;;;
  let prompt := buildDesignPrompt task planningDoc config in
  result <- runClaudeAgent env "designer" prompt
              {| timeout := DESIGNER_TIMEOUT; skipPermissions := skip |} ;;
  updateAgentStatus RoleDesigner "idle" None ;;;
  ret result.

Definition runTechLead (env : Env) (task : Task)
    (planningDoc : Envelope * PlanningDocument)
    (designSpec : Envelope * DesignSpecification) (config : OrchestratorConfig)
    (skip : bool) : M AgentResult :=
  updateAgentStatus RoleTechLead "assigning" None ;;;
  clearMessages toDeveloper ;;;
  let prompt := buildTechLeadPrompt task planningDoc designSpec config in
  result <- runClaudeAgent env "tech-lead" prompt
              {| timeout := TECH_LEAD_TIMEOUT; skipPermissions := skip |} ;;
  updateAgentStatus RoleTechLead "idle" None ;;;
  ret result.

Definition runDeveloper (env : Env) (task : Task) (config : OrchestratorConfig)
    (skip : bool) : M AgentResult :=
  msgs <- readMessages toDeveloper ;;
  match findMessage asTaskAssignment (id task) (messages msgs) with
  | None =>
      ret {| success := false; output := "";
             agentError := Some "No instructions found from Team Lead";
             exitCode := (-1)%Z |}
  | Some instruction =>
      updateAgentStatus RoleDeveloper "implementing" (Some (id task)) ;;;
      clearMessages toTeamLead ;;;
      let prompt := buildDeveloperPrompt task instruction config in
      result <- runClaudeAgent env "developer" prompt
                  {| timeout := DEVELOPER_TIMEOUT; skipPermissions := skip |} ;;
      updateAgentStatus RoleDeveloper "idle" None ;;;
      ret result
  end.

Record ReviewResult : Type := {
  approved : bool;
  reason : option string
}.

(** [\s*(.+)] after the marker: the white space is taken greedily and given
    back one character at a time until a character other than a line
    terminator follows; the capture runs to the end of the line. *)
Fixpoint captureReason (rest : string) : option string :=
  match rest with
  | EmptyString => None
  | String c r =>
      let hereOnwards :=
        if JS.isLineTerminator c then None
        else Some (JS.takeWhile (fun c => negb (JS.isLineTerminator c)) rest) in
      if JS.isSpace c then
        match captureReason r with
        | Some m => Some m
        | None => hereOnwards
        end
      else hereOnwards
  end.

(** [output.match(/REJECT:\s*(.+)/i)]: the group captured by the leftmost
    match. *)
Fixpoint matchReject (s : string) : option string :=
  let here :=
    if String.eqb (JS.toLowerCase (String.substring 0 7 s)) "reject:"
    then captureReason (JS.drop 7 s)
    else None in
  match here with
  | Some m => Some m
  | None =>
      match s with
      | EmptyString => None
      | String _ s' => matchReject s'
      end
  end.

(** [report.buildResult.status] on a report without [buildResult] *)
Definition noBuildResult : JSError :=
  {| errorName := "TypeError";
     errorMessage := "Cannot read properties of undefined (reading 'status')" |}.

Definition isFailed (s : BuildStatus) : bool :=
  match s with build_failed => true | _ => false end.

Definition runReview (env : Env) (task : Task) (config : OrchestratorConfig)
    (skip : bool) : M ReviewResult :=
  msgs <- readMessages toTeamLead ;;
  match findMessage asCompletionReport (id task) (messages msgs) with
  | None => ret {| approved := false; reason := Some "No completion report found" |}
  | Some report =>
      match buildResult (snd report) with
      | None => throw noBuildResult
      | Some build =>
          if isFailed (buildStatus build)
          then ret {| approved := false; reason := Some "Build verification failed" |}
          else
            updateAgentStatus RoleTeamLead "reviewing" None ;;;
            let prompt := buildReviewPrompt task report config in
            result <- runClaudeAgent env "review" prompt
                        {| timeout := REVIEW_TIMEOUT; skipPermissions := skip |} ;;
            updateAgentStatus RoleTeamLead "idle" None ;;;
            if JS.includes (JS.toLowerCase (output result)) "approve"
            then ret {| approved := true; reason := None |}
            else
              let why :=
                match matchReject (output result) with
                | Some m => JS.trim m
                | None => "Review failed"
                end in
              ret {| approved := false; reason := Some why |}
      end
  end.

(** ** Design verification *)

Record VerificationOutcome : Type := {
  outcomeVerified : bool;
  outcomeMatchPercentage : float;
  outcomeDiscrepancies : list DiscrepancyItem
}.

Definition runDesignVerification (env : Env) (task : Task)
    (designSpec : Envelope * DesignSpecification) (config : OrchestratorConfig)
    : M VerificationOutcome :=
  updateAgentStatus RoleDesigner "verifying" None ;;;
  tryFinally
    (tryCatch
       (cssTokens <- extractCSSTokens env ;;
        result <-
          evaluate
            (compareDesignTokens (designTokens (snd designSpec)) cssTokens
               {| colorTolerance := None; spacingTolerance := None;
                  checkExtraTokens := None; minMatchPercentage := Some 90%float |}) ;;
        verificationMessage <-
          createVerificationMessage (id task) (configPlatform config) result ;;
        writeJSON set_verificationReportFile verificationMessage ;;;
        ret {| outcomeVerified := verified result;
               outcomeMatchPercentage := matchPercentage result;
               outcomeDiscrepancies := discrepancies result |})
       (fun _ =>
          ret {| outcomeVerified := true;
                 outcomeMatchPercentage := 0%float;
                 outcomeDiscrepancies := [] |}))
    (updateAgentStatus RoleDesigner "idle" None).

(** ** The 4-agent pipeline *)

Inductive Phase : Type :=
  | phase_planner | phase_designer | phase_tech_lead
  | phase_developer | phase_review | phase_verification.

Record ProcessTaskResultV2 : Type := {
  taskSuccess : bool;
  taskError : option string;
  phase : option Phase;
  designVerification : option VerificationOutcome
}.

Definition failedAt (p : Phase) (why : string) : ProcessTaskResultV2 :=
  {| taskSuccess := false; taskError := Some why; phase := Some p;
     designVerification := None |}.

(** [e || d] for an optional string: [undefined] and [''] are falsy. *)
Definition orText (e : option string) (d : string) : string :=
  match e with
  | Some EmptyString | None => d
  | Some s => s
  end.

(** Phases 1 to 4 of [processTaskV2], up to the status update that precedes
    the review: either the result returned early, or the design
    specification the later phases use. *)
Definition phasesBeforeReview (env : Env) (task : Task)
    (config : OrchestratorConfig) (skip : bool)
    : M (ProcessTaskResultV2 + Envelope * DesignSpecification) :=
  setCurrentTask (Some (id task)) ;;;
  updateTaskStatus (id task) in_progress ;;;
  (* Phase 1: Planner *)
  plannerResult <- runPlanner env task config skip ;;
  if negb (success plannerResult) then
    ret (inl (failedAt phase_planner
                (orText (agentError plannerResult)
                        "Planner failed to create planning document")))
  else
  plannerMessages <- readMessages toDesigner ;;
  match findMessage asPlanningDocument (id task) (messages plannerMessages) with
  | None =>
      ret (inl (failedAt phase_planner "Planner did not create planning document"))
  | Some planningDoc =>
  (* Phase 2: Designer *)
  designerResult <- runDesigner env task planningDoc config skip ;;
  if negb (success designerResult) then
    ret (inl (failedAt phase_designer
                (orText (agentError designerResult)
                        "Designer failed to create design specification")))
  else
  designerMessages <- readMessages toTechLead ;;
  match findMessage asDesignSpecification (id task) (messages designerMessages) with
  | None =>
      ret (inl (failedAt phase_designer
                  "Designer did not create design specification"))
  | Some designSpec =>
  writeJSON set_designTokensFile (designTokens (snd designSpec)) ;;;
  (* Phase 3: Tech Lead *)
  techLeadResult <- runTechLead env task planningDoc designSpec config skip ;;
  if negb (success techLeadResult) then
    ret (inl (failedAt phase_tech_lead
                (orText (agentError techLeadResult)
                        "Tech Lead failed to create instructions")))
  else
  (* Phase 4: Developer *)
  developerResult <- runDeveloper env task config skip ;;
  if negb (success developerResult) then
    ret (inl (failedAt phase_developer
                (orText (agentError developerResult)
                        "Developer failed to implement task")))
  else
  updateTaskStatus (id task) awaiting_review ;;;
  ret (inr designSpec)
  end end.

Definition buildStatusText (s : BuildStatus) : string :=
  match s with
  | build_success => "success"
  | build_failed => "failed"
  | build_not_applicable => "not_applicable"
  | build_not_verified => "not_verified"
  end.

(** After an approved review: phase 6 and the completion of the task. *)
Definition verifyAndComplete (env : Env) (task : Task)
    (designSpec : Envelope * DesignSpecification) (config : OrchestratorConfig)
    : M ProcessTaskResultV2 :=
  verificationResult <- runDesignVerification env task designSpec config ;;
  completeTask (id task) ;;;
  msgs <- readMessages toTeamLead ;;
  match findMessage asCompletionReport (id task) (messages msgs) with
  | Some report =>
      match buildResult (snd report) with
      | None => throw noBuildResult
      | Some build =>
          logTaskCompletion
            {| logTaskId := id task; logSummary := summary (snd report);
               logBuildStatus := buildStatusText (buildStatus build);
               logReviewStatus := "approved"; logRejectionReason := None |}
      end
  | None => ret tt
  end ;;;
  ret {| taskSuccess := true; taskError := None; phase := None;
         designVerification := Some verificationResult |}.

(** Phases 5 and 6 of [processTaskV2]. *)
Definition reviewAndVerify (env : Env) (task : Task)
    (designSpec : Envelope * DesignSpecification) (config : OrchestratorConfig)
    (skip : bool) : M ProcessTaskResultV2 :=
  reviewResult <- runReview env task config skip ;;
  if negb (approved reviewResult) then
    rejectTask (id task) (orText (reason reviewResult) "Review failed") ;;;
    logTaskCompletion
      {| logTaskId := id task; logSummary := "Implementation rejected";
         logBuildStatus := "failed"; logReviewStatus := "rejected";
         logRejectionReason := reason reviewResult |} ;;;
    ret (failedAt phase_review (orText (reason reviewResult) "Review failed"))
  else verifyAndComplete env task designSpec config.

(** The [try] block of [processTaskV2]. *)
Definition pipelineV2 (env : Env) (task : Task) (config : OrchestratorConfig)
    (skip : bool) : M ProcessTaskResultV2 :=
  reached <- phasesBeforeReview env task config skip ;;
  match reached with
  | inl early => ret early
  | inr designSpec => reviewAndVerify env task designSpec config skip
  end.

(** The [finally] block of [processTaskV2]. *)
Definition cleanupV2 : M unit :=
  setCurrentTask None ;;;
  clearMessages toDesigner ;;;
  clearMessages toTechLead ;;;
  clearMessages toDeveloper ;;;
  clearMessages toTeamLead.

Definition processTaskV2 (env : Env) (task : Task) (config : OrchestratorConfig)
    (skip : bool) : M ProcessTaskResultV2 :=
  tryFinally
    (tryCatch (pipelineV2 env task config skip)
       (fun error =>
          ret {| taskSuccess := false; taskError := Some (errorToString error);
                 phase := None; designVerification := None |}))
    cleanupV2.

(* ====================================================================== *)
(** * Vocabulary of the properties *)
(* ====================================================================== *)

(** ** Task ids *)

(** The number of a task id of the form [task-<digits>]. *)
Definition taskNumber (taskId : string) : option N :=
  option_map JS.parseInt (matchTaskId taskId).

(** The highest task number among a list of ids, 0 when there is none. *)
Definition highestTaskNumber (ids : list string) : N :=
  fold_right
    (fun taskId m =>
       match taskNumber taskId with
       | Some n => N.max n m
       | None => m
       end)
    0%N ids.

(** The ids of both collections of a queue. *)
Definition allIds (queue : TaskQueue) : list string :=
  map id (tasks queue ++ completed queue).

(** A client of the store: one call of a mutating operation. *)
Inductive StoreOp : Type :=
  | OpAdd (draft : TaskDraft)
  | OpUpdate (taskId : string) (updates : TaskUpdates)
  | OpSetCurrent (taskId : option string)
  | OpComplete (taskId : string)
  | OpReject (taskId : string) (reason : string)
  | OpReset (taskId : string).

Definition runStoreOp (op : StoreOp) : M (option Task) :=
  match op with
  | OpAdd draft => t <- addTask draft ;; ret (Some t)
  | OpUpdate taskId updates => updateTask taskId updates ;;; ret None
  | OpSetCurrent taskId => setCurrentTask taskId ;;; ret None
  | OpComplete taskId => completeTask taskId ;;; ret None
  | OpReject taskId reason => rejectTask taskId reason ;;; ret None
  | OpReset taskId => resetTask taskId ;;; ret None
  end.

(** A sequence of calls, by a caller that goes on after a call that threw;
    the result is the list of the tasks created, in order. *)
Fixpoint runStoreOps (ops : list StoreOp) : M (list Task) :=
  match ops with
  | [] => ret []
  | op :: rest =>
      created <- tryCatch (runStoreOp op) (fun _ => ret None) ;;
      more <- runStoreOps rest ;;
      ret (match created with
           | Some t => t :: more
           | None => more
           end)
  end.

Definition isAdd (op : StoreOp) : bool :=
  match op with OpAdd _ => true | _ => false end.

Definition countAdds (ops : list StoreOp) : nat := List.length (filter isAdd ops).

(** The ids generated from a queue whose highest task number is [m]: the
    numbers [m + 1], [m + 2], ... *)
Definition consecutiveIds (m : N) (count : nat) : list string :=
  map (fun i => formatTaskId (m + 1 + N.of_nat i)) (seq 0 count).


(** ** Store states *)

(** The project directory after [saveQueue queue]. *)
Definition afterSave (queue : TaskQueue) (w : World) : World :=
  let saved := withLastUpdated (now w) queue in
  set_trace (invocations w) (queueWrites w ++ [saved])
    (set_queueFile (Content saved) w).

(** The queue written by [completeTask] for the task at index [i]. *)
Definition queueAfterComplete (taskId : string) (i : nat) (old : Task) (t : Z)
    (queue : TaskQueue) : TaskQueue :=
  let moved :=
    {| version := version queue;
       tasks := removeAt i (tasks queue);
       completed := completed queue ++ [asCompleted old t];
       current := current queue;
       lastUpdated := lastUpdated queue |} in
  if isCurrent taskId moved then withCurrent None moved else moved.


(** ** Numbers *)

(** Neither [NaN] nor an infinity. *)
Definition isFiniteNumber (x : float) : bool :=
  match Prim2SF x with
  | S754_zero _ | S754_finite _ _ _ => true
  | _ => false
  end.


(** ** Strings and colours *)

Fixpoint allChars (p : ascii -> bool) (s : string) : bool :=
  match s with
  | EmptyString => true
  | String c s' => p c && allChars p s'
  end.

Definition isHexDigit (c : ascii) : bool :=
  match Num.hexDigitValue c with Some _ => true | None => false end.

Definition isUpperHexDigit (c : ascii) : bool :=
  JS.isDigit c ||
  (let n := nat_of_ascii c in (65 <=? n)%nat && (n <=? 70)%nat).

(** [#] followed by exactly six digits among [0-9A-F]. *)
Definition isHexColor (s : string) : bool :=
  match s with
  | String "#"%char rest => (String.length rest =? 6)%nat && allChars isUpperHexDigit rest
  | _ => false
  end.

(** [#rgb] with each digit doubled; any other string unchanged. *)
Definition expandShorthand (s : string) : string :=
  match s with
  | String h (String r (String g (String b EmptyString))) =>
      String h (String r (String r (String g (String g (String b (String b EmptyString))))))
  | _ => s
  end.

(** Two upper-case hexadecimal digits (more for a number above 255). *)
Definition hexByte (n : N) : string :=
  JS.toUpperCase (JS.padStart 2 "0" (JS.hexadecimal n)).

Definition rgbText (r g b : N) : string :=
  "rgb(" ++ JS.decimal r ++ ", " ++ JS.decimal g ++ ", " ++ JS.decimal b ++ ")".

Definition rgbaText (r g b : N) (alpha : string) : string :=
  "rgba(" ++ JS.decimal r ++ ", " ++ JS.decimal g ++ ", " ++ JS.decimal b
    ++ ", " ++ alpha ++ ")".

(** White space, as [\s*] matches it. *)
Definition isBlank (s : string) : bool := allChars JS.isSpace s.

(** A non-empty run of digits, as [\d+] matches it. *)
Definition isDigits (s : string) : bool :=
  match s with
  | EmptyString => false
  | _ => allChars JS.isDigit s
  end.

(** A non-empty run of digits and dots, as [[\d.]+] matches it. *)
Definition isDigitsAndDots (s : string) : bool :=
  match s with
  | EmptyString => false
  | _ => allChars isNumberChar s
  end.

(** Any character but [r], with which the name of a call starts. *)
Definition notR (c : ascii) : bool := negb (Ascii.eqb c "r").

(** A call of [rgb] or [rgba] as it is written: the name, the three
    channels, the fourth argument if there is one (with the white space
    before its comma and after it), and the white space between the
    pieces. *)
Record RgbCall : Type := {
  namedRgba : bool;
  beforeParen : string;
  beforeRed : string;
  red : string;
  afterRed : string;
  beforeGreen : string;
  green : string;
  afterGreen : string;
  beforeBlue : string;
  blue : string;
  fourth : option (string * string * string);
  beforeClose : string
}.

Definition fourthText (argument : option (string * string * string)) : string :=
  match argument with
  | Some (beforeComma, afterComma, alpha) => beforeComma ++ "," ++ afterComma ++ alpha
  | None => ""
  end.

Definition callText (c : RgbCall) : string :=
  "rgb" ++ (if namedRgba c then "a" else "") ++ beforeParen c ++ "("
    ++ beforeRed c ++ red c ++ afterRed c ++ ","
    ++ beforeGreen c ++ green c ++ afterGreen c ++ ","
    ++ beforeBlue c ++ blue c ++ fourthText (fourth c) ++ beforeClose c ++ ")".

(** The call is one that the pattern
    [/rgba?\s*\(\s*(\d+)\s*,\s*(\d+)\s*,\s*(\d+)(?:\s*,\s*[\d.]+)?\s*\)/]
    describes: the channels are runs of digits, the fourth argument a run of
    digits and dots, and what lies between the pieces is white space. *)
Definition isCall (c : RgbCall) : bool :=
  isBlank (beforeParen c)
  && isBlank (beforeRed c) && isDigits (red c) && isBlank (afterRed c)
  && isBlank (beforeGreen c) && isDigits (green c) && isBlank (afterGreen c)
  && isBlank (beforeBlue c) && isDigits (blue c)
  && match fourth c with
     | Some (beforeComma, afterComma, alpha) =>
         isBlank beforeComma && isBlank afterComma && isDigitsAndDots alpha
     | None => true
     end
  && isBlank (beforeClose c).

(** [text] starts with the call [c]. *)
Definition startsWithCall (text : string) (c : RgbCall) : Prop :=
  isCall c = true /\ exists rest : string, text = (callText c ++ rest)%string.

(** No call of [rgb] or [rgba] is written anywhere in [text]. *)
Definition noCall (text : string) : Prop :=
  forall (before rest : string) (c : RgbCall),
    text = (before ++ rest)%string -> ~ startsWithCall rest c.

(** [c] is the first call written in [text]: it stands after [before], and
    no call starts at a character of [before]. *)
Definition firstCall (text : string) (c : RgbCall) : Prop :=
  isCall c = true /\
  exists before after : string,
    text = (before ++ callText c ++ after)%string /\
    forall (skipped later : string) (c' : RgbCall),
      before = (skipped ++ later)%string -> later <> "" ->
      ~ startsWithCall (later ++ callText c ++ after)%string c'.

(** [rgb(r, g, b)] for channels written in any way. *)
Definition rgbOf (r g b : string) : string :=
  "rgb(" ++ r ++ ", " ++ g ++ ", " ++ b ++ ")".

Fixpoint lastChar (s : string) : option ascii :=
  match s with
  | EmptyString => None
  | String c EmptyString => Some c
  | String _ s' => lastChar s'
  end.

(** ** Comparison results *)

(** ** Comparisons among the entries of the maps *)

(** The lookup of [name] does not reach the prototype: the name is a key of
    the map, or no object inherits a property of that name. *)
Definition readsOwn (name : string) (tokens : TokenMap) : bool :=
  match property name tokens with
  | Some _ => true
  | None => negb (isInherited name)
  end.

(** So it is for every name of the design map, looked up in the extracted
    map. *)
Definition ownLookups (design css : TokenMap) : bool :=
  forallb (fun entry => readsOwn (fst entry) css) design.

(** So it is for every token a comparison looks at. *)
Definition comparable (designTokens : DesignTokens) (cssTokens : CSSTokens) : bool :=
  ownLookups (colors designTokens) (colors cssTokens)
  && ownLookups (spacing designTokens) (spacing cssTokens)
  && ownLookups (orElse (borderRadius designTokens) [])
       (orElse (borderRadius cssTokens) []).

(** What [findMatchingToken] finds among the entries of the map: the value
    under the name, else the value of the first entry whose normalised key
    is the normalised name, else that of the first entry whose key ends
    with the last segment of the name. *)
Definition matchingEntry (name : string) (tokens : TokenMap) : option string :=
  match property name tokens with
  | Some value => Some value
  | None =>
      let normalized := normalizeName name in
      match firstEntry (fun key => String.eqb (normalizeName key) normalized) tokens with
      | Some value => Some value
      | None =>
          let baseName := JS.toLowerCase (JS.lastSegment name) in
          match baseName with
          | EmptyString => None
          | _ => firstEntry (fun key => JS.endsWith (JS.toLowerCase key) baseName) tokens
          end
      end
  end.

(** [!cssValue] for a text: [undefined] and the empty string are falsy. *)
Definition found (cssValue : option string) : option string :=
  match cssValue with
  | Some EmptyString => None
  | other => other
  end.

(** What the loop bodies, the loops and the comparison compute as long as
    the lookups stay among the entries ([colorCheck_returned] to
    [compareDesignTokens_comparable] below). *)
Definition colorCheck (cssColors : TokenMap) (tolerance : float)
    (r : TokenComparisonResult) (entry : string * string) : TokenComparisonResult :=
  let '(name, designValue) := entry in
  match found (matchingEntry name cssColors) with
  | None => countMissing (notFound TColor name designValue) r
  | Some cssValue => colorFinding name designValue cssValue tolerance r
  end.

Definition colorChecks (designColors cssColors : TokenMap) (tolerance : float)
    : TokenComparisonResult :=
  fold_left (colorCheck cssColors tolerance) designColors
    (emptyComparison (List.length designColors)).

Definition spaceCheck (cssSpacing : TokenMap) (tolerance : float)
    (type : DiscrepancyType) (r : TokenComparisonResult)
    (entry : string * string) : TokenComparisonResult :=
  let '(name, designValue) := entry in
  match found (matchingEntry name cssSpacing) with
  | None => countMissing (notFound type name designValue) r
  | Some cssValue => spacingFinding type name designValue cssValue tolerance r
  end.

Definition spacingChecks (designSpacing cssSpacing : TokenMap) (tolerance : float)
    (type : DiscrepancyType) : TokenComparisonResult :=
  fold_left (spaceCheck cssSpacing tolerance type) designSpacing
    (emptyComparison (List.length designSpacing)).

(** What the loop body reports for one design token alone. *)
Definition alone (step : TokenComparisonResult -> string * string -> TokenComparisonResult)
    (entry : string * string) : TokenComparisonResult :=
  step (emptyComparison 0) entry.

(** The running result [r] with the findings of [s] added. *)
Definition addFindings (r s : TokenComparisonResult) : TokenComparisonResult :=
  {| total := total r;
     matching := matching r + matching s;
     mismatched := mismatched r + mismatched s;
     missing := missing r + missing s;
     tokenDiscrepancies := tokenDiscrepancies r ++ tokenDiscrepancies s |}.

(** The per-category results [compareDesignTokens] adds up. *)
Definition colorPart (designTokens : DesignTokens) (cssTokens : CSSTokens)
    (options : ComparisonOptions) : TokenComparisonResult :=
  colorChecks (colors designTokens) (colors cssTokens)
    (numberOption (colorTolerance (mergeOptions DEFAULT_OPTIONS options))).

Definition spacingPart (designTokens : DesignTokens) (cssTokens : CSSTokens)
    (options : ComparisonOptions) : TokenComparisonResult :=
  spacingChecks (spacing designTokens) (spacing cssTokens)
    (numberOption (spacingTolerance (mergeOptions DEFAULT_OPTIONS options))) TSpacing.

Definition radiusPart (designTokens : DesignTokens) (cssTokens : CSSTokens)
    (options : ComparisonOptions) : TokenComparisonResult :=
  match borderRadius designTokens with
  | Some designRadius =>
      spacingChecks designRadius (orElse (borderRadius cssTokens) [])
        (numberOption (spacingTolerance (mergeOptions DEFAULT_OPTIONS options)))
        TBorderRadius
  | None => emptyComparison 0
  end.

(** The result of a comparison whose lookups stay among the entries. *)
Definition comparisonOf (designTokens : DesignTokens) (cssTokens : CSSTokens)
    (options : ComparisonOptions) : ComparisonResult :=
  aggregate (mergeOptions DEFAULT_OPTIONS options)
    (colorPart designTokens cssTokens options)
    (spacingPart designTokens cssTokens options)
    (radiusPart designTokens cssTokens options).

(** The match percentage and the verdict as functions of the counts. *)
Definition percentageOf (matchingCount totalChecked : nat) : float :=
  if (0 <? totalChecked)%nat
  then Num.round ((Num.ofNat matchingCount / Num.ofNat totalChecked) * 100)%float
  else 100%float.

(** The design tokens a comparison looks at. *)
Definition checkedTokens (designTokens : DesignTokens) : TokenMap :=
  colors designTokens ++ spacing designTokens ++ orElse (borderRadius designTokens) [].

(** Keys are unique in a well-formed map. *)
Definition uniqueKeys (tokens : TokenMap) : Prop := NoDup (map fst tokens).

Definition oneMatch : TokenComparisonResult := countMatching (emptyComparison 0).

Definition tokensWithEmptyValue : DesignTokens :=
  {| colors := [("primary", "")]; fonts := []; spacing := [];
     borderRadius := None; shadows := None |}.

Definition tokensWithDotSpacing : DesignTokens :=
  {| colors := []; fonts := []; spacing := [("gap", ".px")];
     borderRadius := None; shadows := None |}.

Definition sampleTokens : DesignTokens :=
  {| colors := [("primary", "#3366ff"); ("surface", "rgb(255, 255, 255)")];
     fonts := [];
     spacing := [("gap", "16px"); ("gutter", "1.5rem"); ("auto", "auto")];
     borderRadius := Some [("card", "8px")];
     shadows := None |}.

(** The entries whose key satisfies [p], in iteration order. *)
Definition candidates (p : string -> bool) (tokens : TokenMap) : TokenMap :=
  filter (fun entry => p (fst entry)) tokens.

Definition normalizedCandidates (name : string) : TokenMap -> TokenMap :=
  candidates (fun key => String.eqb (normalizeName key) (normalizeName name)).

Definition suffixCandidates (name : string) : TokenMap -> TokenMap :=
  candidates (fun key =>
                JS.endsWith (JS.toLowerCase key) (JS.toLowerCase (JS.lastSegment name))).

(** The matching rules single out one extracted token for [name]: it is a
    key of the map, or each fuzzy rule has at most one candidate. *)
Definition unambiguous (name : string) (tokens : TokenMap) : Prop :=
  property name tokens <> None \/
  (List.length (normalizedCandidates name tokens) <= 1 /\
   List.length (suffixCandidates name tokens) <= 1).

(** Two optional maps with the same entries. *)
Definition sameOptionalEntries (a b : option TokenMap) : Prop :=
  match a, b with
  | None, None => True
  | Some x, Some y => Permutation x y
  | _, _ => False
  end.

(** Two results that agree up to the order of the discrepancies. *)
Definition sameFindings (r r' : TokenComparisonResult) : Prop :=
  total r = total r' /\ matching r = matching r' /\
  mismatched r = mismatched r' /\ missing r = missing r' /\
  Permutation (tokenDiscrepancies r) (tokenDiscrepancies r').

Definition expectedPrimary : DesignTokens :=
  {| colors := [("primary-color", "#000000")]; fonts := []; spacing := [];
     borderRadius := None; shadows := None |}.

Definition extractedCamelFirst : CSSTokens :=
  {| colors := [("primaryColor", "#000000"); ("primary_color", "#FFFFFF")];
     fonts := []; spacing := []; borderRadius := None; shadows := None |}.

Definition extractedSnakeFirst : CSSTokens :=
  {| colors := [("primary_color", "#FFFFFF"); ("primaryColor", "#000000")];
     fonts := []; spacing := []; borderRadius := None; shadows := None |}.

Definition sampleTokensReordered : DesignTokens :=
  {| colors := [("surface", "rgb(255, 255, 255)"); ("primary", "#3366ff")];
     fonts := [];
     spacing := [("auto", "auto"); ("gap", "16px"); ("gutter", "1.5rem")];
     borderRadius := Some [("card", "8px")];
     shadows := None |}.

Definition sampleExtracted : CSSTokens :=
  {| colors := [("primary", "#3366FF"); ("surface", "#000000")];
     fonts := [];
     spacing := [("gap", "1rem"); ("gutter", "20px")];
     borderRadius := None;
     shadows := None |}.

Definition sampleExtractedReordered : CSSTokens :=
  {| colors := [("surface", "#000000"); ("primary", "#3366FF")];
     fonts := [];
     spacing := [("gutter", "20px"); ("gap", "1rem")];
     borderRadius := Some [];
     shadows := None |}.

(** ** The pipeline controller *)

(** An emptied mailbox. *)
Definition clearedAt (t : Z) : MessageFile := {| messages := []; lastRead := Some t |}.

(** The project directory after the [finally] block of [processTaskV2] ran
    on a readable queue. *)
Definition afterCleanup (queue : TaskQueue) (w : World) : World :=
  set_messageFile toTeamLead (Content (clearedAt (now w)))
    (set_messageFile toDeveloper (Content (clearedAt (now w)))
       (set_messageFile toTechLead (Content (clearedAt (now w)))
          (set_messageFile toDesigner (Content (clearedAt (now w)))
             (afterSave (withCurrent None queue) w)))).

(** The result [processTaskV2] returns for an outcome of its [try] block. *)
Definition reported (o : Outcome ProcessTaskResultV2) : ProcessTaskResultV2 :=
  match o with
  | Return r => r
  | Throw thrown =>
      {| taskSuccess := false; taskError := Some (errorToString thrown);
         phase := None; designVerification := None |}
  end.

(** The first active task with the given id. *)
Definition activeTask (taskId : string) (queue : TaskQueue) : option Task :=
  find (hasId taskId) (tasks queue).

(** [Steps R c]: every run of [c] takes a project directory to one related
    to it by [R].  For a reflexive and transitive [R] the property passes
    through sequencing, [try]/[catch] and [try]/[finally]. *)
Definition Steps {A} (R : World -> World -> Prop) (c : M A) : Prop :=
  forall w o w', c w = (o, w') -> R w w'.

(** Between [w] and [w'] the agent was invoked some number of times, never
    for a review. *)
Definition noReviewCall (w w' : World) : Prop :=
  exists calls, invocations w' = invocations w ++ calls /\ ~ In "review" calls.

(** The options [runDesignVerification] passes to the comparator. *)
Definition verificationOptions : ComparisonOptions :=
  {| colorTolerance := None; spacingTolerance := None;
     checkExtraTokens := None; minMatchPercentage := Some 90%float |}.

(** What [runDesignVerification] returns when its [try] block throws. *)
Definition verificationSkipped : VerificationOutcome :=
  {| outcomeVerified := true; outcomeMatchPercentage := 0%float;
     outcomeDiscrepancies := [] |}.

(** What it returns for the extracted tokens: the verdict of the
    comparison, or the result above when the comparison throws. *)
Definition verificationOf (designSpec : Envelope * DesignSpecification)
    (cssTokens : CSSTokens) : VerificationOutcome :=
  match compareDesignTokens (designTokens (snd designSpec)) cssTokens
          verificationOptions with
  | Return result =>
      {| outcomeVerified := verified result;
         outcomeMatchPercentage := matchPercentage result;
         outcomeDiscrepancies := discrepancies result |}
  | Throw _ => verificationSkipped
  end.

Definition succeededWith (v : VerificationOutcome) : ProcessTaskResultV2 :=
  {| taskSuccess := true; taskError := None; phase := None;
     designVerification := Some v |}.

(** The agents leave the queue file to the task store. *)
Definition agentsKeepQueue (env : Env) : Prop :=
  forall name prompt options w,
    queueFile (snd (claudeAgent env name prompt options w)) = queueFile w.

(** Neither the queue file nor the history of its writes changes. *)
Definition queueUntouched (w w' : World) : Prop :=
  queueFile w' = queueFile w /\ queueWrites w' = queueWrites w.

(** The statuses the task of a run has while the pointer is on it: the one
    it had when the run started and the ones the run gives it. *)
Definition statusDuringRun (start s : TaskStatus) : Prop :=
  s = start \/ s = in_progress \/ s = awaiting_review \/ s = rejected.

(** The pointer is null, or it is on the task of the run, which is active
    with one of these statuses. *)
Definition pointerOnTask (taskId : string) (start : TaskStatus) (queue : TaskQueue)
    : Prop :=
  current queue = None \/
  (current queue = Some taskId /\
   exists t, activeTask taskId queue = Some t /\ statusDuringRun start (status t)).

Definition pointerOnTaskIn (taskId : string) (start : TaskStatus) (w : World) : Prop :=
  forall queue, queueFile w = Content queue -> pointerOnTask taskId start queue.

(** From a project directory whose queue satisfies [pointerOnTask], so does
    the queue of [w'] and every queue written in between. *)
Definition pointerKept (taskId : string) (start : TaskStatus) (w w' : World) : Prop :=
  pointerOnTaskIn taskId start w ->
  pointerOnTaskIn taskId start w' /\
  exists written : list TaskQueue,
    queueWrites w' = (queueWrites w ++ written)%list /\
    Forall (pointerOnTask taskId start) written.


(* ====================================================================== *)
(** * Task store: statistics ([src/core/queue.ts]) *)
(* ====================================================================== *)

Record QueueStats : Type := {
  statPending : nat;
  statInProgress : nat;
  statAwaitingReview : nat;
  statCompleted : nat;
  statRejected : nat;
  statTotal : nat
}.

Definition getQueueStats : M QueueStats :=
  queue <- loadQueue ;;
  let pendingCount := List.length (filter (hasStatus pending) (tasks queue)) in
  let inProgress := List.length (filter (hasStatus in_progress) (tasks queue)) in
  let awaitingReview := List.length (filter (hasStatus awaiting_review) (tasks queue)) in
  let rejectedCount := List.length (filter (hasStatus rejected) (tasks queue)) in
  let completedCount := List.length (completed queue) in
  ret {| statPending := pendingCount;
         statInProgress := inProgress;
         statAwaitingReview := awaitingReview;
         statCompleted := completedCount;
         statRejected := rejectedCount;
         statTotal := List.length (tasks queue) + completedCount |}.


(* ====================================================================== *)
(** * Token comparator: severity and conversion *)
(* ====================================================================== *)

(** The result of [getOverallSeverity]
    ([src/utils/design-comparator.ts]). *)
Inductive OverallSeverity : Type :=
  | overall_error | overall_warning | overall_info | overall_none.

Definition severityEqb (a b : Severity) : bool :=
  match a, b with
  | error, error | warning, warning | info, info => true
  | _, _ => false
  end.

Definition getOverallSeverity (discrepancies : list DiscrepancyItem) : OverallSeverity :=
  match discrepancies with
  | [] => overall_none
  | _ =>
      let hasError := existsb (fun d => severityEqb (severity d) error) discrepancies in
      if hasError then overall_error
      else
        let hasWarning :=
          existsb (fun d => severityEqb (severity d) warning) discrepancies in
        if hasWarning then overall_warning else overall_info
  end.

(** [designTokensToCSSTokens] ([src/utils/css-extractor.ts]): the maps are
    copied, an absent [borderRadius] or [shadows] becomes the empty map. *)
Definition designTokensToCSSTokens (tokens : DesignTokens) : CSSTokens :=
  {| colors := colors tokens;
     fonts := fonts tokens;
     spacing := spacing tokens;
     borderRadius :=
       Some (match borderRadius tokens with Some m => m | None => [] end);
     shadows := Some (match shadows tokens with Some m => m | None => [] end) |}.

(** [createEmptyCSSTokens] *)
Definition createEmptyCSSTokens : CSSTokens :=
  {| colors := []; fonts := []; spacing := [];
     borderRadius := Some []; shadows := Some [] |}.


(* ====================================================================== *)
(** * Extraction of CSS custom properties ([src/utils/css-extractor.ts]) *)
(* ====================================================================== *)

(** ** Properties of objects *)

(** An array index: the canonical decimal text of an integer from 0 to
    2^32 - 2.  The own keys of an object are listed with the array indices
    first, in ascending order, then the other strings in the order in which
    they were created. *)
Definition arrayIndex (key : string) : option N :=
  match JS.digitsOnly key with
  | Some _ =>
      let n := JS.parseInt key in
      if (String.eqb (JS.decimal n) key && (n <? 4294967295)%N)%bool then Some n
      else None
  | None => None
  end.

Definition hasKey {V} (key : string) (object : list (string * V)) : bool :=
  existsb (fun entry => String.eqb (fst entry) key) object.

Fixpoint replaceValue {V} (key : string) (value : V) (object : list (string * V))
    : list (string * V) :=
  match object with
  | [] => []
  | (k, v) :: rest =>
      if String.eqb k key then (k, value) :: rest
      else (k, v) :: replaceValue key value rest
  end.

Fixpoint insertIndex {V} (index : N) (key : string) (value : V)
    (object : list (string * V)) : list (string * V) :=
  match object with
  | [] => [(key, value)]
  | (k, v) :: rest =>
      match arrayIndex k with
      | Some other =>
          if (other <? index)%N then (k, v) :: insertIndex index key value rest
          else (key, value) :: object
      | None => (key, value) :: object
      end
  end.

(** [object[key] = value]: the value of an existing property is replaced
    where it is, a new property is created at its place in the order of
    the keys.  An object that has no property [__proto__] of its own gets
    none by an assignment: the setter it inherits from [Object.prototype]
    takes the value, ignores it when it is no object and otherwise makes it
    the prototype; the properties of the object stay as they are. *)
Definition setProperty {V} (key : string) (value : V) (object : list (string * V))
    : list (string * V) :=
  if hasKey key object then replaceValue key value object
  else if String.eqb key "__proto__" then object
  else
    match arrayIndex key with
    | Some index => insertIndex index key value object
    | None => object ++ [(key, value)]
    end.

(** [Object.assign(target, source)] *)
Definition assign {V} (target source : list (string * V)) : list (string * V) :=
  fold_left (fun object entry => setProperty (fst entry) (snd entry) object)
    source target.

(** ** Custom properties *)

(** [[a-zA-Z0-9-_]] *)
Definition isNameChar (c : ascii) : bool :=
  JS.isLower c || JS.isUpper c || JS.isDigit c || Ascii.eqb c "-" || Ascii.eqb c "_".

Definition notSemicolon (c : ascii) : bool := negb (Ascii.eqb c ";").

(** A match of [/--([a-zA-Z0-9-_]+)\s*:\s*([^;]+);/] starting at the first
    character: the name, the text between the colon and the semicolon, and
    what follows the semicolon.  The name is followed by a character the
    name cannot hold and the text by a semicolon, so a shorter name or text
    gives no match; the second group is the text without the white space
    [\s*] took at its start (all of it but one character when the text is
    white space only), which [trim] removes as well. *)
Definition matchVariableAt (s : string) : option (string * string * string) :=
  if JS.startsWith s "--" then
    let afterDashes := JS.drop 2 s in
    match JS.takeWhile isNameChar afterDashes with
    | EmptyString => None
    | name =>
        match skipSpaces (JS.drop (String.length name) afterDashes) with
        | String ":"%char afterColon =>
            match JS.takeWhile notSemicolon afterColon with
            | EmptyString => None
            | text =>
                match JS.drop (String.length text) afterColon with
                | String ";"%char rest => Some (name, text, rest)
                | _ => None
                end
            end
        | _ => None
        end
    end
  else None.

(** The loop of [extractCSSVariables]: [regex.exec] finds the leftmost
    match at or after the end of the previous one.  [skip] is the number of
    characters left of the previous match. *)
Fixpoint scanVariables (css : string) (skip : nat) (variables : TokenMap) : TokenMap :=
  match css with
  | EmptyString => variables
  | String _ css' =>
      match skip with
      | S skip' => scanVariables css' skip' variables
      | O =>
          match matchVariableAt css with
          | Some (name, text, rest) =>
              scanVariables css' (String.length css' - String.length rest)
                (setProperty (JS.trim name) (JS.trim text) variables)
          | None => scanVariables css' 0 variables
          end
      end
  end.

Definition extractCSSVariables (css : string) : TokenMap :=
  scanVariables css 0 [].

(** ** Categories *)

(** [/^#([0-9a-fA-F]{3}|[0-9a-fA-F]{6}|[0-9a-fA-F]{8})$/] *)
Definition isHexColorValue (value : string) : bool :=
  match value with
  | String "#"%char digits =>
      allChars isHexDigit digits
      && ((String.length digits =? 3)%nat || (String.length digits =? 6)%nat
          || (String.length digits =? 8)%nat)
  | _ => false
  end.

(** [/^<name>a?\s*\(/] for [rgb] and [hsl] *)
Definition startsColorFunction (name value : string) : bool :=
  if JS.startsWith value name then
    let s := JS.drop (String.length name) value in
    let s := match s with String "a"%char r => r | _ => s end in
    match skipSpaces s with
    | String "("%char _ => true
    | _ => false
    end
  else false.

Definition colorKeywords : list string :=
  ["transparent"; "currentcolor"; "inherit"; "white"; "black"; "red"; "blue"; "green"].

Definition isColorValue (value : string) : bool :=
  if isHexColorValue value then true
  else if startsColorFunction "rgb" value then true
  else if startsColorFunction "hsl" value then true
  else existsb (String.eqb (JS.toLowerCase value)) colorKeywords.

(** [Partial<CSSTokens>] *)
Record PartialCSSTokens : Type := {
  partColors : option TokenMap;
  partFonts : option (list (string * FontToken));
  partSpacing : option TokenMap;
  partBorderRadius : option TokenMap;
  partShadows : option TokenMap
}.

(** [tokens.<map> = tokens.<map> || {}; tokens.<map>[name] = value] *)
Definition store (name value : string) (map : option TokenMap) : option TokenMap :=
  Some (setProperty name value (orElse map [])).

Definition categorizeToken (name value : string) (tokens : PartialCSSTokens)
    : PartialCSSTokens :=
  let lowerName := JS.toLowerCase name in
  if JS.includes lowerName "color" || JS.includes lowerName "bg"
     || JS.includes lowerName "background" || JS.includes lowerName "text"
     || JS.includes lowerName "border-color" || JS.includes lowerName "fill"
     || JS.includes lowerName "stroke" || isColorValue value
  then
    {| partColors := store name (normalizeColorValue value) (partColors tokens);
       partFonts := partFonts tokens; partSpacing := partSpacing tokens;
       partBorderRadius := partBorderRadius tokens; partShadows := partShadows tokens |}
  else if JS.includes lowerName "spacing" || JS.includes lowerName "gap"
          || JS.includes lowerName "margin" || JS.includes lowerName "padding"
          || JS.includes lowerName "space"
  then
    {| partColors := partColors tokens; partFonts := partFonts tokens;
       partSpacing := store name value (partSpacing tokens);
       partBorderRadius := partBorderRadius tokens; partShadows := partShadows tokens |}
  else if JS.includes lowerName "radius" || JS.includes lowerName "rounded"
  then
    {| partColors := partColors tokens; partFonts := partFonts tokens;
       partSpacing := partSpacing tokens;
       partBorderRadius := store name value (partBorderRadius tokens);
       partShadows := partShadows tokens |}
  else if JS.includes lowerName "shadow"
  then
    {| partColors := partColors tokens; partFonts := partFonts tokens;
       partSpacing := partSpacing tokens;
       partBorderRadius := partBorderRadius tokens;
       partShadows := store name value (partShadows tokens) |}
  else if JS.includes lowerName "font-size" || JS.includes lowerName "font-family"
          || JS.includes lowerName "font-weight" || JS.includes lowerName "line-height"
  then
    {| partColors := partColors tokens; partFonts := partFonts tokens;
       partSpacing := store name value (partSpacing tokens);
       partBorderRadius := partBorderRadius tokens; partShadows := partShadows tokens |}
  else tokens.

(** The tokens [parseCSSFile] starts from. *)
Definition noTokens : PartialCSSTokens :=
  {| partColors := Some []; partFonts := Some []; partSpacing := Some [];
     partBorderRadius := Some []; partShadows := Some [] |}.

(** [parseCSSFile] on the content of the file, [None] when reading it
    throws: the error is ignored and the tokens are left empty. *)
Definition parseCSSFile (content : option string) : PartialCSSTokens :=
  match content with
  | Some content =>
      let variables := extractCSSVariables content in
      fold_left (fun tokens entry => categorizeToken (fst entry) (snd entry) tokens)
        variables noTokens
  | None => noTokens
  end.

(** [if (source.<map>) Object.assign(target.<map>, source.<map>)] *)
Definition assignPart {V} (target : list (string * V))
    (source : option (list (string * V))) : list (string * V) :=
  match source with
  | Some entries => assign target entries
  | None => target
  end.

(** The same for a map the target may lack:
    [target.<map> = target.<map> || {}] first. *)
Definition assignOptionalPart (target source : option TokenMap) : option TokenMap :=
  match source with
  | Some entries => Some (assign (orElse target []) entries)
  | None => target
  end.

Definition mergeTokens (target : CSSTokens) (source : PartialCSSTokens) : CSSTokens :=
  {| colors := assignPart (colors target) (partColors source);
     fonts := assignPart (fonts target) (partFonts source);
     spacing := assignPart (spacing target) (partSpacing source);
     borderRadius := assignOptionalPart (borderRadius target) (partBorderRadius source);
     shadows := assignOptionalPart (shadows target) (partShadows source) |}.


(** ** The task store *)

(** No active task has this id. *)
Definition notActive (taskId : string) (queue : TaskQueue) : Prop :=
  forall t, In t (tasks queue) -> id t <> taskId.

(** Two tasks that differ at most in status, rejection reason and time of
    the last update. *)
Definition sameDescription (a b : Task) : Prop :=
  id a = id b /\ taskType a = taskType b /\ priority a = priority b /\
  title a = title b /\ description a = description b /\
  acceptanceCriteria a = acceptanceCriteria b /\ createdAt a = createdAt b.

(** [pending] or [in_progress]: the statuses the scheduler picks up. *)
Definition isProcessable (t : Task) : bool :=
  hasStatus pending t || hasStatus in_progress t.


(** ** The token comparator *)

(** The options with another threshold. *)
Definition withThreshold (threshold : option float) (options : ComparisonOptions)
    : ComparisonOptions :=
  {| colorTolerance := colorTolerance options;
     spacingTolerance := spacingTolerance options;
     checkExtraTokens := checkExtraTokens options;
     minMatchPercentage := threshold |}.

(** The threshold [compareDesignTokens] compares the match percentage
    with. *)
Definition thresholdOf (options : ComparisonOptions) : float :=
  Num.orDefault (numberOption (minMatchPercentage (mergeOptions DEFAULT_OPTIONS options))) 90.

(** The discrepancies reported when nothing is found: one per checked
    token, by category. *)
Definition allNotFound (designTokens : DesignTokens) : list DiscrepancyItem :=
  map (fun e => notFound TColor (fst e) (snd e)) (colors designTokens)
  ++ map (fun e => notFound TSpacing (fst e) (snd e)) (spacing designTokens)
  ++ map (fun e => notFound TBorderRadius (fst e) (snd e))
       (orElse (borderRadius designTokens) []).

(** The three rules of [findMatchingToken] for one key: the key is the
    name, or equals it once lower-cased and stripped of [-] and [_], or
    ends (lower-cased) with the lower-cased last [-]-segment of the name,
    when that segment is not empty. *)
Definition matchesName (name key : string) : bool :=
  String.eqb key name
  || String.eqb (normalizeName key) (normalizeName name)
  || (negb (String.eqb (JS.toLowerCase (JS.lastSegment name)) "")
      && JS.endsWith (JS.toLowerCase key) (JS.toLowerCase (JS.lastSegment name))).

(** A non-empty text of digits and dots, as matched by [[\d.]+]. *)
Definition isNumberText (n : string) : Prop :=
  n <> "" /\ allChars isNumberChar n = true.

(** What the loop bodies report for one token: it is counted once, with a
    discrepancy unless it matches, never of severity [info]. *)
Definition wellCounted (one : TokenComparisonResult) : Prop :=
  matching one + mismatched one + missing one = 1 /\
  List.length (tokenDiscrepancies one) = mismatched one + missing one /\
  (forall d, In d (tokenDiscrepancies one) ->
     (severity d = warning \/ severity d = error) /\
     (difference d = TokenNotFound ->
      severity d = warning /\ actualValue d = "NOT_FOUND")).

(** No token of the map has the name of a property that objects inherit. *)
Definition plainNames (tokens : TokenMap) : Prop :=
  forall name value, In (name, value) tokens -> isInherited name = false.


(** ** Style sheets *)

(** A custom property as it is written in a style sheet: the text before
    it, then [--name], white space, a colon, the text of the value and a
    semicolon. *)
Record Declaration : Type := {
  textBefore : string;
  declaredName : string;
  spaceBeforeColon : string;
  declaredText : string
}.

Definition renderDeclaration (d : Declaration) (rest : string) : string :=
  textBefore d ++ "--" ++ declaredName d ++ spaceBeforeColon d ++ ":"
    ++ declaredText d ++ ";" ++ rest.

(** The declarations in order, followed by [tail]. *)
Definition renderSheet (ds : list Declaration) (tail : string) : string :=
  fold_right renderDeclaration tail ds.

Definition notDash (c : ascii) : bool := negb (Ascii.eqb c "-").

(** The texts around the declaration hold no [-]; the name is a non-empty
    text of letters, digits, [-] and [_]; the value text is not empty and
    holds no semicolon. *)
Definition wellFormed (d : Declaration) : Prop :=
  allChars notDash (textBefore d) = true /\
  declaredName d <> "" /\ allChars isNameChar (declaredName d) = true /\
  allChars JS.isSpace (spaceBeforeColon d) = true /\
  declaredText d <> "" /\ allChars notSemicolon (declaredText d) = true.

(** The variable a declaration defines. *)
Definition declared (d : Declaration) : string * string :=
  (declaredName d, JS.trim (declaredText d)).

(** The value of the last entry with that key. *)
Definition lastValue (name : string) (entries : TokenMap) : option string :=
  property name (rev entries).

(** The maps of partial tokens a variable can be filed in. *)
Inductive Category : Type :=
  | inColors | inSpacing | inBorderRadius | inShadows.

Definition part (c : Category) (tokens : PartialCSSTokens) : option TokenMap :=
  match c with
  | inColors => partColors tokens
  | inSpacing => partSpacing tokens
  | inBorderRadius => partBorderRadius tokens
  | inShadows => partShadows tokens
  end.

Definition categoryEqb (a b : Category) : bool :=
  match a, b with
  | inColors, inColors | inSpacing, inSpacing
  | inBorderRadius, inBorderRadius | inShadows, inShadows => true
  | _, _ => false
  end.

(** The same maps in full tokens; a map that is missing holds nothing. *)
Definition mapOf (c : Category) (tokens : CSSTokens) : TokenMap :=
  match c with
  | inColors => colors tokens
  | inSpacing => spacing tokens
  | inBorderRadius => orElse (borderRadius tokens) []
  | inShadows => orElse (shadows tokens) []
  end.

(** What reading [name] gives after [Object.assign(target, source)]. *)
Definition assigned (name : string) (target : TokenMap) (source : option TokenMap)
    : option string :=
  match source with
  | Some entries =>
      match lastValue name entries with
      | Some value => Some value
      | None => property name target
      end
  | None => property name target
  end.

(** The value a category holds for a variable after [categorizeToken]. *)
Definition filed (c : Category) (text : string) : string :=
  if categoryEqb c inColors then normalizeColorValue text else text.

(** ** The order of the agents *)

(** The agents of the pipeline, by the names they are invoked under, in the
    order of the phases. *)
Definition pipelineOrder : list string :=
  ["planner"; "designer"; "tech-lead"; "developer"; "review"].

(** The [k] agents that follow the first [i]. *)
Definition nextAgents (i k : nat) : list string := firstn k (skipn i pipelineOrder).

(** No agent is invoked between [w] and [w']. *)
Definition sameCalls (w w' : World) : Prop := invocations w' = invocations w.

(** [Advances i P c]: every run of [c] invokes the agents that follow the
    first [i], in order, up to some number [k] of them with [P o k] for the
    outcome [o] of the run, and no other. *)
Definition Advances {A} (i : nat) (P : Outcome A -> nat -> Prop) (c : M A) : Prop :=
  forall w, exists k,
    invocations (snd (c w)) = invocations w ++ nextAgents i k /\ P (fst (c w)) k.

(** The number of agents a result accounts for: a failure reported at a
    phase comes after the agents of the earlier phases were invoked and
    before those of the later ones are (the developer and the reviewer may
    not have been invoked themselves); a success comes after all five; no
    failure is reported at the verification. *)
Definition accountsFor (r : ProcessTaskResultV2) (k : nat) : Prop :=
  match phase r with
  | Some phase_planner => k = 1
  | Some phase_designer => k = 2
  | Some phase_tech_lead => k = 3
  | Some phase_developer => k = 3 \/ k = 4
  | Some phase_review => k = 4 \/ k = 5
  | Some phase_verification => False
  | None => taskSuccess r = true -> k = 5
  end.

Definition inOrder (o : Outcome ProcessTaskResultV2) (k : nat) : Prop :=
  k <= 5 /\ forall r, o = Return r -> accountsFor r k.

(** ** The task after a run *)

(** The queue file is left as it is between [w] and [w']. *)
Definition sameQueue (w w' : World) : Prop := queueFile w' = queueFile w.

(** The task is active with a property [P]. *)
Definition active (taskId : string) (P : Task -> Prop) (queue : TaskQueue) : Prop :=
  exists t, activeTask taskId queue = Some t /\ P t.

(** The task is among the completed ones. *)
Definition completedIn (taskId : string) (queue : TaskQueue) : Prop :=
  exists t, In t (completed queue) /\ id t = taskId /\ status t = completed_.

(** [Leads inv c post]: from a readable queue with [inv], every run of [c]
    leaves the queue readable, with [post] for the outcome of the run. *)
Definition Leads {A} (inv : TaskQueue -> Prop) (c : M A)
    (post : Outcome A -> TaskQueue -> Prop) : Prop :=
  forall w queue,
    queueFile w = Content queue -> inv queue ->
    exists queue',
      queueFile (snd (c w)) = Content queue' /\ post (fst (c w)) queue'.

(** Where a result of [processTaskV2] leaves its task: rejected with the
    reported error as reason after a failure at the review, in progress
    after a failure at an earlier phase, completed after a success. *)
Definition taskAfter (taskId : string) (r : ProcessTaskResultV2) (queue : TaskQueue)
    : Prop :=
  match phase r with
  | Some phase_review =>
      active taskId
        (fun t => status t = rejected /\ rejectionReason t = taskError r) queue
  | Some phase_verification => False
  | Some _ => active taskId (fun t => status t = in_progress) queue
  | None => taskSuccess r = true -> completedIn taskId queue
  end.

Definition taskAfterRun (taskId : string) (o : Outcome ProcessTaskResultV2)
    (queue : TaskQueue) : Prop :=
  match o with
  | Return r => taskAfter taskId r queue
  | Throw _ => True
  end.

(* ====================================================================== *)
(** * Sample data *)
(* ====================================================================== *)

Definition sampleTask (taskId : string) (p : TaskPriority) (s : TaskStatus)
    (created : Z) : Task :=
  {| id := taskId; taskType := "feature_implementation"; priority := p;
     title := "Implement login form";
     description := "Create the login form and its validation";
     acceptanceCriteria := Some ["Form validates input"];
     status := s; createdAt := created; updatedAt := None;
     rejectionReason := None |}.

Definition sampleDraft : TaskDraft :=
  {| draftType := "feature_implementation"; draftPriority := medium;
     draftTitle := "Add settings page";
     draftDescription := "Create the settings page";
     draftAcceptanceCriteria := None; draftUpdatedAt := None;
     draftRejectionReason := None |}.

Definition sampleQueue : TaskQueue :=
  {| version := "1.0.0";
     tasks := [ sampleTask "task-001" low pending 1000;
                sampleTask "task-004" high pending 3000;
                sampleTask "task-005" high pending 2000;
                sampleTask "task-006" high pending 2000;
                sampleTask "task-002" medium in_progress 500 ];
     completed := [ sampleTask "task-007" medium completed_ 100 ];
     current := None;
     lastUpdated := 0 |}.

Definition idle : AgentState := {| agentStatus := "idle"; lastActivity := 0 |}.

Definition sampleStatus : StatusFile :=
  {| planner := idle; designer := idle; techLead := idle;
     developer := {| developerStatus := "idle"; currentTask := None;
                     developerLastActivity := 0 |};
     lastCycle := None |}.

Definition emptyMailbox : MessageFile := {| messages := []; lastRead := None |}.

Definition missingFile : JSError :=
  {| errorName := "Error"; errorMessage := "ENOENT: no such file or directory" |}.

(** A freshly initialised project whose queue is [queue]. *)
Definition projectWith (queue : TaskQueue) : World :=
  {| queueFile := Content queue;
     statusFile := Content sampleStatus;
     toDesignerFile := Content emptyMailbox;
     toTechLeadFile := Content emptyMailbox;
     toDeveloperFile := Content emptyMailbox;
     toTeamLeadFile := Content emptyMailbox;
     designTokensFile := Unreadable missingFile;
     verificationReportFile := Unreadable missingFile;
     developmentLog := [];
     now := 5000;
     invocations := [];
     queueWrites := [] |}.

Definition sampleWorld : World := projectWith sampleQueue.

Definition sampleOps : list StoreOp :=
  [ OpAdd sampleDraft;
    OpSetCurrent (Some "task-001");
    OpUpdate "task-001" (statusUpdate in_progress);
    OpComplete "task-001";
    OpAdd sampleDraft;
    OpReject "task-999" "no such task";
    OpReject "task-004" "Build verification failed";
    OpReset "task-004";
    OpAdd sampleDraft ].

(** ** Sample agents *)

Definition sampleConfig : OrchestratorConfig :=
  {| projectName := "storefront"; projectPath := "/srv/storefront";
     configPlatform := "web"; scope := "Customer account pages";
     goals := ["Customers can sign in"]; maxTasks := 10; continuous := false |}.

(** The pending task [task-001] of [sampleQueue]. *)
Definition firstTask : Task := sampleTask "task-001" low pending 1000.

Definition envelopeFor (forTask : string) : Envelope :=
  {| taskId := forTask; platform := "web"; timestamp := "2025-01-01T00:00:00.000Z" |}.

Definition messageFor (forTask : string) (p : Payload) : Message :=
  {| envelope := envelopeFor forTask; payload := p |}.

Definition deliver (target : MessageTarget) (m : Message) (w : World) : World :=
  set_messageFile target (Content {| messages := [m]; lastRead := None |}) w.

Definition answered (text : string) : AgentResult :=
  {| success := true; output := text; agentError := None; exitCode := 0 |}.

Definition samplePlan : PlanningDocument :=
  {| productVision := "A login form"; requirements := ["Validate the input"] |}.

Definition sampleSpec : DesignSpecification :=
  {| designTokens := sampleTokens; figmaReference := None |}.

Definition sampleAssignment : TaskAssignment :=
  {| assignmentTitle := "Login form"; instructions := "Build the form";
     filesToCreate := None; architecture := "One component"; apiEndpoints := None |}.

Definition sampleReport (build : option BuildStatus) : CompletionReport :=
  {| summary := "Login form implemented"; filesCreated := ["src/Login.tsx"];
     filesModified := [];
     buildResult :=
       match build with
       | Some s => Some {| buildStatus := s; command := "npm run build";
                           errors := 0; buildOutput := None |}
       | None => None
       end |}.

(** Agents that each write the message expected of them for the task of
    their prompt.  The developer reports the build result [build] (or leaves
    it out), and the reviewer answers [verdict]. *)
Definition scriptedAgent (build : option BuildStatus) (verdict : string)
    (name : string) (prompt : Prompt) (options : SpawnOptions) (w : World)
    : AgentResult * World :=
  match prompt with
  | buildPlanningPrompt task _ =>
      (answered "planned",
       deliver toDesigner (messageFor (id task) (planning_document samplePlan)) w)
  | buildDesignPrompt task _ _ =>
      (answered "designed",
       deliver toTechLead (messageFor (id task) (design_specification sampleSpec)) w)
  | buildTechLeadPrompt task _ _ _ =>
      (answered "assigned",
       deliver toDeveloper (messageFor (id task) (task_assignment sampleAssignment)) w)
  | buildDeveloperPrompt task _ _ =>
      (answered "implemented",
       deliver toTeamLead
         (messageFor (id task) (completion_report (sampleReport build))) w)
  | buildReviewPrompt _ _ _ => (answered verdict, w)
  end.

Definition scriptedEnv (build : option BuildStatus) (verdict : string)
    (extracted : Outcome CSSTokens) : Env :=
  {| claudeAgent := scriptedAgent build verdict;
     extractTokens := fun _ => extracted |}.

(** The build fails. *)
Definition failedBuildEnv : Env :=
  scriptedEnv (Some build_failed) "APPROVE" (Return sampleExtracted).

(** The review approves and the token extraction throws. *)
Definition approvingEnv : Env :=
  scriptedEnv (Some build_success) "APPROVE: looks good" (Throw missingFile).

(** The completion report has no build result. *)
Definition incompleteReportEnv : Env :=
  scriptedEnv None "APPROVE" (Return sampleExtracted).

(** The runs of [processTaskV2] on [task-001] with these agents. *)
Definition failedBuildRun : Outcome ProcessTaskResultV2 * World :=
  processTaskV2 failedBuildEnv firstTask sampleConfig false sampleWorld.

Definition beforeReview (env : Env) : World :=
  snd (phasesBeforeReview env firstTask sampleConfig false sampleWorld).

Definition afterReview (env : Env) : World :=
  snd (runReview env firstTask sampleConfig false (beforeReview env)).

(** Agents that work as the scripted ones, except that the developer's
    also deletes the queue file. *)
Definition queueDeletingAgent (name : string) (prompt : Prompt)
    (options : SpawnOptions) (w : World) : AgentResult * World :=
  let '(result, w') :=
    scriptedAgent (Some build_success) "APPROVE" name prompt options w in
  match prompt with
  | buildDeveloperPrompt _ _ _ => (result, set_queueFile (Unreadable missingFile) w')
  | _ => (result, w')
  end.

Definition queueDeletingEnv : Env :=
  {| claudeAgent := queueDeletingAgent;
     extractTokens := fun _ => Return sampleExtracted |}.

Definition deletedQueueRun : Outcome ProcessTaskResultV2 * World :=
  processTaskV2 queueDeletingEnv firstTask sampleConfig false sampleWorld.

(** ** A design token named like an inherited property *)

Definition tokensWithInheritedName : DesignTokens :=
  {| colors := [("constructor", "#ffffff")]; fonts := []; spacing := [];
     borderRadius := None; shadows := None |}.

(** ** A style sheet *)

(** [:root { --color-primary: #fff; --spacing-md : 16px; --color-primary: #000; }],
    followed by [tail]. *)
Definition sampleDeclarations : list Declaration :=
  [ {| textBefore := ":root { "; declaredName := "color-primary";
       spaceBeforeColon := ""; declaredText := " #fff" |};
    {| textBefore := " "; declaredName := "spacing-md";
       spaceBeforeColon := " "; declaredText := " 16px" |};
    {| textBefore := " "; declaredName := "color-primary";
       spaceBeforeColon := ""; declaredText := " #000" |} ].

(** ** Agents that write nothing *)

(** Every agent answers and leaves the project directory as it is. *)
Definition idleEnv : Env :=
  {| claudeAgent := fun _ _ _ w => (answered "done", w);
     extractTokens := fun _ => Throw missingFile |}.
(* ====================================================================== *)
(** * Properties of the task store *)
(* ====================================================================== *)

(** ** The head of a stable sort *)

Section SortHead.

Local Open Scope Z_scope.

Variable A : Type.
Variable cmp : A -> A -> Z.
Hypothesis cmp_flip : forall a b, 0 <= cmp a b -> cmp b a <= 0.
Hypothesis cmp_trans : forall a b c, cmp a b <= 0 -> cmp b c <= 0 -> cmp a c <= 0.

Lemma sort_nil_inv (l : list A) : sort cmp l = [] -> l = [].
Proof.
  destruct l as [|x l]; [reflexivity|].
  simpl. destruct (sort cmp l) as [|y r]; simpl; [discriminate|].
  destruct (cmp y x <? 0); discriminate.
Qed.

(** The first element of the sorted array is the first, in the original
    order, of the elements that no other element precedes. *)
Lemma sort_head (l : list A) (first : A) (rest : list A) :
  sort cmp l = first :: rest ->
  exists before after,
    l = before ++ first :: after /\
    (forall x, In x before -> cmp first x < 0) /\
    (forall x, In x after -> cmp first x <= 0).
Proof.
  revert first rest.
  induction l as [|x l IH]; intros first rest Hs; [discriminate|].
  simpl in Hs.
  destruct (sort cmp l) as [|m r] eqn:Hl.
  - apply sort_nil_inv in Hl. subst l. simpl in Hs.
    injection Hs as <- _.
    exists [], []. repeat split; intros y [].
  - destruct (IH m r eq_refl) as (before & after & -> & Hb & Ha).
    simpl in Hs. destruct (cmp m x <? 0) eqn:Hc.
    + injection Hs as <- _.
      apply Z.ltb_lt in Hc.
      exists (x :: before), after. repeat split.
      * intros y [<-|Hy]; [assumption|auto].
      * assumption.
    + injection Hs as <- _.
      apply Z.ltb_ge in Hc. apply cmp_flip in Hc.
      exists [], (before ++ m :: after). repeat split.
      * intros y [].
      * intros y Hy. apply in_app_or in Hy.
        destruct Hy as [Hy|[<-|Hy]].
        -- apply cmp_trans with m; [assumption|]. specialize (Hb y Hy). lia.
        -- assumption.
        -- apply cmp_trans with m; auto.
Qed.

End SortHead.

Lemma priorityOrder_inj (p q : TaskPriority) :
  priorityOrder p = priorityOrder q -> p = q.
Proof. destruct p, q; simpl; intros H; try reflexivity; discriminate. Qed.

Lemma byPriorityThenCreation_le (a b : Task) :
  (byPriorityThenCreation a b <= 0)%Z <->
  (priorityOrder (priority b) < priorityOrder (priority a)
   \/ (priority a = priority b /\ createdAt a <= createdAt b))%Z.
Proof.
  unfold byPriorityThenCreation.
  destruct (Z.eqb_spec (priorityOrder (priority b) - priorityOrder (priority a)) 0) as [E|E];
    simpl.
  - split.
    + intros H. right. split; [apply priorityOrder_inj|]; lia.
    + intros [H|[_ H]]; lia.
  - split.
    + intros H. left. lia.
    + intros [H|[H _]]; [lia|]. rewrite H in E. lia.
Qed.

Lemma byPriorityThenCreation_lt (a b : Task) :
  (byPriorityThenCreation a b < 0)%Z <->
  (priorityOrder (priority b) < priorityOrder (priority a)
   \/ (priority a = priority b /\ createdAt a < createdAt b))%Z.
Proof.
  unfold byPriorityThenCreation.
  destruct (Z.eqb_spec (priorityOrder (priority b) - priorityOrder (priority a)) 0) as [E|E];
    simpl.
  - split.
    + intros H. right. split; [apply priorityOrder_inj|]; lia.
    + intros [H|[_ H]]; lia.
  - split.
    + intros H. left. lia.
    + intros [H|[H _]]; [lia|]. rewrite H in E. lia.
Qed.

Lemma byPriorityThenCreation_flip (a b : Task) :
  (0 <= byPriorityThenCreation a b -> byPriorityThenCreation b a <= 0)%Z.
Proof.
  unfold byPriorityThenCreation.
  destruct (Z.eqb_spec (priorityOrder (priority b) - priorityOrder (priority a)) 0);
  destruct (Z.eqb_spec (priorityOrder (priority a) - priorityOrder (priority b)) 0);
    simpl; lia.
Qed.

Lemma byPriorityThenCreation_trans (a b c : Task) :
  (byPriorityThenCreation a b <= 0 -> byPriorityThenCreation b c <= 0 ->
   byPriorityThenCreation a c <= 0)%Z.
Proof.
  rewrite !byPriorityThenCreation_le.
  intros [H1|[E1 H1]] [H2|[E2 H2]].
  - left. lia.
  - left. rewrite <- E2. assumption.
  - left. rewrite E1. assumption.
  - right. split; [congruence|lia].
Qed.

Lemma hasStatus_true (s : TaskStatus) (t : Task) :
  hasStatus s t = true <-> status t = s.
Proof.
  unfold hasStatus. destruct (status t), s; simpl; split; intros H;
    try reflexivity; discriminate.
Qed.

(** C8. With the queue file readable: when no task is pending,
    [getNextPendingTask] returns no task; otherwise it returns a pending
    task of the queue that has the highest priority among the pending tasks
    (high, then medium, then low) and, among the pending tasks of that
    priority, the earliest creation time; the pending tasks listed before it
    in the queue that have its priority were all created strictly later
    (ties keep the queue order). *)
Theorem getNextPendingTask_highest_priority_then_oldest :
  forall (w : World) (queue : TaskQueue),
    queueFile w = Content queue ->
    let pendingTasks := filter (hasStatus pending) (tasks queue) in
    (pendingTasks = [] -> getNextPendingTask w = (Return None, w)) /\
    (pendingTasks <> [] ->
     exists next before after,
       getNextPendingTask w = (Return (Some next), w) /\
       pendingTasks = before ++ next :: after /\
       In next (tasks queue) /\ status next = pending /\
       (forall t, In t (tasks queue) -> status t = pending ->
          (priorityOrder (priority t) <= priorityOrder (priority next))%Z) /\
       (forall t, In t (tasks queue) -> status t = pending ->
          priority t = priority next -> (createdAt next <= createdAt t)%Z) /\
       (forall t, In t before ->
          priority t = priority next -> (createdAt next < createdAt t)%Z)).
Proof.
  intros w queue Hq pendingTasks.
  assert (Hrun : getNextPendingTask w =
                 (Return (match pendingTasks with
                          | [] => None
                          | _ => hd_error (sort byPriorityThenCreation pendingTasks)
                          end), w)).
  { unfold getNextPendingTask, getPendingTasks, loadQueue, readJSON, bind, ret.
    rewrite Hq. fold pendingTasks. destruct pendingTasks; reflexivity. }
  split.
  - intros E. rewrite Hrun, E. reflexivity.
  - intros Hne.
    destruct (sort byPriorityThenCreation pendingTasks) as [|next rest] eqn:Hs.
    + apply sort_nil_inv in Hs. contradiction.
    + destruct (sort_head Task byPriorityThenCreation
                  byPriorityThenCreation_flip byPriorityThenCreation_trans
                  pendingTasks next rest Hs)
        as (before & after & Hsplit & Hb & Ha).
      assert (Hin : In next pendingTasks).
      { rewrite Hsplit. apply in_or_app. right. left. reflexivity. }
      apply filter_In in Hin. destruct Hin as [Hin Hst].
      apply hasStatus_true in Hst.
      assert (Hle : forall t, In t (tasks queue) -> status t = pending ->
                      (byPriorityThenCreation next t <= 0)%Z).
      { intros t Ht Hp.
        assert (Hm : In t pendingTasks)
          by (apply filter_In; split; [assumption|apply hasStatus_true; assumption]).
        rewrite Hsplit in Hm. apply in_app_or in Hm.
        destruct Hm as [Hm|[<-|Hm]].
        - specialize (Hb t Hm). lia.
        - apply byPriorityThenCreation_le. right. split; [reflexivity|lia].
        - auto. }
      exists next, before, after.
      split; [|split; [assumption|split; [assumption|split; [assumption|]]]].
      * rewrite Hrun. destruct pendingTasks; [contradiction|]. reflexivity.
      * split; [|split].
        -- intros t Ht Hp. specialize (Hle t Ht Hp).
           apply byPriorityThenCreation_le in Hle.
           destruct Hle as [H|[H _]]; [lia|rewrite H; lia].
        -- intros t Ht Hp E. specialize (Hle t Ht Hp).
           apply byPriorityThenCreation_le in Hle.
           destruct Hle as [H|[_ H]]; [rewrite E in H; lia|assumption].
        -- intros t Ht E. specialize (Hb t Ht).
           apply byPriorityThenCreation_lt in Hb.
           destruct Hb as [H|[_ H]]; [rewrite E in H; lia|assumption].
Qed.

(** ** Task ids *)
(** *** Printing and reading back a task number *)

Lemma parseInt_decimal (n : N) : JS.parseInt (JS.decimal n) = n.
Proof.
  unfold JS.parseInt, JS.decimal.
  rewrite DecimalString.NilEmpty.usu. apply DecimalN.Unsigned.of_to.
Qed.

Lemma uint_of_string_zeros (k : nat) (s : string) (d : Decimal.uint) :
  DecimalString.NilEmpty.uint_of_string s = Some d ->
  exists d', DecimalString.NilEmpty.uint_of_string (JS.repeatChar "0" k ++ s) = Some d'
             /\ N.of_uint d' = N.of_uint d.
Proof.
  intros H. induction k as [|k (d' & Hd' & E)]; simpl.
  - exists d. split; [assumption|reflexivity].
  - exists (Decimal.D0 d'). rewrite Hd'. split; [reflexivity|].
    rewrite <- E. reflexivity.
Qed.

Lemma padStart_nonempty (c : ascii) (s : string) : JS.padStart 3 c s <> "".
Proof.
  unfold JS.padStart. destruct s as [|a s]; [simpl; discriminate|].
  destruct (JS.repeatChar c (3 - String.length (String a s))); simpl; discriminate.
Qed.

Lemma taskNumber_formatTaskId (n : N) : taskNumber (formatTaskId n) = Some n.
Proof.
  unfold taskNumber, matchTaskId, formatTaskId.
  change (JS.startsWith ("task-" ++ JS.padStart 3 "0" (JS.decimal n)) "task-") with true.
  change (JS.drop 5 ("task-" ++ JS.padStart 3 "0" (JS.decimal n)))
    with (JS.padStart 3 "0" (JS.decimal n)).
  cbv iota.
  destruct (uint_of_string_zeros (3 - String.length (JS.decimal n)) (JS.decimal n)
              (N.to_uint n) (DecimalString.NilEmpty.usu _)) as (d' & Hd' & E).
  fold (JS.padStart 3 "0" (JS.decimal n)) in Hd'.
  unfold JS.digitsOnly.
  destruct (JS.padStart 3 "0" (JS.decimal n)) eqn:Hp.
  - exfalso. eapply padStart_nonempty. exact Hp.
  - rewrite Hd'. simpl. f_equal. unfold JS.parseInt. rewrite Hd', E.
    apply DecimalN.Unsigned.of_to.
Qed.

Lemma formatTaskId_inj (n m : N) : formatTaskId n = formatTaskId m -> n = m.
Proof.
  intros H. apply (f_equal taskNumber) in H.
  rewrite !taskNumber_formatTaskId in H. congruence.
Qed.

(** *** The scan of [generateTaskId] *)

Lemma scanTaskIds_highest (l : list Task) (maxNum : N) :
  scanTaskIds l maxNum = N.max maxNum (highestTaskNumber (map id l)).
Proof.
  unfold scanTaskIds. revert maxNum.
  induction l as [|t l IH]; intros maxNum; simpl.
  - lia.
  - rewrite IH. unfold taskNumber.
    destruct (matchTaskId (id t)) as [digits|]; simpl; [|reflexivity].
    destruct (N.ltb_spec maxNum (JS.parseInt digits)); lia.
Qed.

Lemma generateTaskId_highest (queue : TaskQueue) :
  generateTaskId queue = formatTaskId (highestTaskNumber (allIds queue) + 1).
Proof.
  unfold generateTaskId. rewrite scanTaskIds_highest. unfold allIds.
  f_equal. lia.
Qed.

Lemma highestTaskNumber_bound (ids : list string) (taskId : string) (n : N) :
  In taskId ids -> taskNumber taskId = Some n -> (n <= highestTaskNumber ids)%N.
Proof.
  induction ids as [|i ids IH]; simpl; [intros []|].
  intros [->|Hin] Hn.
  - rewrite Hn. lia.
  - specialize (IH Hin Hn). destruct (taskNumber i); lia.
Qed.

Lemma highestTaskNumber_app (l1 l2 : list string) :
  highestTaskNumber (l1 ++ l2) = N.max (highestTaskNumber l1) (highestTaskNumber l2).
Proof.
  induction l1 as [|i l1 IH]; simpl; [lia|].
  rewrite IH. destruct (taskNumber i); lia.
Qed.

Lemma highestTaskNumber_perm (l1 l2 : list string) :
  Permutation l1 l2 -> highestTaskNumber l1 = highestTaskNumber l2.
Proof.
  induction 1; simpl.
  - reflexivity.
  - rewrite IHPermutation. reflexivity.
  - destruct (taskNumber x), (taskNumber y); lia.
  - congruence.
Qed.

Lemma generateTaskId_fresh (queue : TaskQueue) (t : Task) :
  In t (tasks queue ++ completed queue) -> id t <> generateTaskId queue.
Proof.
  intros Hin E.
  assert (Hn : taskNumber (id t) = Some (highestTaskNumber (allIds queue) + 1)%N)
    by (rewrite E, generateTaskId_highest; apply taskNumber_formatTaskId).
  apply (highestTaskNumber_bound (allIds queue)) in Hn.
  - lia.
  - unfold allIds. apply in_map. assumption.
Qed.

(** *** Running the store operations *)

Lemma saveQueue_run (queue : TaskQueue) (w : World) :
  saveQueue queue w = (Return tt, afterSave queue w).
Proof. reflexivity. Qed.

Lemma queueFile_afterSave (queue : TaskQueue) (w : World) :
  queueFile (afterSave queue w) = Content (withLastUpdated (now w) queue).
Proof. reflexivity. Qed.

Lemma findIndex_nth_error {A} (p : A -> bool) (l : list A) (i : nat) :
  findIndex p l = Some i -> exists x, nth_error l i = Some x /\ p x = true.
Proof.
  revert i. induction l as [|y l IH]; intros i; simpl; [discriminate|].
  destruct (p y) eqn:Hy.
  - intros [= <-]. exists y. split; [reflexivity|assumption].
  - destruct (findIndex p l) as [j|]; [|discriminate].
    intros [= <-]. apply IH. reflexivity.
Qed.

Lemma findIndex_none {A} (p : A -> bool) (l : list A) :
  findIndex p l = None -> forall x, In x l -> p x = false.
Proof.
  induction l as [|y l IH]; simpl; [intros _ x []|].
  destruct (p y) eqn:Hy; [discriminate|].
  destruct (findIndex p l); [discriminate|].
  intros _ x [<-|Hx]; [assumption|apply IH; [reflexivity|assumption]].
Qed.

Lemma map_setAt {A B} (f : A -> B) (l : list A) (i : nat) (old new : A) :
  nth_error l i = Some old -> f new = f old -> map f (setAt i new l) = map f l.
Proof.
  revert i. induction l as [|y l IH]; intros [|i]; simpl; try discriminate.
  - intros [= ->] ->. reflexivity.
  - intros H E. rewrite (IH i H E). reflexivity.
Qed.

Lemma removeAt_perm {A} (l : list A) (i : nat) (x : A) :
  nth_error l i = Some x -> Permutation l (x :: removeAt i l).
Proof.
  revert i. induction l as [|y l IH]; intros [|i]; simpl; try discriminate.
  - intros [= ->]. reflexivity.
  - intros H. rewrite (IH i H) at 1. apply perm_swap.
Qed.

Lemma addTask_run (draft : TaskDraft) (w : World) (queue : TaskQueue) :
  queueFile w = Content queue ->
  let newTask := newTaskOf draft (generateTaskId queue) (now w) in
  addTask draft w =
  (Return newTask, afterSave (withTasks (tasks queue ++ [newTask]) queue) w).
Proof.
  intros Hq. unfold addTask, loadQueue, readJSON, bind. rewrite Hq. reflexivity.
Qed.

Lemma updateTask_run (taskId : string) (updates : TaskUpdates) (w : World)
    (queue : TaskQueue) :
  queueFile w = Content queue ->
  match findIndex (hasId taskId) (tasks queue) with
  | None => updateTask taskId updates w = (Throw (taskNotFound taskId), w)
  | Some i =>
      exists old,
        nth_error (tasks queue) i = Some old /\ id old = taskId /\
        updateTask taskId updates w =
        (Return (applyUpdates old updates (now w)),
         afterSave (withTasks (setAt i (applyUpdates old updates (now w)) (tasks queue))
                      queue) w)
  end.
Proof.
  intros Hq. unfold updateTask, loadQueue, readJSON, bind. rewrite Hq.
  destruct (findIndex (hasId taskId) (tasks queue)) as [i|] eqn:Hi; [|reflexivity].
  destruct (findIndex_nth_error _ _ _ Hi) as (old & Hold & Hid).
  exists old. split; [assumption|]. split; [apply String.eqb_eq; assumption|].
  unfold currentTime. rewrite Hold. reflexivity.
Qed.

Lemma setCurrentTask_run (taskId : option string) (w : World) (queue : TaskQueue) :
  queueFile w = Content queue ->
  setCurrentTask taskId w = (Return tt, afterSave (withCurrent taskId queue) w).
Proof.
  intros Hq. unfold setCurrentTask, loadQueue, readJSON, bind. rewrite Hq.
  reflexivity.
Qed.

Lemma completeTask_run (taskId : string) (w : World) (queue : TaskQueue) :
  queueFile w = Content queue ->
  match findIndex (hasId taskId) (tasks queue) with
  | None => completeTask taskId w = (Throw (taskNotFound taskId), w)
  | Some i =>
      exists old,
        nth_error (tasks queue) i = Some old /\ id old = taskId /\
        completeTask taskId w =
        (Return tt, afterSave (queueAfterComplete taskId i old (now w) queue) w)
  end.
Proof.
  intros Hq. unfold completeTask, loadQueue, readJSON, bind. rewrite Hq.
  destruct (findIndex (hasId taskId) (tasks queue)) as [i|] eqn:Hi; [|reflexivity].
  destruct (findIndex_nth_error _ _ _ Hi) as (old & Hold & Hid).
  exists old. split; [assumption|]. split; [apply String.eqb_eq; assumption|].
  unfold currentTime. rewrite Hold. reflexivity.
Qed.

(** *** Ids along a sequence of operations *)

Lemma allIds_withLastUpdated (t : Z) (queue : TaskQueue) :
  allIds (withLastUpdated t queue) = allIds queue.
Proof. reflexivity. Qed.

Lemma allIds_queueAfterComplete taskId i old t queue :
  nth_error (tasks queue) i = Some old ->
  Permutation (allIds (queueAfterComplete taskId i old t queue)) (allIds queue).
Proof.
  intros Hold. unfold queueAfterComplete, allIds.
  match goal with |- context [if ?b then _ else _] => destruct b end; simpl;
    rewrite !map_app; simpl;
    rewrite (Permutation_map id (removeAt_perm _ _ _ Hold)); simpl;
    rewrite app_assoc;
    rewrite <- Permutation_middle, app_nil_r; reflexivity.
Qed.

(** One call leaves the queue file readable; an [add] creates a task with
    the generated id and adds that id to the queue, every other call keeps
    the ids of the queue. *)
Lemma runStoreOp_ids (op : StoreOp) (w : World) (queue : TaskQueue) :
  queueFile w = Content queue ->
  exists created w' queue',
    tryCatch (runStoreOp op) (fun _ => ret None) w = (Return created, w') /\
    queueFile w' = Content queue' /\
    match op with
    | OpAdd _ =>
        exists t, created = Some t /\ id t = generateTaskId queue /\
                  Permutation (allIds queue') (id t :: allIds queue)
    | _ => created = None /\ Permutation (allIds queue') (allIds queue)
    end.
Proof.
  intros Hq.
  assert (Hupd : forall taskId updates (k : Task -> M (option Task)),
             (forall t w0, k t w0 = (Return None, w0)) ->
             exists w' queue',
               tryCatch (bind (updateTask taskId updates) k) (fun _ => ret None) w
               = (Return None, w') /\
               queueFile w' = Content queue' /\
               Permutation (allIds queue') (allIds queue)).
  { intros taskId updates k Hk.
    pose proof (updateTask_run taskId updates w queue Hq) as Hrun.
    unfold tryCatch, bind.
    destruct (findIndex (hasId taskId) (tasks queue)) as [i|].
    - destruct Hrun as (old & Hold & _ & ->). rewrite Hk.
      eexists _, _. split; [reflexivity|]. split; [apply queueFile_afterSave|].
      rewrite allIds_withLastUpdated. unfold allIds. simpl. rewrite !map_app.
      rewrite (map_setAt id _ _ old); [reflexivity|assumption|reflexivity].
    - rewrite Hrun. exists w, queue. repeat split; [assumption|reflexivity]. }
  destruct op as [draft|taskId updates|taskId|taskId|taskId why|taskId].
  - eexists _, _, _. unfold tryCatch, runStoreOp, bind.
    rewrite (addTask_run draft w queue Hq). unfold ret.
    split; [reflexivity|]. split; [apply queueFile_afterSave|].
    eexists. split; [reflexivity|]. split; [reflexivity|].
    rewrite allIds_withLastUpdated. unfold allIds. simpl.
    rewrite !map_app. simpl. rewrite <- app_assoc. simpl.
    symmetry. apply Permutation_middle.
  - destruct (Hupd taskId updates (fun _ => ret None)) as (w' & q' & H1 & H2 & H3);
      [reflexivity|].
    exists None, w', q'. auto.
  - eexists _, _, _. unfold tryCatch, runStoreOp, bind.
    rewrite (setCurrentTask_run taskId w queue Hq). unfold ret.
    split; [reflexivity|]. split; [apply queueFile_afterSave|].
    split; reflexivity.
  - pose proof (completeTask_run taskId w queue Hq) as Hrun.
    unfold tryCatch, runStoreOp, bind.
    destruct (findIndex (hasId taskId) (tasks queue)) as [i|].
    + destruct Hrun as (old & Hold & _ & ->). unfold ret.
      eexists _, _, _. split; [reflexivity|]. split; [apply queueFile_afterSave|].
      split; [reflexivity|]. rewrite allIds_withLastUpdated.
      apply allIds_queueAfterComplete. assumption.
    + rewrite Hrun. unfold ret. exists None, w, queue.
      repeat split; [assumption|reflexivity].
  - unfold runStoreOp, rejectTask.
    destruct (Hupd taskId
                {| newType := None; newPriority := None; newTitle := None;
                   newDescription := None; newStatus := Some rejected;
                   newRejectionReason := Some (Some why) |}
                (fun _ => bind (ret tt) (fun _ => ret None)))
      as (w' & q' & H1 & H2 & H3); [reflexivity|].
    exists None, w', q'. split; [|auto].
    rewrite <- H1. unfold tryCatch, bind.
    destruct (updateTask taskId _ w) as [[t|e] w0]; reflexivity.
  - unfold runStoreOp, resetTask.
    destruct (Hupd taskId
                {| newType := None; newPriority := None; newTitle := None;
                   newDescription := None; newStatus := Some pending;
                   newRejectionReason := Some None |}
                (fun _ => bind (ret tt) (fun _ => ret None)))
      as (w' & q' & H1 & H2 & H3); [reflexivity|].
    exists None, w', q'. split; [|auto].
    rewrite <- H1. unfold tryCatch, bind.
    destruct (updateTask taskId _ w) as [[t|e] w0]; reflexivity.
Qed.

Lemma consecutiveIds_succ (m : N) (count : nat) :
  consecutiveIds m (S count) = formatTaskId (m + 1) :: consecutiveIds (m + 1) count.
Proof.
  unfold consecutiveIds. simpl. rewrite N.add_0_r. f_equal.
  rewrite <- seq_shift, map_map. apply map_ext. intros i. f_equal. lia.
Qed.

Lemma runStoreOps_ids (ops : list StoreOp) :
  forall (w : World) (queue : TaskQueue),
    queueFile w = Content queue ->
    exists created w' queue',
      runStoreOps ops w = (Return created, w') /\
      queueFile w' = Content queue' /\
      map id created = consecutiveIds (highestTaskNumber (allIds queue)) (countAdds ops) /\
      highestTaskNumber (allIds queue') =
        (highestTaskNumber (allIds queue) + N.of_nat (countAdds ops))%N /\
      (forall i, In i (allIds queue) \/ In i (map id created) -> In i (allIds queue')).
Proof.
  induction ops as [|op ops IH]; intros w queue Hq.
  - exists [], w, queue. simpl. repeat split; [assumption|lia|].
    intros i [H|[]]. assumption.
  - destruct (runStoreOp_ids op w queue Hq) as (c1 & w1 & q1 & Hrun1 & Hq1 & Hop).
    destruct (IH w1 q1 Hq1) as (more & w2 & q2 & Hrun2 & Hq2 & Hids & Hmax & Hkeep).
    exists (match c1 with Some t => t :: more | None => more end), w2, q2.
    split.
    { simpl. unfold bind at 1. rewrite Hrun1. unfold bind at 1. rewrite Hrun2.
      reflexivity. }
    split; [assumption|].
    destruct op as [draft|taskId updates|taskId|taskId|taskId why|taskId];
      try (destruct Hop as [-> Hperm];
           unfold countAdds in *; simpl;
           rewrite <- (highestTaskNumber_perm _ _ Hperm);
           split; [assumption|]; split; [assumption|];
           intros i [Hi|Hi]; apply Hkeep;
           [left; apply (Permutation_in _ (Permutation_sym Hperm)); assumption
           |right; assumption]).
    destruct Hop as (t & -> & Hid & Hperm).
    assert (Hm1 : highestTaskNumber (allIds q1) = (highestTaskNumber (allIds queue) + 1)%N).
    { rewrite (highestTaskNumber_perm _ _ Hperm). simpl.
      rewrite Hid, generateTaskId_highest, taskNumber_formatTaskId. lia. }
    unfold countAdds in *. simpl. fold (countAdds ops) in *.
    change (S (List.length (filter isAdd ops))) with (S (countAdds ops)).
    rewrite consecutiveIds_succ. rewrite Hids, Hm1, Hmax, Hm1.
    split; [rewrite Hid, generateTaskId_highest; reflexivity|].
    split; [lia|].
    intros i [Hi|[Hi|Hi]]; apply Hkeep.
    + left. apply (Permutation_in _ (Permutation_sym Hperm)). right. assumption.
    + left. apply (Permutation_in _ (Permutation_sym Hperm)). left. assumption.
    + right. rewrite Hids, Hm1. assumption.
Qed.

Lemma consecutiveIds_numbers (m : N) (count i : nat) (taskId : string) :
  nth_error (consecutiveIds m count) i = Some taskId ->
  taskNumber taskId = Some (m + 1 + N.of_nat i)%N.
Proof.
  unfold consecutiveIds. intros H.
  rewrite nth_error_map in H.
  destruct (nth_error (seq 0 count) i) as [k|] eqn:Hk; [|discriminate].
  injection H as <-.
  assert (Hlt : (i < List.length (seq 0 count))%nat)
    by (apply nth_error_Some; congruence).
  rewrite length_seq in Hlt.
  rewrite (nth_error_nth' _ 0%nat) in Hk by (rewrite length_seq; assumption).
  rewrite seq_nth in Hk by assumption. injection Hk as <-.
  apply taskNumber_formatTaskId.
Qed.

Lemma consecutiveIds_NoDup (m : N) (count : nat) : NoDup (consecutiveIds m count).
Proof.
  unfold consecutiveIds. apply Injective_map_NoDup.
  - intros i j H. apply formatTaskId_inj in H. lia.
  - apply seq_NoDup.
Qed.

(** C7. From a readable queue whose task numbers stay in the range of the
    integers JavaScript represents exactly: [generateTaskId] returns the id
    whose number is one more than the highest task number found in the
    active and the completed collections together, zero-padded to three
    digits, and no task of either collection has that id.  Along every
    sequence of store calls (adds interleaved with updates, completions,
    rejections, resets and changes of the current pointer, failed calls
    included) every add succeeds, the ids of the created tasks are those of
    the consecutive numbers after the initial highest number, they are
    pairwise distinct, their numbers increase strictly in creation order,
    and every id of the initial queue and every created id is still in the
    queue at the end. *)
Theorem generated_task_ids_fresh_and_increasing :
  forall (w : World) (queue : TaskQueue) (ops : list StoreOp),
    queueFile w = Content queue ->
    (highestTaskNumber (allIds queue) + N.of_nat (List.length ops) < 2 ^ 53)%N ->
    let m := highestTaskNumber (allIds queue) in
    (generateTaskId queue = ("task-" ++ JS.padStart 3 "0" (JS.decimal (m + 1)))%string
     /\ taskNumber (generateTaskId queue) = Some (m + 1)%N
     /\ (forall t, In t (tasks queue ++ completed queue) ->
           id t <> generateTaskId queue))
    /\ exists created w' queue',
         runStoreOps ops w = (Return created, w') /\
         queueFile w' = Content queue' /\
         map id created = consecutiveIds m (countAdds ops) /\
         NoDup (map id created) /\
         (forall i j a b,
            (i < j)%nat ->
            nth_error created i = Some a -> nth_error created j = Some b ->
            exists na nb,
              taskNumber (id a) = Some na /\ taskNumber (id b) = Some nb /\
              (m < na < nb)%N) /\
         (forall i, In i (allIds queue) \/ In i (map id created) ->
            In i (allIds queue')).
Proof.
  intros w queue ops Hq _ m. split.
  - split; [apply generateTaskId_highest|].
    split; [rewrite generateTaskId_highest; apply taskNumber_formatTaskId|].
    intros t. apply generateTaskId_fresh.
  - destruct (runStoreOps_ids ops w queue Hq)
      as (created & w' & queue' & Hrun & Hq' & Hids & _ & Hkeep).
    exists created, w', queue'. fold m in Hids.
    split; [assumption|]. split; [assumption|]. split; [assumption|].
    split; [rewrite Hids; apply consecutiveIds_NoDup|].
    split; [|assumption].
    intros i j a b Hij Ha Hb.
    assert (Hna : nth_error (map id created) i = Some (id a))
      by (rewrite nth_error_map, Ha; reflexivity).
    assert (Hnb : nth_error (map id created) j = Some (id b))
      by (rewrite nth_error_map, Hb; reflexivity).
    rewrite Hids in Hna, Hnb.
    apply consecutiveIds_numbers in Hna. apply consecutiveIds_numbers in Hnb.
    eexists _, _. split; [exact Hna|]. split; [exact Hnb|]. lia.
Qed.

Lemma generated_task_ids_witness :
  exists created w',
    runStoreOps sampleOps sampleWorld = (Return created, w') /\
    map id created = ["task-008"; "task-009"; "task-010"].
Proof.
  destruct (generated_task_ids_fresh_and_increasing sampleWorld sampleQueue
              sampleOps eq_refl eq_refl)
    as [_ (created & w' & queue' & Hrun & _ & Hids & _)].
  exists created, w'. split; [exact Hrun|exact Hids].
Defined.

Lemma getNextPendingTask_witness :
  getNextPendingTask sampleWorld
  = (Return (Some (sampleTask "task-005" high pending 2000)), sampleWorld).
Proof.
  destruct (getNextPendingTask_highest_priority_then_oldest sampleWorld
              sampleQueue eq_refl) as [_ H].
  destruct (H ltac:(discriminate)) as (next & before & after & Hrun & _).
  pose proof Hrun as Hnext. vm_compute in Hnext.
  injection Hnext as <-. exact Hrun.
Defined.

(* ====================================================================== *)
(** * Properties of the numbers *)
(* ====================================================================== *)

Section FloatFacts.

Local Open Scope Z_scope.

Lemma Prim2SF_inj (x y : float) : Prim2SF x = Prim2SF y -> x = y.
Proof.
  intros H. rewrite <- (SF2Prim_Prim2SF x), <- (SF2Prim_Prim2SF y), H. reflexivity.
Qed.

(** A finite number is within every non-negative tolerance of itself. *)
Lemma sub_self_zero (x : float) :
  isFiniteNumber x = true -> exists s, Prim2SF (x - x) = S754_zero s.
Proof.
  unfold isFiniteNumber. rewrite sub_spec.
  destruct (Prim2SF x) as [s|s| |s m e]; try discriminate; intros _.
  - exists false. destruct s; reflexivity.
  - exists false. unfold SF64sub, SFsub.
    rewrite Z.sub_diag. reflexivity.
Qed.

Lemma abs_sub_self_within (x tolerance : float) :
  isFiniteNumber x = true ->
  (0 <=? tolerance)%float = true ->
  (abs (x - x) <=? tolerance)%float = true.
Proof.
  intros Hx Ht. destruct (sub_self_zero x Hx) as [s Hs].
  rewrite leb_spec in *. rewrite abs_spec, Hs. simpl.
  change (Prim2SF 0) with (S754_zero false) in Ht.
  exact Ht.
Qed.

Lemma div_self_one (x : float) (s : bool) (m : positive) (e : Z) :
  Prim2SF x = S754_finite s m e -> (x / x)%float = 1%float.
Proof.
  intros Hx. apply Prim2SF_inj. rewrite div_spec, Hx.
  unfold SF64div, SFdiv, SFdiv_core_binary.
  replace (Zdigits2 (Z.pos m) + e - (Zdigits2 (Z.pos m) + e)) with 0 by lia.
  rewrite Z.sub_diag, xorb_nilpotent.
  change (Z.min (fexp prec emax 0) 0) with (-53).
  change (0 - -53) with 53.
  cbv beta iota zeta.
  assert (Hd : Z.div_eucl (Z.shiftl (Z.pos m) 53) (Z.pos m) = (2 ^ 53, 0)).
  { rewrite Z.shiftl_mul_pow2 by lia.
    pose proof (Z.div_eucl_eq (Z.pos m * 2 ^ 53) (Z.pos m)) as Heq.
    pose proof (Z.mod_pos_bound (Z.pos m * 2 ^ 53) (Z.pos m)) as Hb.
    unfold Z.modulo, Z.div in *.
    destruct (Z.div_eucl (Z.pos m * 2 ^ 53) (Z.pos m)) as [q r].
    assert (Hm : 0 < Z.pos m) by lia. specialize (Hb Hm). specialize (Heq ltac:(lia)).
    assert (r = 0 /\ q = 2 ^ 53) as [-> ->]; [|reflexivity].
    assert (Hr : r = Z.pos m * (2 ^ 53 - q)) by lia.
    assert (Hq : 2 ^ 53 - q = 0) by nia.
    split; [rewrite Hr, Hq; lia|lia]. }
  change IntDef.Z.div_eucl with Z.div_eucl.
  change IntDef.Z.shiftl with Z.shiftl.
  rewrite Hd.
  assert (Hl : new_location (Z.pos m) 0 = loc_Exact).
  { unfold new_location. destruct (Z.even (Z.pos m)); reflexivity. }
  rewrite Hl. vm_compute. reflexivity.
Qed.

Lemma digits2_pos_iter_xO (p k : positive) :
  digits2_pos (Pos.iter xO p k) = (digits2_pos p + k)%positive.
Proof.
  induction k as [|k IH] using Pos.peano_ind.
  - simpl. lia.
  - rewrite Pos.iter_succ. simpl. rewrite IH. lia.
Qed.

Lemma digits2_pos_bound (p : positive) :
  2 ^ (Z.pos (digits2_pos p) - 1) <= Z.pos p < 2 ^ Z.pos (digits2_pos p).
Proof.
  induction p as [p IH|p IH|]; simpl digits2_pos.
  - rewrite Pos2Z.inj_succ.
    replace (Z.succ (Z.pos (digits2_pos p)) - 1) with (Z.succ (Z.pos (digits2_pos p) - 1)) by lia.
    rewrite !Z.pow_succ_r by lia. lia.
  - rewrite Pos2Z.inj_succ.
    replace (Z.succ (Z.pos (digits2_pos p)) - 1) with (Z.succ (Z.pos (digits2_pos p) - 1)) by lia.
    rewrite !Z.pow_succ_r by lia. lia.
  - simpl. lia.
Qed.

Lemma digits2_pos_small (p : positive) :
  Z.pos p < 2 ^ 53 -> Z.pos (digits2_pos p) <= 53.
Proof.
  intros H. destruct (digits2_pos_bound p) as [Hlo _].
  destruct (Z_le_gt_dec (Z.pos (digits2_pos p)) 53) as [|Hgt]; [assumption|].
  exfalso.
  assert (2 ^ 53 <= 2 ^ (Z.pos (digits2_pos p) - 1)) by (apply Z.pow_le_mono_r; lia).
  lia.
Qed.

Lemma binary_round_aux_canonical (s : bool) (m : positive) (e : Z) :
  Z.pos (digits2_pos m) = 53 -> -1074 <= e <= 971 ->
  binary_round_aux prec emax s (Z.pos m) e loc_Exact = S754_finite s m e.
Proof.
  intros Hd He.
  assert (Hshift : fexp prec emax (Zdigits2 (Z.pos m) + e) - e = 0).
  { unfold fexp, Zdigits2. rewrite Hd.
    change (SpecFloat.emin prec emax) with (-1074). change prec with 53.
    change IntDef.Z.max with Z.max. lia. }
  unfold binary_round_aux, shr_fexp. rewrite Hshift. simpl shr.
  cbv beta iota. simpl loc_of_shr_record. simpl shr_m. simpl round_nearest_even.
  rewrite Hshift. simpl.
  destruct (Z.leb_spec e 971); [reflexivity|lia].
Qed.

(** The double of a positive integer below 2^53 is a finite number. *)
Lemma Prim2SF_ofZ_small (z : Z) :
  0 < z < 2 ^ 53 -> exists m e, Prim2SF (Num.ofZ z) = S754_finite false m e.
Proof.
  intros Hz. destruct z as [|p|p]; try lia.
  pose proof (digits2_pos_small p ltac:(lia)) as Hd.
  assert (Hpos : 0 < Z.pos (digits2_pos p)) by lia.
  unfold Num.ofZ, binary_normalize, binary_round.
  assert (Hf : fexp prec emax (Z.pos (digits2_pos p) + 0) = Z.pos (digits2_pos p) - 53).
  { unfold fexp. change (SpecFloat.emin prec emax) with (-1074). change prec with 53.
    change IntDef.Z.max with Z.max. lia. }
  rewrite Hf. unfold shl_align.
  destruct (Z.pos (digits2_pos p) - 53 - 0) as [|k|k] eqn:Hk; try lia.
  - rewrite binary_round_aux_canonical by lia.
    exists p, 0. apply Prim2SF_SF2Prim.
    unfold SpecFloat.valid_binary, bounded, canonical_mantissa.
    rewrite Z.add_0_r in Hf. rewrite Z.add_0_r, Hf.
    apply andb_true_iff. split; [apply Z.eqb_eq; lia|reflexivity].
  - rewrite binary_round_aux_canonical
      by (try rewrite digits2_pos_iter_xO; lia).
    eexists _, _. apply Prim2SF_SF2Prim.
    unfold SpecFloat.valid_binary, bounded, canonical_mantissa.
    rewrite digits2_pos_iter_xO.
    apply andb_true_iff. split.
    + apply Z.eqb_eq. unfold fexp.
      change (SpecFloat.emin prec emax) with (-1074). change prec with 53.
      change IntDef.Z.max with Z.max. lia.
    + apply Z.leb_le. change (emax - prec) with 971. lia.
Qed.

Lemma ofNat_div_self (n : nat) :
  (0 < n)%nat -> Z.of_nat n < 2 ^ 53 ->
  (Num.ofNat n / Num.ofNat n)%float = 1%float.
Proof.
  intros Hn Hb. unfold Num.ofNat.
  destruct (Prim2SF_ofZ_small (Z.of_nat n) ltac:(lia)) as (m & e & H).
  exact (div_self_one _ _ _ _ H).
Qed.

Lemma fullMatch_percentage (n : nat) :
  (0 < n)%nat -> Z.of_nat n < 2 ^ 53 ->
  Num.round ((Num.ofNat n / Num.ofNat n) * 100)%float = 100%float.
Proof.
  intros Hn Hb. rewrite (ofNat_div_self n Hn Hb). vm_compute. reflexivity.
Qed.

End FloatFacts.

(* ====================================================================== *)
(** * Properties of colour normalisation *)
(* ====================================================================== *)

(** ** Strings *)

Lemma append_assoc (a b c : string) : ((a ++ b) ++ c)%string = (a ++ (b ++ c))%string.
Proof. induction a as [|x a IH]; simpl; [|rewrite IH]; reflexivity. Qed.

Lemma rev_string_onto_app (s acc : string) :
  JS.rev_string_onto s acc = (JS.reverse s ++ acc)%string.
Proof.
  unfold JS.reverse. revert acc.
  induction s as [|c s IH]; intros acc; simpl; [reflexivity|].
  rewrite IH, (IH (String c EmptyString)).
  rewrite append_assoc. reflexivity.
Qed.

Lemma reverse_cons (c : ascii) (s : string) :
  JS.reverse (String c s) = (JS.reverse s ++ String c EmptyString)%string.
Proof. unfold JS.reverse at 1. simpl. apply rev_string_onto_app. Qed.

Lemma append_empty_r (s : string) : (s ++ "")%string = s.
Proof. induction s as [|c s IH]; simpl; [|rewrite IH]; reflexivity. Qed.

Lemma reverse_app (a b : string) :
  JS.reverse (a ++ b) = (JS.reverse b ++ JS.reverse a)%string.
Proof.
  induction a as [|c a IH]; simpl.
  - rewrite append_empty_r. reflexivity.
  - rewrite !reverse_cons, IH, append_assoc. reflexivity.
Qed.

Lemma reverse_involutive (s : string) : JS.reverse (JS.reverse s) = s.
Proof.
  induction s as [|c s IH]; [reflexivity|].
  rewrite reverse_cons, reverse_app, IH. reflexivity.
Qed.

Lemma reverse_head (s : string) :
  match JS.reverse s with
  | EmptyString => s = EmptyString
  | String z _ => lastChar s = Some z
  end.
Proof.
  induction s as [|c s IH]; [reflexivity|].
  rewrite reverse_cons.
  destruct (JS.reverse s) as [|z t] eqn:E; simpl.
  - subst s. reflexivity.
  - destruct s; [discriminate|]. exact IH.
Qed.

Lemma trim_unchanged (c : ascii) (s : string) :
  JS.isSpace c = false ->
  (forall z, lastChar (String c s) = Some z -> JS.isSpace z = false) ->
  JS.trim (String c s) = String c s.
Proof.
  intros Hc Hz. unfold JS.trim, JS.trimStart, JS.trimEnd. simpl JS.dropWhile.
  rewrite Hc.
  pose proof (reverse_head (String c s)) as Hh.
  destruct (JS.reverse (String c s)) as [|z t] eqn:E; [discriminate|].
  simpl. rewrite (Hz z Hh). rewrite <- E. apply reverse_involutive.
Qed.

Lemma trim_unchanged_text (text : string) (c : ascii) (rest : string) (z : ascii) :
  text = String c rest -> JS.isSpace c = false ->
  lastChar text = Some z -> JS.isSpace z = false ->
  JS.trim text = text.
Proof.
  intros -> Hc Hl Hz. apply trim_unchanged; [assumption|].
  intros z' Hz'. rewrite Hl in Hz'. injection Hz' as <-. assumption.
Qed.

Lemma lastChar_app (a : string) (c : ascii) (b : string) :
  lastChar (a ++ String c b) = lastChar (String c b).
Proof.
  induction a as [|x a IH]; [reflexivity|].
  rewrite <- IH. simpl String.append. cbn [lastChar].
  destruct (a ++ String c b)%string eqn:E; [destruct a; discriminate|].
  reflexivity.
Qed.

Lemma takeWhile_app (p : ascii -> bool) (s rest : string) :
  allChars p s = true ->
  match rest with String c _ => p c = false | EmptyString => True end ->
  JS.takeWhile p (s ++ rest) = s.
Proof.
  intros Hs Hr. induction s as [|c s IH]; simpl in *.
  - destruct rest as [|c rest]; simpl; [reflexivity|]. rewrite Hr. reflexivity.
  - apply andb_true_iff in Hs. destruct Hs as [Hc Hs].
    rewrite Hc, (IH Hs). reflexivity.
Qed.

Lemma drop_app (s rest : string) : JS.drop (String.length s) (s ++ rest) = rest.
Proof. induction s as [|c s IH]; simpl; [destruct rest; reflexivity|exact IH]. Qed.

Lemma decimal_digits (n : N) : allChars JS.isDigit (JS.decimal n) = true.
Proof.
  unfold JS.decimal. generalize (N.to_uint n). intros d.
  induction d; simpl; try rewrite IHd; reflexivity.
Qed.

Lemma decimal_nonempty (n : N) : JS.decimal n <> "".
Proof.
  unfold JS.decimal. destruct n as [|p]; [discriminate|].
  unfold N.to_uint. pose proof (DecimalPos.Unsigned.to_uint_nonnil p) as H.
  destruct (Pos.to_uint p); [contradiction| | | | | | | | | |]; discriminate.
Qed.

Lemma takeDigits_decimal (n : N) (rest : string) :
  match rest with String c _ => JS.isDigit c = false | EmptyString => True end ->
  takeDigits (JS.decimal n ++ rest) = Some (JS.decimal n, rest).
Proof.
  intros Hr. unfold takeDigits.
  rewrite (takeWhile_app JS.isDigit _ _ (decimal_digits n) Hr).
  destruct (JS.decimal n) eqn:E; [exfalso; exact (decimal_nonempty n E)|].
  rewrite <- E, drop_app. reflexivity.
Qed.

(** ** Matching [rgb()] and [rgba()] *)

Lemma digit_not_space (c : ascii) : JS.isDigit c = true -> JS.isSpace c = false.
Proof.
  unfold JS.isDigit, JS.isSpace. intros H.
  apply andb_true_iff in H. destruct H as [H1 H2].
  apply Nat.leb_le in H1. apply Nat.leb_le in H2.
  apply orb_false_iff. split.
  - apply andb_false_iff. right. apply Nat.leb_gt. lia.
  - apply Nat.eqb_neq. lia.
Qed.

Lemma numberChar_not_space (c : ascii) : isNumberChar c = true -> JS.isSpace c = false.
Proof.
  unfold isNumberChar. intros H. apply orb_true_iff in H.
  destruct H as [H|H]; [apply digit_not_space; assumption|].
  apply Ascii.eqb_eq in H. subst c. reflexivity.
Qed.

Lemma skipSpaces_number (s rest : string) :
  allChars isNumberChar s = true -> s <> "" -> skipSpaces (s ++ rest) = (s ++ rest)%string.
Proof.
  intros Hs Hne. destruct s as [|c s]; [contradiction|]. simpl in *.
  apply andb_true_iff in Hs. destruct Hs as [Hc _].
  unfold skipSpaces. simpl. rewrite (numberChar_not_space c Hc). reflexivity.
Qed.

Lemma digits_are_numberChars (s : string) :
  allChars JS.isDigit s = true -> allChars isNumberChar s = true.
Proof.
  induction s as [|c s IH]; simpl; [reflexivity|]. intros H.
  apply andb_true_iff in H. destruct H as [Hc Hs].
  unfold isNumberChar at 1. rewrite Hc, (IH Hs). reflexivity.
Qed.

Lemma skipSpaces_decimal (n : N) (rest : string) :
  skipSpaces (JS.decimal n ++ rest) = (JS.decimal n ++ rest)%string.
Proof.
  apply skipSpaces_number;
    [apply digits_are_numberChars, decimal_digits|apply decimal_nonempty].
Qed.

Lemma takeNumberChars_app (s rest : string) :
  allChars isNumberChar s = true -> s <> "" ->
  match rest with String c _ => isNumberChar c = false | EmptyString => True end ->
  takeNumberChars (s ++ rest) = Some rest.
Proof.
  intros Hs Hne Hr. unfold takeNumberChars.
  rewrite (takeWhile_app isNumberChar _ _ Hs Hr).
  destruct s as [|c t] eqn:E; [contradiction|].
  rewrite <- E, drop_app. reflexivity.
Qed.

Lemma matchRgbAt_rgbText (r g b : N) :
  matchRgbAt (rgbText r g b) = Some (JS.decimal r, JS.decimal g, JS.decimal b).
Proof.
  unfold rgbText, matchRgbAt.
  cbn [String.append JS.startsWith Ascii.eqb Bool.eqb andb JS.drop skipSpaces
       JS.dropWhile JS.isSpace expectChar andThen].
  change (skipSpaces (String "(" ?s)) with (String "(" s).
  simpl expectChar. cbn [andThen].
  rewrite skipSpaces_decimal, takeDigits_decimal by reflexivity. cbn [andThen].
  change (skipSpaces (", " ++ ?s)) with (", " ++ s)%string.
  simpl expectChar. cbn [andThen].
  change (skipSpaces (String " " ?s)) with (skipSpaces s).
  rewrite skipSpaces_decimal, takeDigits_decimal by reflexivity. cbn [andThen].
  simpl expectChar. cbn [andThen].
  change (skipSpaces (String " " ?s)) with (skipSpaces s).
  rewrite skipSpaces_decimal, takeDigits_decimal by reflexivity. cbn [andThen].
  reflexivity.
Qed.

Lemma matchRgbAt_rgbaText (r g b : N) (alpha : string) :
  allChars isNumberChar alpha = true -> alpha <> "" ->
  matchRgbAt (rgbaText r g b alpha)
  = Some (JS.decimal r, JS.decimal g, JS.decimal b).
Proof.
  intros Ha Hne.
  unfold rgbaText, matchRgbAt.
  cbn [String.append JS.startsWith Ascii.eqb Bool.eqb andb JS.drop skipSpaces
       JS.dropWhile JS.isSpace expectChar andThen].
  change (skipSpaces (String "(" ?s)) with (String "(" s).
  simpl expectChar. cbn [andThen].
  rewrite skipSpaces_decimal, takeDigits_decimal by reflexivity. cbn [andThen].
  change (skipSpaces (", " ++ ?s)) with (", " ++ s)%string.
  simpl expectChar. cbn [andThen].
  change (skipSpaces (String " " ?s)) with (skipSpaces s).
  rewrite skipSpaces_decimal, takeDigits_decimal by reflexivity. cbn [andThen].
  simpl expectChar. cbn [andThen].
  change (skipSpaces (String " " ?s)) with (skipSpaces s).
  rewrite skipSpaces_decimal, takeDigits_decimal by reflexivity. cbn [andThen].
  cbn [String.append].
  change (skipSpaces (String "," ?s)) with (String "," s). cbv beta iota.
  change (skipSpaces (String " " ?s)) with (skipSpaces s).
  rewrite (skipSpaces_number alpha _ Ha Hne).
  rewrite (takeNumberChars_app alpha _ Ha Hne) by reflexivity.
  reflexivity.
Qed.

Lemma matchRgb_at_start (s : string) m : matchRgbAt s = Some m -> matchRgb s = Some m.
Proof. intros H. destruct s; cbn [matchRgb]; rewrite H; reflexivity. Qed.

Lemma matchRgbAt_needs_rgb (s : string) m :
  matchRgbAt s = Some m -> JS.startsWith s "rgb" = true.
Proof.
  unfold matchRgbAt. destruct (JS.startsWith s "rgb"); [reflexivity|discriminate].
Qed.

Lemma matchRgb_needs_rgb (s : string) :
  JS.includes s "rgb" = false -> matchRgb s = None.
Proof.
  induction s as [|c s IH]; intros H.
  - reflexivity.
  - cbn [JS.includes] in H. apply orb_false_iff in H. destruct H as [H1 H2].
    cbn [matchRgb].
    destruct (matchRgbAt (String c s)) as [m|] eqn:E.
    + apply matchRgbAt_needs_rgb in E. rewrite E in H1. discriminate.
    + apply IH. assumption.
Qed.

Lemma append_nonempty_r (a b : string) : b <> "" -> (a ++ b)%string <> "".
Proof. intros H. destruct a; simpl; [assumption|discriminate]. Qed.

Lemma lastChar_append (a b : string) : b <> "" -> lastChar (a ++ b) = lastChar b.
Proof.
  intros H. destruct b as [|c b]; [contradiction|]. apply lastChar_app.
Qed.

Lemma lastChar_rgbText (r g b : N) : lastChar (rgbText r g b) = Some ")"%char.
Proof.
  unfold rgbText.
  repeat (rewrite lastChar_append
            by (repeat (apply append_nonempty_r); discriminate)).
  reflexivity.
Qed.

Lemma lastChar_rgbaText (r g b : N) (alpha : string) :
  lastChar (rgbaText r g b alpha) = Some ")"%char.
Proof.
  unfold rgbaText.
  repeat (rewrite lastChar_append
            by (repeat (apply append_nonempty_r); discriminate)).
  reflexivity.
Qed.

Lemma toUpperCase_app (a b : string) :
  JS.toUpperCase (a ++ b) = (JS.toUpperCase a ++ JS.toUpperCase b)%string.
Proof.
  unfold JS.toUpperCase. induction a as [|c a IH]; simpl; [|rewrite IH]; reflexivity.
Qed.

Lemma parseInt_of_decimal (n : N) : JS.parseInt (JS.decimal n) = n.
Proof. apply parseInt_decimal. Qed.

Lemma normalizeColorValue_of_match (text r g b : string) :
  JS.trim text = text -> JS.startsWith text "#" = false ->
  matchRgbAt text = Some (r, g, b) ->
  normalizeColorValue text
  = JS.toUpperCase ("#" ++ channelHex r ++ channelHex g ++ channelHex b).
Proof.
  intros Ht Hs Hm. unfold normalizeColorValue. rewrite Ht, Hs.
  rewrite (matchRgb_at_start _ _ Hm). reflexivity.
Qed.

Lemma normalizeColorValue_rgbText (r g b : N) :
  normalizeColorValue (rgbText r g b) = ("#" ++ hexByte r ++ hexByte g ++ hexByte b)%string.
Proof.
  assert (Ht : JS.trim (rgbText r g b) = rgbText r g b).
  { eapply trim_unchanged_text;
      [reflexivity|reflexivity|apply lastChar_rgbText|reflexivity]. }
  rewrite (normalizeColorValue_of_match (rgbText r g b) _ _ _ Ht eq_refl
             (matchRgbAt_rgbText r g b)).
  unfold channelHex, hexByte. rewrite !parseInt_decimal.
  rewrite !toUpperCase_app. reflexivity.
Qed.

Lemma normalizeColorValue_rgbaText (r g b : N) (alpha : string) :
  allChars isNumberChar alpha = true -> alpha <> "" ->
  normalizeColorValue (rgbaText r g b alpha)
  = ("#" ++ hexByte r ++ hexByte g ++ hexByte b)%string.
Proof.
  intros Ha Hne.
  assert (Ht : JS.trim (rgbaText r g b alpha) = rgbaText r g b alpha).
  { eapply trim_unchanged_text;
      [reflexivity|reflexivity|apply lastChar_rgbaText|reflexivity]. }
  rewrite (normalizeColorValue_of_match (rgbaText r g b alpha) _ _ _ Ht eq_refl
             (matchRgbAt_rgbaText r g b alpha Ha Hne)).
  unfold channelHex, hexByte. rewrite !parseInt_decimal.
  rewrite !toUpperCase_app. reflexivity.
Qed.

(** ** Six-digit results *)

Lemma hexByte_two_digits (n : N) :
  (n <= 255)%N ->
  String.length (hexByte n) = 2 /\ allChars isUpperHexDigit (hexByte n) = true.
Proof.
  intros Hn.
  assert (Hall : forallb
                   (fun k => (String.length (hexByte (N.of_nat k)) =? 2)%nat
                             && allChars isUpperHexDigit (hexByte (N.of_nat k)))
                   (seq 0 256) = true) by (vm_compute; reflexivity).
  rewrite forallb_forall in Hall.
  specialize (Hall (N.to_nat n)).
  rewrite N2Nat.id in Hall.
  assert (Hin : In (N.to_nat n) (seq 0 256)) by (apply in_seq; lia).
  apply Hall in Hin. apply andb_true_iff in Hin. destruct Hin as [H1 H2].
  apply Nat.eqb_eq in H1. split; assumption.
Qed.

Lemma length_append (a b : string) :
  String.length (a ++ b) = String.length a + String.length b.
Proof. induction a as [|c a IH]; simpl; [|rewrite IH]; reflexivity. Qed.

Lemma allChars_app (p : ascii -> bool) (a b : string) :
  allChars p (a ++ b) = allChars p a && allChars p b.
Proof.
  induction a as [|c a IH]; simpl; [reflexivity|].
  rewrite IH, andb_assoc. reflexivity.
Qed.

Lemma upper_hexDigit (c : ascii) :
  isHexDigit c = true -> isUpperHexDigit (JS.upperChar c) = true.
Proof.
  intros H.
  assert (Hall : forallb
                   (fun k => let c := ascii_of_nat k in
                             implb (isHexDigit c) (isUpperHexDigit (JS.upperChar c)))
                   (seq 0 256) = true) by (vm_compute; reflexivity).
  rewrite forallb_forall in Hall.
  specialize (Hall (nat_of_ascii c)). rewrite ascii_nat_embedding in Hall.
  assert (Hin : In (nat_of_ascii c) (seq 0 256)).
  { apply in_seq. pose proof (nat_ascii_bounded c). lia. }
  apply Hall in Hin. cbv zeta in Hin. rewrite H in Hin. exact Hin.
Qed.

Lemma hexDigit_not_space (c : ascii) : isHexDigit c = true -> JS.isSpace c = false.
Proof.
  intros H.
  assert (Hall : forallb
                   (fun k => let c := ascii_of_nat k in
                             implb (isHexDigit c) (negb (JS.isSpace c)))
                   (seq 0 256) = true) by (vm_compute; reflexivity).
  rewrite forallb_forall in Hall.
  specialize (Hall (nat_of_ascii c)). rewrite ascii_nat_embedding in Hall.
  assert (Hin : In (nat_of_ascii c) (seq 0 256)).
  { apply in_seq. pose proof (nat_ascii_bounded c). lia. }
  apply Hall in Hin. cbv zeta in Hin. rewrite H in Hin. simpl in Hin.
  apply negb_true_iff. exact Hin.
Qed.

Lemma allChars_lastChar (p : ascii -> bool) (s : string) (z : ascii) :
  allChars p s = true -> lastChar s = Some z -> p z = true.
Proof.
  induction s as [|c s IH]; [discriminate|].
  cbn [allChars]. intros H Hl. apply andb_true_iff in H. destruct H as [Hc Hs].
  destruct s as [|d s].
  - injection Hl as <-. assumption.
  - apply IH; assumption.
Qed.

Lemma length_toUpperCase (s : string) : String.length (JS.toUpperCase s) = String.length s.
Proof.
  unfold JS.toUpperCase. induction s as [|c s IH]; simpl; [|rewrite IH]; reflexivity.
Qed.

Lemma toUpperCase_hexDigits (s : string) :
  allChars isHexDigit s = true -> allChars isUpperHexDigit (JS.toUpperCase s) = true.
Proof.
  unfold JS.toUpperCase. induction s as [|c s IH]; simpl; [reflexivity|].
  intros H. apply andb_true_iff in H. destruct H as [Hc Hs].
  rewrite (upper_hexDigit c Hc), (IH Hs). reflexivity.
Qed.

(** ** Calls of [rgb] and [rgba], and what the pattern matches *)

Lemma startsWith_app (p rest : string) : JS.startsWith (p ++ rest) p = true.
Proof.
  induction p as [|c p IH]; simpl; [reflexivity|].
  rewrite Ascii.eqb_refl, IH. reflexivity.
Qed.

Lemma startsWith_split (s p : string) :
  JS.startsWith s p = true -> s = (p ++ JS.drop (String.length p) s)%string.
Proof.
  revert s. induction p as [|c p IH]; intros s; simpl; [reflexivity|].
  destruct s as [|d s]; [discriminate|].
  intros H. apply andb_true_iff in H. destruct H as [Hc Hs].
  apply Ascii.eqb_eq in Hc. subst d. simpl. f_equal. exact (IH s Hs).
Qed.

Lemma takeWhile_all (p : ascii -> bool) (s : string) :
  allChars p s = true -> JS.takeWhile p s = s.
Proof.
  induction s as [|c s IH]; simpl; [reflexivity|].
  intros H. apply andb_true_iff in H. destruct H as [Hc Hs].
  rewrite Hc, (IH Hs). reflexivity.
Qed.

Lemma takeWhile_drop (p : ascii -> bool) (s : string) :
  s = (JS.takeWhile p s ++ JS.drop (String.length (JS.takeWhile p s)) s)%string.
Proof.
  induction s as [|c s IH]; simpl; [reflexivity|].
  destruct (p c); simpl; [f_equal; exact IH|reflexivity].
Qed.

Lemma allChars_takeWhile (p : ascii -> bool) (s : string) :
  allChars p (JS.takeWhile p s) = true.
Proof.
  induction s as [|c s IH]; simpl; [reflexivity|].
  destruct (p c) eqn:E; simpl; [rewrite E, IH|]; reflexivity.
Qed.

Lemma takeWhile_dropWhile (p : ascii -> bool) (s : string) :
  s = (JS.takeWhile p s ++ JS.dropWhile p s)%string.
Proof.
  induction s as [|c s IH]; simpl; [reflexivity|].
  destruct (p c); simpl; [f_equal; exact IH|reflexivity].
Qed.

(** *** What a match is made of *)

Lemma skipSpaces_split (s : string) :
  exists blank : string, isBlank blank = true /\ s = (blank ++ skipSpaces s)%string.
Proof.
  exists (JS.takeWhile JS.isSpace s). split.
  - apply allChars_takeWhile.
  - apply takeWhile_dropWhile.
Qed.

Lemma expectChar_split (c : ascii) (s rest : string) :
  expectChar c s = Some rest -> s = String c rest.
Proof.
  destruct s as [|c' s]; simpl; [discriminate|].
  destruct (Ascii.eqb_spec c c') as [<-|]; [|discriminate].
  intros H. injection H as <-. reflexivity.
Qed.

Lemma expected_after_blank (c : ascii) (s rest : string) :
  expectChar c (skipSpaces s) = Some rest ->
  exists blank : string, isBlank blank = true /\ s = (blank ++ String c rest)%string.
Proof.
  intros H. apply expectChar_split in H.
  destruct (skipSpaces_split s) as (blank & Hb & Hs).
  exists blank. split; [exact Hb|]. rewrite <- H. exact Hs.
Qed.

Lemma takeDigits_split (s digits rest : string) :
  takeDigits s = Some (digits, rest) ->
  isDigits digits = true /\ s = (digits ++ rest)%string.
Proof.
  unfold takeDigits. intros H.
  assert (Hall := allChars_takeWhile JS.isDigit s).
  assert (Hs := takeWhile_drop JS.isDigit s).
  destruct (JS.takeWhile JS.isDigit s) as [|c d] eqn:E; [discriminate|].
  injection H as <- <-. split; [exact Hall|exact Hs].
Qed.

Lemma digits_after_blank (s digits rest : string) :
  takeDigits (skipSpaces s) = Some (digits, rest) ->
  exists blank : string,
    isBlank blank = true /\ isDigits digits = true /\
    s = (blank ++ digits ++ rest)%string.
Proof.
  intros H. apply takeDigits_split in H. destruct H as [Hd Hs].
  destruct (skipSpaces_split s) as (blank & Hb & Hs').
  exists blank. split; [exact Hb|]. split; [exact Hd|].
  rewrite <- Hs. exact Hs'.
Qed.

Lemma takeNumberChars_split (s rest : string) :
  takeNumberChars s = Some rest ->
  exists alpha : string, isDigitsAndDots alpha = true /\ s = (alpha ++ rest)%string.
Proof.
  unfold takeNumberChars. intros H.
  assert (Hall := allChars_takeWhile isNumberChar s).
  assert (Hs := takeWhile_drop isNumberChar s).
  destruct (JS.takeWhile isNumberChar s) as [|c d] eqn:E; [discriminate|].
  injection H as <-. exists (String c d). split; [exact Hall|exact Hs].
Qed.

Lemma andThen_some {A B} (o : option A) (k : A -> option B) (b : B) :
  andThen o k = Some b -> exists a, o = Some a /\ k a = Some b.
Proof. destruct o as [a|]; simpl; [intros H; exists a; auto|discriminate]. Qed.

(** What follows the third channel: the fourth argument, if there is one,
    white space and the closing parenthesis. *)
Lemma call_end_split (s rest : string) :
  andThen
    (match skipSpaces s with
     | String ","%char r =>
         andThen (takeNumberChars (skipSpaces r)) (fun s => Some (skipSpaces s))
     | _ => Some (skipSpaces s)
     end)
    (fun s => expectChar ")" s) = Some rest ->
  exists (argument : option (string * string * string)) (blank : string),
    match argument with
    | Some (beforeComma, afterComma, alpha) =>
        isBlank beforeComma && isBlank afterComma && isDigitsAndDots alpha
    | None => true
    end = true /\
    isBlank blank = true /\
    s = (fourthText argument ++ blank ++ String ")" rest)%string.
Proof.
  intros H. apply andThen_some in H. destruct H as (s' & Hs' & Hclose).
  apply expectChar_split in Hclose. subst s'.
  destruct (skipSpaces_split s) as (blank & Hb & Hs).
  destruct (skipSpaces s) as [|c r] eqn:E; [discriminate|].
  destruct (Ascii.eqb_spec c ","%char) as [->|Hc].
  - apply andThen_some in Hs'. destruct Hs' as (s2 & Hn & Hs2).
    injection Hs2 as Hs2.
    apply takeNumberChars_split in Hn. destruct Hn as (alpha & Ha & Hn).
    destruct (skipSpaces_split r) as (blank1 & Hb1 & Hr).
    destruct (skipSpaces_split s2) as (blank2 & Hb2 & Hs2').
    exists (Some (blank, blank1, alpha)), blank2.
    split; [rewrite Hb, Hb1, Ha; reflexivity|]. split; [exact Hb2|].
    rewrite Hs, Hr, Hn, Hs2', Hs2. cbn [fourthText].
    rewrite !append_assoc. reflexivity.
  - assert (Hsome : Some (String c r) = Some (String ")" rest)).
    { rewrite <- Hs'.
      destruct c as [[] [] [] [] [] [] [] []]; try reflexivity.
      exfalso. apply Hc. reflexivity. }
    injection Hsome as -> ->.
    exists None, blank. split; [reflexivity|]. split; [exact Hb|exact Hs].
Qed.

(** A match of the pattern at the first character is a call, and the
    groups are its channels. *)
Lemma matchRgbAt_is_call (s r g b : string) :
  matchRgbAt s = Some (r, g, b) ->
  exists c : RgbCall,
    startsWithCall s c /\ red c = r /\ green c = g /\ blue c = b.
Proof.
  unfold matchRgbAt. destruct (JS.startsWith s "rgb") eqn:Hstart; [|discriminate].
  apply startsWith_split in Hstart. cbn [String.length] in Hstart.
  set (s0 := JS.drop 3 s) in *. clearbody s0. cbv zeta.
  set (s1 := match s0 with String "a"%char r' => r' | _ => s0 end).
  assert (Hname : exists named : bool,
             s0 = ((if named then "a" else "") ++ s1)%string).
  { destruct s0 as [|c0 t]; [exists false; reflexivity|].
    destruct (Ascii.eqb_spec c0 "a"%char) as [->|Hc].
    - exists true. reflexivity.
    - exists false. subst s1.
      destruct c0 as [[] [] [] [] [] [] [] []]; try reflexivity.
      exfalso. apply Hc. reflexivity. }
  destruct Hname as (named & Hs0). clearbody s1.
  intros H.
  apply andThen_some in H. destruct H as (s2 & Hparen & H).
  apply expected_after_blank in Hparen. destruct Hparen as (w1 & Hw1 & Hs1).
  apply andThen_some in H. destruct H as ([r' s3] & Hred & H).
  apply digits_after_blank in Hred. destruct Hred as (w2 & Hw2 & Hr & Hs2).
  apply andThen_some in H. destruct H as (s4 & Hcomma1 & H).
  apply expected_after_blank in Hcomma1. destruct Hcomma1 as (w3 & Hw3 & Hs3).
  apply andThen_some in H. destruct H as ([g' s5] & Hgreen & H).
  apply digits_after_blank in Hgreen. destruct Hgreen as (w4 & Hw4 & Hg & Hs4).
  apply andThen_some in H. destruct H as (s6 & Hcomma2 & H).
  apply expected_after_blank in Hcomma2. destruct Hcomma2 as (w5 & Hw5 & Hs5).
  apply andThen_some in H. destruct H as ([b' s7] & Hblue & H).
  apply digits_after_blank in Hblue. destruct Hblue as (w6 & Hw6 & Hb & Hs6).
  assert (Hend : exists rest,
             andThen
               (match skipSpaces s7 with
                | String ","%char r0 =>
                    andThen (takeNumberChars (skipSpaces r0))
                      (fun s => Some (skipSpaces s))
                | _ => Some (skipSpaces s7)
                end)
               (fun s => expectChar ")" s) = Some rest
             /\ (r', g', b') = (r, g, b)).
  { match type of H with
    | andThen ?o _ = _ => destruct o as [s8|]; [|discriminate]
    end.
    cbn [andThen] in H |- *.
    destruct (expectChar ")" s8) as [rest|]; [|discriminate].
    exists rest. split; [reflexivity|]. cbn [andThen] in H.
    injection H as <- <- <-. reflexivity. }
  destruct Hend as (rest & Hend & Hgroups). injection Hgroups as <- <- <-.
  apply call_end_split in Hend. destruct Hend as (argument & w7 & Harg & Hw7 & Hs7).
  exists {| namedRgba := named; beforeParen := w1;
            beforeRed := w2; red := r'; afterRed := w3;
            beforeGreen := w4; green := g'; afterGreen := w5;
            beforeBlue := w6; blue := b';
            fourth := argument; beforeClose := w7 |}.
  split; [|repeat split; reflexivity].
  split.
  - unfold isCall. cbn [namedRgba beforeParen beforeRed red afterRed beforeGreen green afterGreen
         beforeBlue blue fourth beforeClose].
    rewrite Hw1, Hw2, Hr, Hw3, Hw4, Hg, Hw5, Hw6, Hb, Harg, Hw7. reflexivity.
  - exists rest. unfold callText. cbn [namedRgba beforeParen beforeRed red afterRed beforeGreen green afterGreen
         beforeBlue blue fourth beforeClose].
    rewrite Hstart, Hs0, Hs1, Hs2, Hs3, Hs4, Hs5, Hs6, Hs7.
    destruct named;
      repeat (first [rewrite append_assoc | progress cbn [String.append]]); reflexivity.
Qed.

(** *** A call is matched *)

Lemma space_not_digit (c : ascii) : JS.isSpace c = true -> JS.isDigit c = false.
Proof.
  intros H. destruct (JS.isDigit c) eqn:E; [|reflexivity].
  rewrite (digit_not_space c E) in H. discriminate.
Qed.

Lemma space_not_numberChar (c : ascii) : JS.isSpace c = true -> isNumberChar c = false.
Proof.
  intros H. destruct (isNumberChar c) eqn:E; [|reflexivity].
  rewrite (numberChar_not_space c E) in H. discriminate.
Qed.

(** The first character of white space followed by [c] has whatever
    property white space and [c] have. *)
Lemma head_after_blank (p : ascii -> bool) (blank : string) (c : ascii) (rest : string) :
  (forall x, JS.isSpace x = true -> p x = false) -> p c = false ->
  isBlank blank = true ->
  match (blank ++ String c rest)%string with
  | String x _ => p x = false
  | EmptyString => True
  end.
Proof.
  intros Hspace Hc Hb. destruct blank as [|x blank]; simpl; [exact Hc|].
  simpl in Hb. apply andb_true_iff in Hb. destruct Hb as [Hx _].
  apply Hspace. exact Hx.
Qed.

Lemma skipSpaces_blank (blank : string) (c : ascii) (rest : string) :
  isBlank blank = true -> JS.isSpace c = false ->
  skipSpaces (blank ++ String c rest) = String c rest.
Proof.
  intros Hb Hc. unfold skipSpaces.
  induction blank as [|x blank IH]; simpl.
  - rewrite Hc. reflexivity.
  - simpl in Hb. apply andb_true_iff in Hb. destruct Hb as [Hx Hb].
    rewrite Hx. exact (IH Hb).
Qed.

Lemma isDigits_inv (digits : string) :
  isDigits digits = true ->
  allChars JS.isDigit digits = true /\
  exists c rest, digits = String c rest /\ JS.isDigit c = true.
Proof.
  destruct digits as [|c rest]; [discriminate|]. cbn [isDigits]. intros H.
  split; [exact H|]. exists c, rest. split; [reflexivity|].
  simpl in H. apply andb_true_iff in H. apply H.
Qed.

Lemma isDigitsAndDots_inv (alpha : string) :
  isDigitsAndDots alpha = true ->
  allChars isNumberChar alpha = true /\ alpha <> "".
Proof.
  destruct alpha as [|c rest]; [discriminate|]. cbn [isDigitsAndDots]. intros H.
  split; [exact H|discriminate].
Qed.

Lemma takeDigits_after_blank (blank digits rest : string) :
  isBlank blank = true -> isDigits digits = true ->
  match rest with String c _ => JS.isDigit c = false | EmptyString => True end ->
  takeDigits (skipSpaces (blank ++ digits ++ rest)) = Some (digits, rest).
Proof.
  intros Hb Hd Hrest.
  destruct (isDigits_inv digits Hd) as (Hall & c & tail & -> & Hc).
  cbn [String.append]. rewrite (skipSpaces_blank _ _ _ Hb (digit_not_space c Hc)).
  change (String c (tail ++ rest)) with (String c tail ++ rest)%string.
  unfold takeDigits. rewrite (takeWhile_app JS.isDigit _ _ Hall Hrest).
  rewrite drop_app. reflexivity.
Qed.

Lemma expectChar_after_blank (blank : string) (c : ascii) (rest : string) :
  isBlank blank = true -> JS.isSpace c = false ->
  expectChar c (skipSpaces (blank ++ String c rest)) = Some rest.
Proof.
  intros Hb Hc. rewrite (skipSpaces_blank _ _ _ Hb Hc). simpl.
  rewrite Ascii.eqb_refl. reflexivity.
Qed.

Lemma name_end (named : bool) (blank rest : string) :
  isBlank blank = true ->
  match ((if named then "a" else "") ++ blank ++ String "(" rest)%string with
  | String "a"%char r => r
  | _ => ((if named then "a" else "") ++ blank ++ String "(" rest)%string
  end = (blank ++ String "(" rest)%string.
Proof.
  intros Hb. destruct named; [reflexivity|]. cbn [String.append].
  destruct blank as [|c blank]; [reflexivity|].
  simpl in Hb. apply andb_true_iff in Hb. destruct Hb as [Hc _].
  cbn [String.append].
  destruct c as [[] [] [] [] [] [] [] []]; try reflexivity.
  discriminate.
Qed.

Lemma call_end (argument : option (string * string * string)) (blank rest : string) :
  match argument with
  | Some (beforeComma, afterComma, alpha) =>
      isBlank beforeComma && isBlank afterComma && isDigitsAndDots alpha
  | None => true
  end = true ->
  isBlank blank = true ->
  let s := (fourthText argument ++ blank ++ String ")" rest)%string in
  match s with String c _ => JS.isDigit c = false | EmptyString => True end /\
  andThen
    (match skipSpaces s with
     | String ","%char r =>
         andThen (takeNumberChars (skipSpaces r)) (fun s => Some (skipSpaces s))
     | _ => Some (skipSpaces s)
     end)
    (fun s => expectChar ")" s) = Some rest.
Proof.
  intros Harg Hb s. subst s. destruct argument as [[[w1 w2] alpha]|].
  - apply andb_true_iff in Harg. destruct Harg as [Harg Ha].
    apply andb_true_iff in Harg. destruct Harg as [Hw1 Hw2].
    destruct (isDigitsAndDots_inv alpha Ha) as [Hall Hne].
    cbn [fourthText]. rewrite !append_assoc. cbn [String.append].
    split; [apply head_after_blank; [exact space_not_digit|reflexivity|exact Hw1]|].
    rewrite (skipSpaces_blank w1 "," _ Hw1 eq_refl).
    rewrite <- (append_assoc w2 alpha).
    assert (Hskip : skipSpaces ((w2 ++ alpha) ++ blank ++ String ")" rest)
                    = (alpha ++ blank ++ String ")" rest)%string).
    { rewrite append_assoc. destruct alpha as [|c tail]; [contradiction|].
      cbn [String.append]. apply skipSpaces_blank; [exact Hw2|].
      apply numberChar_not_space. simpl in Hall.
      apply andb_true_iff in Hall. apply Hall. }
    rewrite Hskip.
    rewrite (takeNumberChars_app alpha _ Hall Hne)
      by (apply head_after_blank; [exact space_not_numberChar|reflexivity|exact Hb]).
    cbn [andThen]. rewrite (skipSpaces_blank blank ")" rest Hb eq_refl).
    reflexivity.
  - cbn [fourthText String.append].
    split; [apply head_after_blank; [exact space_not_digit|reflexivity|exact Hb]|].
    rewrite (skipSpaces_blank blank ")" rest Hb eq_refl). reflexivity.
Qed.

(** The pattern matches a call at the first character, and the groups are
    its channels. *)
Lemma matchRgbAt_call (text : string) (c : RgbCall) :
  startsWithCall text c -> matchRgbAt text = Some (red c, green c, blue c).
Proof.
  intros [Hcall (rest & ->)].
  destruct c as [named w1 w2 r w3 w4 g w5 w6 b argument w7].
  unfold isCall in Hcall. cbn [namedRgba beforeParen beforeRed red afterRed beforeGreen green afterGreen
         beforeBlue blue fourth beforeClose] in Hcall.
  repeat (apply andb_true_iff in Hcall; destruct Hcall as [Hcall ?]).
  unfold callText. cbn [namedRgba beforeParen beforeRed red afterRed beforeGreen
                        green afterGreen beforeBlue blue fourth beforeClose].
  rewrite !append_assoc.
  destruct (call_end argument w7 rest) as [Hhead Hend]; [assumption..|].
  cbv zeta in Hhead, Hend.
  unfold matchRgbAt.
  cbn [String.append JS.startsWith Ascii.eqb Bool.eqb andb JS.drop]. cbv zeta.
  rewrite (name_end named w1 _) by assumption.
  rewrite (expectChar_after_blank w1 "(" _) by (assumption || reflexivity).
  cbn [andThen].
  rewrite (takeDigits_after_blank w2 r _)
    by first [assumption
             |apply head_after_blank; [exact space_not_digit|reflexivity|assumption]].
  cbn [andThen].
  rewrite (expectChar_after_blank w3 "," _) by (assumption || reflexivity).
  cbn [andThen].
  rewrite (takeDigits_after_blank w4 g _)
    by first [assumption
             |apply head_after_blank; [exact space_not_digit|reflexivity|assumption]].
  cbn [andThen].
  rewrite (expectChar_after_blank w5 "," _) by (assumption || reflexivity).
  cbn [andThen].
  rewrite (takeDigits_after_blank w6 b _) by assumption.
  cbn [andThen].
  match type of Hend with
  | andThen ?o _ = _ => destruct o as [s8|]; [|discriminate]
  end.
  cbn [andThen] in Hend |- *. rewrite Hend. reflexivity.
Qed.

(** *** The leftmost match *)

Lemma matchRgb_found (s : string) m :
  matchRgb s = Some m ->
  exists before rest : string, s = (before ++ rest)%string /\ matchRgbAt rest = Some m.
Proof.
  induction s as [|c s IH]; cbn [matchRgb].
  - destruct (matchRgbAt "") eqn:E; [|discriminate].
    intros H. injection H as <-. exists "", "". split; [reflexivity|exact E].
  - destruct (matchRgbAt (String c s)) eqn:E.
    + intros H. injection H as <-. exists "", (String c s). split; [reflexivity|exact E].
    + intros H. destruct (IH H) as (before & rest & -> & Hm).
      exists (String c before), rest. split; [reflexivity|exact Hm].
Qed.

Lemma matchRgb_leftmost (before s : string) m :
  matchRgbAt s = Some m ->
  (forall skipped later : string,
     before = (skipped ++ later)%string -> later <> "" ->
     matchRgbAt (later ++ s) = None) ->
  matchRgb (before ++ s) = Some m.
Proof.
  intros Hm. induction before as [|c before IH]; intros Hnone.
  - apply matchRgb_at_start. exact Hm.
  - assert (E := Hnone "" (String c before) eq_refl ltac:(discriminate)).
    cbn [String.append] in E. cbn [String.append matchRgb]. rewrite E.
    apply IH. intros skipped later -> Hlater.
    apply (Hnone (String c skipped) later eq_refl Hlater).
Qed.

Lemma matchRgb_firstCall (text : string) (c : RgbCall) :
  firstCall text c -> matchRgb text = Some (red c, green c, blue c).
Proof.
  intros (Hcall & before & after & -> & Hfirst).
  apply matchRgb_leftmost.
  - apply matchRgbAt_call. split; [exact Hcall|]. exists after. reflexivity.
  - intros skipped later Hb Hlater.
    destruct (matchRgbAt (later ++ callText c ++ after)) as [[[r g] b]|] eqn:E;
      [|reflexivity].
    destruct (matchRgbAt_is_call _ _ _ _ E) as (c' & Hc' & _).
    destruct (Hfirst skipped later c' Hb Hlater Hc').
Qed.

Lemma matchRgb_noCall (text : string) : noCall text -> matchRgb text = None.
Proof.
  intros Hno. destruct (matchRgb text) as [[[r g] b]|] eqn:E; [|reflexivity].
  destruct (matchRgb_found _ _ E) as (before & rest & Htext & Hm).
  destruct (matchRgbAt_is_call _ _ _ _ Hm) as (c & Hc & _).
  destruct (Hno before rest c Htext Hc).
Qed.

Lemma matchRgb_is_firstCall (text r g b : string) :
  matchRgb text = Some (r, g, b) ->
  exists c : RgbCall, firstCall text c /\ red c = r /\ green c = g /\ blue c = b.
Proof.
  revert r g b. induction text as [|x text IH]; intros r g b; cbn [matchRgb].
  - destruct (matchRgbAt "") as [m|] eqn:E; [|discriminate].
    vm_compute in E. discriminate.
  - destruct (matchRgbAt (String x text)) as [m|] eqn:E.
    + intros H. injection H as ->.
      destruct (matchRgbAt_is_call _ _ _ _ E) as (c & [Hcall (rest & Hrest)] & Hr & Hg & Hb).
      exists c. split; [|auto].
      split; [exact Hcall|]. exists "", rest. split; [exact Hrest|].
      intros skipped later c' Hs Hlater.
      destruct skipped; destruct later; try discriminate. contradiction.
    + intros H. destruct (IH r g b H) as (c & (Hcall & before & after & -> & Hfirst) & Hc).
      exists c. split; [|exact Hc].
      split; [exact Hcall|]. exists (String x before), after. split; [reflexivity|].
      intros skipped later c' Hs Hlater Hc'.
      destruct skipped as [|y skipped].
      * cbn [String.append] in Hs. subst later.
        assert (E' := matchRgbAt_call _ c' Hc'). cbn [String.append] in E'.
        rewrite E' in E. discriminate.
      * cbn [String.append] in Hs. injection Hs as _ Hs.
        exact (Hfirst skipped later c' Hs Hlater Hc').
Qed.

(** *** The colour of a call *)

Lemma channels_hex (r g b : string) :
  JS.toUpperCase ("#" ++ channelHex r ++ channelHex g ++ channelHex b)
  = ("#" ++ hexByte (JS.parseInt r) ++ hexByte (JS.parseInt g)
       ++ hexByte (JS.parseInt b))%string.
Proof. unfold channelHex, hexByte. rewrite !toUpperCase_app. reflexivity. Qed.

Lemma normalizeColorValue_firstCall (value : string) (c : RgbCall) :
  JS.startsWith (JS.trim value) "#" = false ->
  firstCall (JS.trim value) c ->
  normalizeColorValue value
  = ("#" ++ hexByte (JS.parseInt (red c)) ++ hexByte (JS.parseInt (green c))
       ++ hexByte (JS.parseInt (blue c)))%string.
Proof.
  intros Hs Hc. unfold normalizeColorValue. rewrite Hs.
  rewrite (matchRgb_firstCall _ _ Hc). apply channels_hex.
Qed.

Lemma normalizeColorValue_noCall (value : string) :
  JS.startsWith (JS.trim value) "#" = false ->
  noCall (JS.trim value) ->
  normalizeColorValue value = JS.trim value.
Proof.
  intros Hs Hno. unfold normalizeColorValue. rewrite Hs.
  rewrite (matchRgb_noCall _ Hno). reflexivity.
Qed.

Lemma matchRgb_none_at (before rest : string) :
  matchRgb (before ++ rest) = None -> matchRgbAt rest = None.
Proof.
  induction before as [|c before IH]; cbn [String.append].
  - destruct rest; cbn [matchRgb]; destruct (matchRgbAt _);
      first [discriminate|reflexivity].
  - cbn [matchRgb]. destruct (matchRgbAt (String c (before ++ rest))); [discriminate|].
    exact IH.
Qed.

Lemma matchRgb_none_noCall (text : string) : matchRgb text = None -> noCall text.
Proof.
  intros Hnone before rest c -> Hc.
  assert (Hat := matchRgb_none_at _ _ Hnone).
  rewrite (matchRgbAt_call _ c Hc) in Hat. discriminate.
Qed.

(** *** Values in which no call is written *)

Lemma includes_noCall (text : string) : JS.includes text "rgb" = false -> noCall text.
Proof. intros H. apply matchRgb_none_noCall, matchRgb_needs_rgb. exact H. Qed.

Lemma matchRgb_needs_r (s : string) : allChars notR s = true -> matchRgb s = None.
Proof.
  induction s as [|c s IH]; [reflexivity|]. cbn [allChars]. intros H.
  apply andb_true_iff in H. destruct H as [Hc Hs].
  cbn [matchRgb]. unfold matchRgbAt at 1. cbn [JS.startsWith].
  unfold notR in Hc. rewrite Ascii.eqb_sym in Hc.
  apply negb_true_iff in Hc. rewrite Hc. cbn [andb]. exact (IH Hs).
Qed.

Lemma allChars_implies (p q : ascii -> bool) (s : string) :
  (forall c, p c = true -> q c = true) -> allChars p s = true -> allChars q s = true.
Proof.
  intros Hpq. induction s as [|c s IH]; simpl; [reflexivity|].
  intros H. apply andb_true_iff in H. destruct H as [Hc Hs].
  rewrite (Hpq c Hc), (IH Hs). reflexivity.
Qed.

Lemma numberChar_notR (c : ascii) : isNumberChar c = true -> notR c = true.
Proof.
  intros H. unfold notR. destruct (Ascii.eqb_spec c "r") as [->|]; [|reflexivity].
  discriminate.
Qed.

(** The digits at the start of a number written with a dot end at a dot. *)
Lemma takeDigits_dotted (n rest : string) :
  allChars isNumberChar n = true -> allChars JS.isDigit n = false ->
  takeDigits (n ++ rest) = None \/
  exists digits after, takeDigits (n ++ rest) = Some (digits, String "." after).
Proof.
  intros Hn Hd.
  assert (H : exists digits after,
             JS.takeWhile JS.isDigit (n ++ rest) = digits /\
             JS.drop (String.length digits) (n ++ rest) = String "." after).
  { induction n as [|c n IH]; [discriminate|].
    cbn [allChars] in Hn, Hd. apply andb_true_iff in Hn. destruct Hn as [Hc Hn].
    cbn [String.append JS.takeWhile].
    destruct (JS.isDigit c) eqn:E.
    - cbn [andb] in Hd. destruct (IH Hn Hd) as (digits & after & Ht & Hdrop).
      exists (String c digits), after. rewrite Ht. split; [reflexivity|exact Hdrop].
    - unfold isNumberChar in Hc. rewrite E in Hc. cbn [orb] in Hc.
      apply Ascii.eqb_eq in Hc. subst c.
      exists "", (n ++ rest)%string. split; reflexivity. }
  destruct H as (digits & after & Ht & Hdrop). unfold takeDigits. rewrite Ht.
  destruct digits as [|c digits]; [left; reflexivity|].
  right. exists (String c digits), after. rewrite Hdrop. reflexivity.
Qed.

Lemma isDigits_false (n : string) :
  isDigitsAndDots n = true -> isDigits n = false -> allChars JS.isDigit n = false.
Proof. destruct n; [discriminate|]. intros _ H. exact H. Qed.

(** A channel written with a dot stops the match. *)
Ltac dotted_channel n Hn Hd :=
  let Hall := fresh "Hall" in
  let Hne := fresh "Hne" in
  let digits := fresh "digits" in
  let after := fresh "after" in
  destruct (isDigitsAndDots_inv n Hn) as [Hall Hne];
  rewrite (skipSpaces_number n _ Hall Hne);
  match goal with
  | |- context [takeDigits (n ++ ?rest)] =>
      destruct (takeDigits_dotted n rest Hall (isDigits_false n Hn Hd))
        as [->|(digits & after & ->)]; [reflexivity|];
      cbn [andThen]; change (skipSpaces (String "." after)) with (String "." after);
      reflexivity
  end.

Lemma channel_digits (n rest : string) (c : ascii) :
  isDigits n = true -> JS.isDigit c = false ->
  takeDigits (skipSpaces (n ++ String c rest)) = Some (n, String c rest).
Proof.
  intros Hn Hc. apply (takeDigits_after_blank "" n (String c rest) eq_refl Hn Hc).
Qed.

Lemma matchRgbAt_dotted (r g b : string) :
  isDigitsAndDots r = true -> isDigitsAndDots g = true -> isDigitsAndDots b = true ->
  isDigits r && isDigits g && isDigits b = false ->
  matchRgbAt (rgbOf r g b) = None.
Proof.
  intros Hr Hg Hb Hdot. unfold rgbOf, matchRgbAt.
  cbn [String.append JS.startsWith Ascii.eqb Bool.eqb andb JS.drop]. cbv zeta iota.
  change (skipSpaces (String "(" ?s)) with (String "(" s).
  cbn [expectChar Ascii.eqb Bool.eqb andb andThen].
  destruct (isDigits r) eqn:Dr.
  2:{ dotted_channel r Hr Dr. }
  rewrite (channel_digits r _ ","%char Dr eq_refl). cbn [andThen].
  change (skipSpaces (String "," ?s)) with (String "," s).
  cbn [expectChar Ascii.eqb Bool.eqb andb andThen].
  change (skipSpaces (String " " ?s)) with (skipSpaces s).
  destruct (isDigits g) eqn:Dg.
  2:{ dotted_channel g Hg Dg. }
  rewrite (channel_digits g _ ","%char Dg eq_refl). cbn [andThen].
  change (skipSpaces (String "," ?s)) with (String "," s).
  cbn [expectChar Ascii.eqb Bool.eqb andb andThen].
  change (skipSpaces (String " " ?s)) with (skipSpaces s).
  cbn [andb] in Hdot. dotted_channel b Hb Hdot.
Qed.

Lemma lastChar_rgbOf (r g b : string) : lastChar (rgbOf r g b) = Some ")"%char.
Proof.
  unfold rgbOf.
  repeat (rewrite lastChar_append
            by (repeat (apply append_nonempty_r); discriminate)).
  reflexivity.
Qed.

Lemma normalizeColorValue_dotted (r g b : string) :
  isDigitsAndDots r = true -> isDigitsAndDots g = true -> isDigitsAndDots b = true ->
  isDigits r && isDigits g && isDigits b = false ->
  normalizeColorValue (rgbOf r g b) = rgbOf r g b.
Proof.
  intros Hr Hg Hb Hdot.
  assert (Ht : JS.trim (rgbOf r g b) = rgbOf r g b).
  { eapply trim_unchanged_text;
      [reflexivity|reflexivity|apply lastChar_rgbOf|reflexivity]. }
  unfold normalizeColorValue. rewrite Ht.
  change (JS.startsWith (rgbOf r g b) "#") with false. cbv iota.
  assert (Hnone : matchRgb (rgbOf r g b) = None).
  { assert (Hat := matchRgbAt_dotted r g b Hr Hg Hb Hdot).
    unfold rgbOf in *. cbn [String.append] in *. cbn [matchRgb]. rewrite Hat.
    apply matchRgb_needs_r.
    assert (Hcons : forall p c s, allChars p (String c s) = p c && allChars p s)
      by reflexivity.
    destruct (isDigitsAndDots_inv r Hr) as [Ar _].
    destruct (isDigitsAndDots_inv g Hg) as [Ag _].
    destruct (isDigitsAndDots_inv b Hb) as [Ab _].
    repeat first [rewrite allChars_app | rewrite Hcons].
    rewrite (allChars_implies _ _ r numberChar_notR Ar).
    rewrite (allChars_implies _ _ g numberChar_notR Ag).
    rewrite (allChars_implies _ _ b numberChar_notR Ab).
    reflexivity. }
  rewrite Hnone. reflexivity.
Qed.

(** *** Six digits *)

Lemma isHexColor_hexBytes (r g b : N) :
  (r <= 255)%N -> (g <= 255)%N -> (b <= 255)%N ->
  isHexColor ("#" ++ hexByte r ++ hexByte g ++ hexByte b) = true.
Proof.
  intros Hr Hg Hb.
  destruct (hexByte_two_digits r Hr) as [Lr Ar].
  destruct (hexByte_two_digits g Hg) as [Lg Ag].
  destruct (hexByte_two_digits b Hb) as [Lb Ab].
  cbn [String.append isHexColor].
  rewrite !length_append, Lr, Lg, Lb, !allChars_app, Ar, Ag, Ab. reflexivity.
Qed.

(** A call written inside other text, with white space of its own. *)
Lemma embedded_call_is_first :
  firstCall "xrgb( 1 ,2,3 ) y"
    {| namedRgba := false; beforeParen := "";
       beforeRed := " "; red := "1"; afterRed := " ";
       beforeGreen := ""; green := "2"; afterGreen := "";
       beforeBlue := ""; blue := "3";
       fourth := None; beforeClose := " " |}.
Proof.
  split; [reflexivity|]. exists "x", " y". split; [reflexivity|].
  intros skipped later c' Hs Hlater [_ (rest & Hrest)].
  destruct skipped as [|x skipped].
  - cbn [String.append] in Hs. subst later. discriminate.
  - destruct skipped; destruct later; try discriminate. contradiction.
Qed.

(** C6 (amended). [normalizeColorValue] trims its input and then:
    - a value that starts with [#] is upper-cased, a four-character [#rgb]
      being expanded first by doubling each of its three digits; for [#]
      followed by three or by six hexadecimal digits the result is the
      six-digit upper-case form;
    - a value that does not start with [#] and in which a call of [rgb] or
      [rgba] is written becomes the colour of the first such call, whatever
      stands before or after it: [#] followed by each channel (read as a
      number below 2^53) in upper-case hexadecimal, padded to at least two
      digits, the fourth argument being ignored; with channels up to 255
      this is the six-digit upper-case form.  A call is the name followed
      by a parenthesis that holds three runs of digits separated by commas
      and, if there is one, a fourth argument of digits and dots, with any
      white space between these pieces.  So [rgb(r, g, b)] becomes the
      colour of [r], [g] and [b], and [rgba(r, g, b, a)] the same colour;
    - every other value, that is one that does not start with [#] and in
      which no call is written (one that does not contain the text [rgb],
      or [rgb(r, g, b)] with a channel written with a dot), is returned
      trimmed and otherwise unchanged: it is not upper-cased, and no
      channel is rounded.
    These cases leave no value out. *)
Theorem normalizeColorValue_forms :
  (forall value : string,
     JS.startsWith (JS.trim value) "#" = true ->
     normalizeColorValue value = JS.toUpperCase (expandShorthand (JS.trim value)))
  /\ (forall r g b : ascii,
        isHexDigit r = true -> isHexDigit g = true -> isHexDigit b = true ->
        let out := normalizeColorValue (String "#" (String r (String g (String b ""))))
        in out = JS.toUpperCase
                   (String "#" (String r (String r (String g (String g
                      (String b (String b ""))))))) /\ isHexColor out = true)
  /\ (forall digits : string,
        String.length digits = 6 -> allChars isHexDigit digits = true ->
        let out := normalizeColorValue (String "#" digits) in
        out = String "#" (JS.toUpperCase digits) /\ isHexColor out = true)
  /\ (forall (value : string) (c : RgbCall),
        JS.startsWith (JS.trim value) "#" = false ->
        firstCall (JS.trim value) c ->
        let r := JS.parseInt (red c) in
        let g := JS.parseInt (green c) in
        let b := JS.parseInt (blue c) in
        (r < 2 ^ 53)%N -> (g < 2 ^ 53)%N -> (b < 2 ^ 53)%N ->
        normalizeColorValue value = ("#" ++ hexByte r ++ hexByte g ++ hexByte b)%string
        /\ ((r <= 255)%N -> (g <= 255)%N -> (b <= 255)%N ->
            isHexColor (normalizeColorValue value) = true))
  /\ (forall r g b : N,
        (r < 2 ^ 53)%N -> (g < 2 ^ 53)%N -> (b < 2 ^ 53)%N ->
        normalizeColorValue (rgbText r g b)
        = ("#" ++ hexByte r ++ hexByte g ++ hexByte b)%string)
  /\ (forall (r g b : N) (alpha : string),
        (r < 2 ^ 53)%N -> (g < 2 ^ 53)%N -> (b < 2 ^ 53)%N ->
        allChars isNumberChar alpha = true -> alpha <> "" ->
        normalizeColorValue (rgbaText r g b alpha) = normalizeColorValue (rgbText r g b))
  /\ (forall r g b : N,
        (r <= 255)%N -> (g <= 255)%N -> (b <= 255)%N ->
        isHexColor (normalizeColorValue (rgbText r g b)) = true)
  /\ (forall value : string,
        JS.startsWith (JS.trim value) "#" = false ->
        noCall (JS.trim value) ->
        normalizeColorValue value = JS.trim value)
  /\ (forall value : string,
        JS.startsWith (JS.trim value) "#" = false ->
        JS.includes (JS.trim value) "rgb" = false ->
        normalizeColorValue value = JS.trim value)
  /\ (forall r g b : string,
        isDigitsAndDots r = true -> isDigitsAndDots g = true ->
        isDigitsAndDots b = true ->
        isDigits r && isDigits g && isDigits b = false ->
        normalizeColorValue (rgbOf r g b) = rgbOf r g b)
  /\ (forall value : string,
        JS.startsWith (JS.trim value) "#" = true
        \/ (exists c : RgbCall, firstCall (JS.trim value) c)
        \/ noCall (JS.trim value)).
Proof.
  split.
  { intros value H. unfold normalizeColorValue. rewrite H.
    destruct (JS.trim value) as [|h [|r [|g [|b [|x rest]]]]]; try reflexivity.
    cbn [JS.startsWith] in H. apply andb_true_iff in H. destruct H as [H _].
    apply Ascii.eqb_eq in H. subst h. reflexivity. }
  split.
  { intros r g b Hr Hg Hb out.
    assert (E : out = JS.toUpperCase
                        (String "#" (String r (String r (String g (String g
                           (String b (String b "")))))))).
    { unfold out, normalizeColorValue.
      rewrite (trim_unchanged_text _ "#" (String r (String g (String b ""))) b eq_refl
                 eq_refl eq_refl (hexDigit_not_space b Hb)).
      reflexivity. }
    split; [exact E|]. rewrite E.
    cbn [JS.toUpperCase JS.mapString isHexColor String.length Nat.eqb allChars andb].
    change (JS.upperChar "#") with "#"%char. cbv beta iota.
    rewrite !upper_hexDigit by assumption. reflexivity. }
  split.
  { intros digits Hlen Hhex out.
    assert (E : out = String "#" (JS.toUpperCase digits)).
    { unfold out, normalizeColorValue.
      destruct digits as [|c1 [|c2 [|c3 [|c4 [|c5 [|c6 [|c7 rest]]]]]]];
        try discriminate.
      assert (Hz : JS.isSpace c6 = false).
      { apply hexDigit_not_space.
        apply (allChars_lastChar isHexDigit _ c6 Hhex). reflexivity. }
      rewrite (trim_unchanged_text
                 (String "#" (String c1 (String c2 (String c3 (String c4
                    (String c5 (String c6 "")))))))
                 "#" _ c6 eq_refl eq_refl eq_refl Hz).
      reflexivity. }
    split; [exact E|]. rewrite E. cbn [isHexColor].
    rewrite length_toUpperCase, Hlen, toUpperCase_hexDigits by assumption.
    reflexivity. }
  split.
  { intros value c Hs Hc r g b _ _ _.
    rewrite (normalizeColorValue_firstCall value c Hs Hc). fold r g b.
    split; [reflexivity|]. apply isHexColor_hexBytes. }
  split; [intros r g b _ _ _; apply normalizeColorValue_rgbText|].
  split.
  { intros r g b alpha _ _ _ Ha Hne.
    rewrite normalizeColorValue_rgbaText by assumption.
    symmetry. apply normalizeColorValue_rgbText. }
  split.
  { intros r g b Hr Hg Hb. rewrite normalizeColorValue_rgbText.
    apply isHexColor_hexBytes; assumption. }
  split; [exact normalizeColorValue_noCall|].
  split.
  { intros value Hs Hno. apply normalizeColorValue_noCall; [exact Hs|].
    apply includes_noCall. exact Hno. }
  split; [exact normalizeColorValue_dotted|].
  intros value. destruct (JS.startsWith (JS.trim value) "#"); [left; reflexivity|].
  right. destruct (matchRgb (JS.trim value)) as [[[r g] b]|] eqn:E.
  - left. destruct (matchRgb_is_firstCall _ _ _ _ E) as (c & Hc & _).
    exists c. exact Hc.
  - right. apply matchRgb_none_noCall. exact E.
Qed.

(** C6 fails as stated: an unrecognised value ([red]) is returned as it is,
    not upper-cased, and the result is not a six-digit hexadecimal form; a
    fractional channel is not rounded (the value is not recognised); a
    channel above 255 gives more than six digits; a [#] value of another
    length stays of that length; and a value that only contains a call is
    replaced by the colour of the call. *)
Lemma normalizeColorValue_not_always_hex :
  normalizeColorValue "red" = "red" /\
  JS.toUpperCase "red" = "RED" /\
  isHexColor (normalizeColorValue "red") = false /\
  normalizeColorValue "rgb(12.5, 0, 0)" = "rgb(12.5, 0, 0)" /\
  normalizeColorValue "rgb(300, 2, 3)" = "#12C0203" /\
  normalizeColorValue "#abcd" = "#ABCD" /\
  normalizeColorValue "xrgb( 1 ,2,3 ) y" = "#010203".
Proof. repeat split; vm_compute; reflexivity. Qed.

Lemma normalizeColorValue_witness :
  normalizeColorValue "  #1aF " = "#11AAFF" /\
  normalizeColorValue "#3366ff" = "#3366FF" /\
  normalizeColorValue (rgbText 255 0 10) = "#FF000A" /\
  normalizeColorValue (rgbaText 255 0 10 "0.5") = "#FF000A" /\
  normalizeColorValue "xrgb( 1 ,2,3 ) y" = "#010203" /\
  normalizeColorValue " transparent " = "transparent" /\
  normalizeColorValue (rgbOf "12.5" "0" "0") = "rgb(12.5, 0, 0)".
Proof.
  destruct normalizeColorValue_forms
    as (Hhash & _ & Hsix & Hcall & Hrgb & Hrgba & _ & _ & Hother & Hdot & _).
  split; [rewrite (Hhash "  #1aF " eq_refl); reflexivity|].
  split; [apply (Hsix "3366ff" eq_refl eq_refl)|].
  split; [rewrite (Hrgb 255 0 10 eq_refl eq_refl eq_refl)%N; reflexivity|].
  split.
  { rewrite (Hrgba 255 0 10 "0.5" eq_refl eq_refl eq_refl eq_refl ltac:(discriminate))%N.
    rewrite (Hrgb 255 0 10 eq_refl eq_refl eq_refl)%N. reflexivity. }
  split.
  { exact (proj1 (Hcall "xrgb( 1 ,2,3 ) y" _ eq_refl embedded_call_is_first
                    eq_refl eq_refl eq_refl)). }
  split; [exact (Hother " transparent " eq_refl eq_refl)|].
  exact (Hdot "12.5" "0" "0" eq_refl eq_refl eq_refl eq_refl).
Defined.

(* ====================================================================== *)
(** * Properties of the token comparator *)
(* ====================================================================== *)

(** ** The comparison loops *)

Lemma list_sum_permutation {A} (f : A -> nat) (l l' : list A) :
  Permutation l l' -> list_sum (map f l) = list_sum (map f l').
Proof. induction 1; simpl; lia. Qed.

Lemma flat_map_permutation {A B} (f : A -> list B) (l l' : list A) :
  Permutation l l' -> Permutation (flat_map f l) (flat_map f l').
Proof.
  induction 1; simpl.
  - reflexivity.
  - apply Permutation_app_head. assumption.
  - rewrite !app_assoc. apply Permutation_app_tail. apply Permutation_app_comm.
  - etransitivity; eassumption.
Qed.

Section Loop.

Variable step : TokenComparisonResult -> string * string -> TokenComparisonResult.
Hypothesis step_adds : forall r entry, step r entry = addFindings r (alone step entry).

Lemma loop_findings (l : list (string * string)) (r : TokenComparisonResult) :
  let out := fold_left step l r in
  total out = total r /\
  matching out = matching r + list_sum (map (fun e => matching (alone step e)) l) /\
  mismatched out = mismatched r + list_sum (map (fun e => mismatched (alone step e)) l) /\
  missing out = missing r + list_sum (map (fun e => missing (alone step e)) l) /\
  tokenDiscrepancies out
  = tokenDiscrepancies r ++ flat_map (fun e => tokenDiscrepancies (alone step e)) l.
Proof.
  revert r. induction l as [|e l IH]; intros r; simpl.
  - repeat split; try lia. rewrite app_nil_r. reflexivity.
  - rewrite step_adds.
    destruct (IH (addFindings r (alone step e))) as (Ht & Hm & Hx & Hs & Hd).
    simpl in Ht, Hm, Hx, Hs, Hd.
    rewrite Ht, Hm, Hx, Hs, Hd.
    repeat split; try lia. rewrite app_assoc. reflexivity.
Qed.

Lemma loop_permutation (l l' : list (string * string)) (r : TokenComparisonResult) :
  Permutation l l' ->
  let out := fold_left step l r in
  let out' := fold_left step l' r in
  total out = total out' /\ matching out = matching out' /\
  mismatched out = mismatched out' /\ missing out = missing out' /\
  Permutation (tokenDiscrepancies out) (tokenDiscrepancies out').
Proof.
  intros Hp.
  destruct (loop_findings l r) as (Ht & Hm & Hx & Hs & Hd).
  destruct (loop_findings l' r) as (Ht' & Hm' & Hx' & Hs' & Hd').
  cbv zeta. rewrite Ht, Ht', Hm, Hm', Hx, Hx', Hs, Hs', Hd, Hd'.
  rewrite !(list_sum_permutation _ l l' Hp).
  repeat split.
  apply Permutation_app_head. apply flat_map_permutation. assumption.
Qed.

End Loop.

Lemma colorCheck_adds cssColors tolerance r entry :
  colorCheck cssColors tolerance r entry
  = addFindings r (alone (colorCheck cssColors tolerance) entry).
Proof.
  unfold alone, colorCheck, colorFinding, addFindings. destruct entry as [name designValue].
  destruct (found (matchingEntry name cssColors)) as [cssValue|];
    [destruct (String.eqb _ _); [|destruct (_ <=? _)%float]|];
    simpl; rewrite ?app_nil_r;
    unfold countMatching, countMismatched, countMissing; f_equal; lia.
Qed.

Lemma spaceCheck_adds cssSpacing tolerance type r entry :
  spaceCheck cssSpacing tolerance type r entry
  = addFindings r (alone (spaceCheck cssSpacing tolerance type) entry).
Proof.
  unfold alone, spaceCheck, spacingFinding, addFindings. destruct entry as [name designValue].
  destruct (found (matchingEntry name cssSpacing)) as [cssValue|];
    [destruct (parseSpacingValue designValue) as [designPx|],
              (parseSpacingValue cssValue) as [cssPx|];
     try destruct (_ <=? _)%float; try destruct (String.eqb designValue cssValue)|];
    simpl; rewrite ?app_nil_r;
    unfold countMatching, countMismatched, countMissing; f_equal; lia.
Qed.

(** The findings of a whole comparison, read off the loop. *)
Lemma colorChecks_findings designColors cssColors tolerance :
  let r := colorChecks designColors cssColors tolerance in
  let one := alone (colorCheck cssColors tolerance) in
  total r = List.length designColors /\
  matching r = list_sum (map (fun e => matching (one e)) designColors) /\
  mismatched r = list_sum (map (fun e => mismatched (one e)) designColors) /\
  missing r = list_sum (map (fun e => missing (one e)) designColors) /\
  tokenDiscrepancies r = flat_map (fun e => tokenDiscrepancies (one e)) designColors.
Proof.
  exact (loop_findings _ (colorCheck_adds cssColors tolerance) designColors
           (emptyComparison (List.length designColors))).
Qed.

Lemma spacingChecks_findings designSpacing cssSpacing tolerance type :
  let r := spacingChecks designSpacing cssSpacing tolerance type in
  let one := alone (spaceCheck cssSpacing tolerance type) in
  total r = List.length designSpacing /\
  matching r = list_sum (map (fun e => matching (one e)) designSpacing) /\
  mismatched r = list_sum (map (fun e => mismatched (one e)) designSpacing) /\
  missing r = list_sum (map (fun e => missing (one e)) designSpacing) /\
  tokenDiscrepancies r = flat_map (fun e => tokenDiscrepancies (one e)) designSpacing.
Proof.
  exact (loop_findings _ (spaceCheck_adds cssSpacing tolerance type) designSpacing
           (emptyComparison (List.length designSpacing))).
Qed.




Lemma comparisonOf_parts designTokens cssTokens options :
  let c := colorPart designTokens cssTokens options in
  let s := spacingPart designTokens cssTokens options in
  let b := radiusPart designTokens cssTokens options in
  let r := comparisonOf designTokens cssTokens options in
  totalChecked r = total c + total s + total b /\
  matchingCount r = matching c + matching s + matching b /\
  mismatchedCount r = mismatched c + mismatched s + mismatched b /\
  missingInCSSCount r = missing c + missing s + missing b /\
  discrepancies r = tokenDiscrepancies c ++ tokenDiscrepancies s ++ tokenDiscrepancies b /\
  matchPercentage r = percentageOf (matchingCount r) (totalChecked r) /\
  verified r
  = (Num.orDefault (numberOption (minMatchPercentage (mergeOptions DEFAULT_OPTIONS options))) 90
     <=? matchPercentage r)%float.
Proof. repeat split; reflexivity. Qed.

(** ** Lookups that reach the prototype *)

Lemma findMatchingToken_readsOwn (name : string) (tokens : TokenMap) :
  findMatchingToken name tokens
  = if readsOwn name tokens then option_map textValue (matchingEntry name tokens)
    else Some (inheritedValue name).
Proof.
  unfold findMatchingToken, readProperty, readsOwn, matchingEntry.
  destruct (property name tokens) as [value|]; [reflexivity|].
  destruct (isInherited name); [reflexivity|]. simpl.
  destruct (firstEntry _ tokens); [reflexivity|].
  destruct (JS.toLowerCase (JS.lastSegment name)); reflexivity.
Qed.

Lemma truthy_text (o : option string) :
  truthy (option_map textValue o) = option_map textValue (found o).
Proof. destruct o as [[|c s]|]; reflexivity. Qed.

(** The loop bodies throw exactly on a lookup that reaches the prototype. *)
Lemma colorCheck_returned cssColors tolerance r entry :
  compareColor cssColors tolerance r entry
  = if readsOwn (fst entry) cssColors
    then Return (colorCheck cssColors tolerance r entry)
    else Throw trimIsNotAFunction.
Proof.
  destruct entry as [name designValue]. unfold compareColor, colorCheck. simpl fst.
  rewrite findMatchingToken_readsOwn.
  destruct (readsOwn name cssColors); [|reflexivity].
  rewrite truthy_text. destruct (found (matchingEntry name cssColors)); reflexivity.
Qed.

Lemma spaceCheck_returned cssSpacing tolerance type r entry :
  compareSpace cssSpacing tolerance type r entry
  = if readsOwn (fst entry) cssSpacing
    then Return (spaceCheck cssSpacing tolerance type r entry)
    else Throw trimIsNotAFunction.
Proof.
  destruct entry as [name designValue]. unfold compareSpace, spaceCheck. simpl fst.
  rewrite findMatchingToken_readsOwn.
  destruct (readsOwn name cssSpacing); [|reflexivity].
  rewrite truthy_text. destruct (found (matchingEntry name cssSpacing)); reflexivity.
Qed.

Lemma forEach_returned {A B} (body : A -> B -> Outcome A) (step : A -> B -> A)
    (ok : B -> bool) (e : JSError) :
  (forall a x, body a x = if ok x then Return (step a x) else Throw e) ->
  forall l a,
    forEach body l a = if forallb ok l then Return (fold_left step l a) else Throw e.
Proof.
  intros Hbody. induction l as [|x l IH]; intros a; simpl; [reflexivity|].
  rewrite Hbody. destruct (ok x); simpl; [apply IH|reflexivity].
Qed.

Lemma colorChecks_returned designColors cssColors tolerance :
  compareColors designColors cssColors tolerance
  = if ownLookups designColors cssColors
    then Return (colorChecks designColors cssColors tolerance)
    else Throw trimIsNotAFunction.
Proof.
  unfold compareColors, colorChecks, ownLookups.
  apply (forEach_returned _ (colorCheck cssColors tolerance)
           (fun entry => readsOwn (fst entry) cssColors)).
  intros r entry. apply colorCheck_returned.
Qed.

Lemma spacingChecks_returned designSpacing cssSpacing tolerance type :
  compareSpacing designSpacing cssSpacing tolerance type
  = if ownLookups designSpacing cssSpacing
    then Return (spacingChecks designSpacing cssSpacing tolerance type)
    else Throw trimIsNotAFunction.
Proof.
  unfold compareSpacing, spacingChecks, ownLookups.
  apply (forEach_returned _ (spaceCheck cssSpacing tolerance type)
           (fun entry => readsOwn (fst entry) cssSpacing)).
  intros r entry. apply spaceCheck_returned.
Qed.

(** [compareDesignTokens] returns exactly when no lookup reaches the
    prototype. *)
Lemma compareDesignTokens_comparable designTokens cssTokens options :
  compareDesignTokens designTokens cssTokens options
  = if comparable designTokens cssTokens
    then Return (comparisonOf designTokens cssTokens options)
    else Throw trimIsNotAFunction.
Proof.
  unfold compareDesignTokens, comparable, comparisonOf, colorPart, spacingPart,
    radiusPart, whenReturned.
  cbv zeta. rewrite colorChecks_returned, spacingChecks_returned.
  destruct (ownLookups (colors designTokens) (colors cssTokens)); [|reflexivity].
  destruct (ownLookups (spacing designTokens) (spacing cssTokens)); [|reflexivity].
  destruct (borderRadius designTokens) as [designRadius|]; simpl.
  - rewrite spacingChecks_returned.
    destruct (ownLookups designRadius (orElse (borderRadius cssTokens) []));
      reflexivity.
  - reflexivity.
Qed.

Lemma compareDesignTokens_returned designTokens cssTokens options r :
  compareDesignTokens designTokens cssTokens options = Return r ->
  comparable designTokens cssTokens = true /\
  r = comparisonOf designTokens cssTokens options.
Proof.
  rewrite compareDesignTokens_comparable.
  destruct (comparable designTokens cssTokens); [|discriminate].
  intros [= <-]. split; reflexivity.
Qed.




(** ** Comparing a token set with itself *)

Lemma property_unique (tokens : TokenMap) (name value : string) :
  uniqueKeys tokens -> In (name, value) tokens -> property name tokens = Some value.
Proof.
  unfold uniqueKeys. induction tokens as [|[k v] tokens IH]; simpl; [intros _ []|].
  intros Hnd Hin. inversion Hnd as [|? ? Hk Hrest]; subst.
  destruct Hin as [[= -> ->]|Hin].
  - rewrite String.eqb_refl. reflexivity.
  - destruct (String.eqb_spec k name) as [->|_].
    + exfalso. apply Hk. apply (in_map fst) in Hin. exact Hin.
    + apply IH; assumption.
Qed.

Lemma matchingEntry_own (tokens : TokenMap) (name value : string) :
  uniqueKeys tokens -> In (name, value) tokens ->
  matchingEntry name tokens = Some value.
Proof.
  intros Hu Hin. unfold matchingEntry.
  rewrite (property_unique tokens name value Hu Hin). reflexivity.
Qed.

Lemma colorCheck_self (tokens : TokenMap) (tolerance : float) (name value : string) :
  uniqueKeys tokens -> In (name, value) tokens -> value <> "" ->
  alone (colorCheck tokens tolerance) (name, value) = oneMatch.
Proof.
  intros Hu Hin Hv. unfold alone, colorCheck, colorFinding.
  rewrite (matchingEntry_own tokens name value Hu Hin).
  destruct value as [|c value]; [contradiction|]. simpl found. cbv beta iota zeta.
  rewrite String.eqb_refl. reflexivity.
Qed.

Lemma spaceCheck_self (tokens : TokenMap) (tolerance : float)
    (type : DiscrepancyType) (name value : string) :
  uniqueKeys tokens -> In (name, value) tokens -> value <> "" ->
  (0 <=? tolerance)%float = true ->
  (forall x, parseSpacingValue value = Some x -> isFiniteNumber x = true) ->
  alone (spaceCheck tokens tolerance type) (name, value) = oneMatch.
Proof.
  intros Hu Hin Hv Ht Hfin. unfold alone, spaceCheck, spacingFinding.
  rewrite (matchingEntry_own tokens name value Hu Hin).
  destruct value as [|c value]; [contradiction|]. simpl found. cbv beta iota zeta.
  destruct (parseSpacingValue (String c value)) as [x|].
  - rewrite (abs_sub_self_within x tolerance (Hfin x eq_refl) Ht). reflexivity.
  - rewrite String.eqb_refl. reflexivity.
Qed.

Lemma all_match (one : string * string -> TokenComparisonResult)
    (l : list (string * string)) :
  (forall e, In e l -> one e = oneMatch) ->
  list_sum (map (fun e => matching (one e)) l) = List.length l /\
  list_sum (map (fun e => mismatched (one e)) l) = 0 /\
  list_sum (map (fun e => missing (one e)) l) = 0 /\
  flat_map (fun e => tokenDiscrepancies (one e)) l = [].
Proof.
  induction l as [|e l IH]; intros H; simpl; [repeat split|].
  destruct IH as (H1 & H2 & H3 & H4); [intros x Hx; apply H; right; assumption|].
  rewrite (H e (or_introl eq_refl)), H1, H2, H3, H4. repeat split.
Qed.

(** A token set compared with itself, among its entries. *)
Lemma comparisonOf_self :
  forall X : DesignTokens,
    uniqueKeys (colors X) -> uniqueKeys (spacing X) ->
    uniqueKeys (orElse (borderRadius X) []) ->
    (Z.of_nat (List.length (checkedTokens X)) < 2 ^ 53)%Z ->
    (forall name value, In (name, value) (checkedTokens X) -> value <> "") ->
    (forall name value x,
       In (name, value) (spacing X ++ orElse (borderRadius X) []) ->
       parseSpacingValue value = Some x -> isFiniteNumber x = true) ->
    let r := comparisonOf X X noOptions in
    matchPercentage r = 100%float /\ discrepancies r = [] /\ verified r = true /\
    matchingCount r = totalChecked r /\ mismatchedCount r = 0 /\
    missingInCSSCount r = 0.
Proof.
  intros X Hc Hs Hb Hsize Hne Hfin r.
  destruct (comparisonOf_parts X X noOptions)
    as (Ht & Hm & Hx & Hz & Hd & Hp & Hv).
  fold r in Ht, Hm, Hx, Hz, Hd, Hp, Hv.
  assert (Hcol : total (colorPart X X noOptions) = List.length (colors X) /\
                 matching (colorPart X X noOptions) = List.length (colors X) /\
                 mismatched (colorPart X X noOptions) = 0 /\
                 missing (colorPart X X noOptions) = 0 /\
                 tokenDiscrepancies (colorPart X X noOptions) = []).
  { unfold colorPart.
    destruct (colorChecks_findings (colors X) (colors X)
                (numberOption (colorTolerance (mergeOptions DEFAULT_OPTIONS noOptions))))
      as (E0 & E1 & E2 & E3 & E4).
    destruct (all_match
                (alone (colorCheck (colors X)
                   (numberOption (colorTolerance (mergeOptions DEFAULT_OPTIONS noOptions)))))
                (colors X)) as (A1 & A2 & A3 & A4).
    { intros [n v] Hin. apply colorCheck_self; [assumption|assumption|].
      apply (Hne n). unfold checkedTokens. apply in_or_app. left. assumption. }
    rewrite E0, E1, E2, E3, E4, A1, A2, A3, A4. repeat split. }
  assert (Hspace : forall (l : TokenMap) (type : DiscrepancyType),
             uniqueKeys l -> incl l (spacing X ++ orElse (borderRadius X) []) ->
             let p := spacingChecks l l
                        (numberOption (spacingTolerance (mergeOptions DEFAULT_OPTIONS noOptions)))
                        type in
             total p = List.length l /\ matching p = List.length l /\
             mismatched p = 0 /\ missing p = 0 /\ tokenDiscrepancies p = []).
  { intros l type Hu Hincl.
    destruct (spacingChecks_findings l l
                (numberOption (spacingTolerance (mergeOptions DEFAULT_OPTIONS noOptions)))
                type) as (E0 & E1 & E2 & E3 & E4).
    destruct (all_match
                (alone (spaceCheck l
                   (numberOption (spacingTolerance (mergeOptions DEFAULT_OPTIONS noOptions)))
                   type)) l) as (A1 & A2 & A3 & A4).
    { intros [n v] Hin. apply spaceCheck_self; [assumption|assumption| |reflexivity|].
      - apply (Hne n). unfold checkedTokens. apply in_or_app. right.
        apply Hincl. assumption.
      - intros x. apply (Hfin n). apply Hincl. assumption. }
    cbv zeta. rewrite E0, E1, E2, E3, E4, A1, A2, A3, A4. repeat split. }
  destruct Hcol as (C0 & C1 & C2 & C3 & C4).
  destruct (Hspace (spacing X) TSpacing Hs ltac:(apply incl_appl, incl_refl))
    as (S0 & S1 & S2 & S3 & S4).
  fold (spacingPart X X noOptions) in S0, S1, S2, S3, S4.
  assert (Hrad : total (radiusPart X X noOptions) = List.length (orElse (borderRadius X) []) /\
                 matching (radiusPart X X noOptions) = List.length (orElse (borderRadius X) []) /\
                 mismatched (radiusPart X X noOptions) = 0 /\
                 missing (radiusPart X X noOptions) = 0 /\
                 tokenDiscrepancies (radiusPart X X noOptions) = []).
  { unfold radiusPart. destruct (borderRadius X) as [radius|] eqn:Hr.
    - apply (Hspace radius TBorderRadius Hb). apply incl_appr, incl_refl.
    - repeat split. }
  destruct Hrad as (R0 & R1 & R2 & R3 & R4).
  assert (Hall : matchingCount r = totalChecked r) by lia.
  assert (Hpct : matchPercentage r = 100%float).
  { rewrite Hp, Hall. unfold percentageOf.
    destruct (Nat.ltb_spec 0 (totalChecked r)) as [Hpos|_]; [|reflexivity].
    apply fullMatch_percentage; [assumption|].
    rewrite Ht, C0, S0, R0. unfold checkedTokens in Hsize.
    rewrite !length_app in Hsize. lia. }
  split; [assumption|].
  split; [rewrite Hd, C4, S4, R4; reflexivity|].
  split; [rewrite Hv, Hpct; reflexivity|].
  split; [assumption|]. split; lia.
Qed.

Lemma property_of_key (tokens : TokenMap) (name value : string) :
  In (name, value) tokens -> property name tokens <> None.
Proof.
  induction tokens as [|[k v] tokens IH]; simpl; [intros []|].
  intros [[= -> ->]|Hin].
  - rewrite String.eqb_refl. discriminate.
  - destruct (String.eqb k name); [discriminate|exact (IH Hin)].
Qed.

(** The names of a map are keys of the map. *)
Lemma ownLookups_self (tokens : TokenMap) : ownLookups tokens tokens = true.
Proof.
  unfold ownLookups. apply forallb_forall. intros [name value] Hin.
  unfold readsOwn. simpl.
  destruct (property name tokens) eqn:E; [reflexivity|].
  exfalso. exact (property_of_key tokens name value Hin E).
Qed.

Lemma comparable_self (X : DesignTokens) : comparable X X = true.
Proof. unfold comparable. rewrite !ownLookups_self. reflexivity. Qed.

(** C5 (amended). Let X be a token set with unique keys and fewer than
    2^53 colour, spacing and border-radius tokens, in which no colour,
    spacing or border-radius value is the empty string and every spacing or
    border-radius value that parses as a length parses to a finite number.
    Comparing X with itself under the default options returns a result in
    which every token matches: the match percentage is 100, there is no
    discrepancy, the result is verified, and nothing is mismatched or
    missing. *)
Theorem compareDesignTokens_self :
  forall X : DesignTokens,
    uniqueKeys (colors X) -> uniqueKeys (spacing X) ->
    uniqueKeys (orElse (borderRadius X) []) ->
    (Z.of_nat (List.length (checkedTokens X)) < 2 ^ 53)%Z ->
    (forall name value, In (name, value) (checkedTokens X) -> value <> "") ->
    (forall name value x,
       In (name, value) (spacing X ++ orElse (borderRadius X) []) ->
       parseSpacingValue value = Some x -> isFiniteNumber x = true) ->
    exists r : ComparisonResult,
      compareDesignTokens X X noOptions = Return r /\
      matchPercentage r = 100%float /\ discrepancies r = [] /\ verified r = true /\
      matchingCount r = totalChecked r /\ mismatchedCount r = 0 /\
      missingInCSSCount r = 0.
Proof.
  intros X Hc Hs Hb Hsize Hne Hfin.
  exists (comparisonOf X X noOptions). split.
  - rewrite compareDesignTokens_comparable, comparable_self. reflexivity.
  - exact (comparisonOf_self X Hc Hs Hb Hsize Hne Hfin).
Qed.

Lemma float_neq (x y : float) : Prim2SF x <> Prim2SF y -> x <> y.
Proof. intros H E. apply H. rewrite E. reflexivity. Qed.

(** C5 fails as stated: a token whose value is the empty string is reported
    as not found in the set it was taken from, and a spacing value such as
    [.px], which parses to [NaN], is reported as different from itself. *)
Lemma compareDesignTokens_self_mismatch :
  (exists r,
     compareDesignTokens tokensWithEmptyValue tokensWithEmptyValue noOptions = Return r /\
     matchPercentage r <> 100%float /\
     discrepancies r = [notFound TColor "primary" ""]) /\
  (exists r,
     compareDesignTokens tokensWithDotSpacing tokensWithDotSpacing noOptions = Return r /\
     matchPercentage r <> 100%float /\
     exists d, discrepancies r = [d] /\ tokenName d = "gap" /\ actualValue d = ".px").
Proof.
  split.
  - exists (comparisonOf tokensWithEmptyValue tokensWithEmptyValue noOptions).
    split; [vm_compute; reflexivity|].
    split; [apply float_neq; vm_compute; discriminate|vm_compute; reflexivity].
  - exists (comparisonOf tokensWithDotSpacing tokensWithDotSpacing noOptions).
    split; [vm_compute; reflexivity|].
    split; [apply float_neq; vm_compute; discriminate|].
    eexists. split; [vm_compute; reflexivity|]. split; reflexivity.
Qed.

(** ** Iteration order *)

Lemma property_In (tokens : TokenMap) (name value : string) :
  property name tokens = Some value -> In (name, value) tokens.
Proof.
  induction tokens as [|[k v] tokens IH]; simpl; [discriminate|].
  destruct (String.eqb_spec k name) as [->|_].
  - intros [= ->]. left. reflexivity.
  - intros H. right. apply IH. assumption.
Qed.

Lemma property_permutation (tokens tokens' : TokenMap) (name : string) :
  uniqueKeys tokens -> Permutation tokens tokens' ->
  property name tokens = property name tokens'.
Proof.
  intros Hu Hp.
  assert (Hu' : uniqueKeys tokens').
  { unfold uniqueKeys in *. eapply Permutation_NoDup; [|exact Hu].
    apply Permutation_map. assumption. }
  destruct (property name tokens) as [v|] eqn:E.
  - symmetry. apply property_unique; [assumption|].
    apply (Permutation_in _ Hp). apply property_In. assumption.
  - destruct (property name tokens') as [v'|] eqn:E'; [|reflexivity].
    apply property_In in E'.
    apply (Permutation_in _ (Permutation_sym Hp)) in E'.
    rewrite (property_unique tokens name v' Hu E') in E. discriminate.
Qed.

Lemma find_filter {A} (p : A -> bool) (l : list A) :
  find p l = hd_error (filter p l).
Proof.
  induction l as [|x l IH]; simpl; [reflexivity|].
  destruct (p x); [reflexivity|assumption].
Qed.

Lemma filter_permutation {A} (p : A -> bool) (l l' : list A) :
  Permutation l l' -> Permutation (filter p l) (filter p l').
Proof.
  induction 1; simpl.
  - reflexivity.
  - destruct (p x); [apply perm_skip|]; assumption.
  - destruct (p x), (p y); try reflexivity. apply perm_swap.
  - etransitivity; eassumption.
Qed.

Lemma short_permutation {A} (l l' : list A) :
  Permutation l l' -> List.length l <= 1 -> l = l'.
Proof.
  intros Hp Hlen. destruct l as [|x [|y l]]; simpl in Hlen; try lia.
  - apply Permutation_nil in Hp. symmetry. assumption.
  - apply Permutation_length_1_inv in Hp. symmetry. assumption.
Qed.

Lemma firstEntry_permutation (p : string -> bool) (tokens tokens' : TokenMap) :
  Permutation tokens tokens' -> List.length (candidates p tokens) <= 1 ->
  firstEntry p tokens = firstEntry p tokens'.
Proof.
  intros Hp Hlen. unfold firstEntry. rewrite !find_filter.
  fold (candidates p tokens). fold (candidates p tokens').
  rewrite (short_permutation _ (candidates p tokens')); [reflexivity| |assumption].
  apply filter_permutation. assumption.
Qed.

Lemma matchingEntry_permutation (name : string) (tokens tokens' : TokenMap) :
  uniqueKeys tokens -> Permutation tokens tokens' -> unambiguous name tokens ->
  matchingEntry name tokens = matchingEntry name tokens'.
Proof.
  intros Hu Hp Hun. unfold matchingEntry.
  rewrite <- (property_permutation tokens tokens' name Hu Hp).
  destruct (property name tokens) as [v|] eqn:E; [reflexivity|].
  destruct Hun as [Hun|[Hn Hs]]; [exfalso; apply Hun; exact E|].
  rewrite <- (firstEntry_permutation _ tokens tokens' Hp Hn).
  destruct (firstEntry _ tokens); [reflexivity|].
  destruct (JS.toLowerCase (JS.lastSegment name)) eqn:Hbase; [reflexivity|].
  apply firstEntry_permutation; [assumption|].
  unfold suffixCandidates in Hs. rewrite Hbase in Hs. exact Hs.
Qed.

Lemma fold_left_ext_in {A B} (f g : A -> B -> A) (l : list B) (a : A) :
  (forall a x, In x l -> f a x = g a x) -> fold_left f l a = fold_left g l a.
Proof.
  revert a. induction l as [|x l IH]; intros a H; simpl; [reflexivity|].
  rewrite (H a x (or_introl eq_refl)). apply IH.
  intros a' y Hy. apply H. right. assumption.
Qed.

Lemma colorChecks_css_permutation designColors cssColors cssColors' tolerance :
  uniqueKeys cssColors -> Permutation cssColors cssColors' ->
  (forall name, In name (map fst designColors) -> unambiguous name cssColors) ->
  colorChecks designColors cssColors tolerance
  = colorChecks designColors cssColors' tolerance.
Proof.
  intros Hu Hp Hun. unfold colorChecks. apply fold_left_ext_in.
  intros r [name value] Hin. unfold colorCheck.
  rewrite (matchingEntry_permutation name cssColors cssColors' Hu Hp);
    [reflexivity|].
  apply Hun. apply (in_map fst) in Hin. exact Hin.
Qed.

Lemma spacingChecks_css_permutation designSpacing cssSpacing cssSpacing' tolerance type :
  uniqueKeys cssSpacing -> Permutation cssSpacing cssSpacing' ->
  (forall name, In name (map fst designSpacing) -> unambiguous name cssSpacing) ->
  spacingChecks designSpacing cssSpacing tolerance type
  = spacingChecks designSpacing cssSpacing' tolerance type.
Proof.
  intros Hu Hp Hun. unfold spacingChecks. apply fold_left_ext_in.
  intros r [name value] Hin. unfold spaceCheck.
  rewrite (matchingEntry_permutation name cssSpacing cssSpacing' Hu Hp);
    [reflexivity|].
  apply Hun. apply (in_map fst) in Hin. exact Hin.
Qed.

Lemma colorChecks_design_permutation designColors designColors' cssColors tolerance :
  Permutation designColors designColors' ->
  sameFindings (colorChecks designColors cssColors tolerance)
               (colorChecks designColors' cssColors tolerance).
Proof.
  intros Hp. unfold colorChecks.
  rewrite <- (Permutation_length Hp).
  exact (loop_permutation _ (colorCheck_adds cssColors tolerance) _ _ _ Hp).
Qed.

Lemma spacingChecks_design_permutation designSpacing designSpacing' cssSpacing
    tolerance type :
  Permutation designSpacing designSpacing' ->
  sameFindings (spacingChecks designSpacing cssSpacing tolerance type)
               (spacingChecks designSpacing' cssSpacing tolerance type).
Proof.
  intros Hp. unfold spacingChecks.
  rewrite <- (Permutation_length Hp).
  exact (loop_permutation _ (spaceCheck_adds cssSpacing tolerance type) _ _ _ Hp).
Qed.

(** The comparison among the entries does not depend on their order. *)
Lemma comparisonOf_order_independent :
  forall (design design' : DesignTokens) (css css' : CSSTokens)
         (options : ComparisonOptions),
    Permutation (colors design) (colors design') ->
    Permutation (spacing design) (spacing design') ->
    sameOptionalEntries (borderRadius design) (borderRadius design') ->
    Permutation (colors css) (colors css') ->
    Permutation (spacing css) (spacing css') ->
    Permutation (orElse (borderRadius css) []) (orElse (borderRadius css') []) ->
    uniqueKeys (colors css) -> uniqueKeys (spacing css) ->
    uniqueKeys (orElse (borderRadius css) []) ->
    (forall name, In name (map fst (colors design)) -> unambiguous name (colors css)) ->
    (forall name, In name (map fst (spacing design)) -> unambiguous name (spacing css)) ->
    (forall name, In name (map fst (orElse (borderRadius design) [])) ->
       unambiguous name (orElse (borderRadius css) [])) ->
    let r := comparisonOf design css options in
    let r' := comparisonOf design' css' options in
    matchPercentage r = matchPercentage r' /\ verified r = verified r' /\
    totalChecked r = totalChecked r' /\ matchingCount r = matchingCount r' /\
    mismatchedCount r = mismatchedCount r' /\
    missingInCSSCount r = missingInCSSCount r' /\
    extraInCSSCount r = extraInCSSCount r' /\
    Permutation (discrepancies r) (discrepancies r').
Proof.
  intros design design' css css' options Hdc Hds Hdb Hcc Hcs Hcb Huc Hus Hub
         Hac Has Hab r r'.
  destruct (comparisonOf_parts design css options)
    as (Ht & Hm & Hx & Hz & Hd & Hp & Hv).
  destruct (comparisonOf_parts design' css' options)
    as (Ht' & Hm' & Hx' & Hz' & Hd' & Hp' & Hv').
  fold r in Ht, Hm, Hx, Hz, Hd, Hp, Hv. fold r' in Ht', Hm', Hx', Hz', Hd', Hp', Hv'.
  assert (Hcol : sameFindings (colorPart design css options)
                              (colorPart design' css' options)).
  { unfold colorPart.
    rewrite (colorChecks_css_permutation _ _ (colors css') _ Huc Hcc Hac).
    apply colorChecks_design_permutation. assumption. }
  assert (Hspa : sameFindings (spacingPart design css options)
                              (spacingPart design' css' options)).
  { unfold spacingPart.
    rewrite (spacingChecks_css_permutation _ _ (spacing css') _ _ Hus Hcs Has).
    apply spacingChecks_design_permutation. assumption. }
  assert (Hrad : sameFindings (radiusPart design css options)
                              (radiusPart design' css' options)).
  { unfold radiusPart.
    destruct (borderRadius design) as [radius|], (borderRadius design') as [radius'|];
      simpl in Hdb; try contradiction.
    - rewrite (spacingChecks_css_permutation _ _ (orElse (borderRadius css') []) _ _
                 Hub Hcb Hab).
      apply spacingChecks_design_permutation. assumption.
    - repeat split. reflexivity. }
  destruct Hcol as (C0 & C1 & C2 & C3 & C4).
  destruct Hspa as (S0 & S1 & S2 & S3 & S4).
  destruct Hrad as (R0 & R1 & R2 & R3 & R4).
  assert (Et : totalChecked r = totalChecked r') by lia.
  assert (Em : matchingCount r = matchingCount r') by lia.
  assert (Ep : matchPercentage r = matchPercentage r')
    by (rewrite Hp, Hp', Et, Em; reflexivity).
  split; [assumption|].
  split; [rewrite Hv, Hv', Ep; reflexivity|].
  split; [assumption|]. split; [assumption|].
  split; [lia|]. split; [lia|]. split; [reflexivity|].
  rewrite Hd, Hd'.
  apply Permutation_app; [assumption|]. apply Permutation_app; assumption.
Qed.

Lemma forallb_permutation {A} (p : A -> bool) (l l' : list A) :
  Permutation l l' -> forallb p l = forallb p l'.
Proof.
  induction 1; simpl.
  - reflexivity.
  - rewrite IHPermutation. reflexivity.
  - destruct (p x), (p y); reflexivity.
  - etransitivity; eassumption.
Qed.

Lemma forallb_pointwise {A} (p q : A -> bool) (l : list A) :
  (forall x, p x = q x) -> forallb p l = forallb q l.
Proof.
  intros H. induction l as [|x l IH]; simpl; [reflexivity|].
  rewrite H, IH. reflexivity.
Qed.

(** Whether a lookup reaches the prototype does not depend on the order of
    the entries. *)
Lemma ownLookups_permutation (design design' css css' : TokenMap) :
  uniqueKeys css -> Permutation design design' -> Permutation css css' ->
  ownLookups design css = ownLookups design' css'.
Proof.
  intros Hu Hd Hc. unfold ownLookups.
  rewrite (forallb_permutation _ design design' Hd).
  apply forallb_pointwise. intros [name value]. unfold readsOwn. simpl.
  rewrite (property_permutation css css' name Hu Hc). reflexivity.
Qed.

(** C4 (amended). Take two calls with the same options whose expected sets
    have the same colour, spacing and border-radius entries, and whose
    extracted sets have the same entries, in any iteration orders, the
    extracted maps having unique keys.  If every expected token name is
    matched unambiguously in the extracted map of its category (the name is
    a key of the map, or each of the two fuzzy rules has at most one
    candidate key), then both calls end alike: either both return, with the
    same match percentage, the same verdict and the same counts, and
    discrepancy lists that are permutations of each other, or both throw
    the same error. *)
Theorem compareDesignTokens_order_independent :
  forall (design design' : DesignTokens) (css css' : CSSTokens)
         (options : ComparisonOptions),
    Permutation (colors design) (colors design') ->
    Permutation (spacing design) (spacing design') ->
    sameOptionalEntries (borderRadius design) (borderRadius design') ->
    Permutation (colors css) (colors css') ->
    Permutation (spacing css) (spacing css') ->
    Permutation (orElse (borderRadius css) []) (orElse (borderRadius css') []) ->
    uniqueKeys (colors css) -> uniqueKeys (spacing css) ->
    uniqueKeys (orElse (borderRadius css) []) ->
    (forall name, In name (map fst (colors design)) -> unambiguous name (colors css)) ->
    (forall name, In name (map fst (spacing design)) -> unambiguous name (spacing css)) ->
    (forall name, In name (map fst (orElse (borderRadius design) [])) ->
       unambiguous name (orElse (borderRadius css) [])) ->
    match compareDesignTokens design css options,
          compareDesignTokens design' css' options with
    | Return r, Return r' =>
        matchPercentage r = matchPercentage r' /\ verified r = verified r' /\
        totalChecked r = totalChecked r' /\ matchingCount r = matchingCount r' /\
        mismatchedCount r = mismatchedCount r' /\
        missingInCSSCount r = missingInCSSCount r' /\
        extraInCSSCount r = extraInCSSCount r' /\
        Permutation (discrepancies r) (discrepancies r')
    | Throw e, Throw e' => e = e'
    | _, _ => False
    end.
Proof.
  intros design design' css css' options Hdc Hds Hdb Hcc Hcs Hcb Huc Hus Hub
         Hac Has Hab.
  assert (Hsame : comparable design css = comparable design' css').
  { unfold comparable.
    rewrite (ownLookups_permutation _ _ _ _ Huc Hdc Hcc).
    rewrite (ownLookups_permutation _ _ _ _ Hus Hds Hcs).
    rewrite (ownLookups_permutation (orElse (borderRadius design) [])
               (orElse (borderRadius design') [])
               (orElse (borderRadius css) []) (orElse (borderRadius css') []) Hub);
      [reflexivity| |exact Hcb].
    destruct (borderRadius design), (borderRadius design'); simpl in *;
      try contradiction; [assumption|reflexivity]. }
  rewrite !compareDesignTokens_comparable, <- Hsame.
  destruct (comparable design css); [|reflexivity].
  exact (comparisonOf_order_independent design design' css css' options
           Hdc Hds Hdb Hcc Hcs Hcb Huc Hus Hub Hac Has Hab).
Qed.

(** C4 fails as stated: two extracted sets with the same key-value pairs in
    different iteration orders give different match percentages and
    discrepancy lists of different lengths, because the expected name
    [primary-color] matches both [primaryColor] and [primary_color] under
    the separator-insensitive rule and the first one in iteration order
    wins. *)
Lemma compareDesignTokens_order_dependent :
  Permutation (colors extractedCamelFirst) (colors extractedSnakeFirst) /\
  uniqueKeys (colors extractedCamelFirst) /\
  exists r r',
    compareDesignTokens expectedPrimary extractedCamelFirst noOptions = Return r /\
    compareDesignTokens expectedPrimary extractedSnakeFirst noOptions = Return r' /\
    matchPercentage r = 100%float /\ matchPercentage r' = 0%float /\
    matchPercentage r <> matchPercentage r' /\
    discrepancies r = [] /\ List.length (discrepancies r') = 1 /\
    ~ Permutation (discrepancies r) (discrepancies r').
Proof.
  split; [apply perm_swap|].
  split.
  { unfold uniqueKeys. simpl. repeat constructor; simpl; intuition discriminate. }
  exists (comparisonOf expectedPrimary extractedCamelFirst noOptions),
         (comparisonOf expectedPrimary extractedSnakeFirst noOptions).
  split; [vm_compute; reflexivity|]. split; [vm_compute; reflexivity|].
  split; [vm_compute; reflexivity|]. split; [vm_compute; reflexivity|].
  split; [apply float_neq; vm_compute; discriminate|].
  split; [vm_compute; reflexivity|]. split; [vm_compute; reflexivity|].
  intros Hp. apply Permutation_length in Hp. vm_compute in Hp. discriminate.
Qed.

Ltac distinct_keys :=
  unfold uniqueKeys; simpl; repeat constructor; simpl; intuition discriminate.

Ltac listed_entries H :=
  simpl in H;
  repeat match type of H with
         | _ \/ _ => destruct H as [H|H]
         | False => destruct H
         | (_, _) = (_, _) => injection H as <- <-
         | _ = _ => subst
         end.

Lemma compareDesignTokens_self_witness :
  exists r,
    compareDesignTokens sampleTokens sampleTokens noOptions = Return r /\
    matchPercentage r = 100%float /\ discrepancies r = [].
Proof.
  assert (Hne : forall name value,
             In (name, value) (checkedTokens sampleTokens) -> value <> "").
  { intros name value H. listed_entries H; discriminate. }
  assert (Hfin : forall name value x,
             In (name, value) (spacing sampleTokens ++ orElse (borderRadius sampleTokens) []) ->
             parseSpacingValue value = Some x -> isFiniteNumber x = true).
  { intros name value x H Hx. listed_entries H; vm_compute in Hx;
      try discriminate; injection Hx as <-; reflexivity. }
  destruct (compareDesignTokens_self sampleTokens
              ltac:(distinct_keys) ltac:(distinct_keys) ltac:(distinct_keys)
              eq_refl Hne Hfin) as (r & Hr & Hp & Hd & _).
  exists r. split; [exact Hr|]. split; assumption.
Defined.

Lemma compareDesignTokens_order_witness :
  exists r r',
    compareDesignTokens sampleTokens sampleExtracted noOptions = Return r /\
    compareDesignTokens sampleTokensReordered sampleExtractedReordered noOptions
    = Return r' /\
    matchPercentage r = matchPercentage r' /\
    Permutation (discrepancies r) (discrepancies r').
Proof.
  assert (Hc : forall name, In name (map fst (colors sampleTokens)) ->
                            unambiguous name (colors sampleExtracted)).
  { intros name H. listed_entries H; left; discriminate. }
  assert (Hs : forall name, In name (map fst (spacing sampleTokens)) ->
                            unambiguous name (spacing sampleExtracted)).
  { intros name H. listed_entries H; try (left; discriminate).
    right. split; vm_compute; lia. }
  assert (Hb : forall name,
             In name (map fst (orElse (borderRadius sampleTokens) [])) ->
             unambiguous name (orElse (borderRadius sampleExtracted) [])).
  { intros name H. right. split; simpl; lia. }
  pose proof (compareDesignTokens_order_independent
                sampleTokens sampleTokensReordered sampleExtracted
                sampleExtractedReordered noOptions
                ltac:(apply perm_swap)
                ltac:(simpl; apply Permutation_sym, Permutation_cons_append)
                ltac:(simpl; reflexivity)
                ltac:(apply perm_swap) ltac:(apply perm_swap) ltac:(simpl; reflexivity)
                ltac:(distinct_keys) ltac:(distinct_keys) ltac:(distinct_keys)
                Hc Hs Hb) as Hsame.
  destruct (compareDesignTokens sampleTokens sampleExtracted noOptions) as [r|e] eqn:E;
    [|vm_compute in E; discriminate].
  destruct (compareDesignTokens sampleTokensReordered sampleExtractedReordered noOptions)
    as [r'|e'] eqn:E'; [|contradiction].
  destruct Hsame as (Hp & _ & _ & _ & _ & _ & _ & Hd).
  exists r, r'. split; [reflexivity|]. split; [reflexivity|]. split; assumption.
Defined.

(* ====================================================================== *)
(** * Properties of the pipeline controller *)
(* ====================================================================== *)

(** ** Cleanup *)

Lemma cleanupV2_run (w : World) (queue : TaskQueue) :
  queueFile w = Content queue ->
  cleanupV2 w = (Return tt, afterCleanup queue w).
Proof.
  intros Hq. unfold cleanupV2, bind.
  rewrite (setCurrentTask_run None w queue Hq). reflexivity.
Qed.

Lemma cleanupV2_unreadable (w : World) (e : JSError) :
  queueFile w = Unreadable e -> cleanupV2 w = (Throw e, w).
Proof.
  intros Hq. unfold cleanupV2, bind, setCurrentTask, loadQueue, readJSON, bind.
  rewrite Hq. reflexivity.
Qed.

Lemma processTaskV2_run env task config skip (w w1 : World)
    (o : Outcome ProcessTaskResultV2) (queue : TaskQueue) :
  pipelineV2 env task config skip w = (o, w1) ->
  queueFile w1 = Content queue ->
  processTaskV2 env task config skip w = (Return (reported o), afterCleanup queue w1).
Proof.
  intros Hrun Hq. unfold processTaskV2, tryFinally, tryCatch. rewrite Hrun.
  destruct o as [r|e]; unfold ret; rewrite (cleanupV2_run w1 queue Hq); reflexivity.
Qed.

Lemma processTaskV2_unreadable env task config skip (w w1 : World)
    (o : Outcome ProcessTaskResultV2) (e : JSError) :
  pipelineV2 env task config skip w = (o, w1) ->
  queueFile w1 = Unreadable e ->
  processTaskV2 env task config skip w = (Throw e, w1).
Proof.
  intros Hrun Hq. unfold processTaskV2, tryFinally, tryCatch. rewrite Hrun.
  destruct o as [r|e']; unfold ret; rewrite (cleanupV2_unreadable w1 e Hq); reflexivity.
Qed.

(** C9 (amended). Take any run of [processTaskV2], whatever the agents do
    and however its [try] block ends: with the result of a completed task,
    with the result of an abort at some phase, or with an exception.  If the
    queue file can be read when the [try] block is over, then
    [processTaskV2] returns the result of the [try] block (an exception is
    reported as a failure); when it has returned, each of the four
    mailboxes reads back as an empty message list, and the queue is readable
    with a null current-task pointer and the tasks it had.  If the queue
    file cannot be read then, [processTaskV2] throws the error of that read
    and leaves everything as the [try] block left it: no mailbox is
    cleared.  A mailbox that is read right after it was cleared is an empty
    list, whatever it held before. *)
Theorem processTaskV2_cleans_up :
  forall (env : Env) (task : Task) (config : OrchestratorConfig) (skip : bool)
         (w w1 : World) (tried : Outcome ProcessTaskResultV2),
    pipelineV2 env task config skip w = (tried, w1) ->
    (forall queue1 : TaskQueue,
       queueFile w1 = Content queue1 ->
       exists (w' : World) (queue' : TaskQueue),
         processTaskV2 env task config skip w = (Return (reported tried), w') /\
         (forall target : MessageTarget,
            exists file,
              readMessages target w' = (Return file, w') /\ messages file = []) /\
         queueFile w' = Content queue' /\ current queue' = None /\
         tasks queue' = tasks queue1 /\ completed queue' = completed queue1) /\
    (forall e : JSError,
       queueFile w1 = Unreadable e ->
       processTaskV2 env task config skip w = (Throw e, w1)) /\
    (forall (target : MessageTarget) (before : World),
       exists file after,
         (clearMessages target ;;; readMessages target) before = (Return file, after) /\
         messages file = []).
Proof.
  intros env task config skip w w1 tried Hbody.
  split.
  { intros queue1 Hq1.
    exists (afterCleanup queue1 w1). eexists.
    split; [exact (processTaskV2_run _ _ _ _ _ _ _ _ Hbody Hq1)|].
    split.
    { intros target. exists (clearedAt (now w1)).
      split; [destruct target; reflexivity|reflexivity]. }
    split; [reflexivity|]. split; [reflexivity|].
    split; reflexivity. }
  split.
  { intros e Hq1. exact (processTaskV2_unreadable _ _ _ _ _ _ _ _ Hbody Hq1). }
  intros target before. exists (clearedAt (now before)).
  eexists. split; [|reflexivity]. destruct target; reflexivity.
Qed.

(** ** What a computation leaves unchanged *)

Section StepsRules.

Variable R : World -> World -> Prop.
Hypothesis R_refl : forall w, R w w.
Hypothesis R_trans : forall a b c, R a b -> R b c -> R a c.

Lemma steps_ret {A} (a : A) : Steps R (ret a).
Proof. intros w o w' [= _ <-]. apply R_refl. Qed.

Lemma steps_throw {A} (e : JSError) : Steps R (@throw A e).
Proof. intros w o w' [= _ <-]. apply R_refl. Qed.

Lemma steps_bind {A B} (c : M A) (k : A -> M B) :
  Steps R c -> (forall a, Steps R (k a)) -> Steps R (bind c k).
Proof.
  intros Hc Hk w o w' H. unfold bind in H.
  destruct (c w) as [[a|e] w1] eqn:E.
  - apply R_trans with w1; [exact (Hc _ _ _ E)|exact (Hk a _ _ _ H)].
  - injection H as _ <-. exact (Hc _ _ _ E).
Qed.

Lemma steps_tryCatch {A} (c : M A) (h : JSError -> M A) :
  Steps R c -> (forall e, Steps R (h e)) -> Steps R (tryCatch c h).
Proof.
  intros Hc Hh w o w' H. unfold tryCatch in H.
  destruct (c w) as [[a|e] w1] eqn:E.
  - injection H as _ <-. exact (Hc _ _ _ E).
  - apply R_trans with w1; [exact (Hc _ _ _ E)|exact (Hh e _ _ _ H)].
Qed.

Lemma steps_tryFinally {A} (c : M A) (f : M unit) :
  Steps R c -> Steps R f -> Steps R (tryFinally c f).
Proof.
  intros Hc Hf w o w' H. unfold tryFinally in H.
  destruct (c w) as [o1 w1] eqn:E.
  destruct (f w1) as [[u|e] w2] eqn:F; injection H as _ <-;
    (apply R_trans with w1; [exact (Hc _ _ _ E)|exact (Hf _ _ _ F)]).
Qed.

Lemma steps_currentTime : Steps R currentTime.
Proof. intros w o w' [= _ <-]. apply R_refl. Qed.

Lemma steps_readJSON {T} (file : World -> File T) : Steps R (readJSON file).
Proof.
  intros w o w' H. unfold readJSON in H.
  destruct (file w); injection H as _ <-; apply R_refl.
Qed.

Lemma steps_extractCSSTokens (env : Env) : Steps R (extractCSSTokens env).
Proof. intros w o w' [= _ <-]. apply R_refl. Qed.

Lemma steps_evaluate {A} (result : Outcome A) : Steps R (evaluate result).
Proof. intros w o w' [= _ <-]. apply R_refl. Qed.

End StepsRules.

(** *** Review invocations *)

Lemma noReviewCall_refl (w : World) : noReviewCall w w.
Proof. exists []. split; [symmetry; apply app_nil_r|intros []]. Qed.

Lemma noReviewCall_trans (a b c : World) :
  noReviewCall a b -> noReviewCall b c -> noReviewCall a c.
Proof.
  intros (l1 & E1 & N1) (l2 & E2 & N2). exists (l1 ++ l2). split.
  - rewrite E2, E1, app_assoc. reflexivity.
  - intros H. apply in_app_or in H. tauto.
Qed.

Lemma noReviewCall_same (w w' : World) :
  invocations w' = invocations w -> noReviewCall w w'.
Proof. intros E. exists []. rewrite E, app_nil_r. split; [reflexivity|intros []]. Qed.

Lemma steps_writeJSON {T} (R : World -> World -> Prop)
    (set : File T -> World -> World) (data : T) :
  (forall w, R w (set (Content data) w)) -> Steps R (writeJSON set data).
Proof. intros H w o w' [= _ <-]. apply H. Qed.

Lemma steps_runClaudeAgent_other env (name : string) prompt options :
  name <> "review" -> Steps noReviewCall (runClaudeAgent env name prompt options).
Proof.
  intros Hne w o w' H. unfold runClaudeAgent in H.
  destruct (claudeAgent env name prompt options w) as [result w1].
  injection H as _ <-. exists [name]. split; [reflexivity|].
  intros [E|[]]. apply Hne. exact E.
Qed.

Ltac steps_rules R Hrefl Htrans :=
  first [ match goal with |- forall _, _ => intro end
        | apply (steps_ret R Hrefl)
        | apply (steps_throw R Hrefl)
        | apply (steps_currentTime R Hrefl)
        | apply (steps_readJSON R Hrefl)
        | apply (steps_extractCSSTokens R Hrefl)
        | apply (steps_evaluate R Hrefl)
        | apply (steps_bind R Htrans)
        | apply (steps_tryCatch R Htrans)
        | apply (steps_tryFinally R Htrans)
        | progress cbv beta zeta
        | match goal with
          | |- Steps _ (if ?b then _ else _) => destruct b
          | |- Steps _ (match ?x with _ => _ end) => destruct x
          end ].

Ltac no_review_step :=
  first [ steps_rules noReviewCall noReviewCall_refl noReviewCall_trans
        | apply steps_writeJSON; intros; apply noReviewCall_same; reflexivity
        | apply steps_runClaudeAgent_other; discriminate
        | match goal with
          | |- Steps _ (recordQueueWrite _) =>
              intros ? ? ? [= _ <-]; apply noReviewCall_same; reflexivity
          | |- Steps _ (logTaskCompletion _) =>
              intros ? ? ? [= _ <-]; apply noReviewCall_same; reflexivity
          end ].

Ltac no_review := repeat no_review_step.

Lemma updateAgentStatus_noReviewCall agent newStatus task :
  Steps noReviewCall (updateAgentStatus agent newStatus task).
Proof. unfold updateAgentStatus, loadStatus, saveStatus. no_review. Qed.

Lemma clearMessages_noReviewCall target : Steps noReviewCall (clearMessages target).
Proof. unfold clearMessages. no_review. Qed.

Lemma saveQueue_noReviewCall queue : Steps noReviewCall (saveQueue queue).
Proof. unfold saveQueue. no_review. Qed.

Lemma updateTask_noReviewCall taskId updates :
  Steps noReviewCall (updateTask taskId updates).
Proof. unfold updateTask, loadQueue. no_review. Qed.

Lemma setCurrentTask_noReviewCall taskId : Steps noReviewCall (setCurrentTask taskId).
Proof. unfold setCurrentTask, loadQueue. no_review. Qed.

Lemma phasesBeforeReview_noReviewCall env task config skip :
  Steps noReviewCall (phasesBeforeReview env task config skip).
Proof.
  unfold phasesBeforeReview, runPlanner, runDesigner, runTechLead, runDeveloper,
    updateTaskStatus, readMessages.
  repeat (first [ apply setCurrentTask_noReviewCall
                | apply updateTask_noReviewCall
                | apply updateAgentStatus_noReviewCall
                | apply clearMessages_noReviewCall
                | no_review_step ]).
Qed.

(** *** Runs that return *)

Lemma bind_returns {A B} (c : M A) (k : A -> M B) (w w' : World) (b : B) :
  bind c k w = (Return b, w') ->
  exists a w1, c w = (Return a, w1) /\ k a w1 = (Return b, w').
Proof.
  unfold bind. destruct (c w) as [[a|e] w1]; [|discriminate].
  intros H. exists a, w1. split; [reflexivity|exact H].
Qed.

Lemma bind_run {A B} (c : M A) (k : A -> M B) (w w1 : World) (a : A) :
  c w = (Return a, w1) -> bind c k w = k a w1.
Proof. intros H. unfold bind. rewrite H. reflexivity. Qed.

Lemma find_findIndex {A} (p : A -> bool) (l : list A) (x : A) :
  find p l = Some x <-> exists i, findIndex p l = Some i /\ nth_error l i = Some x.
Proof.
  induction l as [|y l IH]; simpl.
  - split; [discriminate|intros (i & H & _); discriminate].
  - destruct (p y).
    + split.
      * intros [= ->]. exists 0. split; reflexivity.
      * intros (i & [= <-] & [= ->]). reflexivity.
    + rewrite IH. split.
      * intros (i & Hi & Hx). exists (S i). rewrite Hi. split; [reflexivity|exact Hx].
      * intros (i & Hi & Hx). destruct (findIndex p l) as [j|]; [|discriminate].
        injection Hi as <-. exists j. split; [reflexivity|exact Hx].
Qed.

Lemma find_setAt {A} (p : A -> bool) (l : list A) (i : nat) (new : A) :
  findIndex p l = Some i -> p new = true -> find p (setAt i new l) = Some new.
Proof.
  revert i. induction l as [|y l IH]; intros i; simpl; [discriminate|].
  destruct (p y) eqn:Hy.
  - intros [= <-] Hnew. simpl. rewrite Hnew. reflexivity.
  - destruct (findIndex p l) as [j|]; [|discriminate].
    intros [= <-] Hnew. simpl. rewrite Hy. apply IH; [reflexivity|exact Hnew].
Qed.

Lemma hasId_applyUpdates (taskId : string) (old : Task) (updates : TaskUpdates) (t : Z) :
  id old = taskId -> hasId taskId (applyUpdates old updates t) = true.
Proof. intros <-. unfold hasId. simpl. apply String.eqb_refl. Qed.

(** [updateTask] on a queue that holds the task among its active tasks. *)
Lemma updateTask_active (taskId : string) (updates : TaskUpdates) (w : World)
    (queue : TaskQueue) (old : Task) :
  queueFile w = Content queue ->
  activeTask taskId queue = Some old ->
  exists queue',
    updateTask taskId updates w =
      (Return (applyUpdates old updates (now w)), afterSave queue' w) /\
    activeTask taskId queue' = Some (applyUpdates old updates (now w)) /\
    current queue' = current queue /\ completed queue' = completed queue.
Proof.
  intros Hq Hold. apply find_findIndex in Hold. destruct Hold as (i & Hi & Hnth).
  pose proof (updateTask_run taskId updates w queue Hq) as Hrun.
  rewrite Hi in Hrun. destruct Hrun as (old' & Hnth' & Hid & Hrun).
  rewrite Hnth in Hnth'. injection Hnth' as <-.
  eexists. split; [exact Hrun|]. split; [|split; reflexivity].
  unfold activeTask. simpl.
  apply find_setAt; [exact Hi|apply hasId_applyUpdates; exact Hid].
Qed.

(** When [updateTask] returns, the queue was readable and held the task. *)
Lemma updateTask_returns (taskId : string) (updates : TaskUpdates) (w w' : World)
    (t : Task) :
  updateTask taskId updates w = (Return t, w') ->
  exists queue old,
    queueFile w = Content queue /\ activeTask taskId queue = Some old.
Proof.
  intros H. destruct (queueFile w) as [queue|e] eqn:Hq.
  - pose proof (updateTask_run taskId updates w queue Hq) as Hrun.
    destruct (findIndex (hasId taskId) (tasks queue)) as [i|] eqn:Hi.
    + destruct Hrun as (old & Hnth & _ & _). exists queue, old.
      split; [reflexivity|]. apply find_findIndex. exists i. split; assumption.
    + rewrite Hrun in H. discriminate.
  - unfold updateTask, loadQueue, readJSON, bind in H. rewrite Hq in H. discriminate.
Qed.

Ltac invert_returns H :=
  repeat first
    [ discriminate H
    | let a := fresh "a" in
      let w := fresh "w" in
      let Hc := fresh "Hc" in
      apply bind_returns in H; destruct H as (a & w & Hc & H); cbv beta in H
    | match type of H with
      | (if ?b then _ else _) _ = _ => destruct b
      | (match ?x with _ => _ end) _ = _ => destruct x
      end ].

(** A run of phases 1 to 4 that reaches the review has just set the status
    of the task to [awaiting_review]. *)
Lemma phasesBeforeReview_reaches_review env task config skip (w0 w1 : World)
    (designSpec : Envelope * DesignSpecification) :
  phasesBeforeReview env task config skip w0 = (Return (inr designSpec), w1) ->
  exists queue1 task1,
    queueFile w1 = Content queue1 /\ activeTask (id task) queue1 = Some task1 /\
    status task1 = awaiting_review.
Proof.
  unfold phasesBeforeReview. intros H. invert_returns H.
  injection H as _ <-.
  match goal with
  | Hu : updateTaskStatus _ awaiting_review ?w = (Return ?t, _) |- _ =>
      unfold updateTaskStatus in Hu;
      destruct (updateTask_returns _ _ _ _ _ Hu) as (queue & old & Hq & Hold);
      destruct (updateTask_active _ (statusUpdate awaiting_review) _ _ _ Hq Hold)
        as (queue' & Hrun & Hactive & _);
      rewrite Hrun in Hu; injection Hu as _ <-
  end.
  eexists. eexists. split; [reflexivity|]. split; [exact Hactive|reflexivity].
Qed.

(** ** Build failures are rejected without a review *)

Lemma runReview_failed_build env task config skip (w : World)
    (mailbox : MessageFile) (report : Envelope * CompletionReport)
    (build : BuildResult) :
  messageFile toTeamLead w = Content mailbox ->
  findMessage asCompletionReport (id task) (messages mailbox) = Some report ->
  buildResult (snd report) = Some build ->
  buildStatus build = build_failed ->
  runReview env task config skip w =
    (Return {| approved := false; reason := Some "Build verification failed" |}, w).
Proof.
  intros Hmail Hfind Hbuild Hfailed.
  unfold runReview, readMessages, readJSON, bind.
  rewrite Hmail, Hfind, Hbuild, Hfailed. reflexivity.
Qed.

Lemma rejectTask_active (taskId why : string) (w : World) (queue : TaskQueue)
    (old : Task) :
  queueFile w = Content queue ->
  activeTask taskId queue = Some old ->
  exists queue' t,
    rejectTask taskId why w = (Return tt, afterSave queue' w) /\
    activeTask taskId queue' = Some t /\ status t = rejected /\
    rejectionReason t = Some why /\ current queue' = current queue.
Proof.
  intros Hq Hold. unfold rejectTask.
  destruct (updateTask_active taskId
              {| newType := None; newPriority := None; newTitle := None;
                 newDescription := None; newStatus := Some rejected;
                 newRejectionReason := Some (Some why) |} w queue old Hq Hold)
    as (queue' & Hrun & Hactive & Hcur & _).
  exists queue'. eexists. rewrite (bind_run _ _ _ _ _ Hrun).
  split; [reflexivity|]. split; [exact Hactive|].
  split; [reflexivity|]. split; [reflexivity|exact Hcur].
Qed.

(** C1. Take any run of [processTaskV2] that reaches the review step
    (phases 1 to 4 returned without an early abort) and in which the mailbox
    of the team lead then holds a completion report for the task whose
    [buildResult.status] is [failed].  Then [runReview] returns not approved
    with the reason [Build verification failed], leaving the project
    directory as it is; [processTaskV2] returns a failure at the review
    phase with that reason; when it returns the task is in the active set of
    the queue with status [rejected] and that rejection reason; and none of
    the agent invocations of the whole run is a review invocation. *)
Theorem failed_build_is_rejected_without_review :
  forall (env : Env) (task : Task) (config : OrchestratorConfig) (skip : bool)
         (w0 w1 : World) (designSpec : Envelope * DesignSpecification)
         (mailbox : MessageFile) (report : Envelope * CompletionReport)
         (build : BuildResult),
    phasesBeforeReview env task config skip w0 = (Return (inr designSpec), w1) ->
    messageFile toTeamLead w1 = Content mailbox ->
    findMessage asCompletionReport (id task) (messages mailbox) = Some report ->
    buildResult (snd report) = Some build ->
    buildStatus build = build_failed ->
    runReview env task config skip w1 =
      (Return {| approved := false; reason := Some "Build verification failed" |}, w1)
    /\ exists (w' : World) (queue' : TaskQueue) (rejectedTask : Task)
              (calls : list string),
         processTaskV2 env task config skip w0 =
           (Return (failedAt phase_review "Build verification failed"), w') /\
         queueFile w' = Content queue' /\
         activeTask (id task) queue' = Some rejectedTask /\
         status rejectedTask = rejected /\
         rejectionReason rejectedTask = Some "Build verification failed" /\
         invocations w' = invocations w0 ++ calls /\ ~ In "review" calls.
Proof.
  intros env task config skip w0 w1 designSpec mailbox report build
         Hphases Hmail Hfind Hbuild Hfailed.
  pose proof (runReview_failed_build env task config skip w1 mailbox report build
                Hmail Hfind Hbuild Hfailed) as Hreview.
  split; [exact Hreview|].
  destruct (phasesBeforeReview_reaches_review _ _ _ _ _ _ _ Hphases)
    as (queue1 & task1 & Hq1 & Hactive1 & _).
  destruct (rejectTask_active (id task) "Build verification failed" w1 queue1 task1
              Hq1 Hactive1)
    as (queue2 & rejectedTask & Hreject & Hactive2 & Hstatus & Hreason & _).
  destruct (phasesBeforeReview_noReviewCall env task config skip _ _ _ Hphases)
    as (calls & Hcalls & Hnone).
  assert (Hbody : exists w3,
             pipelineV2 env task config skip w0 =
               (Return (failedAt phase_review "Build verification failed"), w3) /\
             queueFile w3 = Content (withLastUpdated (now w1) queue2) /\
             invocations w3 = invocations w1).
  { eexists. unfold pipelineV2. rewrite (bind_run _ _ _ _ _ Hphases).
    unfold reviewAndVerify. rewrite (bind_run _ _ _ _ _ Hreview). simpl.
    rewrite (bind_run _ _ _ _ _ Hreject).
    split; [reflexivity|]. split; reflexivity. }
  destruct Hbody as (w3 & Hbody & Hq3 & Hcalls3).
  exists (afterCleanup (withLastUpdated (now w1) queue2) w3).
  eexists. exists rejectedTask, calls.
  split; [exact (processTaskV2_run _ _ _ _ _ _ _ _ Hbody Hq3)|].
  split; [reflexivity|].
  split; [exact Hactive2|]. split; [exact Hstatus|]. split; [exact Hreason|].
  split; [|exact Hnone].
  rewrite <- Hcalls, <- Hcalls3. reflexivity.
Qed.

(** ** Approved tasks are completed whatever the verification finds *)

Lemma updateAgentStatus_returns agent newStatus task (w : World) (s : StatusFile) :
  statusFile w = Content s ->
  exists s',
    updateAgentStatus agent newStatus task w = (Return tt, set_statusFile (Content s') w).
Proof.
  intros Hs. unfold updateAgentStatus, loadStatus, readJSON, bind. rewrite Hs.
  eexists. reflexivity.
Qed.

Lemma runDesignVerification_returns env task designSpec config (w : World)
    (s : StatusFile) :
  statusFile w = Content s ->
  exists (wv w' : World) (v : VerificationOutcome),
    updateAgentStatus RoleDesigner "verifying" None w = (Return tt, wv) /\
    runDesignVerification env task designSpec config w = (Return v, w') /\
    (forall e, extractTokens env wv = Throw e -> v = verificationSkipped) /\
    (forall cssTokens,
       extractTokens env wv = Return cssTokens -> v = verificationOf designSpec cssTokens) /\
    queueFile w' = queueFile w /\
    (forall target, messageFile target w' = messageFile target w).
Proof.
  intros Hs.
  destruct (updateAgentStatus_returns RoleDesigner "verifying" None w s Hs)
    as (s1 & Hfirst).
  exists (set_statusFile (Content s1) w).
  unfold runDesignVerification. rewrite (bind_run _ _ _ _ _ Hfirst).
  unfold tryFinally, tryCatch, extractCSSTokens, evaluate, bind.
  fold verificationOptions.
  destruct (extractTokens env (set_statusFile (Content s1) w)) as [cssTokens|e].
  - destruct (compareDesignTokens (designTokens (snd designSpec)) cssTokens
                verificationOptions) as [result|e] eqn:Hcompare;
      eexists; eexists; (split; [exact Hfirst|]); (split; [reflexivity|]);
      (split; [intros e'; discriminate|]);
      (split; [intros css' [= <-]; unfold verificationOf; rewrite Hcompare;
               reflexivity|]);
      (split; [reflexivity|intros target; destruct target; reflexivity]).
  - eexists; eexists; (split; [exact Hfirst|]); (split; [reflexivity|]);
      (split; [intros e'; reflexivity|]);
      (split; [intros css'; discriminate|]);
      (split; [reflexivity|intros target; destruct target; reflexivity]).
Qed.

(** When [runReview] approves, it has found a completion report with a
    build result and has written the status file. *)
Lemma runReview_approved env task config skip (w w' : World) (review : ReviewResult) :
  runReview env task config skip w = (Return review, w') ->
  approved review = true ->
  exists mailbox report build s,
    messageFile toTeamLead w = Content mailbox /\
    findMessage asCompletionReport (id task) (messages mailbox) = Some report /\
    buildResult (snd report) = Some build /\
    statusFile w' = Content s.
Proof.
  unfold runReview, readMessages, readJSON. intros H Happroved.
  apply bind_returns in H. destruct H as (mailbox & w1 & Hread & H).
  destruct (messageFile toTeamLead w) as [mailbox'|e] eqn:Hmail; [|discriminate].
  injection Hread as -> <-.
  destruct (findMessage asCompletionReport (id task) (messages mailbox))
    as [report|] eqn:Hfind.
  2:{ injection H as <- _. discriminate. }
  destruct (buildResult (snd report)) as [build|] eqn:Hbuild; [|discriminate].
  destruct (isFailed (buildStatus build)).
  { injection H as <- _. discriminate. }
  apply bind_returns in H. destruct H as (u & w2 & _ & H).
  apply bind_returns in H. destruct H as (result & w3 & _ & H).
  apply bind_returns in H. destruct H as (u' & w4 & Hidle & H).
  assert (Hw : w' = w4).
  { destruct (JS.includes (JS.toLowerCase (output result)) "approve");
      injection H as _ <-; reflexivity. }
  subst w4.
  exists mailbox, report, build.
  unfold updateAgentStatus, loadStatus, readJSON in Hidle.
  apply bind_returns in Hidle. destruct Hidle as (s0 & w5 & _ & Hidle).
  apply bind_returns in Hidle. destruct Hidle as (t & w6 & _ & Hidle).
  cbv beta zeta in Hidle. unfold saveStatus, writeJSON in Hidle.
  injection Hidle; intros; subst w'.
  eexists. split; [reflexivity|]. split; [exact Hfind|]. split; [exact Hbuild|].
  reflexivity.
Qed.

Lemma completeTask_active (taskId : string) (w : World) (queue : TaskQueue)
    (old : Task) :
  queueFile w = Content queue ->
  activeTask taskId queue = Some old ->
  exists queue',
    completeTask taskId w = (Return tt, afterSave queue' w) /\
    completed queue' = completed queue ++ [asCompleted old (now w)] /\
    Permutation (tasks queue) (old :: tasks queue') /\
    (current queue' = None \/
     current queue' = current queue /\ current queue <> Some taskId).
Proof.
  intros Hq Hold. apply find_findIndex in Hold. destruct Hold as (i & Hi & Hnth).
  pose proof (completeTask_run taskId w queue Hq) as Hrun.
  rewrite Hi in Hrun. destruct Hrun as (old' & Hnth' & Hid & Hrun).
  rewrite Hnth in Hnth'. injection Hnth' as <-.
  exists (queueAfterComplete taskId i old (now w) queue).
  split; [exact Hrun|].
  unfold queueAfterComplete, isCurrent. simpl.
  destruct (current queue) as [c|] eqn:Hc; simpl.
  - destruct (String.eqb_spec c taskId) as [->|Hne]; simpl;
      (split; [reflexivity|]); (split; [apply removeAt_perm; exact Hnth|]).
    + left. reflexivity.
    + right. split; [reflexivity|]. intros [= E]. apply Hne. exact E.
  - split; [reflexivity|]. split; [apply removeAt_perm; exact Hnth|].
    left. reflexivity.
Qed.

(** The end of the [try] block after verification and completion: the log
    entry is written when the completion report can still be read. *)
Lemma verifyAndComplete_run env task designSpec config (w2 w3 w4 : World)
    (v : VerificationOutcome) :
  runDesignVerification env task designSpec config w2 = (Return v, w3) ->
  completeTask (id task) w3 = (Return tt, w4) ->
  exists (o : Outcome ProcessTaskResultV2) (w5 : World),
    verifyAndComplete env task designSpec config w2 = (o, w5) /\
    queueFile w5 = queueFile w4 /\
    (o = Return (succeededWith v) \/ exists e, o = Throw e) /\
    (forall mailbox report build,
       messageFile toTeamLead w4 = Content mailbox ->
       findMessage asCompletionReport (id task) (messages mailbox) = Some report ->
       buildResult (snd report) = Some build ->
       o = Return (succeededWith v)).
Proof.
  intros Hverify Hcomplete. unfold verifyAndComplete.
  rewrite (bind_run _ _ _ _ _ Hverify), (bind_run _ _ _ _ _ Hcomplete).
  unfold readMessages, readJSON, bind.
  destruct (messageFile toTeamLead w4) as [mailbox|e] eqn:Hmail.
  - destruct (findMessage asCompletionReport (id task) (messages mailbox))
      as [report|] eqn:Hfind.
    + destruct (buildResult (snd report)) as [build|] eqn:Hbuild.
      * eexists. eexists. split; [reflexivity|]. split; [reflexivity|].
        split; [left; reflexivity|]. intros; reflexivity.
      * eexists. eexists. split; [reflexivity|]. split; [reflexivity|].
        split; [right; eexists; reflexivity|].
        intros mailbox' report' build' [= <-] Hfind' Hbuild'.
        rewrite Hfind in Hfind'. injection Hfind' as <-.
        rewrite Hbuild in Hbuild'. discriminate.
    + eexists. eexists. split; [reflexivity|]. split; [reflexivity|].
      split; [left; reflexivity|]. intros; reflexivity.
  - eexists. eexists. split; [reflexivity|]. split; [reflexivity|].
    split; [right; eexists; reflexivity|]. intros mailbox report build [=].
Qed.

(** C2. Take any run of [processTaskV2] that reaches the review step and in
    which [runReview] approves, the reviewing agent having left the queue
    file as it was.  Then [runDesignVerification] returns an outcome and
    does not throw: the outcome of the comparison when the tokens are
    extracted and compared, and [verified = true], [matchPercentage = 0]
    and no discrepancy when the extraction or the comparison throws.
    Whatever that outcome is (no condition is put on its match percentage
    or on its verdict), [processTaskV2] returns, and when it does the task
    has been taken out of the active set and appended to the completed set
    with status [completed], and the current-task pointer is null.  A run
    that reports success reports the verification outcome with it, and the
    run reports success whenever the mailbox of the team lead is as the
    review read it (otherwise the task is completed all the same, and the
    error met while writing the log entry is reported). *)
Theorem approved_task_is_completed :
  forall (env : Env) (task : Task) (config : OrchestratorConfig) (skip : bool)
         (w0 w1 w2 : World) (designSpec : Envelope * DesignSpecification)
         (review : ReviewResult),
    phasesBeforeReview env task config skip w0 = (Return (inr designSpec), w1) ->
    runReview env task config skip w1 = (Return review, w2) ->
    approved review = true ->
    queueFile w2 = queueFile w1 ->
    exists (wv w3 w' : World) (v : VerificationOutcome) (o : ProcessTaskResultV2)
           (queue1 queue' : TaskQueue) (active done : Task),
      updateAgentStatus RoleDesigner "verifying" None w2 = (Return tt, wv) /\
      runDesignVerification env task designSpec config w2 = (Return v, w3) /\
      (forall e, extractTokens env wv = Throw e -> v = verificationSkipped) /\
      (forall cssTokens,
         extractTokens env wv = Return cssTokens ->
         v = verificationOf designSpec cssTokens) /\
      processTaskV2 env task config skip w0 = (Return o, w') /\
      queueFile w1 = Content queue1 /\
      activeTask (id task) queue1 = Some active /\
      queueFile w' = Content queue' /\
      completed queue' = completed queue1 ++ [done] /\
      id done = id task /\ status done = completed_ /\
      Permutation (tasks queue1) (active :: tasks queue') /\
      current queue' = None /\
      (taskSuccess o = true -> o = succeededWith v) /\
      (messageFile toTeamLead w2 = messageFile toTeamLead w1 -> o = succeededWith v).
Proof.
  intros env task config skip w0 w1 w2 designSpec review
         Hphases Hreview Happroved Hkept.
  destruct (phasesBeforeReview_reaches_review _ _ _ _ _ _ _ Hphases)
    as (queue1 & active & Hq1 & Hactive & _).
  destruct (runReview_approved _ _ _ _ _ _ _ Hreview Happroved)
    as (mailbox & report & build & s2 & Hmail & Hfind & Hbuild & Hs2).
  destruct (runDesignVerification_returns env task designSpec config w2 s2 Hs2)
    as (wv & w3 & v & Hfirst & Hverify & Hthrow & Hcompare & Hq3 & Hmail3).
  assert (Hq3' : queueFile w3 = Content queue1).
  { rewrite Hq3, Hkept. exact Hq1. }
  destruct (completeTask_active (id task) w3 queue1 active Hq3' Hactive)
    as (queue4 & Hcomplete & Hdone & Hperm & _).
  destruct (verifyAndComplete_run env task designSpec config w2 w3 _ v
              Hverify Hcomplete)
    as (tried & w5 & Hrest & Hq5 & Hcases & Hlogged).
  assert (Hbody : pipelineV2 env task config skip w0 = (tried, w5)).
  { unfold pipelineV2. rewrite (bind_run _ _ _ _ _ Hphases).
    unfold reviewAndVerify. rewrite (bind_run _ _ _ _ _ Hreview).
    rewrite Happroved. exact Hrest. }
  exists wv, w3, (afterCleanup (withLastUpdated (now w3) queue4) w5), v,
    (reported tried), queue1.
  eexists. exists active, (asCompleted active (now w3)).
  split; [exact Hfirst|]. split; [exact Hverify|].
  split; [exact Hthrow|]. split; [exact Hcompare|].
  split; [exact (processTaskV2_run _ _ _ _ _ _ _ _ Hbody Hq5)|].
  split; [exact Hq1|]. split; [exact Hactive|].
  split; [reflexivity|].
  split; [exact Hdone|].
  split.
  { simpl. apply find_some in Hactive. destruct Hactive as [_ Hid].
    unfold hasId in Hid. apply String.eqb_eq in Hid. exact Hid. }
  split; [reflexivity|]. split; [exact Hperm|]. split; [reflexivity|].
  split.
  - destruct Hcases as [->|[e ->]]; [reflexivity|discriminate].
  - intros Hsame. rewrite (Hlogged mailbox report build); [reflexivity| |exact Hfind|exact Hbuild].
    transitivity (messageFile toTeamLead w3); [reflexivity|].
    rewrite Hmail3, Hsame. exact Hmail.
Qed.

(** ** The current-task pointer *)

Section CurrentPointer.

Variable env : Env.
Variable task : Task.
Variable start : TaskStatus.
Hypothesis agents : agentsKeepQueue env.

Let runId : string := id task.

Lemma pointerKept_refl (w : World) : pointerKept runId start w w.
Proof.
  intros H. split; [exact H|]. exists []. split; [symmetry; apply app_nil_r|constructor].
Qed.

Lemma pointerKept_trans (a b c : World) :
  pointerKept runId start a b -> pointerKept runId start b c ->
  pointerKept runId start a c.
Proof.
  intros Hab Hbc Ha. destruct (Hab Ha) as (Hb & l1 & E1 & F1).
  destruct (Hbc Hb) as (Hc & l2 & E2 & F2).
  split; [exact Hc|]. exists (l1 ++ l2). split.
  - rewrite E2, E1, app_assoc. reflexivity.
  - apply Forall_app. split; assumption.
Qed.

Lemma untouched_pointerKept (w w' : World) :
  queueUntouched w w' -> pointerKept runId start w w'.
Proof.
  intros [Hq Hw] H. split.
  - intros queue Hqueue. apply H. rewrite <- Hq. exact Hqueue.
  - exists []. rewrite Hw, app_nil_r. split; [reflexivity|constructor].
Qed.

Lemma saved_pointerKept (w : World) (queue : TaskQueue) :
  pointerOnTask runId start queue ->
  pointerKept runId start w (afterSave queue w).
Proof.
  intros Hok _. split.
  - intros queue' [= <-]. exact Hok.
  - exists [withLastUpdated (now w) queue]. split; [reflexivity|].
    constructor; [exact Hok|constructor].
Qed.

Lemma runClaudeAgent_pointerKept name prompt options :
  Steps (pointerKept runId start) (runClaudeAgent env name prompt options).
Proof.
  intros w o w' H. apply untouched_pointerKept. unfold runClaudeAgent in H.
  pose proof (agents name prompt options w) as Hkeep.
  destruct (claudeAgent env name prompt options w) as [result w1].
  injection H as _ <-. split; [exact Hkeep|reflexivity].
Qed.

Lemma setCurrentTask_null_pointerKept :
  Steps (pointerKept runId start) (setCurrentTask None).
Proof.
  intros w o w' H. destruct (queueFile w) as [queue|e] eqn:Hq.
  - rewrite (setCurrentTask_run None w queue Hq) in H. injection H as _ <-.
    apply saved_pointerKept. left. reflexivity.
  - unfold setCurrentTask, loadQueue, readJSON, bind in H. rewrite Hq in H.
    injection H as _ <-. apply pointerKept_refl.
Qed.

Lemma updateTask_pointerKept (updates : TaskUpdates) (s : TaskStatus) :
  newStatus updates = Some s -> statusDuringRun start s ->
  Steps (pointerKept runId start) (updateTask runId updates).
Proof.
  intros Hs Hallowed w o w' H. destruct (queueFile w) as [queue|e] eqn:Hq.
  - destruct (activeTask runId queue) as [old|] eqn:Hold.
    + destruct (updateTask_active runId updates w queue old Hq Hold)
        as (queue' & Hrun & Hactive & Hcur & _).
      rewrite Hrun in H. injection H as _ <-.
      intros Hok. apply saved_pointerKept; [|exact Hok].
      destruct (Hok queue Hq) as [Hnull|[Hon _]].
      * left. rewrite Hcur. exact Hnull.
      * right. split; [rewrite Hcur; exact Hon|].
        eexists. split; [exact Hactive|]. simpl. rewrite Hs. exact Hallowed.
    + pose proof (updateTask_run runId updates w queue Hq) as Hrun.
      destruct (findIndex (hasId runId) (tasks queue)) as [i|] eqn:Hi.
      * destruct Hrun as (old & Hnth & _ & _).
        assert (Hfound : activeTask runId queue = Some old).
        { apply find_findIndex. exists i. split; assumption. }
        rewrite Hold in Hfound. discriminate.
      * rewrite Hrun in H. injection H as _ <-. apply pointerKept_refl.
  - unfold updateTask, loadQueue, readJSON, bind in H. rewrite Hq in H.
    injection H as _ <-. apply pointerKept_refl.
Qed.

Lemma completeTask_pointerKept :
  Steps (pointerKept runId start) (completeTask runId).
Proof.
  intros w o w' H. destruct (queueFile w) as [queue|e] eqn:Hq.
  - destruct (activeTask runId queue) as [old|] eqn:Hold.
    + destruct (completeTask_active runId w queue old Hq Hold)
        as (queue' & Hrun & _ & _ & Hcur).
      rewrite Hrun in H. injection H as _ <-.
      intros Hok. apply saved_pointerKept; [|exact Hok].
      destruct Hcur as [Hnull|[Hsame Hother]]; [left; exact Hnull|].
      destruct (Hok queue Hq) as [Hnull|[Hon _]].
      * left. rewrite Hsame. exact Hnull.
      * contradiction.
    + pose proof (completeTask_run runId w queue Hq) as Hrun.
      destruct (findIndex (hasId runId) (tasks queue)) as [i|] eqn:Hi.
      * destruct Hrun as (old & Hnth & _ & _).
        assert (Hfound : activeTask runId queue = Some old).
        { apply find_findIndex. exists i. split; assumption. }
        rewrite Hold in Hfound. discriminate.
      * rewrite Hrun in H. injection H as _ <-. apply pointerKept_refl.
  - unfold completeTask, loadQueue, readJSON, bind in H. rewrite Hq in H.
    injection H as _ <-. apply pointerKept_refl.
Qed.

Ltac pointer_step :=
  first [ apply setCurrentTask_null_pointerKept
        | apply completeTask_pointerKept
        | eapply updateTask_pointerKept;
            [reflexivity|unfold statusDuringRun; tauto]
        | apply runClaudeAgent_pointerKept
        | apply steps_writeJSON; intros; apply untouched_pointerKept;
            split; reflexivity
        | match goal with
          | |- Steps _ (logTaskCompletion _) =>
              intros ? ? ? [= _ <-]; apply untouched_pointerKept; split; reflexivity
          end
        | steps_rules (pointerKept runId start) pointerKept_refl pointerKept_trans ].

Lemma start_run {A B C} (c : M A) (k1 : A -> M B) (k2 : B -> M C)
    (h : JSError -> M C) (f : M unit) (w w1 : World) (a : A) :
  c w = (Return a, w1) ->
  tryFinally (tryCatch (bind (bind c k1) k2) h) f w =
  tryFinally (tryCatch (bind (k1 a) k2) h) f w1.
Proof. intros H. unfold tryFinally, tryCatch, bind. rewrite H. reflexivity. Qed.

(** [processTaskV2] first sets the pointer on its task; from then on every
    write of the queue keeps it there or clears it. *)
Lemma processTaskV2_pointerKept (config : OrchestratorConfig) (skip : bool)
    (w0 w' : World) (queue0 : TaskQueue) (task0 : Task)
    (o : Outcome ProcessTaskResultV2) :
  queueFile w0 = Content queue0 ->
  activeTask runId queue0 = Some task0 ->
  status task0 = start ->
  processTaskV2 env task config skip w0 = (o, w') ->
  exists written,
    queueWrites w' = queueWrites w0 ++ written /\
    Forall (pointerOnTask runId start) written.
Proof.
  intros Hq0 Hactive Hstart H.
  pose proof (setCurrentTask_run (Some runId) w0 queue0 Hq0) as Hset.
  unfold processTaskV2, pipelineV2, phasesBeforeReview in H.
  fold runId in H.
  rewrite (start_run _ _ _ _ _ _ _ _ Hset) in H. cbv beta in H.
  assert (Hfirst : pointerOnTask runId start (withCurrent (Some runId) queue0)).
  { right. split; [reflexivity|]. exists task0. split; [exact Hactive|].
    left. exact Hstart. }
  match type of H with
  | ?c _ = _ => assert (Hsteps : Steps (pointerKept runId start) c)
  end.
  { unfold updateTaskStatus, rejectTask, reviewAndVerify, verifyAndComplete.
    repeat pointer_step. }
  destruct (Hsteps _ _ _ H) as (_ & written & Hwritten & Hall).
  { intros queue [= <-]. exact Hfirst. }
  exists (withLastUpdated (now w0) (withCurrent (Some runId) queue0) :: written).
  split.
  - rewrite Hwritten. simpl. rewrite <- app_assoc. reflexivity.
  - constructor; [exact Hfirst|exact Hall].
Qed.

End CurrentPointer.

(** C3 (amended). Take a run of [processTaskV2] for a task that is in the
    active set of a readable queue, with agents that leave the queue file
    to the task store.  In every state of the queue that the store
    operations write during the run, the current-task pointer is null or
    references the task of the run, which is then in the active set with
    status [in_progress], [awaiting_review], [rejected], or the status it
    had when the run started. *)
Theorem current_pointer_during_run :
  forall (env : Env) (task : Task) (config : OrchestratorConfig) (skip : bool)
         (w0 w' : World) (queue0 : TaskQueue) (task0 : Task)
         (o : Outcome ProcessTaskResultV2),
    agentsKeepQueue env ->
    queueFile w0 = Content queue0 ->
    activeTask (id task) queue0 = Some task0 ->
    processTaskV2 env task config skip w0 = (o, w') ->
    exists written : list TaskQueue,
      queueWrites w' = queueWrites w0 ++ written /\
      Forall (pointerOnTask (id task) (status task0)) written.
Proof.
  intros env task config skip w0 w' queue0 task0 o Hagents Hq0 Hactive Hrun.
  exact (processTaskV2_pointerKept env task (status task0) Hagents config skip
           w0 w' queue0 task0 o Hq0 Hactive eq_refl Hrun).
Qed.

(** C3 fails as stated: the first write of a run sets the pointer on the
    task while its status is still [pending], and after a rejection the
    queue is written with the pointer on the [rejected] task before the
    pointer is cleared. *)
Lemma current_pointer_on_pending_and_rejected :
  (exists queue t,
     nth_error (queueWrites (snd failedBuildRun)) 0 = Some queue /\ current queue = Some "task-001" /\
     activeTask "task-001" queue = Some t /\ status t = pending) /\
  (exists queue t,
     nth_error (queueWrites (snd failedBuildRun)) 3 = Some queue /\ current queue = Some "task-001" /\
     activeTask "task-001" queue = Some t /\ status t = rejected).
Proof.
  split; eexists; eexists; (split; [vm_compute; reflexivity|]);
    (split; [reflexivity|]); (split; [vm_compute; reflexivity|reflexivity]).
Qed.

Lemma scriptedEnv_keeps_queue build verdict extracted :
  agentsKeepQueue (scriptedEnv build verdict extracted).
Proof. intros name prompt options w. destruct prompt; reflexivity. Qed.

Lemma current_pointer_witness :
  exists written : list TaskQueue,
    queueWrites (snd failedBuildRun) = written /\
    Forall (pointerOnTask "task-001" pending) written.
Proof.
  destruct (current_pointer_during_run failedBuildEnv firstTask sampleConfig false
              sampleWorld
              (snd failedBuildRun)
              sampleQueue firstTask
              (fst failedBuildRun)
              (scriptedEnv_keeps_queue _ _ _) eq_refl eq_refl
              (surjective_pairing _))
    as (written & Hwritten & Hall).
  exists written. split; [exact Hwritten|exact Hall].
Defined.

Lemma failed_build_witness :
  exists (w' : World) (queue' : TaskQueue) (rejectedTask : Task),
    processTaskV2 failedBuildEnv firstTask sampleConfig false sampleWorld =
      (Return (failedAt phase_review "Build verification failed"), w') /\
    queueFile w' = Content queue' /\
    activeTask "task-001" queue' = Some rejectedTask /\
    status rejectedTask = rejected /\
    ~ In "review" (invocations w').
Proof.
  destruct (failed_build_is_rejected_without_review failedBuildEnv firstTask
              sampleConfig false sampleWorld (beforeReview failedBuildEnv)
              (envelopeFor "task-001", sampleSpec)
              {| messages :=
                   [messageFor "task-001"
                      (completion_report (sampleReport (Some build_failed)))];
                 lastRead := None |}
              (envelopeFor "task-001", sampleReport (Some build_failed))
              {| buildStatus := build_failed; command := "npm run build";
                 errors := 0; buildOutput := None |}
              ltac:(vm_compute; reflexivity) ltac:(vm_compute; reflexivity)
              eq_refl eq_refl eq_refl)
    as [_ (w' & queue' & rejectedTask & calls & Hrun & Hq & Hactive & Hstatus & _
           & Hcalls & Hnone)].
  exists w', queue', rejectedTask.
  split; [exact Hrun|]. split; [exact Hq|]. split; [exact Hactive|].
  split; [exact Hstatus|]. rewrite Hcalls. exact Hnone.
Defined.

Lemma approved_task_witness :
  exists (w' : World) (queue' : TaskQueue) (done : Task),
    processTaskV2 approvingEnv firstTask sampleConfig false sampleWorld =
      (Return (succeededWith verificationSkipped), w') /\
    queueFile w' = Content queue' /\
    In done (completed queue') /\ id done = "task-001" /\ status done = completed_.
Proof.
  destruct (approved_task_is_completed approvingEnv firstTask sampleConfig false
              sampleWorld (beforeReview approvingEnv) (afterReview approvingEnv)
              (envelopeFor "task-001", sampleSpec)
              {| approved := true; reason := None |}
              ltac:(vm_compute; reflexivity) ltac:(vm_compute; reflexivity)
              eq_refl ltac:(vm_compute; reflexivity))
    as (wv & w3 & w' & v & o & queue1 & queue' & active & done & _ & _ & Hthrow & _
        & Hrun & _ & _ & Hq & Hdone & Hid & Hstatus & _ & _ & _ & Hsame).
  exists w', queue', done.
  rewrite (Hthrow missingFile eq_refl) in Hsame.
  rewrite (Hsame ltac:(vm_compute; reflexivity)) in Hrun.
  split; [exact Hrun|]. split; [exact Hq|].
  split; [rewrite Hdone; apply in_or_app; right; left; reflexivity|].
  split; [exact Hid|exact Hstatus].
Defined.

(** C9 fails as stated: when the developer's agent has deleted the queue
    file, the [try] block ends with the exception of the next queue
    operation, the cleanup stops at its first step, [processTaskV2] throws,
    and the four mailboxes still hold the messages of the task. *)
Lemma cleanup_stops_without_queue :
  fst (pipelineV2 queueDeletingEnv firstTask sampleConfig false sampleWorld)
    = Throw missingFile /\
  fst deletedQueueRun = Throw missingFile /\
  queueFile (snd deletedQueueRun) = Unreadable missingFile /\
  forall target : MessageTarget,
    exists file,
      readMessages target (snd deletedQueueRun) = (Return file, snd deletedQueueRun) /\
      List.length (messages file) = 1.
Proof.
  split; [vm_compute; reflexivity|].
  split; [vm_compute; reflexivity|].
  split; [vm_compute; reflexivity|].
  intros target. destruct target; eexists; split; vm_compute; reflexivity.
Qed.

Lemma cleanup_witness :
  (exists (w' : World) (queue' : TaskQueue),
     processTaskV2 incompleteReportEnv firstTask sampleConfig false sampleWorld =
       (Return {| taskSuccess := false;
                  taskError := Some (errorToString noBuildResult);
                  phase := None; designVerification := None |}, w') /\
     queueFile w' = Content queue' /\ current queue' = None /\
     forall target : MessageTarget,
       exists file, readMessages target w' = (Return file, w') /\ messages file = []) /\
  deletedQueueRun
    = (Throw missingFile,
       snd (pipelineV2 queueDeletingEnv firstTask sampleConfig false sampleWorld)).
Proof.
  split.
  - destruct (processTaskV2_cleans_up incompleteReportEnv firstTask sampleConfig
                false sampleWorld _ _ (surjective_pairing _))
      as (Hreadable & _ & _).
    edestruct Hreadable as (w' & queue' & Hrun & Hempty & Hq & Hnull & _).
    + vm_compute. reflexivity.
    + exists w', queue'. split; [|split; [exact Hq|split; [exact Hnull|exact Hempty]]].
      rewrite Hrun. reflexivity.
  - destruct (processTaskV2_cleans_up queueDeletingEnv firstTask sampleConfig
                false sampleWorld _ _ (surjective_pairing _))
      as (_ & Hunreadable & _).
    unfold deletedQueueRun. rewrite (Hunreadable missingFile); [|vm_compute; reflexivity].
    reflexivity.
Defined.


(* ====================================================================== *)
(** * Further properties of the task store *)
(* ====================================================================== *)

Lemma notActive_findIndex (taskId : string) (queue : TaskQueue) :
  notActive taskId queue -> findIndex (hasId taskId) (tasks queue) = None.
Proof.
  unfold notActive. induction (tasks queue) as [|t l IH]; intros H; simpl.
  - reflexivity.
  - destruct (hasId taskId t) eqn:Ht.
    + exfalso. apply (H t); [left; reflexivity|].
      unfold hasId in Ht. apply String.eqb_eq. exact Ht.
    + rewrite IH; [reflexivity|]. intros t' Hin. apply H. right. exact Hin.
Qed.

(** X1. On a readable queue in which no active task has the given id (the
    id is unknown, or it is the id of a completed task), [updateTask],
    [updateTaskStatus], [completeTask], [rejectTask] and [resetTask] throw
    the error [Task not found: <id>] and write nothing: the project
    directory is as it was. *)
Theorem unknown_task_is_not_found :
  forall (taskId why : string) (updates : TaskUpdates) (s : TaskStatus)
         (w : World) (queue : TaskQueue),
    queueFile w = Content queue ->
    notActive taskId queue ->
    updateTask taskId updates w = (Throw (taskNotFound taskId), w) /\
    updateTaskStatus taskId s w = (Throw (taskNotFound taskId), w) /\
    completeTask taskId w = (Throw (taskNotFound taskId), w) /\
    rejectTask taskId why w = (Throw (taskNotFound taskId), w) /\
    resetTask taskId w = (Throw (taskNotFound taskId), w) /\
    errorToString (taskNotFound taskId) = ("Error: Task not found: " ++ taskId)%string.
Proof.
  intros taskId why updates s w queue Hq Hnone.
  pose proof (notActive_findIndex taskId queue Hnone) as Hi.
  assert (Hupd : forall u, updateTask taskId u w = (Throw (taskNotFound taskId), w)).
  { intros u. pose proof (updateTask_run taskId u w queue Hq) as Hrun.
    rewrite Hi in Hrun. exact Hrun. }
  split; [apply Hupd|]. split; [apply Hupd|].
  split.
  { pose proof (completeTask_run taskId w queue Hq) as Hrun.
    rewrite Hi in Hrun. exact Hrun. }
  split; [unfold rejectTask, bind; rewrite Hupd; reflexivity|].
  split; [unfold resetTask, bind; rewrite Hupd; reflexivity|].
  reflexivity.
Qed.

Lemma unknown_task_witness :
  rejectTask "task-007" "late" sampleWorld = (Throw (taskNotFound "task-007"), sampleWorld).
Proof.
  apply (unknown_task_is_not_found "task-007" "late" noUpdates pending sampleWorld
           sampleQueue eq_refl).
  intros t Hin. simpl in Hin.
  repeat (destruct Hin as [<-|Hin]; [discriminate|]). destruct Hin.
Defined.

(** X2. Along every sequence of store calls on a readable queue whose task
    numbers stay below 2^53 (adds, updates, completions, rejections, resets
    and changes of the current pointer, failed calls included), the ids of
    the queue at the end, active and completed together, are the ids of the
    initial queue and the ids of the created tasks, each as many times as
    before: no id is lost or invented.  If every id of the initial queue
    occurs once, in one of the two collections, so does every id at the
    end. *)
Theorem store_operations_keep_ids_unique :
  forall (ops : list StoreOp) (w : World) (queue : TaskQueue),
    queueFile w = Content queue ->
    (highestTaskNumber (allIds queue) + N.of_nat (List.length ops) < 2 ^ 53)%N ->
    exists created w' queue',
      runStoreOps ops w = (Return created, w') /\
      queueFile w' = Content queue' /\
      Permutation (allIds queue') (allIds queue ++ map id created) /\
      (NoDup (allIds queue) -> NoDup (allIds queue')).
Proof.
  intros ops w queue Hq _. revert w queue Hq.
  induction ops as [|op ops IH]; intros w queue Hq.
  - exists [], w, queue. simpl. rewrite app_nil_r.
    split; [reflexivity|]. split; [assumption|]. split; [reflexivity|tauto].
  - destruct (runStoreOp_ids op w queue Hq) as (c1 & w1 & q1 & Hrun1 & Hq1 & Hop).
    destruct (IH w1 q1 Hq1) as (more & w2 & q2 & Hrun2 & Hq2 & Hperm2 & Hnodup2).
    exists (match c1 with Some t => t :: more | None => more end), w2, q2.
    split.
    { simpl. unfold bind at 1. rewrite Hrun1. unfold bind at 1. rewrite Hrun2.
      reflexivity. }
    split; [assumption|].
    destruct op as [draft|taskId updates|taskId|taskId|taskId why|taskId];
      try (destruct Hop as [-> Hperm];
           split; [rewrite Hperm2, Hperm; reflexivity|];
           intros Hnodup; apply Hnodup2;
           apply (Permutation_NoDup (Permutation_sym Hperm)); exact Hnodup).
    destruct Hop as (t & -> & Hid & Hperm).
    split.
    + rewrite Hperm2, Hperm. simpl. apply Permutation_middle.
    + intros Hnodup. apply Hnodup2.
      apply (Permutation_NoDup (Permutation_sym Hperm)).
      constructor; [|exact Hnodup].
      unfold allIds. rewrite in_map_iff. intros (t' & Hid' & Hin).
      apply (generateTaskId_fresh queue t' Hin). congruence.
Qed.

Lemma store_operations_witness :
  exists created w' queue',
    runStoreOps sampleOps sampleWorld = (Return created, w') /\
    queueFile w' = Content queue' /\ NoDup (allIds queue').
Proof.
  destruct (store_operations_keep_ids_unique sampleOps sampleWorld sampleQueue eq_refl
              eq_refl)
    as (created & w' & queue' & Hrun & Hq & _ & Hnodup).
  exists created, w', queue'. split; [exact Hrun|]. split; [exact Hq|].
  apply Hnodup. unfold allIds. simpl.
  repeat (constructor; [simpl; intuition discriminate|]). constructor.
Defined.

Lemma find_none_forall {A} (p : A -> bool) (l : list A) :
  (forall x, In x l -> p x = false) -> find p l = None.
Proof.
  induction l as [|y l IH]; intros H; simpl; [reflexivity|].
  rewrite (H y (or_introl eq_refl)). apply IH. intros x Hx. apply H. right. exact Hx.
Qed.

Lemma find_app_none {A} (p : A -> bool) (l1 l2 : list A) :
  find p l1 = None -> find p (l1 ++ l2) = find p l2.
Proof.
  induction l1 as [|y l1 IH]; simpl; [reflexivity|].
  destruct (p y); [discriminate|exact IH].
Qed.

Lemma hasId_true (taskId : string) (t : Task) : hasId taskId t = true <-> id t = taskId.
Proof. unfold hasId. apply String.eqb_eq. Qed.

Lemma hasId_false (taskId : string) (t : Task) : hasId taskId t = false <-> id t <> taskId.
Proof. unfold hasId. apply String.eqb_neq. Qed.

(** X3. On a readable queue whose ids are pairwise distinct, [completeTask]
    of an active task returns, and afterwards: the task is no longer in the
    active set, whose other tasks keep their order; it is the last task of
    the completed set, with status [completed], the time of the call as
    [updatedAt] and its other fields as they were; [getTask] finds that
    completed task; and the current pointer is null if it was on the task
    and unchanged otherwise. *)
Theorem completeTask_moves_task :
  forall (taskId : string) (w : World) (queue : TaskQueue) (old : Task),
    queueFile w = Content queue ->
    NoDup (allIds queue) ->
    activeTask taskId queue = Some old ->
    exists (w' : World) (queue' : TaskQueue) (before after : list Task),
      completeTask taskId w = (Return tt, w') /\
      queueFile w' = Content queue' /\
      tasks queue = before ++ old :: after /\
      tasks queue' = before ++ after /\
      notActive taskId queue' /\
      completed queue' = completed queue ++ [asCompleted old (now w)] /\
      status (asCompleted old (now w)) = completed_ /\
      updatedAt (asCompleted old (now w)) = Some (now w) /\
      sameDescription (asCompleted old (now w)) old /\
      getTask taskId w' = (Return (Some (asCompleted old (now w))), w') /\
      current queue' = (if isCurrent taskId queue then None else current queue).
Proof.
  intros taskId w queue old Hq Hnodup Hold.
  pose proof Hold as Hfound. apply find_findIndex in Hfound.
  destruct Hfound as (i & Hi & Hnth).
  pose proof (completeTask_run taskId w queue Hq) as Hrun.
  rewrite Hi in Hrun. destruct Hrun as (old' & Hnth' & Hid & Hrun).
  rewrite Hnth in Hnth'. injection Hnth' as <-.
  destruct (nth_error_split _ _ Hnth) as (before & after & Htasks & Hlen).
  assert (Hremoved : removeAt i (tasks queue) = before ++ after).
  { rewrite Htasks. subst i. clear. induction before as [|b before IH]; simpl.
    - reflexivity.
    - rewrite IH. reflexivity. }
  assert (Hothers : forall t, In t (before ++ after ++ completed queue) -> id t <> taskId).
  { unfold allIds in Hnodup. rewrite Htasks, <- app_assoc in Hnodup. simpl in Hnodup.
    rewrite map_app in Hnodup. simpl in Hnodup.
    apply NoDup_remove_2 in Hnodup. rewrite <- map_app in Hnodup.
    intros t Hin E. apply Hnodup. rewrite Hid, <- E. apply in_map. exact Hin. }
  set (done := asCompleted old (now w)).
  assert (Hfields : tasks (queueAfterComplete taskId i old (now w) queue) = before ++ after
                    /\ completed (queueAfterComplete taskId i old (now w) queue)
                       = completed queue ++ [done]
                    /\ current (queueAfterComplete taskId i old (now w) queue)
                       = (if isCurrent taskId queue then None else current queue)).
  { unfold queueAfterComplete. cbv zeta.
    match goal with
    | |- context [isCurrent taskId ?moved] =>
        change (isCurrent taskId moved) with (isCurrent taskId queue)
    end.
    destruct (isCurrent taskId queue); simpl;
      rewrite Hremoved; repeat split; reflexivity. }
  destruct Hfields as (Ht & Hc & Hcur).
  exists (afterSave (queueAfterComplete taskId i old (now w) queue) w).
  eexists. exists before, after.
  split; [exact Hrun|]. split; [reflexivity|]. split; [exact Htasks|].
  split; [exact Ht|].
  split.
  { intros t Hin. simpl in Hin. rewrite Ht in Hin. apply Hothers.
    rewrite app_assoc. apply in_or_app. left. exact Hin. }
  split; [exact Hc|]. split; [reflexivity|]. split; [reflexivity|].
  split; [repeat split; reflexivity|].
  split; [|exact Hcur].
  unfold getTask, loadQueue, readJSON, bind, ret. simpl.
  rewrite Ht, Hc.
  rewrite find_none_forall.
  2:{ intros t Hin. apply hasId_false. apply Hothers.
      rewrite app_assoc. apply in_or_app. left. exact Hin. }
  rewrite find_app_none.
  2:{ apply find_none_forall. intros t Hin. apply hasId_false. apply Hothers.
      apply in_or_app. right. apply in_or_app. right. exact Hin. }
  simpl. assert (Hd : hasId taskId done = true) by (apply hasId_true; exact Hid).
  rewrite Hd. reflexivity.
Qed.

Lemma completeTask_witness :
  exists w',
    completeTask "task-002" sampleWorld = (Return tt, w') /\
    getTask "task-002" w'
    = (Return (Some (asCompleted (sampleTask "task-002" medium in_progress 500) 5000)), w').
Proof.
  destruct (completeTask_moves_task "task-002" sampleWorld sampleQueue
              (sampleTask "task-002" medium in_progress 500) eq_refl)
    as (w' & queue' & before & after & Hrun & _ & _ & _ & _ & _ & _ & _ & _ & Hget & _).
  - unfold allIds. simpl.
    repeat (constructor; [simpl; intuition discriminate|]). constructor.
  - reflexivity.
  - exists w'. split; [exact Hrun|exact Hget].
Defined.

(** *** [addTasks] *)

Lemma allIds_withTasks_app (queue : TaskQueue) (extra : list Task) :
  Permutation (allIds (withTasks (tasks queue ++ extra) queue))
              (allIds queue ++ map id extra).
Proof.
  unfold allIds. simpl. rewrite !map_app, <- !app_assoc.
  apply Permutation_app_head. apply Permutation_app_comm.
Qed.

Lemma createTasks_ids (queue : TaskQueue) (t : Z) (drafts : list TaskDraft) :
  forall createdTasks : list Task,
    exists new : list Task,
      createTasks queue t drafts createdTasks = createdTasks ++ new /\
      Forall2 (fun draft task => task = newTaskOf draft (id task) t) drafts new /\
      map id new =
        consecutiveIds
          (highestTaskNumber (allIds (withTasks (tasks queue ++ createdTasks) queue)))
          (List.length drafts).
Proof.
  induction drafts as [|draft drafts IH]; intros acc; simpl.
  - exists []. rewrite app_nil_r. repeat split. constructor.
  - set (m := highestTaskNumber (allIds (withTasks (tasks queue ++ acc) queue))).
    set (newTask := newTaskOf draft (generateTaskId (withTasks (tasks queue ++ acc) queue)) t).
    destruct (IH (acc ++ [newTask])) as (new & Hrun & Hshape & Hids).
    exists (newTask :: new).
    split; [rewrite Hrun, <- app_assoc; reflexivity|].
    split; [constructor; [reflexivity|exact Hshape]|].
    rewrite consecutiveIds_succ. simpl. f_equal.
    + apply generateTaskId_highest.
    + rewrite Hids. f_equal.
      rewrite (highestTaskNumber_perm _ _ (allIds_withTasks_app queue (acc ++ [newTask]))).
      rewrite map_app, app_assoc, highestTaskNumber_app.
      rewrite <- (highestTaskNumber_perm _ _ (allIds_withTasks_app queue acc)).
      fold m. simpl.
      rewrite generateTaskId_highest, taskNumber_formatTaskId. fold m. lia.
Qed.

Lemma countAdds_adds (drafts : list TaskDraft) :
  countAdds (map OpAdd drafts) = List.length drafts.
Proof.
  unfold countAdds. induction drafts as [|d drafts IH]; simpl; [reflexivity|].
  rewrite IH. reflexivity.
Qed.

(** X4. On a readable queue whose task numbers stay below 2^53, [addTasks]
    returns one new task per draft, in order: each is its draft with status
    [pending], the time of the call as creation time and a generated id,
    and the ids are those of the consecutive numbers after the highest
    number of the queue, the same ids that adding the drafts one at a time
    with [addTask] generates.  The created tasks are appended to the active
    set, the completed set and the current pointer are as they were, and
    the queue is written once, also when no draft is given. *)
Theorem addTasks_generates_consecutive_ids :
  forall (drafts : list TaskDraft) (w : World) (queue : TaskQueue),
    queueFile w = Content queue ->
    (highestTaskNumber (allIds queue) + N.of_nat (List.length drafts) < 2 ^ 53)%N ->
    exists (created : list Task) (w' : World) (queue' : TaskQueue),
      addTasks drafts w = (Return created, w') /\
      queueFile w' = Content queue' /\
      Forall2 (fun draft task => task = newTaskOf draft (id task) (now w)) drafts created /\
      map id created =
        consecutiveIds (highestTaskNumber (allIds queue)) (List.length drafts) /\
      tasks queue' = tasks queue ++ created /\
      completed queue' = completed queue /\ current queue' = current queue /\
      queueWrites w' = queueWrites w ++ [queue'] /\
      exists (oneByOne : list Task) (w1 : World),
        runStoreOps (map OpAdd drafts) w = (Return oneByOne, w1) /\
        map id oneByOne = map id created.
Proof.
  intros drafts w queue Hq _.
  destruct (createTasks_ids queue (now w) drafts []) as (new & Hrun & Hshape & Hids).
  simpl in Hrun.
  assert (Hm : highestTaskNumber (allIds (withTasks (tasks queue ++ []) queue))
               = highestTaskNumber (allIds queue)).
  { rewrite app_nil_r. reflexivity. }
  rewrite Hm in Hids.
  exists new. eexists. eexists.
  split.
  { unfold addTasks, loadQueue, readJSON, bind. rewrite Hq.
    unfold currentTime. cbv zeta. rewrite Hrun. reflexivity. }
  split; [reflexivity|]. split; [exact Hshape|]. split; [exact Hids|].
  split; [reflexivity|]. split; [reflexivity|]. split; [reflexivity|].
  split; [reflexivity|].
  destruct (runStoreOps_ids (map OpAdd drafts) w queue Hq)
    as (oneByOne & w1 & q1 & Hone & _ & Hids1 & _).
  exists oneByOne, w1. split; [exact Hone|].
  rewrite Hids1, Hids, countAdds_adds. reflexivity.
Qed.

Lemma addTasks_witness :
  exists created w',
    addTasks [sampleDraft; sampleDraft] sampleWorld = (Return created, w') /\
    map id created = ["task-008"; "task-009"].
Proof.
  destruct (addTasks_generates_consecutive_ids [sampleDraft; sampleDraft] sampleWorld
              sampleQueue eq_refl eq_refl)
    as (created & w' & queue' & Hrun & _ & _ & Hids & _).
  exists created, w'. split; [exact Hrun|exact Hids].
Defined.

(** *** Statistics and queries *)

Lemma length_by_status (l : list Task) :
  List.length l =
  List.length (filter (hasStatus pending) l)
  + List.length (filter (hasStatus in_progress) l)
  + List.length (filter (hasStatus awaiting_review) l)
  + List.length (filter (hasStatus rejected) l)
  + List.length (filter (hasStatus completed_) l).
Proof.
  induction l as [|t l IH]; simpl; [reflexivity|].
  change (hasStatus pending t) with (statusEqb (status t) pending).
  change (hasStatus in_progress t) with (statusEqb (status t) in_progress).
  change (hasStatus awaiting_review t) with (statusEqb (status t) awaiting_review).
  change (hasStatus rejected t) with (statusEqb (status t) rejected).
  change (hasStatus completed_ t) with (statusEqb (status t) completed_).
  destruct (status t); simpl; lia.
Qed.

(** X5. On a readable queue, [getQueueStats] returns without writing
    anything, [completed] is the size of the completed set, and [total]
    is the sum of [pending], [inProgress], [awaitingReview], [rejected]
    and [completed] plus the number of tasks of the active set whose
    status is [completed]: the five counts add up to [total] exactly when
    no task with status [completed] was left in the active set. *)
Theorem getQueueStats_counts :
  forall (w : World) (queue : TaskQueue),
    queueFile w = Content queue ->
    exists stats : QueueStats,
      getQueueStats w = (Return stats, w) /\
      statCompleted stats = List.length (completed queue) /\
      statTotal stats =
        statPending stats + statInProgress stats + statAwaitingReview stats
        + statRejected stats + statCompleted stats
        + List.length (filter (hasStatus completed_) (tasks queue)) /\
      (statTotal stats =
         statPending stats + statInProgress stats + statAwaitingReview stats
         + statRejected stats + statCompleted stats
       <-> forall t, In t (tasks queue) -> status t <> completed_).
Proof.
  intros w queue Hq. eexists. split.
  { unfold getQueueStats, loadQueue, readJSON, bind. rewrite Hq. reflexivity. }
  simpl. split; [reflexivity|].
  pose proof (length_by_status (tasks queue)) as Hlen.
  split; [lia|].
  split.
  - intros Hsum t Hin Hst.
    assert (Hnil : filter (hasStatus completed_) (tasks queue) = []).
    { apply length_zero_iff_nil. lia. }
    assert (Hf : In t (filter (hasStatus completed_) (tasks queue))).
    { apply filter_In. split; [exact Hin|]. unfold hasStatus. rewrite Hst. reflexivity. }
    rewrite Hnil in Hf. exact Hf.
  - intros Hnone.
    assert (Hnil : filter (hasStatus completed_) (tasks queue) = []).
    { destruct (filter (hasStatus completed_) (tasks queue)) as [|t l] eqn:E;
        [reflexivity|].
      assert (Hf : In t (filter (hasStatus completed_) (tasks queue)))
        by (rewrite E; left; reflexivity).
      apply filter_In in Hf. destruct Hf as [Hin Hst]. exfalso.
      apply (Hnone t Hin). unfold hasStatus in Hst. destruct (status t); try discriminate.
      reflexivity. }
    rewrite Hnil in Hlen. simpl in Hlen. lia.
Qed.

Lemma getQueueStats_witness :
  getQueueStats sampleWorld =
  (Return {| statPending := 4; statInProgress := 1; statAwaitingReview := 0;
             statCompleted := 1; statRejected := 0; statTotal := 6 |}, sampleWorld).
Proof.
  destruct (getQueueStats_counts sampleWorld sampleQueue eq_refl)
    as (stats & Hrun & _).
  pose proof Hrun as Hstats. vm_compute in Hstats. injection Hstats as <-.
  exact Hrun.
Defined.

(** X6. On a readable queue, [resetTask] after [rejectTask] of an active
    task leaves it in the active set with status [pending] and no rejection
    reason, whatever its status and reason were before; its id, type,
    priority, title, description, acceptance criteria and creation time are
    those it had, and every task keeps its place: the ids of the active set
    are as before, in the same order. *)
Theorem resetTask_after_rejectTask :
  forall (taskId why : string) (w : World) (queue : TaskQueue) (old : Task),
    queueFile w = Content queue ->
    activeTask taskId queue = Some old ->
    exists (w1 w2 : World) (queue1 queue2 : TaskQueue) (was now' : Task),
      rejectTask taskId why w = (Return tt, w1) /\
      queueFile w1 = Content queue1 /\
      activeTask taskId queue1 = Some was /\
      status was = rejected /\ rejectionReason was = Some why /\
      resetTask taskId w1 = (Return tt, w2) /\
      queueFile w2 = Content queue2 /\
      activeTask taskId queue2 = Some now' /\
      status now' = pending /\ rejectionReason now' = None /\
      sameDescription now' old /\
      map id (tasks queue2) = map id (tasks queue) /\
      completed queue2 = completed queue /\ current queue2 = current queue.
Proof.
  intros taskId why w queue old Hq Hold.
  assert (Hstep : forall (updates : TaskUpdates) (w0 : World) (q0 : TaskQueue) (t0 : Task),
             queueFile w0 = Content q0 -> activeTask taskId q0 = Some t0 ->
             exists q',
               updateTask taskId updates w0
               = (Return (applyUpdates t0 updates (now w0)), afterSave q' w0) /\
               activeTask taskId q' = Some (applyUpdates t0 updates (now w0)) /\
               map id (tasks q') = map id (tasks q0) /\
               completed q' = completed q0 /\ current q' = current q0).
  { intros updates w0 q0 t0 Hq0 Ht0.
    pose proof Ht0 as Hfound. apply find_findIndex in Hfound.
    destruct Hfound as (i & Hi & Hnth).
    pose proof (updateTask_run taskId updates w0 q0 Hq0) as Hrun.
    rewrite Hi in Hrun. destruct Hrun as (t0' & Hnth' & Hid & Hrun).
    rewrite Hnth in Hnth'. injection Hnth' as <-.
    eexists. split; [exact Hrun|].
    split; [apply find_setAt; [exact Hi|apply hasId_applyUpdates; exact Hid]|].
    split; [|split; reflexivity].
    simpl. apply (map_setAt id _ _ t0); [exact Hnth|reflexivity]. }
  destruct (Hstep {| newType := None; newPriority := None; newTitle := None;
                     newDescription := None; newStatus := Some rejected;
                     newRejectionReason := Some (Some why) |} w queue old Hq Hold)
    as (q1 & Hrun1 & Hact1 & Hids1 & Hc1 & Hcur1).
  destruct (Hstep {| newType := None; newPriority := None; newTitle := None;
                     newDescription := None; newStatus := Some pending;
                     newRejectionReason := Some None |}
              (afterSave q1 w) (withLastUpdated (now w) q1) _ eq_refl Hact1)
    as (q2 & Hrun2 & Hact2 & Hids2 & Hc2 & Hcur2).
  eexists. eexists. eexists. eexists. eexists. eexists.
  split; [unfold rejectTask; rewrite (bind_run _ _ _ _ _ Hrun1); reflexivity|].
  split; [reflexivity|]. split; [exact Hact1|].
  split; [reflexivity|]. split; [reflexivity|].
  split; [unfold resetTask; rewrite (bind_run _ _ _ _ _ Hrun2); reflexivity|].
  split; [reflexivity|]. split; [exact Hact2|].
  split; [reflexivity|]. split; [reflexivity|].
  split; [repeat split; reflexivity|].
  split; [simpl; rewrite Hids2; exact Hids1|].
  split; [simpl; rewrite Hc2; exact Hc1|simpl; rewrite Hcur2; exact Hcur1].
Qed.

Lemma resetTask_witness :
  exists w1 w2 queue2,
    rejectTask "task-004" "Build verification failed" sampleWorld = (Return tt, w1) /\
    resetTask "task-004" w1 = (Return tt, w2) /\
    queueFile w2 = Content queue2 /\
    map id (tasks queue2) = ["task-001"; "task-004"; "task-005"; "task-006"; "task-002"].
Proof.
  destruct (resetTask_after_rejectTask "task-004" "Build verification failed"
              sampleWorld sampleQueue (sampleTask "task-004" high pending 3000)
              eq_refl eq_refl)
    as (w1 & w2 & q1 & queue2 & was & now' & Hrej & _ & _ & _ & _ & Hres & Hq2 & _ & _
        & _ & _ & Hids & _).
  exists w1, w2, queue2.
  split; [exact Hrej|]. split; [exact Hres|]. split; [exact Hq2|exact Hids].
Defined.

(** X7. On a readable queue, [hasTasksToProcess] writes nothing and returns
    true exactly when some task of the active set is [pending] or
    [in_progress]: tasks that are [awaiting_review] or [rejected], and
    completed tasks, do not count.  When it returns false,
    [getNextPendingTask] returns no task. *)
Theorem hasTasksToProcess_pending_or_in_progress :
  forall (w : World) (queue : TaskQueue),
    queueFile w = Content queue ->
    hasTasksToProcess w = (Return (existsb isProcessable (tasks queue)), w) /\
    (existsb isProcessable (tasks queue) = true <->
     exists t, In t (tasks queue) /\ (status t = pending \/ status t = in_progress)) /\
    (existsb isProcessable (tasks queue) = false ->
     getNextPendingTask w = (Return None, w)).
Proof.
  intros w queue Hq.
  assert (Hex : forall l : list Task,
             existsb isProcessable l
             = negb (List.length (filter (hasStatus pending) l) =? 0)%nat
               || negb (List.length (filter (hasStatus in_progress) l) =? 0)%nat).
  { induction l as [|t l IH]; simpl; [reflexivity|].
    rewrite IH. unfold isProcessable, hasStatus. destruct (status t); simpl;
      try reflexivity;
      try (destruct (negb (List.length (filter (fun t0 => statusEqb (status t0) pending) l) =? 0)%nat);
           reflexivity). }
  split.
  { unfold hasTasksToProcess, getPendingTasks, getInProgressTasks, loadQueue,
      readJSON, bind, ret. rewrite Hq. cbv beta iota. rewrite Hq. rewrite Hex.
    reflexivity. }
  split.
  { rewrite existsb_exists. split.
    - intros (t & Hin & Ht). exists t. split; [exact Hin|].
      unfold isProcessable, hasStatus in Ht. destruct (status t); try discriminate;
        [left|right]; reflexivity.
    - intros (t & Hin & [Ht|Ht]); exists t; (split; [exact Hin|]);
        unfold isProcessable, hasStatus; rewrite Ht; reflexivity. }
  intros Hnone.
  unfold getNextPendingTask, getPendingTasks, loadQueue, readJSON, bind, ret.
  rewrite Hq.
  assert (Hnil : filter (hasStatus pending) (tasks queue) = []).
  { rewrite Hex in Hnone. apply orb_false_elim in Hnone. destruct Hnone as [Hp _].
    apply negb_false_iff in Hp. apply Nat.eqb_eq in Hp.
    apply length_zero_iff_nil. exact Hp. }
  rewrite Hnil. reflexivity.
Qed.

Lemma hasTasksToProcess_witness :
  hasTasksToProcess sampleWorld = (Return true, sampleWorld).
Proof.
  destruct (hasTasksToProcess_pending_or_in_progress sampleWorld sampleQueue eq_refl)
    as (Hrun & _). exact Hrun.
Defined.


(* ====================================================================== *)
(** * Further properties of the token comparator *)
(* ====================================================================== *)

(** [compareDesignTokens] throws when the lookup of a design name reaches
    the prototype of the extracted map ([compareDesignTokens_comparable]);
    the properties below are those of the results it returns, and of the
    error it throws. *)

(** *** Counts and severities *)

Lemma colorCheck_wellCounted cssColors tolerance entry :
  wellCounted (alone (colorCheck cssColors tolerance) entry).
Proof.
  unfold wellCounted, alone, colorCheck, colorFinding. destruct entry as [name designValue].
  destruct (found (matchingEntry name cssColors)) as [cssValue|];
    [destruct (String.eqb _ _); [|destruct (_ <=? _)%float]|];
    simpl; (split; [reflexivity|]); (split; [reflexivity|]);
    intros d Hd; try contradiction; destruct Hd as [<-|[]]; simpl.
  - destruct (20 <? _)%float; (split; [tauto|discriminate]).
  - split; [tauto|]. intros _. split; reflexivity.
Qed.

Lemma spaceCheck_wellCounted cssSpacing tolerance type entry :
  wellCounted (alone (spaceCheck cssSpacing tolerance type) entry).
Proof.
  unfold wellCounted, alone, spaceCheck, spacingFinding. destruct entry as [name designValue].
  destruct (found (matchingEntry name cssSpacing)) as [cssValue|];
    [destruct (parseSpacingValue designValue) as [designPx|],
              (parseSpacingValue cssValue) as [cssPx|];
     try destruct (_ <=? _)%float; try destruct (String.eqb designValue cssValue)|];
    simpl; (split; [reflexivity|]); (split; [reflexivity|]);
    intros d Hd; try contradiction; destruct Hd as [<-|[]]; simpl;
    try (destruct (8 <? _)%float); (split; [tauto|]);
    try discriminate; intros _; split; reflexivity.
Qed.

Lemma wellCounted_sum (one : string * string -> TokenComparisonResult)
    (l : list (string * string)) :
  (forall e, wellCounted (one e)) ->
  list_sum (map (fun e => matching (one e)) l)
  + list_sum (map (fun e => mismatched (one e)) l)
  + list_sum (map (fun e => missing (one e)) l) = List.length l /\
  List.length (flat_map (fun e => tokenDiscrepancies (one e)) l)
  = list_sum (map (fun e => mismatched (one e)) l)
    + list_sum (map (fun e => missing (one e)) l).
Proof.
  intros Hone. induction l as [|e l [IH1 IH2]]; simpl; [split; reflexivity|].
  destruct (Hone e) as (H1 & H2 & _).
  rewrite length_app. lia.
Qed.

Lemma part_wellCounted (r : TokenComparisonResult)
    (one : string * string -> TokenComparisonResult) (l : list (string * string)) :
  (forall e, wellCounted (one e)) ->
  total r = List.length l ->
  matching r = list_sum (map (fun e => matching (one e)) l) ->
  mismatched r = list_sum (map (fun e => mismatched (one e)) l) ->
  missing r = list_sum (map (fun e => missing (one e)) l) ->
  tokenDiscrepancies r = flat_map (fun e => tokenDiscrepancies (one e)) l ->
  total r = matching r + mismatched r + missing r /\
  List.length (tokenDiscrepancies r) = mismatched r + missing r /\
  (forall d, In d (tokenDiscrepancies r) ->
     (severity d = warning \/ severity d = error) /\
     (difference d = TokenNotFound ->
      severity d = warning /\ actualValue d = "NOT_FOUND")).
Proof.
  intros Hone Ht Hm Hx Hs Hd.
  destruct (wellCounted_sum one l Hone) as [Hsum Hlen].
  rewrite Ht, Hm, Hx, Hs, Hd. split; [lia|]. split; [exact Hlen|].
  intros d Hin. apply in_flat_map in Hin. destruct Hin as (e & _ & Hin).
  destruct (Hone e) as (_ & _ & Hsev). exact (Hsev d Hin).
Qed.

Lemma colorPart_wellCounted design css options :
  let c := colorPart design css options in
  total c = List.length (colors design) /\
  total c = matching c + mismatched c + missing c /\
  List.length (tokenDiscrepancies c) = mismatched c + missing c /\
  (forall d, In d (tokenDiscrepancies c) ->
     (severity d = warning \/ severity d = error) /\
     (difference d = TokenNotFound ->
      severity d = warning /\ actualValue d = "NOT_FOUND")).
Proof.
  cbv zeta. unfold colorPart.
  destruct (colorChecks_findings (colors design) (colors css)
              (numberOption (colorTolerance (mergeOptions DEFAULT_OPTIONS options))))
    as (Ht & Hm & Hx & Hs & Hd).
  split; [exact Ht|].
  exact (part_wellCounted _ _ _ (colorCheck_wellCounted _ _) Ht Hm Hx Hs Hd).
Qed.

Lemma spacingChecks_wellCounted designSpacing cssSpacing tolerance type :
  let s := spacingChecks designSpacing cssSpacing tolerance type in
  total s = List.length designSpacing /\
  total s = matching s + mismatched s + missing s /\
  List.length (tokenDiscrepancies s) = mismatched s + missing s /\
  (forall d, In d (tokenDiscrepancies s) ->
     (severity d = warning \/ severity d = error) /\
     (difference d = TokenNotFound ->
      severity d = warning /\ actualValue d = "NOT_FOUND")).
Proof.
  cbv zeta.
  destruct (spacingChecks_findings designSpacing cssSpacing tolerance type)
    as (Ht & Hm & Hx & Hs & Hd).
  split; [exact Ht|].
  exact (part_wellCounted _ _ _ (spaceCheck_wellCounted _ _ _) Ht Hm Hx Hs Hd).
Qed.

Lemma radiusPart_wellCounted design css options :
  let b := radiusPart design css options in
  total b = List.length (orElse (borderRadius design) []) /\
  total b = matching b + mismatched b + missing b /\
  List.length (tokenDiscrepancies b) = mismatched b + missing b /\
  (forall d, In d (tokenDiscrepancies b) ->
     (severity d = warning \/ severity d = error) /\
     (difference d = TokenNotFound ->
      severity d = warning /\ actualValue d = "NOT_FOUND")).
Proof.
  cbv zeta. unfold radiusPart. destruct (borderRadius design) as [radius|]; simpl.
  - apply spacingChecks_wellCounted.
  - repeat split; contradiction.
Qed.

(** The counts of a comparison. *)
Lemma comparison_counts :
  forall (designTokens : DesignTokens) (cssTokens : CSSTokens)
         (options : ComparisonOptions),
    let r := comparisonOf designTokens cssTokens options in
    totalChecked r = List.length (checkedTokens designTokens) /\
    totalChecked r = matchingCount r + mismatchedCount r + missingInCSSCount r /\
    List.length (discrepancies r) = mismatchedCount r + missingInCSSCount r /\
    (discrepancies r = [] <-> matchingCount r = totalChecked r).
Proof.
  intros design css options r.
  destruct (comparisonOf_parts design css options)
    as (Ht & Hm & Hx & Hz & Hd & _).
  fold r in Ht, Hm, Hx, Hz, Hd.
  destruct (colorPart_wellCounted design css options) as (C0 & C1 & C2 & _).
  assert (S := spacingChecks_wellCounted (spacing design) (spacing css)
                 (numberOption (spacingTolerance (mergeOptions DEFAULT_OPTIONS options)))
                 TSpacing).
  cbv zeta in S. fold (spacingPart design css options) in S.
  destruct S as (S0 & S1 & S2 & _).
  destruct (radiusPart_wellCounted design css options) as (B0 & B1 & B2 & _).
  clearbody r.
  assert (Hlen : List.length (discrepancies r) = mismatchedCount r + missingInCSSCount r).
  { rewrite Hd, !length_app. lia. }
  split.
  { rewrite Ht, C0, S0, B0. unfold checkedTokens. rewrite !length_app.
    symmetry. apply Nat.add_assoc. }
  split; [lia|]. split; [exact Hlen|].
  split.
  - intros Hnil. rewrite Hnil in Hlen. simpl in Hlen. lia.
  - intros Hall. apply length_zero_iff_nil. lia.
Qed.

(** X8. Whenever every name of the design set is looked up among the
    entries of the extracted map, [compareDesignTokens] returns a result
    whose counts add up: [totalChecked] is the number of colour, spacing and
    border-radius tokens of the design set and equals [matchingCount +
    mismatchedCount + missingInCSSCount]; there is one discrepancy per
    mismatched or missing token; and there is no discrepancy exactly when
    every checked token matched.  It returns in no other case. *)
Theorem compareDesignTokens_counts_add_up :
  forall (designTokens : DesignTokens) (cssTokens : CSSTokens)
         (options : ComparisonOptions),
    (comparable designTokens cssTokens = true ->
     exists r : ComparisonResult,
       compareDesignTokens designTokens cssTokens options = Return r /\
       totalChecked r = List.length (checkedTokens designTokens) /\
       totalChecked r = matchingCount r + mismatchedCount r + missingInCSSCount r /\
       List.length (discrepancies r) = mismatchedCount r + missingInCSSCount r /\
       (discrepancies r = [] <-> matchingCount r = totalChecked r)) /\
    (forall r : ComparisonResult,
       compareDesignTokens designTokens cssTokens options = Return r ->
       comparable designTokens cssTokens = true).
Proof.
  intros designTokens cssTokens options. split.
  - intros Hok. exists (comparisonOf designTokens cssTokens options).
    split; [rewrite compareDesignTokens_comparable, Hok; reflexivity|].
    exact (comparison_counts designTokens cssTokens options).
  - intros r Hr. exact (proj1 (compareDesignTokens_returned _ _ _ _ Hr)).
Qed.

Lemma counts_add_up_witness :
  exists r,
    compareDesignTokens sampleTokens sampleExtracted noOptions = Return r /\
    totalChecked r = 6 /\
    totalChecked r = matchingCount r + mismatchedCount r + missingInCSSCount r.
Proof.
  destruct (proj1 (compareDesignTokens_counts_add_up sampleTokens sampleExtracted
                     noOptions) eq_refl)
    as (r & Hr & Htotal & Hsum & _).
  exists r. split; [exact Hr|]. split; [exact Htotal|exact Hsum].
Defined.

(** The severities of a comparison. *)
Lemma comparisonOf_severity :
  forall (designTokens : DesignTokens) (cssTokens : CSSTokens)
         (options : ComparisonOptions),
    let r := comparisonOf designTokens cssTokens options in
    (forall d, In d (discrepancies r) ->
       (severity d = warning \/ severity d = error) /\
       (difference d = TokenNotFound ->
        severity d = warning /\ actualValue d = "NOT_FOUND")) /\
    getOverallSeverity (discrepancies r) <> overall_info /\
    (getOverallSeverity (discrepancies r) = overall_none
     <-> matchingCount r = totalChecked r) /\
    (getOverallSeverity (discrepancies r) = overall_error
     <-> exists d, In d (discrepancies r) /\ severity d = error).
Proof.
  intros design css options r.
  destruct (comparison_counts design css options) as (_ & _ & _ & Hnil).
  fold r in Hnil.
  assert (Hsev : forall d, In d (discrepancies r) ->
             (severity d = warning \/ severity d = error) /\
             (difference d = TokenNotFound ->
              severity d = warning /\ actualValue d = "NOT_FOUND")).
  { destruct (comparisonOf_parts design css options) as (_ & _ & _ & _ & Hd & _).
    fold r in Hd. rewrite Hd. intros d Hin.
    destruct (colorPart_wellCounted design css options) as (_ & _ & _ & C).
    assert (S := spacingChecks_wellCounted (spacing design) (spacing css)
                   (numberOption (spacingTolerance (mergeOptions DEFAULT_OPTIONS options)))
                   TSpacing).
    cbv zeta in S. fold (spacingPart design css options) in S.
    destruct S as (_ & _ & _ & S).
    destruct (radiusPart_wellCounted design css options) as (_ & _ & _ & B).
    apply in_app_or in Hin. destruct Hin as [Hin|Hin]; [exact (C d Hin)|].
    apply in_app_or in Hin. destruct Hin as [Hin|Hin]; [exact (S d Hin)|exact (B d Hin)]. }
  split; [exact Hsev|].
  assert (Hcases : forall l : list DiscrepancyItem,
             (forall d, In d l -> severity d = warning \/ severity d = error) ->
             getOverallSeverity l <> overall_info /\
             (getOverallSeverity l = overall_none <-> l = []) /\
             (getOverallSeverity l = overall_error
              <-> exists d, In d l /\ severity d = error)).
  { intros l Hl. destruct l as [|d0 l]; simpl.
    - split; [discriminate|]. split; [tauto|].
      split; [discriminate|intros (d & [] & _)].
    - set (all := d0 :: l) in *.
      change (severityEqb (severity d0) error
              || existsb (fun d => severityEqb (severity d) error) l)
        with (existsb (fun d => severityEqb (severity d) error) all).
      change (severityEqb (severity d0) warning
              || existsb (fun d => severityEqb (severity d) warning) l)
        with (existsb (fun d => severityEqb (severity d) warning) all).
      destruct (existsb (fun d => severityEqb (severity d) error) all) eqn:He.
      + split; [discriminate|]. split; [split; discriminate|].
        split; [intros _|reflexivity].
        apply existsb_exists in He. destruct He as (d & Hin & Hd).
        exists d. split; [exact Hin|]. destruct (severity d); try discriminate.
        reflexivity.
      + assert (Hw : existsb (fun d => severityEqb (severity d) warning) all = true).
        { apply existsb_exists. exists d0. split; [left; reflexivity|].
          destruct (Hl d0 (or_introl eq_refl)) as [E|E]; rewrite E; [reflexivity|].
          exfalso. assert (Hc : existsb (fun d => severityEqb (severity d) error) all = true).
          { apply existsb_exists. exists d0. split; [left; reflexivity|].
            rewrite E. reflexivity. }
          rewrite He in Hc. discriminate. }
        rewrite Hw. split; [discriminate|]. split; [split; discriminate|].
        split; [discriminate|].
        intros (d & Hin & Hd).
        assert (Hc : existsb (fun d => severityEqb (severity d) error) all = true).
        { apply existsb_exists. exists d. split; [exact Hin|]. rewrite Hd. reflexivity. }
        rewrite He in Hc. discriminate. }
  destruct (Hcases (discrepancies r) (fun d Hin => proj1 (Hsev d Hin)))
    as (Hinfo & Hnone & Herr).
  split; [exact Hinfo|]. split; [|exact Herr].
  rewrite Hnone. exact Hnil.
Qed.

(** X9. Whenever every name of the design set is looked up among the
    entries of the extracted map, [compareDesignTokens] returns a result
    whose every discrepancy has severity [warning] or [error], never
    [info], a token that is not found being reported as a [warning] with
    [NOT_FOUND] as its actual value.  So [getOverallSeverity] of the
    reported discrepancies is [none], [warning] or [error]: [none] exactly
    when every checked token matched, and [error] exactly when some
    discrepancy is an error. *)
Theorem comparison_severity :
  forall (designTokens : DesignTokens) (cssTokens : CSSTokens)
         (options : ComparisonOptions),
    comparable designTokens cssTokens = true ->
    exists r : ComparisonResult,
      compareDesignTokens designTokens cssTokens options = Return r /\
      (forall d, In d (discrepancies r) ->
         (severity d = warning \/ severity d = error) /\
         (difference d = TokenNotFound ->
          severity d = warning /\ actualValue d = "NOT_FOUND")) /\
      getOverallSeverity (discrepancies r) <> overall_info /\
      (getOverallSeverity (discrepancies r) = overall_none
       <-> matchingCount r = totalChecked r) /\
      (getOverallSeverity (discrepancies r) = overall_error
       <-> exists d, In d (discrepancies r) /\ severity d = error).
Proof.
  intros designTokens cssTokens options Hok.
  exists (comparisonOf designTokens cssTokens options).
  split; [rewrite compareDesignTokens_comparable, Hok; reflexivity|].
  exact (comparisonOf_severity designTokens cssTokens options).
Qed.

Lemma comparison_severity_witness :
  exists r,
    compareDesignTokens sampleTokens sampleExtracted noOptions = Return r /\
    getOverallSeverity (discrepancies r) <> overall_info.
Proof.
  destruct (comparison_severity sampleTokens sampleExtracted noOptions eq_refl)
    as (r & Hr & _ & Hinfo & _).
  exists r. split; [exact Hr|exact Hinfo].
Defined.

(** *** Thresholds and empty sets *)

(** X10. For all token sets and options, a [minMatchPercentage] of 0 (or
    [NaN]) gives the outcome of the threshold 90, which is also the outcome
    when no threshold is given: zero is falsy in
    [opts.minMatchPercentage || 90], so the threshold cannot be switched
    off by setting it to 0. *)
Theorem zero_threshold_means_ninety :
  forall (designTokens : DesignTokens) (cssTokens : CSSTokens)
         (options : ComparisonOptions),
    let resultFor threshold :=
      compareDesignTokens designTokens cssTokens (withThreshold threshold options) in
    resultFor (Some 0%float) = resultFor (Some 90%float) /\
    resultFor (Some (-0)%float) = resultFor (Some 90%float) /\
    resultFor (Some nan) = resultFor (Some 90%float) /\
    resultFor None = resultFor (Some 90%float).
Proof.
  intros design css options resultFor. unfold resultFor.
  rewrite !compareDesignTokens_comparable.
  destruct (comparable design css); repeat split; reflexivity.
Qed.

Lemma zero_div (x : float) (m : positive) (e : Z) :
  Prim2SF x = S754_finite false m e -> (0 / x)%float = 0%float.
Proof.
  intros Hx. apply Prim2SF_inj. rewrite div_spec, Hx. reflexivity.
Qed.

Lemma noMatch_percentage (n : nat) :
  (0 < n)%nat -> (Z.of_nat n < 2 ^ 53)%Z ->
  percentageOf 0 n = 0%float.
Proof.
  intros Hn Hb. unfold percentageOf.
  destruct (Nat.ltb_spec 0 n) as [_|H]; [|lia].
  unfold Num.ofNat at 1. change (Num.ofZ (Z.of_nat 0)) with 0%float.
  destruct (Prim2SF_ofZ_small (Z.of_nat n) ltac:(lia)) as (m & e & H).
  unfold Num.ofNat. rewrite (zero_div _ _ _ H). vm_compute. reflexivity.
Qed.

(** A comparison without tokens to check. *)
Lemma comparisonOf_nothing_to_check :
  forall (designTokens : DesignTokens) (cssTokens : CSSTokens)
         (options : ComparisonOptions),
    checkedTokens designTokens = [] ->
    let r := comparisonOf designTokens cssTokens options in
    totalChecked r = 0 /\ matchPercentage r = 100%float /\ discrepancies r = [] /\
    verified r = (thresholdOf options <=? 100)%float /\
    verified (comparisonOf designTokens cssTokens noOptions) = true.
Proof.
  intros design css options Hnone r.
  unfold checkedTokens in Hnone.
  apply app_eq_nil in Hnone. destruct Hnone as [Hc Hrest].
  apply app_eq_nil in Hrest. destruct Hrest as [Hs Hb].
  assert (Hgen : forall o,
             let r := comparisonOf design css o in
             totalChecked r = 0 /\ matchPercentage r = 100%float /\
             discrepancies r = [] /\ verified r = (thresholdOf o <=? 100)%float).
  { intros o. unfold comparisonOf, colorPart, spacingPart, radiusPart, thresholdOf.
    rewrite Hc, Hs.
    destruct (borderRadius design) as [radius|]; simpl in Hb;
      [rewrite Hb|]; repeat split; reflexivity. }
  destruct (Hgen options) as (H1 & H2 & H3 & H4).
  split; [exact H1|]. split; [exact H2|]. split; [exact H3|]. split; [exact H4|].
  destruct (Hgen noOptions) as (_ & _ & _ & H5). rewrite H5. reflexivity.
Qed.

(** X11. When the design set has no colour, spacing or border-radius token,
    [compareDesignTokens] returns and has checked nothing, whatever was
    extracted and whatever the design set holds as fonts and shadows:
    [totalChecked] is 0, the match percentage is 100, there is no
    discrepancy, and the result is verified for every threshold up to 100,
    the default one included. *)
Theorem nothing_to_check_is_full_match :
  forall (designTokens : DesignTokens) (cssTokens : CSSTokens)
         (options : ComparisonOptions),
    checkedTokens designTokens = [] ->
    exists r : ComparisonResult,
      compareDesignTokens designTokens cssTokens options = Return r /\
      totalChecked r = 0 /\ matchPercentage r = 100%float /\ discrepancies r = [] /\
      verified r = (thresholdOf options <=? 100)%float /\
      exists r0 : ComparisonResult,
        compareDesignTokens designTokens cssTokens noOptions = Return r0 /\
        verified r0 = true.
Proof.
  intros design css options Hnone.
  assert (Hok : comparable design css = true).
  { unfold checkedTokens in Hnone.
    apply app_eq_nil in Hnone. destruct Hnone as [Hc Hrest].
    apply app_eq_nil in Hrest. destruct Hrest as [Hs Hb].
    unfold comparable. rewrite Hc, Hs, Hb. reflexivity. }
  destruct (comparisonOf_nothing_to_check design css options Hnone)
    as (H1 & H2 & H3 & H4 & H5).
  exists (comparisonOf design css options).
  split; [rewrite compareDesignTokens_comparable, Hok; reflexivity|].
  split; [exact H1|]. split; [exact H2|]. split; [exact H3|]. split; [exact H4|].
  exists (comparisonOf design css noOptions).
  split; [rewrite compareDesignTokens_comparable, Hok; reflexivity|exact H5].
Qed.

Lemma nothing_to_check_witness :
  exists r,
    compareDesignTokens
      {| colors := []; fonts := []; spacing := []; borderRadius := Some [];
         shadows := Some [("card", "0 1px 2px #000")] |}
      sampleExtracted noOptions = Return r /\
    matchPercentage r = 100%float.
Proof.
  destruct (nothing_to_check_is_full_match
              {| colors := []; fonts := []; spacing := []; borderRadius := Some [];
                 shadows := Some [("card", "0 1px 2px #000")] |}
              sampleExtracted noOptions eq_refl) as (r & Hr & _ & Hp & _).
  exists r. split; [exact Hr|exact Hp].
Defined.

Lemma all_missing (type : DiscrepancyType)
    (one : string * string -> TokenComparisonResult) (l : list (string * string)) :
  (forall e, one e = countMissing (notFound type (fst e) (snd e)) (emptyComparison 0)) ->
  list_sum (map (fun e => matching (one e)) l) = 0 /\
  list_sum (map (fun e => mismatched (one e)) l) = 0 /\
  list_sum (map (fun e => missing (one e)) l) = List.length l /\
  flat_map (fun e => tokenDiscrepancies (one e)) l
  = map (fun e => notFound type (fst e) (snd e)) l.
Proof.
  intros H. induction l as [|e l (H1 & H2 & H3 & H4)]; simpl; [repeat split|].
  rewrite (H e), H1, H2, H3, H4. repeat split.
Qed.

Lemma matchingEntry_empty (name : string) : matchingEntry name [] = None.
Proof.
  unfold matchingEntry. simpl.
  destruct (JS.toLowerCase (JS.lastSegment name)); reflexivity.
Qed.

Lemma spacingChecks_nothing_extracted designSpacing tolerance type :
  let s := spacingChecks designSpacing [] tolerance type in
  total s = List.length designSpacing /\ matching s = 0 /\ mismatched s = 0 /\
  missing s = List.length designSpacing /\
  tokenDiscrepancies s = map (fun e => notFound type (fst e) (snd e)) designSpacing.
Proof.
  cbv zeta.
  destruct (spacingChecks_findings designSpacing [] tolerance type)
    as (Ht & Hm & Hx & Hs & Hd).
  destruct (all_missing type (alone (spaceCheck [] tolerance type)) designSpacing)
    as (H1 & H2 & H3 & H4).
  { intros [name value]. unfold alone, spaceCheck.
    rewrite matchingEntry_empty. reflexivity. }
  rewrite Ht, Hm, Hx, Hs, Hd, H1, H2, H3, H4. repeat split.
Qed.

Lemma colorChecks_nothing_extracted designColors tolerance :
  let c := colorChecks designColors [] tolerance in
  total c = List.length designColors /\ matching c = 0 /\ mismatched c = 0 /\
  missing c = List.length designColors /\
  tokenDiscrepancies c = map (fun e => notFound TColor (fst e) (snd e)) designColors.
Proof.
  cbv zeta.
  destruct (colorChecks_findings designColors [] tolerance)
    as (Ht & Hm & Hx & Hs & Hd).
  destruct (all_missing TColor (alone (colorCheck [] tolerance)) designColors)
    as (H1 & H2 & H3 & H4).
  { intros [name value]. unfold alone, colorCheck.
    rewrite matchingEntry_empty. reflexivity. }
  rewrite Ht, Hm, Hx, Hs, Hd, H1, H2, H3, H4. repeat split.
Qed.

(** A comparison with nothing extracted. *)
Lemma comparisonOf_nothing_extracted :
  forall (designTokens : DesignTokens) (cssTokens : CSSTokens)
         (options : ComparisonOptions),
    colors cssTokens = [] -> spacing cssTokens = [] ->
    orElse (borderRadius cssTokens) [] = [] ->
    (Z.of_nat (List.length (checkedTokens designTokens)) < 2 ^ 53)%Z ->
    let r := comparisonOf designTokens cssTokens options in
    discrepancies r = allNotFound designTokens /\
    matchingCount r = 0 /\ mismatchedCount r = 0 /\
    missingInCSSCount r = totalChecked r /\
    (checkedTokens designTokens <> [] ->
     matchPercentage r = 0%float /\
     verified (comparisonOf designTokens cssTokens noOptions) = false).
Proof.
  intros design css options Hc Hs Hb Hsize r.
  assert (Hgen : forall o,
             let r := comparisonOf design css o in
             discrepancies r = allNotFound design /\
             matchingCount r = 0 /\ mismatchedCount r = 0 /\
             missingInCSSCount r = totalChecked r /\
             totalChecked r = List.length (checkedTokens design)).
  { intros o.
    destruct (comparisonOf_parts design css o) as (Ht & Hm & Hx & Hz & Hd & _).
    destruct (comparison_counts design css o) as (Hlen & _).
    cbv zeta in *.
    unfold colorPart, spacingPart, radiusPart in Ht, Hm, Hx, Hz, Hd.
    rewrite Hc, Hs, Hb in *.
    destruct (colorChecks_nothing_extracted (colors design)
                (numberOption (colorTolerance (mergeOptions DEFAULT_OPTIONS o))))
      as (C0 & C1 & C2 & C3 & C4).
    destruct (spacingChecks_nothing_extracted (spacing design)
                (numberOption (spacingTolerance (mergeOptions DEFAULT_OPTIONS o))) TSpacing)
      as (S0 & S1 & S2 & S3 & S4).
    assert (B : let b := match borderRadius design with
                         | Some designRadius =>
                             spacingChecks designRadius []
                               (numberOption (spacingTolerance (mergeOptions DEFAULT_OPTIONS o)))
                               TBorderRadius
                         | None => emptyComparison 0
                         end in
                total b = List.length (orElse (borderRadius design) []) /\
                matching b = 0 /\ mismatched b = 0 /\
                missing b = List.length (orElse (borderRadius design) []) /\
                tokenDiscrepancies b
                = map (fun e => notFound TBorderRadius (fst e) (snd e))
                    (orElse (borderRadius design) [])).
    { destruct (borderRadius design) as [radius|]; simpl.
      - apply spacingChecks_nothing_extracted.
      - repeat split. }
    cbv zeta in B. destruct B as (B0 & B1 & B2 & B3 & B4).
    rewrite Hd, Hm, Hx, Hz, Ht, C0, C1, C2, C3, C4, S0, S1, S2, S3, S4, B0, B1, B2, B3, B4.
    split; [reflexivity|]. split; [reflexivity|]. split; [reflexivity|].
    split; [reflexivity|].
    unfold checkedTokens. rewrite !length_app. symmetry. apply Nat.add_assoc. }
  destruct (Hgen options) as (H1 & H2 & H3 & H4 & H5).
  split; [exact H1|]. split; [exact H2|]. split; [exact H3|]. split; [exact H4|].
  intros Hsome.
  assert (Hpos : (0 < List.length (checkedTokens design))%nat).
  { destruct (checkedTokens design); [contradiction|simpl; lia]. }
  assert (Hzero : forall o, matchPercentage (comparisonOf design css o) = 0%float).
  { intros o. destruct (Hgen o) as (_ & G2 & _ & _ & G5).
    destruct (comparisonOf_parts design css o) as (_ & _ & _ & _ & _ & Hp & _).
    cbv zeta in Hp. rewrite Hp, G2, G5. apply noMatch_percentage; assumption. }
  split; [apply Hzero|].
  destruct (comparisonOf_parts design css noOptions)
    as (_ & _ & _ & _ & _ & _ & Hv).
  cbv zeta in Hv. rewrite Hv, Hzero. reflexivity.
Qed.

(** In an empty map every lookup of an inherited name reaches the
    prototype. *)
Lemma ownLookups_nothing_extracted (design : TokenMap) :
  ownLookups design [] = forallb (fun entry => negb (isInherited (fst entry))) design.
Proof. reflexivity. Qed.

Lemma comparable_nothing_extracted (designTokens : DesignTokens) (cssTokens : CSSTokens) :
  colors cssTokens = [] -> spacing cssTokens = [] ->
  orElse (borderRadius cssTokens) [] = [] ->
  comparable designTokens cssTokens
  = forallb (fun entry => negb (isInherited (fst entry))) (checkedTokens designTokens).
Proof.
  intros Hc Hs Hb. unfold comparable, checkedTokens.
  rewrite Hc, Hs, Hb, !ownLookups_nothing_extracted, !forallb_app, andb_assoc.
  reflexivity.
Qed.

(** X12. When nothing was extracted (the colour, spacing and border-radius
    maps of the extracted set are empty, as for a project without style
    files) and no colour, spacing or border-radius token of the design set
    has the name of a property that objects inherit, [compareDesignTokens]
    returns and reports every one of these tokens as not found, in that
    order: nothing matches or mismatches, and for a design set with at
    least one (and fewer than 2^53) such tokens the match percentage is 0,
    so the result is not verified under the default threshold.  When one
    of these tokens has such a name ([constructor], [toString], ...),
    [compareDesignTokens] throws the [TypeError] of [value.trim] instead. *)
Theorem nothing_extracted_is_all_missing :
  forall (designTokens : DesignTokens) (cssTokens : CSSTokens)
         (options : ComparisonOptions),
    colors cssTokens = [] -> spacing cssTokens = [] ->
    orElse (borderRadius cssTokens) [] = [] ->
    (Z.of_nat (List.length (checkedTokens designTokens)) < 2 ^ 53)%Z ->
    (plainNames (checkedTokens designTokens) ->
     exists r : ComparisonResult,
       compareDesignTokens designTokens cssTokens options = Return r /\
       discrepancies r = allNotFound designTokens /\
       matchingCount r = 0 /\ mismatchedCount r = 0 /\
       missingInCSSCount r = totalChecked r /\
       (checkedTokens designTokens <> [] ->
        matchPercentage r = 0%float /\
        exists r0 : ComparisonResult,
          compareDesignTokens designTokens cssTokens noOptions = Return r0 /\
          verified r0 = false)) /\
    (~ plainNames (checkedTokens designTokens) ->
     compareDesignTokens designTokens cssTokens options = Throw trimIsNotAFunction).
Proof.
  intros design css options Hc Hs Hb Hsize.
  pose proof (comparable_nothing_extracted design css Hc Hs Hb) as Hok.
  split.
  - intros Hplain.
    assert (Hyes : comparable design css = true).
    { rewrite Hok. apply forallb_forall. intros [name value] Hin. simpl.
      rewrite (Hplain name value Hin). reflexivity. }
    destruct (comparisonOf_nothing_extracted design css options Hc Hs Hb Hsize)
      as (H1 & H2 & H3 & H4 & H5).
    exists (comparisonOf design css options).
    split; [rewrite compareDesignTokens_comparable, Hyes; reflexivity|].
    split; [exact H1|]. split; [exact H2|]. split; [exact H3|]. split; [exact H4|].
    intros Hsome. destruct (H5 Hsome) as [Hp Hv]. split; [exact Hp|].
    exists (comparisonOf design css noOptions).
    split; [rewrite compareDesignTokens_comparable, Hyes; reflexivity|exact Hv].
  - intros Hnot. rewrite compareDesignTokens_comparable, Hok.
    destruct (forallb (fun entry => negb (isInherited (fst entry)))
                (checkedTokens design)) eqn:Hall; [|reflexivity].
    exfalso. apply Hnot. intros name value Hin.
    rewrite forallb_forall in Hall. specialize (Hall (name, value) Hin).
    simpl in Hall. apply negb_true_iff in Hall. exact Hall.
Qed.

Lemma nothing_extracted_witness :
  (exists r,
     compareDesignTokens sampleTokens createEmptyCSSTokens noOptions = Return r /\
     matchPercentage r = 0%float /\ List.length (discrepancies r) = 6) /\
  compareDesignTokens tokensWithInheritedName createEmptyCSSTokens noOptions
  = Throw trimIsNotAFunction.
Proof.
  split.
  - destruct (nothing_extracted_is_all_missing sampleTokens createEmptyCSSTokens
                noOptions eq_refl eq_refl eq_refl eq_refl) as [Hreturns _].
    destruct Hreturns as (r & Hr & Hd & _ & _ & _ & Hp).
    { intros name value H. listed_entries H; reflexivity. }
    exists r. split; [exact Hr|]. split; [apply Hp; discriminate|].
    rewrite Hd. reflexivity.
  - destruct (nothing_extracted_is_all_missing tokensWithInheritedName
                createEmptyCSSTokens noOptions eq_refl eq_refl eq_refl eq_refl)
      as [_ Hthrows].
    apply Hthrows. intros Hplain.
    specialize (Hplain "constructor" "#ffffff" (or_introl eq_refl)). discriminate.
Defined.

(** *** Colours *)

Lemma parseIntHex_hexByte (n : N) :
  (n <= 255)%N -> Num.parseIntHex (hexByte n) = Some (Z.of_N n).
Proof.
  intros Hn.
  assert (Hall : forallb
                   (fun k =>
                      match Num.parseIntHex (hexByte (N.of_nat k)) with
                      | Some z => (z =? Z.of_nat k)%Z
                      | None => false
                      end)
                   (seq 0 256) = true) by (vm_compute; reflexivity).
  rewrite forallb_forall in Hall.
  specialize (Hall (N.to_nat n)). rewrite N2Nat.id in Hall.
  assert (Hin : In (N.to_nat n) (seq 0 256)) by (apply in_seq; lia).
  specialize (Hall Hin).
  destruct (Num.parseIntHex (hexByte n)) as [z|]; [|discriminate].
  apply Z.eqb_eq in Hall. rewrite Hall, N_nat_Z. reflexivity.
Qed.

Lemma two_characters (s : string) :
  String.length s = 2 -> exists x y, s = String x (String y EmptyString).
Proof.
  destruct s as [|x [|y [|z s]]]; simpl; try discriminate.
  intros _. exists x, y. reflexivity.
Qed.

Lemma hexToRgb_hexBytes (r g b : N) :
  (r <= 255)%N -> (g <= 255)%N -> (b <= 255)%N ->
  hexToRgb ("#" ++ hexByte r ++ hexByte g ++ hexByte b)
  = Some (Z.of_N r, Z.of_N g, Z.of_N b).
Proof.
  intros Hr Hg Hb.
  pose proof (parseIntHex_hexByte r Hr) as Pr.
  pose proof (parseIntHex_hexByte g Hg) as Pg.
  pose proof (parseIntHex_hexByte b Hb) as Pb.
  destruct (two_characters _ (proj1 (hexByte_two_digits r Hr))) as (r1 & r2 & Er).
  destruct (two_characters _ (proj1 (hexByte_two_digits g Hg))) as (g1 & g2 & Eg).
  destruct (two_characters _ (proj1 (hexByte_two_digits b Hb))) as (b1 & b2 & Eb).
  rewrite Er in *. rewrite Eg in *. rewrite Eb in *.
  unfold hexToRgb. simpl removeFirstHash. simpl String.length. simpl String.substring.
  cbv beta iota zeta. simpl negb. cbv iota.
  rewrite Pr, Pg, Pb. reflexivity.
Qed.

(** X13. For channels from 0 to 255, the colour that [normalizeColorValue]
    makes of [rgb(r, g, b)] is read back by [hexToRgb] as the channels
    [r], [g] and [b]; so is [rgba(r, g, b, a)], whose alpha channel is
    dropped, and the difference [calculateColorDifference] computes
    between the two is 0. *)
Theorem rgb_text_round_trip :
  forall (r g b : N) (alpha : string),
    (r <= 255)%N -> (g <= 255)%N -> (b <= 255)%N ->
    allChars isNumberChar alpha = true -> alpha <> "" ->
    hexToRgb (normalizeColorValue (rgbText r g b))
    = Some (Z.of_N r, Z.of_N g, Z.of_N b) /\
    hexToRgb (normalizeColorValue (rgbaText r g b alpha))
    = Some (Z.of_N r, Z.of_N g, Z.of_N b) /\
    calculateColorDifference (normalizeColorValue (rgbText r g b))
      (normalizeColorValue (rgbaText r g b alpha)) = 0%float.
Proof.
  intros r g b alpha Hr Hg Hb Ha Hne.
  rewrite normalizeColorValue_rgbText, (normalizeColorValue_rgbaText r g b alpha Ha Hne).
  pose proof (hexToRgb_hexBytes r g b Hr Hg Hb) as H.
  split; [exact H|]. split; [exact H|].
  unfold calculateColorDifference. rewrite H. rewrite !Z.sub_diag.
  vm_compute. reflexivity.
Qed.

Lemma rgb_text_witness :
  hexToRgb (normalizeColorValue (rgbText 255 0 10)) = Some (255, 0, 10)%Z.
Proof.
  destruct (rgb_text_round_trip 255 0 10 "0.5" ltac:(vm_compute; discriminate)
              ltac:(vm_compute; discriminate) ltac:(vm_compute; discriminate)
              eq_refl ltac:(discriminate)) as (H & _).
  exact H.
Defined.

(** X14. [calculateColorDifference] is symmetric; it is 100 whenever one of
    the two texts is not read by [hexToRgb], and [hexToRgb] reads no text
    that, once its first [#] is removed, is not six characters long (a
    three-digit shorthand or an eight-digit colour with alpha, for
    instance); and it is 0 between a text that [hexToRgb] reads and
    itself. *)
Theorem calculateColorDifference_symmetric :
  (forall hex1 hex2 : string,
     calculateColorDifference hex1 hex2 = calculateColorDifference hex2 hex1) /\
  (forall hex1 hex2 : string,
     hexToRgb hex1 = None ->
     calculateColorDifference hex1 hex2 = 100%float /\
     calculateColorDifference hex2 hex1 = 100%float) /\
  (forall hex : string,
     String.length (removeFirstHash hex) <> 6 -> hexToRgb hex = None) /\
  (forall hex : string,
     hexToRgb hex <> None -> calculateColorDifference hex hex = 0%float).
Proof.
  assert (Hsym : forall hex1 hex2 : string,
             calculateColorDifference hex1 hex2 = calculateColorDifference hex2 hex1).
  { intros hex1 hex2. unfold calculateColorDifference.
    destruct (hexToRgb hex1) as [[[r1 g1] b1]|], (hexToRgb hex2) as [[[r2 g2] b2]|];
      try reflexivity.
    replace (Z.abs (r2 - r1)) with (Z.abs (r1 - r2)) by lia.
    replace (Z.abs (g2 - g1)) with (Z.abs (g1 - g2)) by lia.
    replace (Z.abs (b2 - b1)) with (Z.abs (b1 - b2)) by lia.
    reflexivity. }
  split; [exact Hsym|].
  split.
  { intros hex1 hex2 Hnone.
    assert (H : calculateColorDifference hex1 hex2 = 100%float).
    { unfold calculateColorDifference. rewrite Hnone. reflexivity. }
    split; [exact H|]. rewrite Hsym. exact H. }
  split.
  { intros hex Hlen. unfold hexToRgb.
    destruct (Nat.eqb_spec (String.length (removeFirstHash hex)) 6) as [E|_];
      [contradiction|reflexivity]. }
  intros hex Hsome. unfold calculateColorDifference.
  destruct (hexToRgb hex) as [[[r g] b]|]; [|contradiction].
  rewrite !Z.sub_diag. vm_compute. reflexivity.
Qed.

(** *** Matching of names *)

Lemma property_none (name : string) (tokens : TokenMap) :
  property name tokens = None <->
  forall key value, In (key, value) tokens -> String.eqb key name = false.
Proof.
  induction tokens as [|[k v] tokens IH]; simpl.
  - split; [intros _ key value []|reflexivity].
  - destruct (String.eqb k name) eqn:E.
    + split; [discriminate|]. intros H.
      specialize (H k v (or_introl eq_refl)). rewrite E in H. discriminate.
    + rewrite IH. split.
      * intros H key value [[= <- <-]|Hin]; [exact E|exact (H key value Hin)].
      * intros H key value Hin. apply (H key value). right. exact Hin.
Qed.

Lemma firstEntry_some (p : string -> bool) (tokens : TokenMap) (value : string) :
  firstEntry p tokens = Some value ->
  exists key, In (key, value) tokens /\ p key = true.
Proof.
  unfold firstEntry. destruct (find (fun entry => p (fst entry)) tokens) as [[k v]|] eqn:E;
    [|discriminate].
  intros [= <-]. apply find_some in E. exists k. exact E.
Qed.

Lemma firstEntry_none (p : string -> bool) (tokens : TokenMap) :
  firstEntry p tokens = None <->
  forall key value, In (key, value) tokens -> p key = false.
Proof.
  unfold firstEntry. split.
  - destruct (find (fun entry => p (fst entry)) tokens) as [[k v]|] eqn:E; [discriminate|].
    intros _ key value Hin. exact (find_none _ _ E (key, value) Hin).
  - intros H. destruct (find (fun entry => p (fst entry)) tokens) as [[k v]|] eqn:E;
      [|reflexivity].
    apply find_some in E. destruct E as [Hin Hp]. simpl in Hp.
    rewrite (H k v Hin) in Hp. discriminate.
Qed.

(** The rules of the matching among the entries. *)
Lemma matchingEntry_rules :
  forall (name : string) (tokens : TokenMap),
    (forall value,
       matchingEntry name tokens = Some value ->
       exists key, In (key, value) tokens /\ matchesName name key = true) /\
    (matchingEntry name tokens = None <->
     forall key value, In (key, value) tokens -> matchesName name key = false) /\
    (forall value,
       property name tokens = Some value -> matchingEntry name tokens = Some value).
Proof.
  intros name tokens. unfold matchingEntry, matchesName.
  set (base := JS.toLowerCase (JS.lastSegment name)).
  destruct (property name tokens) as [v|] eqn:Hp.
  { split.
    - intros value [= <-]. exists name. split; [apply property_In; exact Hp|].
      rewrite String.eqb_refl. reflexivity.
    - split; [|intros value [= <-]; reflexivity].
      split; [discriminate|]. intros H. apply property_In in Hp.
      specialize (H name v Hp). rewrite String.eqb_refl in H. discriminate. }
  pose proof (proj1 (property_none name tokens) Hp) as Hexact.
  split; [|split; [|discriminate]].
  - intros value.
    destruct (firstEntry (fun key => String.eqb (normalizeName key) (normalizeName name)) tokens)
      as [v|] eqn:Hn.
    + intros [= <-]. apply firstEntry_some in Hn. destruct Hn as (key & Hin & Hk).
      exists key. split; [exact Hin|]. rewrite Hk, orb_true_r. reflexivity.
    + destruct base as [|c base'] eqn:Hb; [discriminate|].
      intros Hs. apply firstEntry_some in Hs. destruct Hs as (key & Hin & Hk).
      exists key. split; [exact Hin|]. rewrite Hk. simpl. apply orb_true_r.
  - destruct (firstEntry (fun key => String.eqb (normalizeName key) (normalizeName name)) tokens)
      as [v|] eqn:Hn.
    + split; [discriminate|]. intros H.
      apply firstEntry_some in Hn. destruct Hn as (key & Hin & Hk).
      specialize (H key v Hin). rewrite Hk, orb_true_r in H. discriminate.
    + pose proof (proj1 (firstEntry_none _ tokens) Hn) as Hnorm.
      destruct base as [|c base'] eqn:Hb.
      * split; [|reflexivity]. intros _ key value Hin.
        rewrite (Hexact key value Hin), (Hnorm key value Hin). reflexivity.
      * rewrite firstEntry_none. split.
        -- intros H key value Hin.
           rewrite (Hexact key value Hin), (Hnorm key value Hin), (H key value Hin).
           reflexivity.
        -- intros H key value Hin. specialize (H key value Hin).
           rewrite (Hexact key value Hin), (Hnorm key value Hin) in H.
           simpl in H. exact H.
Qed.

(** X15. [findMatchingToken] looks the name up in the map first, as
    [tokens[name]]: when the map has the name as a key, the value under it
    is found, whatever other keys match and wherever they are in the map;
    when it has not and the name is that of a property objects inherit
    ([constructor], [toString], [__proto__], ...), the inherited member is
    found, which is no text.  Otherwise what it finds is the value of a key
    that matches the name under one of the two fuzzy rules: key and name
    are equal once lower-cased and stripped of [-] and [_]; or the
    lower-cased key ends with the lower-cased last [-]-segment of the name,
    that segment not being empty.  It finds nothing exactly when the name
    is not inherited and no key of the map matches under any rule. *)
Theorem findMatchingToken_rules :
  forall (name : string) (tokens : TokenMap),
    (forall value,
       property name tokens = Some value ->
       findMatchingToken name tokens = Some (textValue value)) /\
    (property name tokens = None -> isInherited name = true ->
     findMatchingToken name tokens = Some (inheritedValue name)) /\
    (forall value,
       findMatchingToken name tokens = Some (textValue value) ->
       exists key, In (key, value) tokens /\ matchesName name key = true) /\
    (forall member,
       findMatchingToken name tokens = Some (inheritedValue member) ->
       member = name /\ property name tokens = None /\ isInherited name = true) /\
    (findMatchingToken name tokens = None <->
     isInherited name = false /\
     forall key value, In (key, value) tokens -> matchesName name key = false).
Proof.
  intros name tokens.
  destruct (matchingEntry_rules name tokens) as (Hsome & Hnone & Hown).
  rewrite findMatchingToken_readsOwn. unfold readsOwn.
  destruct (property name tokens) as [own|] eqn:Hp.
  - split; [intros value [= <-]; rewrite (Hown own eq_refl); reflexivity|].
    split; [discriminate|].
    split.
    { intros value H. destruct (matchingEntry name tokens) as [v|]; [|discriminate].
      injection H as ->. apply Hsome. reflexivity. }
    split.
    { intros member H. destruct (matchingEntry name tokens); discriminate. }
    rewrite (Hown own eq_refl). split; [discriminate|].
    intros [_ H]. apply property_In in Hp. specialize (H name own Hp).
    unfold matchesName in H. rewrite String.eqb_refl in H. discriminate.
  - split; [discriminate|].
    destruct (isInherited name); simpl.
    + split; [reflexivity|]. split; [discriminate|].
      split; [intros member [= <-]; repeat split|].
      split; [discriminate|intros [H _]; discriminate].
    + split; [discriminate|].
      split.
      { intros value H. destruct (matchingEntry name tokens) as [v|]; [|discriminate].
        injection H as ->. apply Hsome. reflexivity. }
      split.
      { intros member H. destruct (matchingEntry name tokens); discriminate. }
      destruct (matchingEntry name tokens) as [v|] eqn:Hm.
      * split; [discriminate|]. intros [_ H]. apply Hnone in H. discriminate.
      * split; [|reflexivity]. intros _. split; [reflexivity|].
        apply Hnone. reflexivity.
Qed.

(** *** Conversion *)

(** X16. For every design set, extracted set and options, comparing against
    [designTokensToCSSTokens X] ends as comparing against [X] itself does:
    the conversion keeps every colour, spacing and border-radius entry in
    its order, and an absent border-radius map compares as the empty map
    it is converted to. *)
Theorem designTokensToCSSTokens_compares_alike :
  forall (designTokens X : DesignTokens) (options : ComparisonOptions),
    compareDesignTokens designTokens (designTokensToCSSTokens X) options
    = compareDesignTokens designTokens X options /\
    colors (designTokensToCSSTokens X) = colors X /\
    spacing (designTokensToCSSTokens X) = spacing X /\
    borderRadius (designTokensToCSSTokens X) = Some (orElse (borderRadius X) []).
Proof.
  intros design X options. unfold compareDesignTokens, designTokensToCSSTokens.
  simpl. destruct (borderRadius X); repeat split; reflexivity.
Qed.

(** *** Spacing values *)

Lemma substring_app (a b : string) : String.substring 0 (String.length a) (a ++ b) = a.
Proof. induction a as [|c a IH]; simpl; [destruct b; reflexivity|rewrite IH; reflexivity]. Qed.

Lemma endsWith_app (a unit : string) : JS.endsWith (a ++ unit) unit = true.
Proof. unfold JS.endsWith. rewrite reverse_app. apply startsWith_app. Qed.

Lemma length_reverse (s : string) : String.length (JS.reverse s) = String.length s.
Proof.
  induction s as [|c s IH]; [reflexivity|].
  rewrite reverse_cons, length_append, IH. simpl. lia.
Qed.

Lemma endsWith_split (s unit : string) :
  JS.endsWith s unit = true ->
  s = (String.substring 0 (String.length s - String.length unit) s ++ unit)%string.
Proof.
  unfold JS.endsWith. intros H. apply startsWith_split in H.
  set (rest := JS.drop (String.length (JS.reverse unit)) (JS.reverse s)) in H.
  assert (Hs : s = (JS.reverse rest ++ unit)%string).
  { rewrite <- (reverse_involutive s), H, reverse_app, reverse_involutive. reflexivity. }
  assert (Hl : String.length s - String.length unit = String.length (JS.reverse rest)).
  { rewrite Hs at 1. rewrite length_append. lia. }
  rewrite Hl. rewrite Hs at 2. rewrite substring_app. exact Hs.
Qed.

Lemma allChars_reverse (p : ascii -> bool) (s : string) :
  allChars p (JS.reverse s) = allChars p s.
Proof.
  induction s as [|c s IH]; [reflexivity|].
  rewrite reverse_cons, allChars_app, IH. simpl. rewrite andb_true_r. apply andb_comm.
Qed.

Lemma drop_all (s : string) : JS.drop (String.length s) s = "".
Proof. induction s as [|c s IH]; simpl; [reflexivity|exact IH]. Qed.

Lemma takeNumberChars_whole (n : string) :
  takeNumberChars n = Some "" <-> isNumberText n.
Proof.
  unfold takeNumberChars, isNumberText. split.
  - pose proof (takeWhile_drop isNumberChar n) as Hsplit.
    pose proof (allChars_takeWhile isNumberChar n) as Hall.
    destruct (JS.takeWhile isNumberChar n) as [|c t] eqn:E; [discriminate|].
    intros [= Hd]. simpl in Hsplit. rewrite Hd, append_empty_r in Hsplit.
    rewrite Hsplit. split; [discriminate|exact Hall].
  - intros [Hne Hall]. rewrite (takeWhile_all _ _ Hall).
    destruct n as [|c n]; [contradiction|].
    change (JS.drop (String.length (String c n)) (String c n))
      with (JS.drop (String.length n) n).
    rewrite drop_all. reflexivity.
Qed.

Lemma matchWithUnit_app (unit n : string) :
  isNumberText n -> matchWithUnit unit (n ++ unit) = Some n.
Proof.
  intros Hn. unfold matchWithUnit. rewrite endsWith_app.
  replace (String.length (n ++ unit) - String.length unit) with (String.length n)
    by (rewrite length_append; lia).
  rewrite substring_app.
  rewrite (proj2 (takeNumberChars_whole n) Hn). reflexivity.
Qed.

Lemma matchWithUnit_some (unit s n : string) :
  matchWithUnit unit s = Some n -> s = (n ++ unit)%string /\ isNumberText n.
Proof.
  unfold matchWithUnit. destruct (JS.endsWith s unit) eqn:He; [|discriminate].
  apply endsWith_split in He.
  set (front := String.substring 0 (String.length s - String.length unit) s) in *.
  destruct (takeNumberChars front) as [[|c r]|] eqn:Ht; try discriminate.
  intros [= <-]. split; [exact He|]. apply takeNumberChars_whole. exact Ht.
Qed.

(** The last character of a number text is a digit or a dot. *)
Lemma reverse_numberText (n : string) :
  isNumberText n ->
  exists c rest, JS.reverse n = String c rest /\ isNumberChar c = true.
Proof.
  intros [Hne Hall]. rewrite <- allChars_reverse in Hall.
  destruct (JS.reverse n) as [|c rest] eqn:E.
  - exfalso. apply Hne. rewrite <- (reverse_involutive n), E. reflexivity.
  - exists c, rest. simpl in Hall. apply andb_true_iff in Hall.
    split; [reflexivity|tauto].
Qed.

Lemma numberChar_not_letter (c : ascii) :
  isNumberChar c = true -> JS.isLower c = false /\ JS.isUpper c = false.
Proof.
  intros H.
  assert (Hall : forallb
                   (fun k => let c := ascii_of_nat k in
                             implb (isNumberChar c)
                                   (negb (JS.isLower c) && negb (JS.isUpper c)))
                   (seq 0 256) = true) by (vm_compute; reflexivity).
  rewrite forallb_forall in Hall.
  specialize (Hall (nat_of_ascii c)). rewrite ascii_nat_embedding in Hall.
  assert (Hin : In (nat_of_ascii c) (seq 0 256)).
  { apply in_seq. pose proof (nat_ascii_bounded c). lia. }
  specialize (Hall Hin). cbv zeta in Hall. rewrite H in Hall. simpl in Hall.
  apply andb_true_iff in Hall. destruct Hall as [Hl Hu].
  apply negb_true_iff in Hl. apply negb_true_iff in Hu. split; assumption.
Qed.

Lemma matchWithUnit_other_unit (unit n : string) (u : ascii) (unit' : string) :
  isNumberText n -> JS.reverse unit = String u unit' -> JS.isLower u = true ->
  matchWithUnit unit n = None.
Proof.
  intros Hn Hu Hl. unfold matchWithUnit, JS.endsWith. rewrite Hu.
  destruct (reverse_numberText n Hn) as (c & rest & -> & Hc). simpl.
  destruct (Ascii.eqb_spec u c) as [->|_]; [|reflexivity].
  rewrite (proj1 (numberChar_not_letter c Hc)) in Hl. discriminate.
Qed.

Lemma toLowerCase_app (a b : string) :
  JS.toLowerCase (a ++ b) = (JS.toLowerCase a ++ JS.toLowerCase b)%string.
Proof.
  unfold JS.toLowerCase. induction a as [|c a IH]; simpl; [|rewrite IH]; reflexivity.
Qed.

Lemma toLowerCase_numberText (n : string) :
  allChars isNumberChar n = true -> JS.toLowerCase n = n.
Proof.
  unfold JS.toLowerCase. induction n as [|c n IH]; simpl; [reflexivity|].
  intros H. apply andb_true_iff in H. destruct H as [Hc Hn].
  rewrite (IH Hn). unfold JS.lowerChar.
  rewrite (proj2 (numberChar_not_letter c Hc)). reflexivity.
Qed.

Lemma trim_numberText (n : string) (unit : string) :
  isNumberText n ->
  (forall z, lastChar (n ++ unit) = Some z -> JS.isSpace z = false) ->
  JS.trim (n ++ unit) = (n ++ unit)%string.
Proof.
  intros [Hne Hall] Hlast.
  destruct n as [|c n]; [contradiction|].
  simpl in Hall. apply andb_true_iff in Hall. destruct Hall as [Hc _].
  destruct (lastChar (String c n ++ unit)) as [z|] eqn:Hz.
  - eapply trim_unchanged_text;
      [reflexivity|apply numberChar_not_space; exact Hc|exact Hz|apply Hlast; reflexivity].
  - exfalso. clear -Hz. simpl in Hz. destruct (n ++ unit)%string; [discriminate|].
    revert Hz. generalize a. induction s as [|d s IH]; intros a0 H; simpl in H;
      [discriminate|]. exact (IH d H).
Qed.

Lemma matchWithUnit_px_rem (n : string) : matchWithUnit "px" (n ++ "rem") = None.
Proof. unfold matchWithUnit, JS.endsWith. rewrite reverse_app. reflexivity. Qed.

Lemma matchWithUnit_px_em (n : string) : matchWithUnit "px" (n ++ "em") = None.
Proof. unfold matchWithUnit, JS.endsWith. rewrite reverse_app. reflexivity. Qed.

Lemma matchWithUnit_rem_em (n : string) :
  isNumberText n -> matchWithUnit "rem" (n ++ "em") = None.
Proof.
  intros Hn. unfold matchWithUnit, JS.endsWith. rewrite reverse_app.
  destruct (reverse_numberText n Hn) as (c & rest & -> & Hc).
  change (JS.startsWith (JS.reverse "em" ++ String c rest) (JS.reverse "rem"))
    with (Ascii.eqb "r" c && true).
  destruct (Ascii.eqb_spec "r"%char c) as [<-|_]; [discriminate Hc|reflexivity].
Qed.

(** X17. [parseSpacingValue] reads a value through its trimmed, lower-cased
    text.  When that text is a number text (digits and dots) followed by
    [px], or a number text alone, the result is [parseFloat] of the number
    text; followed by [rem] or by [em], it is that number times 16.  Every
    other value gives [null]: a value that is read has one of these four
    shapes, so signed values, percentages, other units and keywords are
    not read. *)
Theorem parseSpacingValue_units :
  (forall value n : string,
     isNumberText n ->
     (JS.toLowerCase (JS.trim value) = (n ++ "px")%string ->
      parseSpacingValue value = Some (Num.parseFloat n)) /\
     (JS.toLowerCase (JS.trim value) = (n ++ "rem")%string ->
      parseSpacingValue value = Some (Num.parseFloat n * 16)%float) /\
     (JS.toLowerCase (JS.trim value) = (n ++ "em")%string ->
      parseSpacingValue value = Some (Num.parseFloat n * 16)%float) /\
     (JS.toLowerCase (JS.trim value) = n ->
      parseSpacingValue value = Some (Num.parseFloat n))) /\
  (forall (value : string) (x : float),
     parseSpacingValue value = Some x ->
     exists n unit : string,
       JS.toLowerCase (JS.trim value) = (n ++ unit)%string /\ isNumberText n /\
       (unit = "px" \/ unit = "rem" \/ unit = "em" \/ unit = "")).
Proof.
  split.
  - intros value n Hn. unfold parseSpacingValue.
    split; [|split; [|split]]; intros ->.
    + rewrite (matchWithUnit_app "px" n Hn). reflexivity.
    + rewrite matchWithUnit_px_rem, (matchWithUnit_app "rem" n Hn). reflexivity.
    + rewrite matchWithUnit_px_em, (matchWithUnit_rem_em n Hn),
        (matchWithUnit_app "em" n Hn). reflexivity.
    + rewrite (matchWithUnit_other_unit "px" n "x" "p" Hn eq_refl eq_refl).
      rewrite (matchWithUnit_other_unit "rem" n "m" "er" Hn eq_refl eq_refl).
      rewrite (matchWithUnit_other_unit "em" n "m" "e" Hn eq_refl eq_refl).
      pose proof (matchWithUnit_app "" n Hn) as H. rewrite append_empty_r in H.
      rewrite H. reflexivity.
  - intros value x. unfold parseSpacingValue.
    set (trimmed := JS.toLowerCase (JS.trim value)).
    destruct (matchWithUnit "px" trimmed) as [n|] eqn:Hpx.
    { intros _. destruct (matchWithUnit_some _ _ _ Hpx) as [E Hn].
      exists n, "px". split; [exact E|]. split; [exact Hn|tauto]. }
    destruct (matchWithUnit "rem" trimmed) as [n|] eqn:Hrem.
    { intros _. destruct (matchWithUnit_some _ _ _ Hrem) as [E Hn].
      exists n, "rem". split; [exact E|]. split; [exact Hn|tauto]. }
    destruct (matchWithUnit "em" trimmed) as [n|] eqn:Hem.
    { intros _. destruct (matchWithUnit_some _ _ _ Hem) as [E Hn].
      exists n, "em". split; [exact E|]. split; [exact Hn|tauto]. }
    destruct (matchWithUnit "" trimmed) as [n|] eqn:Hplain; [|discriminate].
    intros _. destruct (matchWithUnit_some _ _ _ Hplain) as [E Hn].
    exists n, "". split; [exact E|]. split; [exact Hn|tauto].
Qed.

Lemma parseSpacingValue_witness :
  parseSpacingValue " 24PX " = Some (Num.parseFloat "24") /\
  parseSpacingValue "1.5rem" = Some (Num.parseFloat "1.5" * 16)%float /\
  parseSpacingValue "-4px" = None /\ parseSpacingValue "50%" = None.
Proof.
  destruct parseSpacingValue_units as [Hread Hshape].
  destruct (Hread " 24PX " "24" ltac:(split; [discriminate|reflexivity])) as (Hpx & _).
  destruct (Hread "1.5rem" "1.5" ltac:(split; [discriminate|reflexivity]))
    as (_ & Hrem & _).
  split; [apply Hpx; reflexivity|]. split; [apply Hrem; reflexivity|].
  split; vm_compute; reflexivity.
Defined.


(* ====================================================================== *)
(** * Properties of the extraction of custom properties *)
(* ====================================================================== *)

(** *** Properties of objects *)

Lemma hasKey_property (key : string) (object : TokenMap) :
  hasKey key object = match property key object with Some _ => true | None => false end.
Proof.
  unfold hasKey. induction object as [|[k v] object IH]; simpl; [reflexivity|].
  destruct (String.eqb k key); [reflexivity|exact IH].
Qed.

Lemma property_replaceValue (name key value : string) (object : TokenMap) :
  hasKey key object = true ->
  property name (replaceValue key value object)
  = if String.eqb key name then Some value else property name object.
Proof.
  unfold hasKey. induction object as [|[k v] object IH]; simpl; [discriminate|].
  destruct (String.eqb_spec k key) as [->|Hk]; simpl.
  - intros _. destruct (String.eqb key name); reflexivity.
  - intros H. destruct (String.eqb_spec k name) as [->|Hn].
    + destruct (String.eqb_spec key name) as [->|_]; [contradiction|reflexivity].
    + exact (IH H).
Qed.

Lemma property_insertIndex (name key value : string) (index : N) (object : TokenMap) :
  hasKey key object = false ->
  property name (insertIndex index key value object)
  = if String.eqb key name then Some value else property name object.
Proof.
  unfold hasKey. induction object as [|[k v] object IH]; simpl.
  - intros _. destruct (String.eqb key name); reflexivity.
  - destruct (String.eqb_spec k key) as [->|Hk]; simpl; [discriminate|].
    intros H.
    destruct (arrayIndex k) as [other|]; [destruct (other <? index)%N|]; simpl;
      try (destruct (String.eqb key name); reflexivity).
    destruct (String.eqb_spec k name) as [->|Hn].
    + destruct (String.eqb_spec key name) as [->|_]; [contradiction|reflexivity].
    + exact (IH H).
Qed.

Lemma property_app (name : string) (a b : TokenMap) :
  property name (a ++ b)
  = match property name a with Some v => Some v | None => property name b end.
Proof.
  induction a as [|[k v] a IH]; simpl; [reflexivity|].
  destruct (String.eqb k name); [reflexivity|exact IH].
Qed.

(** Reading a property after a write ([object[key] = value]). *)
Lemma property_setProperty (name key value : string) (object : TokenMap) :
  name <> "__proto__" ->
  property name (setProperty key value object)
  = if String.eqb key name then Some value else property name object.
Proof.
  intros Hname. unfold setProperty. destruct (hasKey key object) eqn:Hk.
  - apply property_replaceValue. exact Hk.
  - destruct (String.eqb_spec key "__proto__") as [->|_].
    + destruct (String.eqb_spec "__proto__" name) as [<-|_];
        [contradiction|reflexivity].
    + destruct (arrayIndex key) as [index|].
      * apply property_insertIndex. exact Hk.
      * rewrite property_app. simpl.
        rewrite hasKey_property in Hk.
        destruct (String.eqb_spec key name) as [->|_].
        -- destruct (property name object); [discriminate|reflexivity].
        -- destruct (property name object); reflexivity.
Qed.

Lemma setProperty_no_proto (key value : string) (object : TokenMap) :
  property "__proto__" object = None ->
  property "__proto__" (setProperty key value object) = None.
Proof.
  intros Hnone. unfold setProperty. destruct (hasKey key object) eqn:Hk.
  - rewrite (property_replaceValue _ _ _ _ Hk).
    destruct (String.eqb_spec key "__proto__") as [->|_]; [|exact Hnone].
    rewrite hasKey_property, Hnone in Hk. discriminate.
  - destruct (String.eqb_spec key "__proto__") as [->|Hkey]; [exact Hnone|].
    destruct (arrayIndex key) as [index|].
    + rewrite (property_insertIndex _ _ _ _ _ Hk).
      destruct (String.eqb_spec key "__proto__"); [contradiction|exact Hnone].
    + rewrite property_app, Hnone. simpl.
      destruct (String.eqb_spec key "__proto__"); [contradiction|reflexivity].
Qed.

Lemma property_assign (name : string) (source target : TokenMap) :
  name <> "__proto__" ->
  property name (assign target source)
  = match lastValue name source with
    | Some v => Some v
    | None => property name target
    end.
Proof.
  intros Hname. unfold assign, lastValue. revert target.
  induction source as [|[k v] source IH]; intros target; simpl; [reflexivity|].
  rewrite IH, property_app, (property_setProperty _ _ _ _ Hname). simpl.
  destruct (property name (rev source)); [reflexivity|].
  destruct (String.eqb k name); reflexivity.
Qed.

Lemma assign_no_proto (source target : TokenMap) :
  property "__proto__" target = None ->
  property "__proto__" (assign target source) = None.
Proof.
  unfold assign. revert target.
  induction source as [|[k v] source IH]; intros target Hnone; simpl;
    [exact Hnone|].
  apply IH, setProperty_no_proto, Hnone.
Qed.

(** *** The scan *)

Lemma scanVariables_skip (matched rest : string) (variables : TokenMap) :
  scanVariables (matched ++ rest) (String.length matched) variables
  = scanVariables rest 0 variables.
Proof.
  induction matched as [|c matched IH]; simpl.
  - destruct rest; reflexivity.
  - exact IH.
Qed.

Lemma matchVariableAt_needs_dash (s : string) :
  match s with String c _ => notDash c = true | EmptyString => True end ->
  matchVariableAt s = None.
Proof.
  destruct s as [|c s]; [reflexivity|]. unfold notDash, matchVariableAt.
  intros H. apply negb_true_iff in H. rewrite Ascii.eqb_sym in H.
  cbn [JS.startsWith]. rewrite H. reflexivity.
Qed.

(** Text without [-] holds no declaration. *)
Lemma scanVariables_noDash (text rest : string) (variables : TokenMap) :
  allChars notDash text = true ->
  scanVariables (text ++ rest) 0 variables = scanVariables rest 0 variables.
Proof.
  induction text as [|c text IH]; simpl; [reflexivity|].
  intros H. apply andb_true_iff in H. destruct H as [Hc Ht].
  rewrite (matchVariableAt_needs_dash (String c (text ++ rest)) Hc).
  exact (IH Ht).
Qed.

Lemma nameChar_not_space (c : ascii) : isNameChar c = true -> JS.isSpace c = false.
Proof.
  intros H.
  assert (Hall : forallb
                   (fun k => let c := ascii_of_nat k in
                             implb (isNameChar c) (negb (JS.isSpace c)))
                   (seq 0 256) = true) by (vm_compute; reflexivity).
  rewrite forallb_forall in Hall.
  specialize (Hall (nat_of_ascii c)). rewrite ascii_nat_embedding in Hall.
  assert (Hin : In (nat_of_ascii c) (seq 0 256)).
  { apply in_seq. pose proof (nat_ascii_bounded c). lia. }
  apply Hall in Hin. cbv zeta in Hin. rewrite H in Hin. simpl in Hin.
  apply negb_true_iff. exact Hin.
Qed.

Lemma space_not_nameChar (c : ascii) : JS.isSpace c = true -> isNameChar c = false.
Proof.
  intros H. destruct (isNameChar c) eqn:E; [|reflexivity].
  rewrite (nameChar_not_space c E) in H. discriminate.
Qed.

Lemma skipSpaces_app (spaces rest : string) :
  allChars JS.isSpace spaces = true ->
  skipSpaces (spaces ++ rest) = skipSpaces rest.
Proof.
  unfold skipSpaces. induction spaces as [|c spaces IH]; simpl; [reflexivity|].
  intros H. apply andb_true_iff in H. destruct H as [Hc Hs].
  rewrite Hc. exact (IH Hs).
Qed.

Lemma trim_name (name : string) :
  name <> "" -> allChars isNameChar name = true -> JS.trim name = name.
Proof.
  intros Hne Hall. destruct name as [|c name]; [contradiction|].
  apply trim_unchanged.
  - simpl in Hall. apply andb_true_iff in Hall. apply nameChar_not_space. tauto.
  - intros z Hz. apply nameChar_not_space.
    exact (allChars_lastChar _ _ _ Hall Hz).
Qed.

(** A well-formed declaration is matched where it starts. *)
Lemma matchVariableAt_declaration (name spaces text rest : string) :
  name <> "" -> allChars isNameChar name = true ->
  allChars JS.isSpace spaces = true ->
  text <> "" -> allChars notSemicolon text = true ->
  matchVariableAt ("--" ++ name ++ spaces ++ ":" ++ text ++ ";" ++ rest)
  = Some (name, text, rest).
Proof.
  intros Hname Hchars Hspaces Htext Hsemi. unfold matchVariableAt.
  change (JS.startsWith ("--" ++ name ++ spaces ++ ":" ++ text ++ ";" ++ rest) "--")
    with true.
  change (JS.drop 2 ("--" ++ name ++ spaces ++ ":" ++ text ++ ";" ++ rest))
    with (name ++ spaces ++ ":" ++ text ++ ";" ++ rest)%string.
  cbv iota zeta.
  assert (Htake : JS.takeWhile isNameChar (name ++ spaces ++ ":" ++ text ++ ";" ++ rest)
                  = name).
  { apply takeWhile_app; [exact Hchars|].
    destruct spaces as [|c spaces]; simpl; [reflexivity|].
    simpl in Hspaces. apply andb_true_iff in Hspaces.
    apply space_not_nameChar. tauto. }
  rewrite Htake. destruct name as [|c0 name0] eqn:En; [contradiction|].
  rewrite <- En in *. rewrite drop_app, (skipSpaces_app _ _ Hspaces).
  change (skipSpaces (":" ++ text ++ ";" ++ rest))
    with (String ":" (text ++ ";" ++ rest)).
  assert (Htext' : JS.takeWhile notSemicolon (text ++ ";" ++ rest) = text).
  { apply takeWhile_app; [exact Hsemi|reflexivity]. }
  cbv iota beta. rewrite Htext'. destruct text as [|c1 text1] eqn:Et; [contradiction|].
  rewrite <- Et in *. rewrite drop_app. reflexivity.
Qed.

Lemma scanVariables_declaration (d : Declaration) (rest : string)
    (variables : TokenMap) :
  wellFormed d ->
  scanVariables (renderDeclaration d rest) 0 variables
  = scanVariables rest 0 (setProperty (fst (declared d)) (snd (declared d)) variables).
Proof.
  intros (Hbefore & Hname & Hchars & Hspaces & Htext & Hsemi).
  unfold renderDeclaration. rewrite (scanVariables_noDash _ _ _ Hbefore).
  pose proof (matchVariableAt_declaration _ _ _ rest Hname Hchars Hspaces Htext Hsemi)
    as Hmatch.
  set (written := (declaredName d ++ spaceBeforeColon d ++ ":" ++ declaredText d ++ ";")%string).
  assert (Hshape : ("--" ++ declaredName d ++ spaceBeforeColon d ++ ":"
                      ++ declaredText d ++ ";" ++ rest)%string
                   = String "-" (("-" ++ written) ++ rest)).
  { unfold written. simpl. rewrite !append_assoc. simpl. rewrite !append_assoc.
    reflexivity. }
  rewrite Hshape in *. cbn [scanVariables]. rewrite Hmatch.
  clearbody written.
  replace (String.length (("-" ++ written) ++ rest) - String.length rest)
    with (String.length ("-" ++ written)) by (rewrite (length_append ("-" ++ written) rest); lia).
  rewrite scanVariables_skip. unfold declared. simpl.
  rewrite (trim_name _ Hname Hchars). reflexivity.
Qed.

(** X18. Take a style sheet made of well-formed custom property
    declarations [--name: text;] (the name a non-empty text of letters,
    digits, [-] and [_], white space allowed before the colon, the value
    text not empty and without semicolon), with any text that holds no [-]
    before, between and after them.  [extractCSSVariables] returns the
    object obtained by assigning, in order, to each name the trimmed text
    of its value: the value extracted for a name is the one of its last
    declaration, a name that is not declared has no value, and neither has
    [__proto__], declared or not. *)
Theorem extractCSSVariables_round_trip :
  forall (ds : list Declaration) (tail : string),
    Forall wellFormed ds ->
    allChars notDash tail = true ->
    extractCSSVariables (renderSheet ds tail) = assign [] (map declared ds) /\
    property "__proto__" (extractCSSVariables (renderSheet ds tail)) = None /\
    forall name,
      name <> "__proto__" ->
      property name (extractCSSVariables (renderSheet ds tail))
      = lastValue name (map declared ds).
Proof.
  intros ds tail Hds Htail.
  assert (Hscan : forall variables,
             scanVariables (renderSheet ds tail) 0 variables
             = assign variables (map declared ds)).
  { induction Hds as [|d ds Hd Hds IH]; intros variables; simpl.
    - rewrite <- (append_empty_r tail).
      rewrite (scanVariables_noDash tail "" variables Htail). reflexivity.
    - rewrite (scanVariables_declaration d _ variables Hd). apply IH. }
  split; [apply Hscan|]. unfold extractCSSVariables. rewrite Hscan. split.
  - apply assign_no_proto. reflexivity.
  - intros name Hname. rewrite (property_assign _ _ _ Hname).
    destruct (lastValue name (map declared ds)); reflexivity.
Qed.

Lemma extractCSSVariables_witness :
  extractCSSVariables (renderSheet sampleDeclarations " }")
  = [("color-primary", "#000"); ("spacing-md", "16px")].
Proof.
  destruct (extractCSSVariables_round_trip sampleDeclarations " }") as [Hsheet _].
  - repeat first [ apply Forall_cons | apply Forall_nil | split
                 | reflexivity | discriminate ].
  - reflexivity.
  - rewrite Hsheet. reflexivity.
Defined.

Lemma allChars_drop (p : ascii -> bool) (n : nat) (s : string) :
  allChars p s = true -> allChars p (JS.drop n s) = true.
Proof.
  revert s. induction n as [|n IH]; intros s H; [destruct s; exact H|].
  destruct s as [|c s]; [reflexivity|]. simpl in *.
  apply andb_true_iff in H. apply IH. tauto.
Qed.

Lemma allChars_dropWhile (p q : ascii -> bool) (s : string) :
  allChars p s = true -> allChars p (JS.dropWhile q s) = true.
Proof.
  induction s as [|c s IH]; intros H; [reflexivity|]. simpl.
  destruct (q c); [|exact H]. simpl in H. apply andb_true_iff in H. apply IH. tauto.
Qed.

(** A declaration ends with a semicolon. *)
Lemma matchVariableAt_needs_semicolon (s : string) :
  allChars notSemicolon s = true -> matchVariableAt s = None.
Proof.
  intros H. unfold matchVariableAt.
  destruct (JS.startsWith s "--"); [|reflexivity]. cbv zeta.
  destruct (JS.takeWhile isNameChar (JS.drop 2 s)) as [|c name]; [reflexivity|].
  pose proof (allChars_dropWhile notSemicolon JS.isSpace _
                (allChars_drop notSemicolon (String.length (String c name)) _
                   (allChars_drop notSemicolon 2 s H))) as Hcolon.
  fold (skipSpaces (JS.drop (String.length (String c name)) (JS.drop 2 s))) in Hcolon.
  destruct (skipSpaces (JS.drop (String.length (String c name)) (JS.drop 2 s)))
    as [|colon afterColon]; [reflexivity|].
  simpl in Hcolon. apply andb_true_iff in Hcolon. destruct Hcolon as [_ Hafter].
  destruct (Ascii.eqb_spec colon ":") as [->|Hc].
  - destruct (JS.takeWhile notSemicolon afterColon) as [|c' text]; [reflexivity|].
    pose proof (allChars_drop notSemicolon (String.length (String c' text)) _ Hafter)
      as Hrest.
    destruct (JS.drop (String.length (String c' text)) afterColon) as [|semi rest];
      [reflexivity|].
    simpl in Hrest. apply andb_true_iff in Hrest. destruct Hrest as [Hsemi _].
    unfold notSemicolon in Hsemi. apply negb_true_iff in Hsemi.
    destruct (Ascii.eqb_spec semi ";") as [->|Hs]; [discriminate|].
    destruct semi as [[] [] [] [] [] [] [] []]; try reflexivity. contradiction.
  - destruct colon as [[] [] [] [] [] [] [] []]; try reflexivity. contradiction.
Qed.

Lemma scanVariables_noSemicolon (css : string) (skip : nat) (variables : TokenMap) :
  allChars notSemicolon css = true -> scanVariables css skip variables = variables.
Proof.
  revert skip. induction css as [|c css IH]; intros skip H; [reflexivity|].
  pose proof H as Hall. simpl in H. apply andb_true_iff in H. destruct H as [_ H].
  cbn [scanVariables]. destruct skip as [|skip]; [|exact (IH skip H)].
  rewrite (matchVariableAt_needs_semicolon _ Hall). exact (IH 0 H).
Qed.

(** X19. A style sheet that holds no semicolon, or no [-], defines no
    variable for [extractCSSVariables]: a declaration is found only together
    with the semicolon that ends it. *)
Theorem extractCSSVariables_needs_semicolon :
  forall css : string,
    allChars notSemicolon css = true \/ allChars notDash css = true ->
    extractCSSVariables css = [].
Proof.
  intros css [H|H]; unfold extractCSSVariables.
  - apply scanVariables_noSemicolon. exact H.
  - rewrite <- (append_empty_r css).
    rewrite (scanVariables_noDash css "" [] H). reflexivity.
Qed.

Lemma extractCSSVariables_semicolon_witness :
  extractCSSVariables ":root { --primary: #fff }" = [].
Proof.
  apply extractCSSVariables_needs_semicolon. left. reflexivity.
Defined.

(** *** Categories *)

Lemma property_setProperty_other (name key value : string) (object : TokenMap) :
  key <> name ->
  property name (setProperty key value object) = property name object.
Proof.
  intros Hkey. unfold setProperty. destruct (hasKey key object) eqn:Hk.
  - rewrite (property_replaceValue _ _ _ _ Hk).
    destruct (String.eqb_spec key name); [contradiction|reflexivity].
  - destruct (String.eqb key "__proto__"); [reflexivity|].
    destruct (arrayIndex key) as [index|].
    + rewrite (property_insertIndex _ _ _ _ _ Hk).
      destruct (String.eqb_spec key name); [contradiction|reflexivity].
    + rewrite property_app. simpl.
      destruct (String.eqb_spec key name); [contradiction|].
      destruct (property name object); reflexivity.
Qed.

Lemma property_store_other (key name value : string) (map : option TokenMap) :
  key <> name ->
  property key (orElse (store name value map) []) = property key (orElse map []).
Proof.
  intros Hkey. unfold store. simpl. apply property_setProperty_other.
  intros ->. apply Hkey. reflexivity.
Qed.

Ltac categorizeToken_cases name value :=
  unfold categorizeToken; cbv zeta;
  repeat match goal with
         | |- context [if ?b then _ else _] => destruct b
         end.

(** X20. [categorizeToken] files a variable in at most one of the maps
    for colours, spacing, border radius and shadows, and there it touches
    the entry of the variable's name only; it never files anything under
    fonts.  A variable whose value is a colour (a hexadecimal colour, an
    [rgb] or [hsl] function, a colour keyword) is filed under colours with
    its value normalised, whatever its name. *)
Theorem categorizeToken_files_in_one_map :
  forall (name value : string) (tokens : PartialCSSTokens),
    partFonts (categorizeToken name value tokens) = partFonts tokens /\
    (exists c, forall c',
        categoryEqb c' c = false ->
        part c' (categorizeToken name value tokens) = part c' tokens) /\
    (forall c key,
        key <> name ->
        property key (orElse (part c (categorizeToken name value tokens)) [])
        = property key (orElse (part c tokens) [])) /\
    (isColorValue value = true ->
     partColors (categorizeToken name value tokens)
     = Some (setProperty name (normalizeColorValue value)
               (orElse (partColors tokens) [])) /\
     forall c, categoryEqb c inColors = false ->
               part c (categorizeToken name value tokens) = part c tokens).
Proof.
  intros name value tokens. repeat split.
  - categorizeToken_cases name value; reflexivity.
  - categorizeToken_cases name value;
      [exists inColors|exists inSpacing|exists inBorderRadius|exists inShadows
      |exists inSpacing|exists inColors];
      intros [] Hc; try discriminate Hc; reflexivity.
  - intros c key Hkey.
    categorizeToken_cases name value; destruct c; simpl;
      try reflexivity; apply (property_store_other key name _ _ Hkey).
  - unfold categorizeToken. cbv zeta. rewrite H, !orb_true_r. reflexivity.
  - intros [] Hc; try discriminate Hc;
      unfold categorizeToken; cbv zeta; rewrite H, !orb_true_r; reflexivity.
Qed.

(** *** Merging *)

Lemma property_assign_part (name : string) (target : TokenMap)
    (source : option TokenMap) :
  name <> "__proto__" ->
  property name (assignPart target source) = assigned name target source.
Proof.
  intros Hname. destruct source as [entries|]; simpl; [|reflexivity].
  apply property_assign. exact Hname.
Qed.

Lemma property_assign_optional (name : string) (target source : option TokenMap) :
  name <> "__proto__" ->
  property name (orElse (assignOptionalPart target source) [])
  = assigned name (orElse target []) source.
Proof.
  intros Hname. destruct source as [entries|]; simpl; [|reflexivity].
  apply property_assign. exact Hname.
Qed.

(** X21. After [mergeTokens(target, source)], reading a name other than
    [__proto__] in the colours, spacing, border radius or shadows of the
    target gives the value the source has for it in that map, and the value
    the target had when the source lacks the map or has no value for the
    name there (a map the target lacks counts as empty).  A source without
    fonts, or with no font, leaves the fonts of the target as they are. *)
Theorem mergeTokens_source_wins :
  forall (target : CSSTokens) (source : PartialCSSTokens) (name : string),
    name <> "__proto__" ->
    (forall c,
        property name (mapOf c (mergeTokens target source))
        = assigned name (mapOf c target) (part c source)) /\
    (partFonts source = None \/ partFonts source = Some [] ->
     fonts (mergeTokens target source) = fonts target).
Proof.
  intros target source name Hname. split.
  - intros []; simpl.
    + apply property_assign_part. exact Hname.
    + apply property_assign_part. exact Hname.
    + apply property_assign_optional. exact Hname.
    + apply property_assign_optional. exact Hname.
  - intros [H|H]; simpl; rewrite H; reflexivity.
Qed.

Lemma mergeTokens_witness :
  property "color-primary"
    (colors (mergeTokens createEmptyCSSTokens
               (parseCSSFile (Some (renderSheet sampleDeclarations " }")))))
  = Some "#000000".
Proof.
  destruct (mergeTokens_source_wins createEmptyCSSTokens
              (parseCSSFile (Some (renderSheet sampleDeclarations " }")))
              "color-primary") as [Hmaps _].
  - discriminate.
  - exact (eq_trans (Hmaps inColors) eq_refl).
Defined.

(** *** The tokens of a file *)

Lemma hasKey_false_keys {V} (key : string) (object : list (string * V)) :
  hasKey key object = false -> ~ In key (map fst object).
Proof.
  unfold hasKey. induction object as [|[k v] object IH]; simpl; [tauto|].
  intros H. apply orb_false_iff in H. destruct H as [Hk Hrest].
  intros [->|Hin]; [rewrite String.eqb_refl in Hk; discriminate|].
  exact (IH Hrest Hin).
Qed.

Lemma keys_replaceValue {V} (key : string) (value : V) (object : list (string * V)) :
  map fst (replaceValue key value object) = map fst object.
Proof.
  induction object as [|[k v] object IH]; simpl; [reflexivity|].
  destruct (String.eqb k key); simpl; [reflexivity|]. rewrite IH. reflexivity.
Qed.

Lemma keys_insertIndex {V} (index : N) (key : string) (value : V)
    (object : list (string * V)) :
  Permutation (map fst (insertIndex index key value object)) (key :: map fst object).
Proof.
  induction object as [|[k v] object IH]; simpl; [reflexivity|].
  destruct (arrayIndex k) as [other|]; [destruct (other <? index)%N|]; simpl;
    try reflexivity.
  rewrite IH. apply perm_swap.
Qed.

(** The properties of an object have distinct names. *)
Lemma setProperty_NoDup {V} (key : string) (value : V) (object : list (string * V)) :
  NoDup (map fst object) -> NoDup (map fst (setProperty key value object)).
Proof.
  intros Hnodup. unfold setProperty. destruct (hasKey key object) eqn:Hk.
  - rewrite keys_replaceValue. exact Hnodup.
  - destruct (String.eqb key "__proto__"); [exact Hnodup|].
    apply hasKey_false_keys in Hk.
    assert (Hcons : NoDup (key :: map fst object)) by (constructor; assumption).
    destruct (arrayIndex key) as [index|].
    + apply (Permutation_NoDup (l := key :: map fst object)); [|exact Hcons].
      symmetry. apply keys_insertIndex.
    + rewrite map_app. simpl.
      apply (Permutation_NoDup (l := key :: map fst object)); [|exact Hcons].
      apply Permutation_cons_append.
Qed.

Lemma scanVariables_NoDup (css : string) (skip : nat) (variables : TokenMap) :
  NoDup (map fst variables) -> NoDup (map fst (scanVariables css skip variables)).
Proof.
  revert skip variables. induction css as [|c css IH]; intros skip variables H;
    [exact H|].
  cbn [scanVariables]. destruct skip as [|skip]; [|exact (IH _ _ H)].
  destruct (matchVariableAt (String c css)) as [[[name text] rest]|];
    [|exact (IH _ _ H)].
  apply IH, setProperty_NoDup, H.
Qed.

Lemma property_of_entry (key value : string) (object : TokenMap) :
  NoDup (map fst object) -> In (key, value) object ->
  property key object = Some value.
Proof.
  induction object as [|[k v] object IH]; simpl; [tauto|].
  intros Hnodup [[= -> ->]|Hin].
  - rewrite String.eqb_refl. reflexivity.
  - inversion Hnodup as [|? ? Hk Hrest]; subst.
    destruct (String.eqb_spec k key) as [->|_]; [|exact (IH Hrest Hin)].
    exfalso. apply Hk. apply (in_map fst) in Hin. exact Hin.
Qed.

Lemma property_setProperty_cases (name key value : string) (object : TokenMap)
    (found : string) :
  property name (setProperty key value object) = Some found ->
  property name object = Some found \/ (name = key /\ found = value).
Proof.
  destruct (String.eqb_spec key name) as [->|Hne].
  - unfold setProperty. destruct (hasKey name object) eqn:Hk.
    + rewrite (property_replaceValue _ _ _ _ Hk), String.eqb_refl.
      intros [= <-]. right. split; reflexivity.
    + destruct (String.eqb name "__proto__"); [left; assumption|].
      destruct (arrayIndex name) as [index|].
      * rewrite (property_insertIndex _ _ _ _ _ Hk), String.eqb_refl.
        intros [= <-]. right. split; reflexivity.
      * rewrite property_app. simpl. rewrite String.eqb_refl.
        destruct (property name object); intros [= <-]; [left|right; split];
          reflexivity.
  - rewrite (property_setProperty_other _ _ _ _ Hne). left. assumption.
Qed.

Lemma categorizeToken_property (c : Category) (key name text found : string)
    (tokens : PartialCSSTokens) :
  property key (orElse (part c (categorizeToken name text tokens)) []) = Some found ->
  property key (orElse (part c tokens) []) = Some found \/
  (key = name /\ found = filed c text).
Proof.
  categorizeToken_cases name text; destruct c; simpl; intros H;
    try (left; exact H);
    apply property_setProperty_cases in H; exact H.
Qed.

Lemma categorized_property (c : Category) (key found : string)
    (variables : TokenMap) (tokens : PartialCSSTokens) :
  property key
    (orElse (part c (fold_left
                       (fun tokens entry => categorizeToken (fst entry) (snd entry) tokens)
                       variables tokens)) []) = Some found ->
  property key (orElse (part c tokens) []) = Some found \/
  exists text, In (key, text) variables /\ found = filed c text.
Proof.
  revert tokens. induction variables as [|[name text] variables IH];
    intros tokens H; simpl in H; [left; exact H|].
  destruct (IH _ H) as [Hfirst|(text' & Hin & Hfound)].
  - destruct (categorizeToken_property _ _ _ _ _ _ Hfirst) as [Hinit|[-> ->]].
    + left. exact Hinit.
    + right. exists text. split; [left; reflexivity|reflexivity].
  - right. exists text'. split; [right; exact Hin|exact Hfound].
Qed.

Lemma categorized_fonts (variables : TokenMap) (tokens : PartialCSSTokens) :
  partFonts (fold_left
               (fun tokens entry => categorizeToken (fst entry) (snd entry) tokens)
               variables tokens) = partFonts tokens.
Proof.
  revert tokens. induction variables as [|[name text] variables IH];
    intros tokens; simpl; [reflexivity|].
  rewrite IH. categorizeToken_cases name text; reflexivity.
Qed.

(** X22. Every token [parseCSSFile] reports was declared in the file: a
    name that has a value in the colours, the spacing, the border radius or
    the shadows it returns is a variable [extractCSSVariables] finds in the
    content of the file, and the value is the text extracted for it,
    normalised as a colour when it is filed under colours.  No font is ever
    reported, and a file that cannot be read gives no token at all. *)
Theorem parseCSSFile_reports_declared_variables :
  forall content : option string,
    partFonts (parseCSSFile content) = Some [] /\
    (content = None -> parseCSSFile content = noTokens) /\
    forall c key found,
      property key (orElse (part c (parseCSSFile content)) []) = Some found ->
      exists css text,
        content = Some css /\
        property key (extractCSSVariables css) = Some text /\
        found = filed c text.
Proof.
  intros [css|]; simpl.
  - split; [apply categorized_fonts|]. split; [discriminate|].
    intros c key found H.
    destruct (categorized_property _ _ _ _ _ H) as [Hinit|(text & Hin & Hfound)].
    + destruct c; discriminate Hinit.
    + exists css, text. split; [reflexivity|]. split; [|exact Hfound].
      apply property_of_entry; [|exact Hin].
      apply scanVariables_NoDup. constructor.
  - split; [reflexivity|]. split; [reflexivity|].
    intros c key found H. destruct c; discriminate H.
Qed.

(* ====================================================================== *)
(** * The order in which the agents are invoked *)
(* ====================================================================== *)

Lemma sameCalls_refl (w : World) : sameCalls w w.
Proof. reflexivity. Qed.

Lemma sameCalls_trans (a b c : World) : sameCalls a b -> sameCalls b c -> sameCalls a c.
Proof. unfold sameCalls. intros H1 H2. rewrite H2. exact H1. Qed.

Ltac silent_step :=
  first [ steps_rules sameCalls sameCalls_refl sameCalls_trans
        | apply steps_writeJSON; intros; reflexivity
        | match goal with
          | |- Steps _ (recordQueueWrite _) => intros ? ? ? [= _ <-]; reflexivity
          | |- Steps _ (logTaskCompletion _) => intros ? ? ? [= _ <-]; reflexivity
          end ].

Ltac silent := repeat silent_step.

Lemma updateAgentStatus_silent agent newStatus task :
  Steps sameCalls (updateAgentStatus agent newStatus task).
Proof. unfold updateAgentStatus, loadStatus, saveStatus. silent. Qed.

Lemma clearMessages_silent target : Steps sameCalls (clearMessages target).
Proof. unfold clearMessages. silent. Qed.

Lemma readMessages_silent target : Steps sameCalls (readMessages target).
Proof. unfold readMessages. silent. Qed.

Lemma updateTask_silent taskId updates : Steps sameCalls (updateTask taskId updates).
Proof. unfold updateTask, loadQueue, saveQueue. silent. Qed.

Lemma setCurrentTask_silent taskId : Steps sameCalls (setCurrentTask taskId).
Proof. unfold setCurrentTask, loadQueue, saveQueue. silent. Qed.

Lemma rejectTask_silent taskId reason : Steps sameCalls (rejectTask taskId reason).
Proof. unfold rejectTask. silent. Qed.

Lemma completeTask_silent taskId : Steps sameCalls (completeTask taskId).
Proof. unfold completeTask, loadQueue, saveQueue. silent. Qed.

Lemma runDesignVerification_silent env task designSpec config :
  Steps sameCalls (runDesignVerification env task designSpec config).
Proof.
  unfold runDesignVerification, createVerificationMessage.
  repeat first [ apply updateAgentStatus_silent | silent_step ].
Qed.

Lemma cleanupV2_silent : Steps sameCalls cleanupV2.
Proof.
  unfold cleanupV2.
  repeat first [ apply setCurrentTask_silent | apply clearMessages_silent | silent_step ].
Qed.

Lemma nextAgents_none (i : nat) : nextAgents i 0 = [].
Proof. reflexivity. Qed.

Lemma nextAgents_more (i n m : nat) :
  nextAgents i n ++ nextAgents (i + n) m = nextAgents i (n + m).
Proof.
  unfold nextAgents. rewrite Nat.add_comm, <- skipn_skipn.
  generalize (skipn i pipelineOrder) as l. clear i.
  induction n as [|n IH]; intros l; [reflexivity|].
  destruct l as [|x l]; simpl.
  - rewrite firstn_nil. reflexivity.
  - rewrite IH. reflexivity.
Qed.

Section AdvancesRules.

Context {A B : Type}.
Variable i : nat.
Variable Q : Outcome B -> nat -> Prop.

Lemma advances_ret (b : B) : Q (Return b) 0 -> Advances i Q (ret b).
Proof.
  intros H w. exists 0. simpl. rewrite app_nil_r. split; [reflexivity|exact H].
Qed.

Lemma advances_throw (e : JSError) : Q (Throw e) 0 -> Advances i Q (throw e).
Proof.
  intros H w. exists 0. simpl. rewrite app_nil_r. split; [reflexivity|exact H].
Qed.

Lemma advances_bind (P : Outcome A -> nat -> Prop) (c : M A) (k : A -> M B) :
  Advances i P c ->
  (forall e n, P (Throw e) n -> Q (Throw e) n) ->
  (forall a n, P (Return a) n -> Advances (i + n) (fun o m => Q o (n + m)) (k a)) ->
  Advances i Q (bind c k).
Proof.
  intros Hc Hthrow Hk w. destruct (Hc w) as (n & En & Hn). unfold bind.
  destruct (c w) as [[a|e] w1]; simpl in *.
  - destruct (Hk a n Hn w1) as (m & Em & Hm). exists (n + m). split; [|exact Hm].
    rewrite Em, En, <- app_assoc, nextAgents_more. reflexivity.
  - exists n. split; [exact En|exact (Hthrow e n Hn)].
Qed.

Lemma advances_bind_silent (c : M A) (k : A -> M B) :
  Steps sameCalls c ->
  (forall e, Q (Throw e) 0) ->
  (forall a, Advances i Q (k a)) ->
  Advances i Q (bind c k).
Proof.
  intros Hc Hthrow Hk w. unfold bind.
  destruct (c w) as [[a|e] w1] eqn:E; pose proof (Hc _ _ _ E) as Hsame;
    unfold sameCalls in Hsame.
  - destruct (Hk a w1) as (m & Em & Hm). exists m. rewrite <- Hsame. tauto.
  - exists 0. simpl. rewrite app_nil_r. split; [exact Hsame|apply Hthrow].
Qed.

Lemma advances_bind_ret (a : A) (k : A -> M B) :
  Advances i Q (k a) -> Advances i Q (bind (ret a) k).
Proof. intros H w. exact (H w). Qed.

Lemma advances_bind_throw (e : JSError) (k : A -> M B) :
  Q (Throw e) 0 -> Advances i Q (bind (throw e) k).
Proof.
  intros H w. exists 0. simpl. rewrite app_nil_r. split; [reflexivity|exact H].
Qed.

End AdvancesRules.

Lemma advances_bind_assoc {A B C} (i : nat) (Q : Outcome C -> nat -> Prop)
    (c : M A) (k1 : A -> M B) (k2 : B -> M C) :
  Advances i Q (bind c (fun a => bind (k1 a) k2)) ->
  Advances i Q (bind (bind c k1) k2).
Proof.
  intros H w. specialize (H w). unfold bind in *.
  destruct (c w) as [[a|e] w1]; exact H.
Qed.

(** The agent that follows the first [i] is invoked. *)
Lemma advances_bind_agent {B} (i : nat) (Q : Outcome B -> nat -> Prop) env
    (name : string) prompt options (k : AgentResult -> M B) :
  nextAgents i 1 = [name] ->
  (forall result, Advances (S i) (fun o m => Q o (S m)) (k result)) ->
  Advances i Q (bind (runClaudeAgent env name prompt options) k).
Proof.
  intros Hname Hk w. unfold bind, runClaudeAgent.
  destruct (claudeAgent env name prompt options w) as [result w1].
  destruct (Hk result (set_trace (invocations w ++ [name]) (queueWrites w) w1))
    as (m & Em & Hm).
  exists (S m). split; [|exact Hm].
  rewrite Em. simpl invocations. rewrite <- Hname, <- app_assoc.
  replace (S i) with (i + 1) by apply Nat.add_1_r.
  rewrite nextAgents_more. reflexivity.
Qed.

Lemma advances_silent {A} (i : nat) (Q : Outcome A -> nat -> Prop) (c : M A) :
  Steps sameCalls c -> (forall o, Q o 0) -> Advances i Q c.
Proof.
  intros Hc HQ w. exists 0. simpl. rewrite app_nil_r.
  destruct (c w) as [o w1] eqn:E. split; [exact (Hc _ _ _ E)|apply HQ].
Qed.

Ltac order_side :=
  cbv beta; unfold inOrder;
  split;
  [ lia
  | let r := fresh "r" in
    let Hr := fresh "Hr" in
    let Hs := fresh "Hs" in
    intros r Hr;
    first [ discriminate Hr
          | injection Hr as <-; unfold accountsFor; simpl;
            first [ reflexivity | left; reflexivity | right; reflexivity
                  | intros Hs; first [ discriminate Hs | reflexivity ] ] ] ].

Ltac silent_call :=
  first [ apply updateAgentStatus_silent
        | apply clearMessages_silent
        | apply readMessages_silent
        | apply updateTask_silent
        | apply setCurrentTask_silent
        | apply rejectTask_silent
        | apply completeTask_silent
        | apply runDesignVerification_silent
        | apply steps_writeJSON; intros; reflexivity
        | intros ? ? ? [= _ <-]; reflexivity ].

Ltac advance_step :=
  first
    [ match goal with |- forall _, _ => intro end
    | progress cbv beta iota zeta
    | progress cbn [success approved negb]
    | match goal with
      | |- Advances _ _ (bind (bind _ _) _) => apply advances_bind_assoc
      | |- Advances _ _ (bind (ret _) _) => apply advances_bind_ret
      | |- Advances _ _ (bind (throw _) _) => apply advances_bind_throw; order_side
      | |- Advances _ _ (bind (runClaudeAgent _ _ _ _) _) =>
          apply advances_bind_agent; [reflexivity|]
      | |- Advances _ _ (bind (if ?b then _ else _) _) => destruct b
      | |- Advances _ _ (bind (match ?x with _ => _ end) _) => destruct x
      | |- Advances _ _ (bind _ _) =>
          apply advances_bind_silent; [silent_call|intro; order_side|]
      | |- Advances _ _ (ret _) => apply advances_ret; order_side
      | |- Advances _ _ (throw _) => apply advances_throw; order_side
      | |- Advances _ _ (if ?b then _ else _) => destruct b
      | |- Advances _ _ (match ?x with _ => _ end) => destruct x
      end ].

Lemma pipelineV2_advances env task config skip :
  Advances 0 inOrder (pipelineV2 env task config skip).
Proof.
  unfold pipelineV2, phasesBeforeReview, reviewAndVerify, verifyAndComplete,
    runPlanner, runDesigner, runTechLead, runDeveloper, runReview, updateTaskStatus.
  repeat advance_step.
Qed.

(** X23. Whatever the agents do, a run of [processTaskV2] invokes the
    agents in the order planner, designer, tech lead, developer, reviewer,
    each at most once, and a later one only after all the earlier ones: the
    invocations of the run are the first [k] agents of that order.  A
    failure reported at a phase comes after the agents of the earlier phases
    and before any agent of a later phase (a failure at the developer or at
    the review may come before the developer or the reviewer themselves were
    invoked); a success comes after all five; no failure is ever reported at
    the verification phase. *)
Theorem agents_invoked_in_pipeline_order :
  forall (env : Env) (task : Task) (config : OrchestratorConfig) (skip : bool)
         (w : World),
    exists k,
      invocations (snd (processTaskV2 env task config skip w))
      = invocations w ++ firstn k pipelineOrder /\
      k <= 5 /\
      forall r,
        fst (processTaskV2 env task config skip w) = Return r -> accountsFor r k.
Proof.
  intros env task config skip w.
  destruct (pipelineV2_advances env task config skip w) as (k & Ek & Hle & Hk).
  exists k. unfold processTaskV2, tryFinally, tryCatch, ret.
  destruct (pipelineV2 env task config skip w) as [tried w1]. simpl in Ek, Hk.
  assert (Hbody : exists o,
             (match tried with
              | Return a => (Return a, w1)
              | Throw e =>
                  (Return {| taskSuccess := false; taskError := Some (errorToString e);
                             phase := None; designVerification := None |}, w1)
              end) = (o, w1) /\
             forall r, o = Return r -> accountsFor r k).
  { destruct tried as [r|e]; eexists; (split; [reflexivity|]).
    - exact Hk.
    - intros r [= <-]. unfold accountsFor. simpl. discriminate. }
  destruct Hbody as (o & -> & Ho).
  destruct (cleanupV2 w1) as [[u|e] w2] eqn:Ec;
    pose proof (cleanupV2_silent _ _ _ Ec) as Hsame; unfold sameCalls in Hsame;
    simpl; rewrite Hsame; (split; [exact Ek|]); (split; [exact Hle|]).
  - exact Ho.
  - discriminate.
Qed.

(* ====================================================================== *)
(** * The task after a run of the pipeline *)
(* ====================================================================== *)

Lemma sameQueue_refl (w : World) : sameQueue w w.
Proof. reflexivity. Qed.

Lemma sameQueue_trans (a b c : World) : sameQueue a b -> sameQueue b c -> sameQueue a c.
Proof. unfold sameQueue. intros H1 H2. rewrite H2. exact H1. Qed.

Ltac same_queue_step :=
  first [ steps_rules sameQueue sameQueue_refl sameQueue_trans
        | apply steps_writeJSON; intros; reflexivity
        | match goal with
          | |- Steps _ (logTaskCompletion _) => intros ? ? ? [= _ <-]; reflexivity
          end ].

Lemma updateAgentStatus_sameQueue agent newStatus task :
  Steps sameQueue (updateAgentStatus agent newStatus task).
Proof. unfold updateAgentStatus, loadStatus, saveStatus. repeat same_queue_step. Qed.

Lemma clearMessages_sameQueue target : Steps sameQueue (clearMessages target).
Proof.
  unfold clearMessages. destruct target; repeat same_queue_step.
Qed.

Lemma readMessages_sameQueue target : Steps sameQueue (readMessages target).
Proof. unfold readMessages. repeat same_queue_step. Qed.

Lemma runDesignVerification_sameQueue env task designSpec config :
  Steps sameQueue (runDesignVerification env task designSpec config).
Proof.
  unfold runDesignVerification, createVerificationMessage.
  repeat first [ apply updateAgentStatus_sameQueue | same_queue_step ].
Qed.

Lemma runClaudeAgent_sameQueue env name prompt options :
  agentsKeepQueue env -> Steps sameQueue (runClaudeAgent env name prompt options).
Proof.
  intros agents w o w' H. unfold runClaudeAgent in H.
  pose proof (agents name prompt options w) as Hkeep.
  destruct (claudeAgent env name prompt options w) as [result w1].
  injection H as _ <-. exact Hkeep.
Qed.

Section LeadsRules.

Context {A B : Type}.
Variable inv : TaskQueue -> Prop.
Variable post : Outcome B -> TaskQueue -> Prop.

Lemma leads_ret (b : B) :
  (forall queue, inv queue -> post (Return b) queue) -> Leads inv (ret b) post.
Proof. intros H w queue Hq HI. exists queue. split; [exact Hq|exact (H _ HI)]. Qed.

Lemma leads_throw (e : JSError) :
  (forall queue, inv queue -> post (Throw e) queue) -> Leads inv (throw e) post.
Proof. intros H w queue Hq HI. exists queue. split; [exact Hq|exact (H _ HI)]. Qed.

Lemma leads_bind_ret (a : A) (k : A -> M B) :
  Leads inv (k a) post -> Leads inv (bind (ret a) k) post.
Proof. intros H w. exact (H w). Qed.

Lemma leads_bind_throw (e : JSError) (k : A -> M B) :
  (forall queue, inv queue -> post (Throw e) queue) -> Leads inv (bind (throw e) k) post.
Proof. intros H w queue Hq HI. exists queue. split; [exact Hq|exact (H _ HI)]. Qed.

(** A step that leaves the queue file alone. *)
Lemma leads_bind_sameQueue (c : M A) (k : A -> M B) :
  Steps sameQueue c ->
  (forall e queue, inv queue -> post (Throw e) queue) ->
  (forall a, Leads inv (k a) post) ->
  Leads inv (bind c k) post.
Proof.
  intros Hc Hthrow Hk w queue Hq HI. unfold bind.
  destruct (c w) as [[a|e] w1] eqn:E; pose proof (Hc _ _ _ E) as Hsame;
    unfold sameQueue in Hsame; rewrite Hq in Hsame.
  - exact (Hk a w1 queue Hsame HI).
  - exists queue. split; [exact Hsame|exact (Hthrow e _ HI)].
Qed.

End LeadsRules.

Lemma leads_bind_assoc {A B C} (inv : TaskQueue -> Prop)
    (post : Outcome C -> TaskQueue -> Prop)
    (c : M A) (k1 : A -> M B) (k2 : B -> M C) :
  Leads inv (bind c (fun a => bind (k1 a) k2)) post ->
  Leads inv (bind (bind c k1) k2) post.
Proof.
  intros H w queue Hq HI. specialize (H w queue Hq HI). unfold bind in *.
  destruct (c w) as [[a|e] w1]; exact H.
Qed.

Section LeadsStore.

Context {B : Type}.
Variable taskId : string.
Variable P : Task -> Prop.
Variable post : Outcome B -> TaskQueue -> Prop.

Lemma active_saved (Q : Task -> Prop) (queue : TaskQueue) (t : Z) :
  active taskId Q queue -> active taskId Q (withLastUpdated t queue).
Proof. intros H. exact H. Qed.

(** [setCurrentTask] leaves the tasks as they are. *)
Lemma leads_bind_setCurrentTask (c : option string) (k : unit -> M B) :
  (forall a, Leads (active taskId P) (k a) post) ->
  Leads (active taskId P) (bind (setCurrentTask c) k) post.
Proof.
  intros Hk w queue Hq HI. unfold bind.
  rewrite (setCurrentTask_run c w queue Hq).
  apply (Hk tt _ (withLastUpdated (now w) (withCurrent c queue))); [reflexivity|].
  exact HI.
Qed.

(** [updateTask] of an active task returns and leaves it active, updated. *)
Lemma leads_bind_updateTask (updates : TaskUpdates) (k : Task -> M B) :
  (forall a,
      Leads (active taskId (fun t => exists old now, t = applyUpdates old updates now))
        (k a) post) ->
  Leads (active taskId P) (bind (updateTask taskId updates) k) post.
Proof.
  intros Hk w queue Hq (old & Hold & _). unfold bind.
  destruct (updateTask_active taskId updates w queue old Hq Hold)
    as (queue' & -> & Hactive & _).
  apply (Hk _ _ (withLastUpdated (now w) queue')); [reflexivity|].
  exists (applyUpdates old updates (now w)). split; [exact Hactive|].
  exists old, (now w). reflexivity.
Qed.

(** [completeTask] of an active task returns and files it as completed. *)
Lemma leads_bind_completeTask (k : unit -> M B) :
  (forall a, Leads (completedIn taskId) (k a) post) ->
  Leads (active taskId P) (bind (completeTask taskId) k) post.
Proof.
  intros Hk w queue Hq (old & Hold & _). unfold bind.
  destruct (completeTask_active taskId w queue old Hq Hold)
    as (queue' & -> & Hcompleted & _).
  apply (Hk _ _ (withLastUpdated (now w) queue')); [reflexivity|].
  exists (asCompleted old (now w)). simpl. rewrite Hcompleted.
  split; [apply in_or_app; right; left; reflexivity|].
  split; [|reflexivity].
  apply find_some in Hold. apply String.eqb_eq. exact (proj2 Hold).
Qed.

End LeadsStore.

Ltac after_side :=
  cbv beta; intros; unfold taskAfterRun, taskAfter; simpl;
  first [ exact Logic.I
        | assumption
        | match goal with
          | H : active _ _ _ |- _ =>
              let t := fresh "t" in
              let Ht := fresh "Ht" in
              let old := fresh "old" in
              let time := fresh "time" in
              destruct H as (t & Ht & old & time & ->);
              eexists; split; [exact Ht|];
              first [ reflexivity | split; reflexivity ]
          end
        | intros; assumption
        | intros; discriminate ].

Ltac same_queue_call agents :=
  first [ apply updateAgentStatus_sameQueue
        | apply clearMessages_sameQueue
        | apply readMessages_sameQueue
        | apply runDesignVerification_sameQueue
        | apply runClaudeAgent_sameQueue; exact agents
        | apply steps_writeJSON; intros; reflexivity
        | intros ? ? ? [= _ <-]; reflexivity ].

Ltac leads_step agents :=
  first
    [ match goal with |- forall _, _ => intro end
    | progress cbv beta iota zeta
    | progress cbn [success approved negb]
    | match goal with
      | |- Leads _ (bind (bind _ _) _) _ => apply leads_bind_assoc
      | |- Leads _ (bind (ret _) _) _ => apply leads_bind_ret
      | |- Leads _ (bind (throw _) _) _ => apply leads_bind_throw; after_side
      | |- Leads _ (bind (setCurrentTask _) _) _ => apply leads_bind_setCurrentTask
      | |- Leads _ (bind (updateTask _ _) _) _ => apply leads_bind_updateTask
      | |- Leads _ (bind (completeTask _) _) _ => apply leads_bind_completeTask
      | |- Leads _ (bind (if ?b then _ else _) _) _ => destruct b
      | |- Leads _ (bind (match ?x with _ => _ end) _) _ => destruct x
      | |- Leads _ (bind _ _) _ =>
          apply leads_bind_sameQueue; [same_queue_call agents|after_side|]
      | |- Leads _ (ret _) _ => apply leads_ret; after_side
      | |- Leads _ (throw _) _ => apply leads_throw; after_side
      | |- Leads _ (if ?b then _ else _) _ => destruct b
      | |- Leads _ (match ?x with _ => _ end) _ => destruct x
      end ].

Lemma pipelineV2_leads env task config skip :
  agentsKeepQueue env ->
  Leads (active (id task) (fun _ => True)) (pipelineV2 env task config skip)
    (taskAfterRun (id task)).
Proof.
  intros agents.
  unfold pipelineV2, phasesBeforeReview, reviewAndVerify, verifyAndComplete,
    runPlanner, runDesigner, runTechLead, runDeveloper, runReview, updateTaskStatus,
    rejectTask.
  repeat leads_step agents.
Qed.

(** X24. Take a run of [processTaskV2] for a task that is in the active
    set of a readable queue, with agents that leave the queue file to the
    task store.  The run returns a result, and leaves the queue readable
    with a null current-task pointer and the task where the result says: a
    failure at the planner, the designer, the tech lead or the developer
    leaves the task active with status [in_progress] (it is not put back to
    [pending]); a failure at the review leaves it active with status
    [rejected] and the reported error as rejection reason; a success leaves
    it among the completed tasks with status [completed]. *)
Theorem task_after_run :
  forall (env : Env) (task : Task) (config : OrchestratorConfig) (skip : bool)
         (w : World) (queue : TaskQueue) (old : Task),
    agentsKeepQueue env ->
    queueFile w = Content queue ->
    activeTask (id task) queue = Some old ->
    exists r queue',
      fst (processTaskV2 env task config skip w) = Return r /\
      queueFile (snd (processTaskV2 env task config skip w)) = Content queue' /\
      current queue' = None /\
      taskAfter (id task) r queue'.
Proof.
  intros env task config skip w queue old agents Hq Hold.
  destruct (pipelineV2_leads env task config skip agents w queue Hq)
    as (queue1 & Hq1 & Hafter).
  { exists old. split; [exact Hold|exact Logic.I]. }
  destruct (pipelineV2 env task config skip w) as [tried w1] eqn:Hbody.
  simpl in Hq1, Hafter.
  rewrite (processTaskV2_run env task config skip w w1 tried queue1 Hbody Hq1).
  exists (reported tried), (withLastUpdated (now w1) (withCurrent None queue1)).
  split; [reflexivity|]. split; [reflexivity|]. split; [reflexivity|].
  destruct tried as [r|e]; simpl.
  - unfold taskAfterRun, taskAfter in *. destruct (phase r) as [[]|]; exact Hafter.
  - unfold taskAfter. simpl. discriminate.
Qed.

Lemma task_after_run_witness :
  exists r queue',
    fst (processTaskV2 idleEnv firstTask sampleConfig false sampleWorld) = Return r /\
    queueFile (snd (processTaskV2 idleEnv firstTask sampleConfig false sampleWorld))
    = Content queue' /\
    current queue' = None /\
    taskAfter "task-001" r queue'.
Proof.
  exact (task_after_run idleEnv firstTask sampleConfig false sampleWorld sampleQueue
           firstTask (fun _ _ _ _ => eq_refl) eq_refl eq_refl).
Defined.
